(* ===== verification/_CoqProject ===== *)
-Q . S2P
Prelude.v
Lists.v
Text.v
Tree.v
StringBuf.v
DiTypes.v
Strings.v
Os.v
Cmdline.v
File.v
Key.v
Grabs.v
DbusNames.v
Spawn.v
SpawnRun.v
SpawnChild.v
Conv.v
Xorg.v
Keymap.v
XInput.v
Randr.v
LuaApi.v
Lua.v
LuaConv.v
LuaProxy.v
LuaCall.v
LuaLoad.v
LuaListen.v
XorgConn.v
Heap.v
Account.v
Object.v
ObjectSpec.v
Signals.v
Callable.v
Roots.v
Helper.v
Knot.v
Tables.v
Mono.v
Deai.v
Event.v
Log.v
Modules.v
Sedes.v
Deser.v
Client.v
Members.v
Sweep.v
Typing.v
DbusSafe.v
DbusConn.v
Term.v
Main.v
DbusProgram.v
