(* ===== verification/Prelude.v ===== *)
(** * deai: a verification library for the object system and its modules

    deai (the repository's C program) is a runtime: modules expose objects with
    members, methods and signals, scripts and other modules use them, and a
    libev main loop runs until the core object is destroyed.

    ** The parts and how they interact

    object.c keeps objects: hash tables of members and signals, a strong and a
    weak reference count, a destructor and a call pointer.  callable.c makes C
    functions callable objects through libffi; helper.c builds error objects and
    proxies signals; main.c owns the roots that keep objects alive, the command
    line and the exit.  event.c, spawn.c, log.c and os.c are the built-in
    modules; file.c, key.c, dbus.c and sedes.c belong to plugins.  Every object
    keeps the core object alive through its member ["__deai"] while it can still
    cause events, which is how the program knows when to stop.

    ** Files

    The object system; a function [f] of the code is the definition [f], in the
    monad [M] over [state], the heap of objects and signals.
    - Prelude: outcomes ([Done], [Crash], [NoFuel]), the state monad [ST], loops,
      triples ([triple], [completes]), counting, byte strings, tactics.
    - DiTypes (the type tags and values of object.h), Strings (its strings), Text
      (the functions of the C library on strings), Conv (integer_conversion of
      utils.h), Lists (list.h), StringBuf (string_buf.c).
    - Heap, Object, Signals (object.c), Callable (callable.c), Helper (helper.c),
      Roots (main.c), Deai (the ["__deai"] member, helper.h); Account is the
      accounting of references, the invariant [Inv], and ObjectSpec the
      specifications of object.c in terms of it.  Functions that reach each other
      through objects use the class [Kernel]; Knot ties the knot to depth [n] and
      discharges the contract [KernelOk].  Foreign code is the class [World] with
      the contract [WorldOk].
    - Tables, Mono, Client, Members, Typing, Term, Sweep: what follows for the whole
      object system.  A client performs any sequence of operations; its reachable
      states satisfy the invariants.

    The program around it.
    - Event (event.c) is an instance of [World] that keeps the contract; Modules
      has the set-up of the modules of log.c, os.c and spawn.c; Cmdline the
      command line, the plugin directory and the process title of main.c; Main is
      [main], with the functions of the core object as another instance.
    - Models of their own state, each with the part of the outside world that it
      sees: Log (log.c), Os (os.c), Spawn, SpawnRun and SpawnChild (spawn.c), Tree
      (kill_all_descendants of main.c), File (plugins/file/file.c), Key and
      Grabs (plugins/xorg/key.c), Xorg and Keymap (the atoms and the keymap of
      plugins/xorg/xorg.c), XorgConn (its connections, with their extensions and
      events), XInput (xinput.c), Randr (randr.c),
      Sedes and Deser (plugins/dbus/sedes.c), DbusNames (the names, rules and
      signals of plugins/dbus/dbus.c).
    - plugins/lua/lua.c: LuaApi is the C interface of Lua, a class of calls with
      the laws of the manual; Lua has the conversions in both directions and the
      proxies of objects; LuaConv is a logic for them ([runs]) and what the
      conversions do; LuaProxy what holds of proxies; LuaCall has the calls in
      both directions, members, signals and weak references; LuaLoad the loading
      of scripts, with the state object; LuaListen the listeners of scripts as a
      state machine.
    - DbusConn is the rest of dbus.c on the heap of objects: a connection is an
      object whose private fields are the pointer of libdbus and the names of
      DbusNames, its messages are read with Deser and written with Sedes.
      DbusSafe shows that these models mix with the accounting of references,
      DbusConn makes the plugin an instance of [World], and DbusProgram puts it
      in the program and runs a session.

    ** What the theorems show

    - Safety and invariants.  [Main.main_safe]: no run of the program touches a
      freed object or drops a reference it lacks.  The same for any client
      ([Client.client_safe]) with exact counts ([reachable_counts]), exact
      allocation ([reachable_allocated]), well-formed tables
      ([reachable_tables]), no leak without a cycle, and for the functions of
      event.c ([Event.event_world_ok]) and of dbus.c
      ([DbusProgram.dbus_world_ok]).  [Grabs.grabs_invariant]: bindings own
      the grabs of the X server.  [XorgConn.connection_safe]: an X connection and
      its extensions are used, left and freed safely in any order, but for what
      clients may not do while they hear of an event.
    - Types.  [Typing.reachable_typed]: what is stored is well typed, and what is
      read or passed with a type has that type.
    - Refinement.  Members are a finite map ([Members]), the environment too
      ([Os]), a file watch is a list of paths ([File]), the names of a D-Bus
      connection are the owners of the bus ([DbusNames.owners_tracked]), the
      tables of atoms are a cache of those of the X server
      ([Xorg.atoms_cached]).
    - Round trips through a library: device properties ([XInput]), views
      ([Randr]), values and objects through Lua
      ([LuaConv.push_convert_roundtrip], [LuaProxy.object_roundtrip]); what Lua
      tables count as arrays ([LuaConv.checkarray_correct]); proxies of objects
      and their references ([LuaProxy.proxies_tracked]), which calls keep
      ([LuaCall.call_lua_function_balanced]), as loading a script does
      ([LuaLoad.load_script_correct]); what scripts see of the library os
      ([LuaLoad.os_restricted]).
    - Termination: dropping a reference ([Term]) and mark and sweep ([Sweep]).
    - Function of an operation: lists, output lines and exit of children,
      descriptors of a spawn in the parent and in the child
      ([SpawnChild.child_descriptors]), signatures and messages of D-Bus with the way back
      ([Deser.struct_roundtrip]), routing of signals, log levels, key events.
    - Errors: what the code does where it does not do what it means to; each
      such theorem is about the code as it is written.

    ** Fuel

    [kern n] resolves calls through objects to depth [n] and answers [NoFuel]
    below; a safety theorem holds at every [n], so that it covers every finite
    run, and [Term.unref_terminates] gives a depth that is enough for dropping a
    reference, one more than the undestroyed objects and members; [Mono] shows
    that a result does not change with more.  Loops over tables and buffers have
    their length as fuel; [Sweep] proves the number of objects enough for the
    depth-first search; the loop of a file watch that does not end is
    [File.removed_watch_hangs].

    ** Not modelled

    - libev, libffi, libdbus, xcb, xkbcommon, Lua and the C library are
      parameters with the laws that are used, or the calls made to them are
      recorded.
    - Weak references that libdbus keeps for its callbacks are counted as held
      outside.  A message is what libdbus says its pointer refers to.
    - A table of uthash is the list of its elements in insertion order.  Memory
      addresses are object numbers; a struct that was freed is never reused.
    - di_try and di_throw (exception.cc): a callee that throws is an outcome of
      the foreign code.  Tracking of objects in a debug build is off in [Main].
    - The listeners of the signals of Key, File and Log: their signals are
      recorded.
    - What a Lua script does is a parameter with laws; the collector of Lua runs
      between calls, not during one.
    - In XorgConn and LuaListen the objects are their reference counts and
      destructors; that the object system treats them so is shown in Object and
      Client.
    - The C++ bindings, which are templates over the C interface, and uthash. *)

From Stdlib Require Export ZArith Lia.
From stdpp Require Export base option list gmap strings fin_maps numbers.
Export stdpp.list_relations.list.

#[export] Set Default Goal Selector "!".

(** ** Outcomes

    Every operation of the C code either finishes, stops the process or does
    something the C language gives no meaning to.  [NoFuel] is the outcome of
    a model that was given too little fuel. *)

Inductive crash : Type :=
  | CheckFailed      (** [assert], [DI_CHECK], [DI_PANIC], [abort ()] *)
  | RefUnderflow     (** the [assert(obj->ref_count > 0)] of [di_unref_object] *)
  | UseAfterFree     (** an object struct is accessed after [free] *)
  | SignalGone       (** a [struct di_signal] is accessed after [free] *)
  | HashCorrupt      (** [HASH_DEL] of an element which is not in the table *)
  | StaleIter        (** an iteration continues from a freed element *)
  | NullCall         (** a call through a null function pointer *)
  | NullDeref        (** a null data pointer is dereferenced *)
  | TypeConfusion    (** a [union di_value] is read through the wrong field *)
  | ConstWrite       (** a write to a [static const] object *)
  | OutOfBounds      (** an array is accessed out of its bounds *)
  | BadFree          (** [free] of a pointer that [malloc] did not return *)
  | OutOfRange       (** [atoi] of a number its type cannot represent *)
  | Uninit           (** an indeterminate value is used *).

#[export] Instance crash_eq_dec : EqDecision crash.
Proof. solve_decision. Defined.

Inductive outcome (S A : Type) : Type :=
  | Done (a : A) (s : S)
  | Crash (c : crash)
  | NoFuel.
Arguments Done {S A} a s.
Arguments Crash {S A} c.
Arguments NoFuel {S A}.

(** A state transformer over [S]. *)
Definition ST (S A : Type) : Type := S → outcome S A.

#[export] Instance ST_ret S : MRet (ST S) := λ A a s, Done a s.
#[export] Instance ST_bind S : MBind (ST S) := λ A B f m s,
  match m s with
  | Done a s' => f a s'
  | Crash c => Crash c
  | NoFuel => NoFuel
  end.
#[export] Instance ST_fmap S : FMap (ST S) := λ A B f m s,
  match m s with
  | Done a s' => Done (f a) s'
  | Crash c => Crash c
  | NoFuel => NoFuel
  end.

Definition get {S} : ST S S := λ s, Done s s.
Definition put {S} (s : S) : ST S unit := λ _, Done tt s.
Definition modify {S} (f : S → S) : ST S unit := λ s, Done tt (f s).
Definition fail {S A} (c : crash) : ST S A := λ _, Crash c.
Definition out_of_fuel {S A} : ST S A := λ _, NoFuel.
Definition check {S} (b : bool) : ST S unit :=
  if b then mret tt else fail CheckFailed.
Definition from_opt {S A} (c : crash) (o : option A) : ST S A :=
  match o with Some a => mret a | None => fail c end.

(** [for_each f l]: the loop [for (x in l) f (x)]; [collect f l] also keeps the
    results. *)
Section loops.
Context {S A B : Type}.

Section for_each.
Variable f : A → ST S unit.
Fixpoint for_each (l : list A) : ST S unit :=
  match l with
  | [] => mret tt
  | x :: l' => f x ;; for_each l'
  end.
End for_each.

Section collect.
Variable f : A → ST S B.
Fixpoint collect (l : list A) : ST S (list B) :=
  match l with
  | [] => mret []
  | x :: l' => y ← f x; ys ← collect l'; mret (y :: ys)
  end.
End collect.
End loops.

(** [while_some k step a]: run [step] from [a] until it answers [None]; at most
    [k] iterations. *)
Fixpoint while_some {S A} (k : nat) (step : A → ST S (option A)) (a : A) : ST S unit :=
  match k with
  | O => out_of_fuel
  | Datatypes.S k' =>
      r ← step a;
      match r with
      | None => mret tt
      | Some a' => while_some k' step a'
      end
  end.

(** One step of a run. *)
Lemma then_done {S A B} (m : ST S A) (f : A → ST S B) s a s' r : m s = Done a s' → f a s' = r → (m ≫= f) s = r.
Proof. intros H <-. unfold mbind, ST_bind. rewrite H. reflexivity. Qed.

(** ** A Hoare logic for state transformers

    [safe] is the set of crashes a specification tolerates.  A run that is out
    of fuel satisfies every specification: termination is proved apart. *)

Section hoare.
Context {S : Type} (safe : crash → Prop).

Definition triple {A} (P : S → Prop) (m : ST S A) (Q : A → S → Prop) : Prop :=
  ∀ s, P s →
    match m s with
    | Done a s' => Q a s'
    | Crash c => safe c
    | NoFuel => True
    end.

Lemma triple_ret {A} (a : A) P (Q : A → S → Prop) :
  (∀ s, P s → Q a s) → triple P (mret a) Q.
Proof. intros H s HP. exact (H s HP). Qed.

Lemma triple_bind {A B} P (m : ST S A) (f : A → ST S B) R Q :
  triple P m R → (∀ a, triple (R a) (f a) Q) → triple P (m ≫= f) Q.
Proof.
  intros Hm Hf s HP. specialize (Hm s HP).
  unfold mbind, ST_bind. destruct (m s) as [a s'|c|]; [|exact Hm|exact I].
  exact (Hf a s' Hm).
Qed.

Lemma triple_conseq {A} P P' (m : ST S A) Q Q' :
  triple P' m Q' → (∀ s, P s → P' s) → (∀ a s, Q' a s → Q a s) → triple P m Q.
Proof.
  intros Hm HP HQ s H. specialize (Hm s (HP s H)). destruct (m s); eauto.
Qed.

Lemma triple_pre {A} P P' (m : ST S A) Q :
  (∀ s, P s → P' s) → triple P' m Q → triple P m Q.
Proof. intros; eapply triple_conseq; eauto. Qed.

Lemma triple_fail {A} c P (Q : A → S → Prop) : safe c → triple P (fail c) Q.
Proof. intros Hc s _. exact Hc. Qed.

Lemma triple_out_of_fuel {A} P (Q : A → S → Prop) : triple P out_of_fuel Q.
Proof. intros s _. exact I. Qed.

Lemma triple_false {A} (P : S → Prop) (m : ST S A) Q : (∀ s, P s → False) → triple P m Q.
Proof. intros H s HP. destruct (H s HP). Qed.

Lemma triple_pure {A} (φ : Prop) P (m : ST S A) Q :
  (φ → triple P m Q) → triple (λ s, φ ∧ P s) m Q.
Proof. intros H s [Hφ HP]. exact (H Hφ s HP). Qed.

Lemma triple_ex {A X} (P : X → S → Prop) (m : ST S A) Q :
  (∀ x, triple (P x) m Q) → triple (λ s, ∃ x, P x s) m Q.
Proof. intros H s [x HP]. exact (H x s HP). Qed.

Lemma triple_check b P : safe CheckFailed → triple P (check b) (λ _ s, P s ∧ b = true).
Proof. intros Hc s HP. destruct b; simpl; [split; [exact HP|reflexivity]|exact Hc]. Qed.

Lemma triple_from_opt {A} c (o : option A) P :
  safe c → triple P (from_opt c o) (λ a s, P s ∧ o = Some a).
Proof. intros Hc s HP. destruct o; simpl; [split; [exact HP|reflexivity]|exact Hc]. Qed.

(** Loop rule: [I l s] holds when the elements [l] are still to be visited. *)
Lemma triple_for_each {A} (f : A → ST S unit) (I : list A → S → Prop) l :
  (∀ x l', triple (I (x :: l')) (f x) (λ _, I l')) →
  triple (I l) (for_each f l) (λ _, I []).
Proof.
  intros Hf. induction l as [|x l IH]; simpl.
  - apply triple_ret. auto.
  - eapply triple_bind; [apply Hf|]. intros []. exact IH.
Qed.

Lemma triple_while_some {A} k (step : A → ST S (option A)) (I : A → S → Prop) (Q : S → Prop) a :
  (∀ a, triple (I a) (step a) (λ r s, match r with Some a' => I a' s | None => Q s end)) →
  triple (I a) (while_some k step a) (λ _, Q).
Proof.
  intros Hs. revert a. induction k as [|k IH]; intros a; simpl.
  - apply triple_out_of_fuel.
  - eapply triple_bind; [apply Hs|]. intros [a'|].
    + apply IH.
    + apply triple_ret. auto.
Qed.
End hoare.

(** ** Total correctness

    [completes P m Q]: from every state of [P] the run of [m] is [Done], with a
    result and a state of [Q]. *)
Section completes.
Context {S : Type}.

Definition completes {A} (P : S → Prop) (m : ST S A) (Q : A → S → Prop) : Prop :=
  ∀ s, P s → ∃ a s', m s = Done a s' ∧ Q a s'.

Lemma completes_ret {A} (a : A) P (Q : A → S → Prop) :
  (∀ s, P s → Q a s) → completes P (mret a) Q.
Proof. intros H s HP. exact (ex_intro _ a (ex_intro _ s (conj eq_refl (H s HP)))). Qed.

Lemma completes_bind {A B} P (m : ST S A) (f : A → ST S B) R Q :
  completes P m R → (∀ a, completes (R a) (f a) Q) → completes P (m ≫= f) Q.
Proof.
  intros Hm Hf s HP. destruct (Hm s HP) as (a & s' & E & HR).
  destruct (Hf a s' HR) as (b & s'' & E' & HQ).
  exists b, s''. split; [|exact HQ]. unfold mbind, ST_bind. rewrite E. exact E'.
Qed.

Lemma completes_conseq {A} P P' (m : ST S A) Q Q' :
  completes P' m Q' → (∀ s, P s → P' s) → (∀ a s, Q' a s → Q a s) → completes P m Q.
Proof.
  intros Hm HP HQ s H. destruct (Hm s (HP s H)) as (a & s' & E & HQ').
  exists a, s'. split; [exact E|exact (HQ a s' HQ')].
Qed.

Lemma completes_ex {A X} (P : X → S → Prop) (m : ST S A) Q :
  (∀ x, completes (P x) m Q) → completes (λ s, ∃ x, P x s) m Q.
Proof. intros H s [x HP]. exact (H x s HP). Qed.

Lemma completes_step {A B} P (m : ST S A) (f : A → ST S B) (Q : B → S → Prop) :
  (∀ s, P s → ∃ a s', m s = Done a s' ∧ ∃ b s'', f a s' = Done b s'' ∧ Q b s'') →
  completes P (m ≫= f) Q.
Proof.
  intros H s HP. destruct (H s HP) as (a & s' & E & b & s'' & E' & HQ).
  exists b, s''. split; [|exact HQ]. unfold mbind, ST_bind. rewrite E. exact E'.
Qed.
End completes.

(** ** Lists *)

Lemma lookup_repeat_lt {A} (x : A) n i : (i < n)%nat → repeat x n !! i = Some x.
Proof.
  revert i. induction n as [|n IH]; intros i Hi; [lia|]. destruct i as [|i]; [reflexivity|]. apply IH. lia.
Qed.

(** ** Integers of a fixed width *)

Definition wrap_u (w : Z) (z : Z) : Z := (z mod 2 ^ w)%Z.
Definition wrap_s (w : Z) (z : Z) : Z := ((z + 2 ^ (w - 1)) mod 2 ^ w - 2 ^ (w - 1))%Z.

Lemma wrap_u_range w z : (0 ≤ w)%Z → (0 ≤ wrap_u w z < 2 ^ w)%Z.
Proof. intros. unfold wrap_u. apply Z.mod_pos_bound. apply Z.pow_pos_nonneg; lia. Qed.

Lemma wrap_u_small w z : (0 ≤ z < 2 ^ w)%Z → wrap_u w z = z.
Proof. intros. unfold wrap_u. apply Z.mod_small. lia. Qed.

Lemma wrap_s_small w z :
  (1 ≤ w)%Z → (- 2 ^ (w - 1) ≤ z < 2 ^ (w - 1))%Z → wrap_s w z = z.
Proof.
  intros Hw Hz. unfold wrap_s.
  assert (2 ^ w = 2 * 2 ^ (w - 1))%Z as E.
  { rewrite <- Z.pow_succ_r by lia. f_equal. lia. }
  rewrite Z.mod_small by lia. lia.
Qed.

(** ** Occurrence counts *)

Section count.
Context {A : Type} `{EqDecision A}.

Fixpoint cnt (x : A) (l : list A) : nat :=
  match l with
  | [] => 0
  | y :: l' => (if decide (x = y) then 1 else 0) + cnt x l'
  end.

Lemma cnt_app x l1 l2 : cnt x (l1 ++ l2) = cnt x l1 + cnt x l2.
Proof. induction l1; simpl; lia. Qed.

Lemma cnt_elem_of x l : x ∈ l ↔ 0 < cnt x l.
Proof.
  induction l as [|y l IH]; simpl.
  - split; [intros H; inversion H|lia].
  - rewrite elem_of_cons, IH. case_decide; naive_solver lia.
Qed.

Lemma cnt_not_elem_of x l : x ∉ l ↔ cnt x l = 0.
Proof. rewrite cnt_elem_of. lia. Qed.
End count.

Create HintDb deai.
Create Rewrite HintDb cnt.
#[export] Hint Rewrite @cnt_app : cnt.

(** [count_lia] solves goals about occurrence counts. *)
Ltac count_simp := repeat (progress (autorewrite with cnt in *; cbn [cnt] in * )).
Ltac count_lia := count_simp; repeat case_decide; simplify_eq; try lia.

(** ** Byte strings *)

(** The prefix of a buffer up to its first NUL byte: what a C function that
    takes a [const char *] sees. *)
Fixpoint till_nul (s : string) : string :=
  match s with
  | EmptyString => EmptyString
  | String c s' => if Ascii.eqb c Ascii.zero then EmptyString else String c (till_nul s')
  end.

Fixpoint nul_free (s : string) : bool :=
  match s with
  | EmptyString => true
  | String c s' => negb (Ascii.eqb c Ascii.zero) && nul_free s'
  end.

(** [starts_with p s]: [s.length >= strlen(p) && strncmp(s.data, p, strlen(p)) == 0],
    for a pattern without NUL bytes. *)
Fixpoint starts_with (p s : string) : bool :=
  match p, s with
  | EmptyString, _ => true
  | String a p', String b s' => Ascii.eqb a b && starts_with p' s'
  | _, EmptyString => false
  end.

(** [drop_bytes n s]: the buffer from offset [n]. *)
Fixpoint drop_bytes (n : nat) (s : string) : string :=
  match n, s with
  | O, _ => s
  | S n', String _ s' => drop_bytes n' s'
  | S _, EmptyString => EmptyString
  end.

Fixpoint take_bytes (n : nat) (s : string) : string :=
  match n, s with
  | O, _ => EmptyString
  | S n', String c s' => String c (take_bytes n' s')
  | S _, EmptyString => EmptyString
  end.

Lemma till_nul_free s : nul_free s = true → till_nul s = s.
Proof.
  induction s as [|c s IH]; simpl; [reflexivity|]. intros [Hc%negb_true_iff H]%andb_prop.
  rewrite Hc, IH by exact H. reflexivity.
Qed.

Lemma take_bytes_app s r : take_bytes (String.length s) (s +:+ r) = s.
Proof. induction s as [|c s IH]; simpl; [destruct r; reflexivity|]. f_equal. exact IH. Qed.

Lemma take_bytes_all s : take_bytes (String.length s) s = s.
Proof. induction s as [|c s IH]; [reflexivity|]. cbn. rewrite IH. reflexivity. Qed.

Lemma starts_with_app p s : starts_with p (p +:+ s) = true.
Proof. induction p as [|a p IH]; simpl; [reflexivity|]. rewrite Ascii.eqb_refl. exact IH. Qed.

Lemma starts_with_spec p s : starts_with p s = true ↔ ∃ s', s = p +:+ s'.
Proof.
  split.
  - revert s. induction p as [|a p IH]; intros s; simpl.
    + intros _. exists s. reflexivity.
    + destruct s as [|b s]; [discriminate|].
      intros [->%Ascii.eqb_eq H]%andb_prop. destruct (IH _ H) as [s' ->]. exists s'. reflexivity.
  - intros [s' ->]. apply starts_with_app.
Qed.

Lemma string_app_inj_l (p s1 s2 : string) : p +:+ s1 = p +:+ s2 → s1 = s2.
Proof. induction p as [|a p IH]; simpl; [auto|]. intros [=]. auto. Qed.

Lemma till_nul_idemp s : till_nul (till_nul s) = till_nul s.
Proof.
  induction s as [|c s IH]; simpl; [reflexivity|].
  destruct (Ascii.eqb c Ascii.zero) eqn:E; simpl; [reflexivity|]. rewrite E. congruence.
Qed.

Lemma take_drop_bytes n s : take_bytes n s +:+ drop_bytes n s = s.
Proof.
  revert s. induction n as [|n IH]; intros [|c s]; simpl; try reflexivity.
  rewrite <- (IH s) at 3. reflexivity.
Qed.

Lemma length_cat s r : String.length (s +:+ r) = String.length s + String.length r.
Proof. induction s as [|c s IH]; simpl; [reflexivity|]. rewrite IH. reflexivity. Qed.

Lemma cat_assoc s r t : (s +:+ r) +:+ t = s +:+ (r +:+ t).
Proof.
  induction s as [|c s IH]; [reflexivity|].
  change (String c ((s +:+ r) +:+ t) = String c (s +:+ (r +:+ t))). rewrite IH. reflexivity.
Qed.

Lemma cat_nil s : s +:+ EmptyString = s.
Proof.
  induction s as [|c s IH]; [reflexivity|].
  change (String c (s +:+ EmptyString) = String c s). rewrite IH. reflexivity.
Qed.

(** A decidable proposition, by evaluation. *)
Ltac vm_decide := apply (bool_decide_unpack _); vm_compute; exact I.
