(* ===== verification/Lists.v ===== *)
(** * Intrusive doubly linked lists (list.h)

    The pointers of all [struct list_head]s are two maps.  A ring is a list
    head with its entries in order; every operation is shown to have its effect
    on the sequence of entries. *)

From S2P Require Import Prelude.

(** ** The pointers *)

(** Addresses of list heads. *)
Abbreviation node := Z (only parsing).

Record links := Links { nx : node → node; pv : node → node }.

Definition put_fn (p v : node) (f : node → node) : node → node :=
  λ x, if decide (x = p) then v else f x.
Definition set_next (p v : node) (L : links) : links := Links (put_fn p v (nx L)) (pv L).
Definition set_prev (p v : node) (L : links) : links := Links (nx L) (put_fn p v (pv L)).

Definition LIST_POISON1 : node := 0x00100100%Z.
Definition LIST_POISON2 : node := 0x00200200%Z.

(** ** The operations, write by write *)

Definition INIT_LIST_HEAD (list : node) (L : links) : links :=
  set_prev list list (set_next list list L).

Definition __list_add (n prev next : node) (L : links) : links :=
  let L := set_prev next n L in
  let L := set_next n next L in
  let L := set_prev n prev L in
  set_next prev n L.

Definition list_add (n head : node) (L : links) : links := __list_add n head (nx L head) L.
Definition list_add_tail (n head : node) (L : links) : links := __list_add n (pv L head) head L.

Definition __list_del (prev next : node) (L : links) : links :=
  set_next prev next (set_prev next prev L).
Definition __list_del_entry (entry : node) (L : links) : links :=
  __list_del (pv L entry) (nx L entry) L.
Definition list_del (entry : node) (L : links) : links :=
  set_prev entry LIST_POISON2 (set_next entry LIST_POISON1 (__list_del_entry entry L)).

Definition list_replace (old n : node) (L : links) : links :=
  let L := set_next n (nx L old) L in
  let L := set_prev (nx L n) n L in
  let L := set_prev n (pv L old) L in
  set_next (pv L n) n L.
Definition list_replace_init (old n : node) (L : links) : links :=
  INIT_LIST_HEAD old (list_replace old n L).

Definition list_del_init (entry : node) (L : links) : links :=
  INIT_LIST_HEAD entry (__list_del_entry entry L).
Definition list_move (list head : node) (L : links) : links :=
  list_add list head (__list_del_entry list L).
Definition list_move_tail (list head : node) (L : links) : links :=
  list_add_tail list head (__list_del_entry list L).

Definition list_is_last (list head : node) (L : links) : bool := Z.eqb (nx L list) head.
Definition list_empty (head : node) (L : links) : bool := Z.eqb (nx L head) head.
Definition list_empty_careful (head : node) (L : links) : bool :=
  let next := nx L head in Z.eqb next head && Z.eqb next (pv L head).
Definition list_is_singular (head : node) (L : links) : bool :=
  negb (list_empty head L) && Z.eqb (nx L head) (pv L head).

Definition list_rotate_left (head : node) (L : links) : links :=
  if list_empty head L then L else list_move_tail (nx L head) head L.

Definition __list_cut_position (list head entry : node) (L : links) : links :=
  let new_first := nx L entry in
  let L := set_next list (nx L head) L in
  let L := set_prev (nx L list) list L in
  let L := set_prev list entry L in
  let L := set_next entry list L in
  let L := set_next head new_first L in
  set_prev new_first head L.

Definition list_cut_position (list head entry : node) (L : links) : links :=
  if list_empty head L then L
  else if list_is_singular head L && negb (Z.eqb (nx L head) entry) && negb (Z.eqb head entry)
  then L
  else if Z.eqb entry head then INIT_LIST_HEAD list L
  else __list_cut_position list head entry L.

Definition __list_splice (list prev next : node) (L : links) : links :=
  let first := nx L list in
  let last := pv L list in
  let L := set_prev first prev L in
  let L := set_next prev first L in
  let L := set_next last next L in
  set_prev next last L.

Definition list_splice (list head : node) (L : links) : links :=
  if list_empty list L then L else __list_splice list head (nx L head) L.
Definition list_splice_tail (list head : node) (L : links) : links :=
  if list_empty list L then L else __list_splice list (pv L head) head L.
Definition list_splice_init (list head : node) (L : links) : links :=
  if list_empty list L then L
  else INIT_LIST_HEAD list (__list_splice list head (nx L head) L).
Definition list_splice_tail_init (list head : node) (L : links) : links :=
  if list_empty list L then L
  else INIT_LIST_HEAD list (__list_splice list (pv L head) head L).

(** ** Representation *)

(** [chain L a l]: neighbours in [a :: l] point to each other. *)
Fixpoint chain (L : links) (a : node) (l : list node) : Prop :=
  match l with
  | [] => True
  | x :: l' => nx L a = x ∧ pv L x = a ∧ chain L x l'
  end.

(** The ring of [head] with the entries [l]. *)
Definition ring (L : links) (head : node) (l : list node) : Prop :=
  NoDup (head :: l) ∧ chain L head (l ++ [head]).

(** Both pointers of a link. *)
Definition link (p n : node) (L : links) : links := Links (put_fn p n (nx L)) (put_fn n p (pv L)).

Lemma chain_app L a l1 x l2 : chain L a (l1 ++ x :: l2) ↔ chain L a (l1 ++ [x]) ∧ chain L x l2.
Proof. revert a. induction l1 as [|y l1 IH]; intros a; simpl; [tauto|]. rewrite IH. tauto. Qed.

Lemma chain_init L a l1 l2 : chain L a (l1 ++ l2) → chain L a l1.
Proof. revert a. induction l1 as [|y l1 IH]; intros a; simpl; [auto|]. naive_solver. Qed.

Lemma chain_next L a l b : chain L a (l ++ [b]) → nx L a = hd b l.
Proof. destruct l; simpl; tauto. Qed.

Lemma last_cons (a x : node) l : List.last (x :: l) a = List.last l x.
Proof.
  destruct l as [|y l]; [reflexivity|]. revert y. induction l as [|z l IH]; intros y; [reflexivity|].
  exact (IH z).
Qed.

Lemma chain_prev L a l b : chain L a (l ++ [b]) → pv L b = List.last l a.
Proof.
  revert a. induction l as [|x l IH]; intros a; [simpl; tauto|]. intros (_ & _ & H).
  rewrite (IH x H), last_cons. reflexivity.
Qed.

Lemma chain_frame L L' a l :
  (∀ x, x ∈ removelast (a :: l) → nx L' x = nx L x) → (∀ x, x ∈ l → pv L' x = pv L x) →
  chain L a l → chain L' a l.
Proof.
  revert a. induction l as [|x l IH]; intros a Hn Hp; [auto|]. intros (H1 & H2 & H3).
  change (removelast (a :: x :: l)) with (a :: removelast (x :: l)) in Hn.
  split; [rewrite Hn by left; exact H1|]. split; [rewrite Hp by left; exact H2|].
  apply IH; [intros y Hy; apply Hn; right; exact Hy|intros y Hy; apply Hp; right; exact Hy|exact H3].
Qed.

Lemma removelast_sub (l : list node) x : x ∈ removelast l → x ∈ l.
Proof.
  induction l as [|y l IH]; [auto|]. destruct l as [|z l]; [intros H; inversion H|].
  intros [->|H]%elem_of_cons; [left|right; apply IH, H].
Qed.

Lemma last_in (a : node) l : List.last l a ∈ a :: l.
Proof.
  revert a. induction l as [|x l IH]; intros a; [left|]. rewrite last_cons. right. apply IH.
Qed.

Lemma put_fn_ne p v f x : x ≠ p → put_fn p v f x = f x.
Proof. intros H. unfold put_fn. rewrite decide_False by exact H. reflexivity. Qed.
Lemma put_fn_eq p v f : put_fn p v f p = v.
Proof. unfold put_fn. rewrite decide_True by reflexivity. reflexivity. Qed.

(** Linking the end of one chain to the start of another. *)
Lemma chain_join L a l1 n l2 :
  chain L a l1 → chain L n l2 →
  NoDup (a :: l1) → n ∉ l1 → n ∉ l2 → List.last l1 a ∉ removelast (n :: l2) →
  chain (link (List.last l1 a) n L) a (l1 ++ n :: l2).
Proof.
  intros H1 H2 Hd Hn1 Hn2 Hp. apply chain_app. split.
  - revert a H1 Hd Hp. induction l1 as [|x l1 IH]; intros a H1 Hd Hp.
    + simpl. rewrite !put_fn_eq. auto.
    + rewrite last_cons in Hp |- *. destruct H1 as (Ha & Hx & H1). apply NoDup_cons in Hd as [Hax Hd].
      cbn [app chain link nx pv]. rewrite put_fn_ne by (pose proof (last_in x l1); congruence).
      rewrite put_fn_ne by set_solver. split; [exact Ha|]. split; [exact Hx|].
      apply IH; [set_solver|exact H1|exact Hd|exact Hp].
  - apply (chain_frame L); [..|exact H2]; intros y Hy; cbn [link nx pv]; apply put_fn_ne; congruence.
Qed.

(** A chain that avoids the nodes of a link. *)
Lemma chain_link L a l p n :
  p ∉ removelast (a :: l) → n ∉ l → chain L a l → chain (link p n L) a l.
Proof.
  intros Hp Hn. apply chain_frame; intros y Hy; cbn [link nx pv]; apply put_fn_ne; congruence.
Qed.

(** ** The operations on rings *)

Lemma add_links n prev next L : __list_add n prev next L = link prev n (link n next L).
Proof. reflexivity. Qed.

Lemma init_ring h L : ring (INIT_LIST_HEAD h L) h [].
Proof. split; [apply NoDup_singleton|]. simpl. rewrite !put_fn_eq. auto. Qed.

(** The successors of a node, ended by the head. *)
Lemma uncons_end (h : node) l :
  NoDup (h :: l) → ∃ l', l ++ [h] = hd h l :: l' ∧ (hd h l ∉ l') ∧ removelast (hd h l :: l') = l.
Proof.
  intros [Hh Hd]%NoDup_cons. destruct l as [|x l]; simpl.
  - exists []. set_solver.
  - apply NoDup_cons in Hd as [Hx Hd]. exists (l ++ [h]). split; [reflexivity|]. split; [set_solver|].
    apply (removelast_last (x :: l) h).
Qed.

Lemma ring_split L h l1 l2 :
  ring L h (l1 ++ l2) →
  NoDup (h :: l1) ∧ NoDup (h :: l2) ∧ (∀ x, x ∈ h :: l1 → x ∉ l2) ∧
  chain L h l1 ∧ nx L (List.last l1 h) = hd h l2 ∧ pv L (hd h l2) = List.last l1 h ∧
  ∀ l', l2 ++ [h] = hd h l2 :: l' → chain L (hd h l2) l'.
Proof.
  intros [[Hh Hd]%NoDup_cons Hc]. apply NoDup_app in Hd as (Hd1 & Hd12 & Hd2).
  rewrite <- app_assoc in Hc.
  split; [apply NoDup_cons; set_solver|]. split; [apply NoDup_cons; set_solver|].
  split; [set_solver|]. split; [exact (chain_init _ _ _ _ Hc)|].
  destruct (l2 ++ [h]) as [|y l'] eqn:E; [destruct l2; discriminate|].
  assert (y = hd h l2) as -> by (destruct l2; simpl in *; congruence).
  apply chain_app in Hc as [Hc1 Hc2].
  pose proof (chain_prev _ _ _ _ Hc1) as Hp.
  split; [|split; [exact Hp|intros l'' [= <-]; exact Hc2]].
  destruct l1 as [|x l1 _] using rev_ind; [exact (chain_next _ _ _ _ Hc1)|].
  rewrite last_last. rewrite <- app_assoc in Hc1. cbn [app] in Hc1.
  apply chain_app in Hc1 as [_ Hc1]. simpl in Hc1. tauto.
Qed.

(** The middle of a ring replaced by [n]. *)
Lemma insert_links L h l1 l2 n :
  NoDup (h :: l1) → NoDup (h :: l2) → (∀ x, x ∈ h :: l1 → x ∉ l2) → n ∉ h :: l1 ++ l2 →
  chain L h l1 → (∀ l', l2 ++ [h] = hd h l2 :: l' → chain L (hd h l2) l') →
  ring (link (List.last l1 h) n (link n (hd h l2) L)) h (l1 ++ n :: l2).
Proof.
  intros Hd1 Hd2 Hd12 Hn Hc1 Hc2. split.
  { apply NoDup_cons in Hd1 as [? ?], Hd2 as [? ?]. apply NoDup_cons. split; [set_solver|].
    apply NoDup_app. split; [assumption|]. split; [set_solver|]. apply NoDup_cons. set_solver. }
  destruct (uncons_end h l2 Hd2) as (l2' & E & Hx & Hr). specialize (Hc2 l2' E).
  rewrite <- app_assoc. cbn [app]. rewrite E. pose proof (last_in h l1) as Hl.
  assert (∀ y, y ∈ hd h l2 :: l2' → y ∈ l2 ∨ y = h) as Hin by (rewrite <- E; set_solver).
  apply chain_join; [| |exact Hd1|set_solver| |].
  - apply chain_link; [| |exact Hc1].
    + intros Hy%removelast_sub. set_solver.
    + intros Hy. destruct (Hin (hd h l2)) as [H|H]; [left|set_solver|].
      rewrite H in Hy. apply NoDup_cons in Hd1. tauto.
  - apply (chain_join L n [] (hd h l2) l2'); [exact I|exact Hc2|apply NoDup_singleton|set_solver|exact Hx|].
    cbn [List.last]. rewrite Hr. set_solver.
  - intros Hy. apply Hin in Hy. set_solver.
  - change (removelast (n :: hd h l2 :: l2')) with (n :: removelast (hd h l2 :: l2')).
    rewrite Hr. set_solver.
Qed.

Lemma insert_ring L h l1 l2 n :
  ring L h (l1 ++ l2) → n ∉ h :: l1 ++ l2 →
  ring (__list_add n (List.last l1 h) (hd h l2) L) h (l1 ++ n :: l2).
Proof.
  intros HR Hn. destruct (ring_split _ _ _ _ HR) as (Hd1 & Hd2 & Hd12 & Hc1 & _ & _ & Hc2).
  rewrite add_links. apply insert_links; assumption.
Qed.

Lemma add_ring L h l n : ring L h l → n ∉ h :: l → ring (list_add n h L) h (n :: l).
Proof.
  intros HR Hn. unfold list_add. rewrite (chain_next _ _ _ _ (proj2 HR)).
  apply (insert_ring L h [] l n HR Hn).
Qed.

Lemma add_tail_ring L h l n : ring L h l → n ∉ h :: l → ring (list_add_tail n h L) h (l ++ [n]).
Proof.
  intros HR Hn. unfold list_add_tail. rewrite (chain_prev _ _ _ _ (proj2 HR)).
  apply (insert_ring L h l [] n); rewrite app_nil_r; assumption.
Qed.

(** The neighbours of an entry. *)
Lemma entry_links L h l1 x l2 :
  ring L h (l1 ++ x :: l2) → pv L x = List.last l1 h ∧ nx L x = hd h l2.
Proof.
  intros HR. destruct (ring_split _ _ _ _ HR) as (_ & _ & _ & _ & _ & Hp & _). split; [exact Hp|].
  replace (l1 ++ x :: l2) with ((l1 ++ [x]) ++ l2) in HR by (rewrite <- app_assoc; reflexivity).
  destruct (ring_split _ _ _ _ HR) as (_ & _ & _ & _ & Hn & _). rewrite last_last in Hn. exact Hn.
Qed.

(** What is left and right of an entry. *)
Lemma around_entry L h l1 x l2 :
  ring L h (l1 ++ x :: l2) →
  NoDup (h :: l1) ∧ NoDup (h :: l2) ∧ (∀ y, y ∈ h :: l1 → y ∉ l2) ∧ (x ∉ h :: l1 ++ l2) ∧
  chain L h l1 ∧ ∀ l', l2 ++ [h] = hd h l2 :: l' → chain L (hd h l2) l'.
Proof.
  intros HR. pose proof HR as HR'.
  replace (l1 ++ x :: l2) with ((l1 ++ [x]) ++ l2) in HR' by (rewrite <- app_assoc; reflexivity).
  destruct (ring_split _ _ _ _ HR) as (Hd1 & Hd2 & Hd12 & Hc1 & _).
  destruct (ring_split _ _ _ _ HR') as (_ & Hd2' & Hd12' & _ & _ & _ & Hc2).
  split; [exact Hd1|]. split; [exact Hd2'|]. split; [set_solver|].
  split; [|split; [exact Hc1|exact Hc2]].
  apply NoDup_cons in Hd2 as [H1 [H2 _]%NoDup_cons]. set_solver.
Qed.

Lemma del_entry_ring L h l1 x l2 :
  ring L h (l1 ++ x :: l2) → ring (__list_del_entry x L) h (l1 ++ l2).
Proof.
  intros HR. destruct (around_entry _ _ _ _ _ HR) as (Hd1 & Hd2 & Hd12 & Hx & Hc1 & Hc2).
  destruct (entry_links _ _ _ _ _ HR) as [Hp Hn].
  unfold __list_del_entry. rewrite Hp, Hn.
  change (__list_del (List.last l1 h) (hd h l2) L) with (link (List.last l1 h) (hd h l2) L). split.
  { pose proof Hd1 as [? ?]%NoDup_cons. pose proof Hd2 as [? ?]%NoDup_cons. apply NoDup_cons.
    split; [set_solver|]. apply NoDup_app. set_solver. }
  destruct (uncons_end h l2 Hd2) as (l2' & E & Hy & Hr). rewrite <- app_assoc, E.
  pose proof (last_in h l1) as Hl.
  apply chain_join; [exact Hc1|exact (Hc2 l2' E)|exact Hd1| |exact Hy|].
  - assert (hd h l2 ∈ l2 ++ [h]) as Hin by (rewrite E; left). pose proof Hd1 as [? ?]%NoDup_cons.
    intros Hl1. apply elem_of_app in Hin as [Hin|Hin%list_elem_of_singleton].
    + apply (Hd12 (hd h l2)); [right; exact Hl1|exact Hin].
    + rewrite Hin in Hl1. tauto.
  - rewrite Hr. apply Hd12, Hl.
Qed.

(** Writes outside a ring keep it. *)
Lemma ring_frame L L' h l :
  (∀ x, x ∈ h :: l → nx L' x = nx L x ∧ pv L' x = pv L x) → ring L h l → ring L' h l.
Proof.
  intros Hf [Hd Hc]. split; [exact Hd|]. apply (chain_frame L); [..|exact Hc]; intros x Hx; apply Hf.
  - change (h :: l ++ [h]) with ((h :: l) ++ [h]) in Hx. rewrite removelast_last in Hx. exact Hx.
  - set_solver.
Qed.

(** A loose node is initialised or poisoned. *)
Lemma set_both_frame L n a b h l :
  n ∉ h :: l → ring L h l → ring (set_prev n b (set_next n a L)) h l.
Proof.
  intros Hn. apply ring_frame. intros x Hx. cbn [nx pv set_prev set_next].
  rewrite !put_fn_ne by congruence. auto.
Qed.

Lemma loose L h l1 x l2 : ring L h (l1 ++ x :: l2) → x ∉ h :: l1 ++ l2.
Proof. intros HR. apply (around_entry _ _ _ _ _ HR). Qed.

Lemma del_ring L h l1 x l2 : ring L h (l1 ++ x :: l2) → ring (list_del x L) h (l1 ++ l2).
Proof. intros HR. apply set_both_frame; [exact (loose _ _ _ _ _ HR)|apply del_entry_ring, HR]. Qed.

Lemma del_init_ring L h l1 x l2 :
  ring L h (l1 ++ x :: l2) → ring (list_del_init x L) h (l1 ++ l2) ∧ ring (list_del_init x L) x [].
Proof.
  intros HR. split; [|apply init_ring].
  apply set_both_frame; [exact (loose _ _ _ _ _ HR)|apply del_entry_ring, HR].
Qed.

Lemma move_ring L h l1 x l2 :
  ring L h (l1 ++ x :: l2) → ring (list_move x h L) h (x :: l1 ++ l2).
Proof. intros HR. apply add_ring; [apply del_entry_ring, HR|exact (loose _ _ _ _ _ HR)]. Qed.

Lemma move_tail_ring L h l1 x l2 :
  ring L h (l1 ++ x :: l2) → ring (list_move_tail x h L) h ((l1 ++ l2) ++ [x]).
Proof. intros HR. apply add_tail_ring; [apply del_entry_ring, HR|exact (loose _ _ _ _ _ HR)]. Qed.

(** Moving an entry to another list. *)
Lemma del_entry_other L h l1 x l2 g k :
  ring L h (l1 ++ x :: l2) → ring L g k → (∀ y, y ∈ g :: k → y ∉ h :: l1 ++ x :: l2) →
  ring (__list_del_entry x L) g k.
Proof.
  intros HR HG Hd. destruct (entry_links _ _ _ _ _ HR) as [Hp Hn].
  unfold __list_del_entry. rewrite Hp, Hn. revert HG. apply ring_frame. intros y Hy.
  specialize (Hd y Hy). change (__list_del (List.last l1 h) (hd h l2) L) with (link (List.last l1 h) (hd h l2) L).
  cbn [nx pv link]. pose proof (last_in h l1) as Hl.
  split; apply put_fn_ne; intros ->; apply Hd.
  - set_solver.
  - destruct l2; set_solver.
Qed.

Lemma move_other_ring L h l1 x l2 g k :
  ring L h (l1 ++ x :: l2) → ring L g k → (∀ y, y ∈ g :: k → y ∉ h :: l1 ++ x :: l2) →
  ring (list_move x g L) g (x :: k).
Proof.
  intros HR HG Hd. apply add_ring; [apply (del_entry_other L h l1 x l2); assumption|].
  intros Hx. apply (Hd x Hx). set_solver.
Qed.

Lemma replace_ring L h l1 x l2 n :
  ring L h (l1 ++ x :: l2) → n ∉ h :: l1 ++ x :: l2 → ring (list_replace x n L) h (l1 ++ n :: l2).
Proof.
  intros HR Hn. destruct (around_entry _ _ _ _ _ HR) as (Hd1 & Hd2 & Hd12 & Hx & Hc1 & Hc2).
  destruct (entry_links _ _ _ _ _ HR) as [Hp Hx'].
  assert (list_replace x n L = link (List.last l1 h) n (link n (hd h l2) L)) as ->.
  { unfold list_replace, link. cbn [nx pv set_next set_prev]. rewrite !put_fn_eq, Hx'.
    rewrite (put_fn_ne (hd h l2) n (pv L) x), Hp; [reflexivity|].
    intros ->. destruct l2; simpl in *; set_solver. }
  apply insert_links; [assumption..| |assumption|assumption]. set_solver.
Qed.

Lemma rotate_left_ring L h x l :
  ring L h (x :: l) → ring (list_rotate_left h L) h (l ++ [x]).
Proof.
  intros HR. unfold list_rotate_left, list_empty. pose proof (chain_next _ _ _ _ (proj2 HR)) as Hn.
  cbn [hd] in Hn. rewrite Hn. destruct (Z.eqb_spec x h) as [->|_].
  - destruct HR as [[H _]%NoDup_cons _]. set_solver.
  - apply (move_tail_ring L h [] x l HR).
Qed.

(** The observers. *)
Lemma empty_ring L h l : ring L h l → list_empty h L = bool_decide (l = []).
Proof.
  intros [[Hh _]%NoDup_cons Hc]. unfold list_empty. rewrite (chain_next _ _ _ _ Hc).
  destruct l as [|x l]; simpl; [apply Z.eqb_refl|].
  destruct (Z.eqb_spec x h) as [->|_]; [|reflexivity]. set_solver.
Qed.

Lemma is_last_ring L h l1 x l2 :
  ring L h (l1 ++ x :: l2) → list_is_last x h L = bool_decide (l2 = []).
Proof.
  intros HR. unfold list_is_last. rewrite (proj2 (entry_links _ _ _ _ _ HR)).
  pose proof (around_entry _ _ _ _ _ HR) as (_ & [Hh _]%NoDup_cons & _).
  destruct l2 as [|y l2]; simpl; [apply Z.eqb_refl|].
  destruct (Z.eqb_spec y h) as [->|_]; [set_solver|reflexivity].
Qed.

Lemma singular_ring L h l : ring L h l → list_is_singular h L = bool_decide (length l = 1).
Proof.
  intros HR. unfold list_is_singular. rewrite (empty_ring _ _ _ HR).
  destruct HR as [Hd Hc]. rewrite (chain_next _ _ _ _ Hc), (chain_prev _ _ _ _ Hc).
  destruct l as [|x l]; [reflexivity|]. cbn [hd]. rewrite last_cons.
  destruct l as [|y l]; [cbn; apply Z.eqb_refl|]. rewrite last_cons.
  apply NoDup_cons in Hd as [_ [Hx _]%NoDup_cons].
  rewrite (bool_decide_eq_false_2 (length (x :: y :: l) = 1)) by discriminate.
  rewrite bool_decide_eq_false_2 by discriminate. cbn [negb andb].
  destruct (Z.eqb_spec x (List.last l y)) as [He|_]; [|reflexivity].
  pose proof (last_in y l) as Hl. rewrite <- He in Hl. contradiction.
Qed.

(** Splicing a node whose own list is empty inserts the node itself. *)
Lemma splice_loose L h l1 l2 n :
  ring L h (l1 ++ l2) → n ∉ h :: l1 ++ l2 → nx L n = n → pv L n = n →
  ring (__list_splice n (List.last l1 h) (nx L (List.last l1 h)) L) h (l1 ++ n :: l2).
Proof.
  intros HR Hn Hnx Hpv. destruct (ring_split _ _ _ _ HR) as (_ & _ & _ & _ & -> & _ & _).
  pose proof (insert_ring _ _ _ _ _ HR Hn) as Hins.
  pose proof (last_in h l1) as Hl.
  assert (hd h l2 ∈ h :: l2) as Hh by (destruct l2; set_solver).
  assert (List.last l1 h ≠ n) as H1 by (intros E; rewrite E in Hl; set_solver).
  assert (hd h l2 ≠ n) as H2 by (intros E; rewrite E in Hh; set_solver).
  revert Hins. apply ring_frame. intros x _. unfold __list_splice. rewrite Hnx, Hpv.
  unfold __list_add. cbn [nx pv set_next set_prev]. unfold put_fn.
  split; repeat case_decide; congruence.
Qed.

Lemma splice_loose_frame L h l1 l2 n y :
  ring L h (l1 ++ l2) → nx L n = n → pv L n = n → y ∉ n :: h :: l1 ++ l2 →
  let L' := __list_splice n (List.last l1 h) (nx L (List.last l1 h)) L in
  nx L' y = nx L y ∧ pv L' y = pv L y.
Proof.
  intros HR Hnx Hpv Hy. destruct (ring_split _ _ _ _ HR) as (_ & _ & _ & _ & -> & _ & _).
  pose proof (last_in h l1) as Hl.
  assert (hd h l2 ∈ h :: l2) as Hh by (destruct l2; set_solver).
  unfold __list_splice. rewrite Hnx, Hpv. cbn [nx pv set_next set_prev].
  rewrite !put_fn_ne; [auto|..]; intros ->; set_solver.
Qed.

(** Splicing: the entries of [list] go between [prev] and [next]. *)
Lemma splice_between L h l1 l2 g k :
  ring L h (l1 ++ l2) → ring L g k → k ≠ [] → (∀ y, y ∈ g :: k → y ∉ h :: l1 ++ l2) →
  ring (__list_splice g (List.last l1 h) (hd h l2) L) h (l1 ++ k ++ l2).
Proof.
  intros HR [[Hg Hk]%NoDup_cons Hck] Hne Hd.
  destruct (ring_split _ _ _ _ HR) as (Hd1 & Hd2 & Hd12 & Hc1 & _ & _ & Hc2).
  unfold __list_splice. rewrite (chain_next _ _ _ _ Hck), (chain_prev _ _ _ _ Hck).
  destruct k as [|f k]; [congruence|]. cbn [hd]. rewrite last_cons.
  change (ring (link (List.last k f) (hd h l2) (link (List.last l1 h) f L)) h (l1 ++ (f :: k) ++ l2)).
  apply NoDup_cons in Hk as [Hf Hk]. cbn [app chain] in Hck. destruct Hck as (_ & _ & Hck).
  apply chain_init in Hck.
  destruct (uncons_end h l2 Hd2) as (l2' & E & Hx & Hr). specialize (Hc2 l2' E).
  pose proof (last_in h l1) as Hl. pose proof (last_in f k) as Hlk.
  assert (∀ y, y ∈ hd h l2 :: l2' → y ∈ l2 ∨ y = h) as Hin by (rewrite <- E; set_solver).
  pose proof Hd1 as [Hh1 Hn1]%NoDup_cons. pose proof Hd2 as [Hh2 Hn2]%NoDup_cons.
  assert (∀ y, y ∈ f :: k → y ≠ h ∧ (y ∉ l1) ∧ (y ∉ l2)) as Hkd.
  { intros y Hy. specialize (Hd y ltac:(right; exact Hy)).
    rewrite elem_of_cons, elem_of_app in Hd. tauto. }
  clear Hd Hg. destruct (Hkd f ltac:(left)) as (Hfh & Hf1 & Hf2).
  assert (NoDup (h :: l1 ++ f :: k)) as Hdk.
  { apply NoDup_cons. split.
    - rewrite elem_of_app. intros [H|H]; [tauto|]. apply Hkd in H. tauto.
    - apply NoDup_app. split; [exact Hn1|]. split; [|apply NoDup_cons; auto].
      intros y Hy H. apply Hkd in H. tauto. }
  split.
  { apply NoDup_cons in Hdk as [H1 H2]. apply NoDup_cons. rewrite app_assoc. split.
    - rewrite elem_of_app. tauto.
    - apply NoDup_app. split; [exact H2|]. split; [|exact Hn2].
      intros y [Hy|Hy]%elem_of_app H; [apply (Hd12 y); [right; exact Hy|exact H]|].
      apply Hkd in Hy. tauto. }
  assert (List.last k f = List.last (l1 ++ f :: k) h) as Hlast.
  { clear. revert h. induction l1 as [|x l1 IH]; intros h; cbn [app]; rewrite last_cons; auto. }
  rewrite Hlast. rewrite Hlast in Hlk. rewrite <- !app_assoc, E.
  replace (l1 ++ (f :: k) ++ hd h l2 :: l2') with ((l1 ++ f :: k) ++ hd h l2 :: l2')
    by (rewrite <- app_assoc; reflexivity).
  assert (∀ y, y ∈ hd h l2 :: l2' → (y ∉ l1) ∧ (y ∉ f :: k)) as Hx12.
  { intros y [Hy| ->]%Hin; split; try tauto; intros H.
    - apply (Hd12 y); [right; exact H|exact Hy].
    - apply Hkd in H. tauto.
    - apply Hkd in H. tauto. }
  destruct (Hx12 (hd h l2) ltac:(left)) as [Hx1 Hxk].
  apply chain_join; [| |exact Hdk| |exact Hx|].
  - apply chain_join; [exact Hc1|exact Hck|exact Hd1|exact Hf1|exact Hf|].
    intros Hy%removelast_sub%Hkd. apply elem_of_cons in Hl as [Hl|Hl]; tauto.
  - apply chain_link; [rewrite Hr; apply Hd12, Hl| |exact Hc2].
    intros Hy. destruct (Hx12 f) as [_ H]; [right; exact Hy|]. apply H. left.
  - rewrite elem_of_app. tauto.
  - rewrite Hr. intros Hy. apply Hkd in Hlk. tauto.
Qed.

(** Cutting: the entries up to [e] move to the list head [g]. *)
Lemma cut_ring L h l1 e l2 g :
  ring L h (l1 ++ e :: l2) → g ∉ h :: l1 ++ e :: l2 →
  ring (__list_cut_position g h e L) g (l1 ++ [e]) ∧ ring (__list_cut_position g h e L) h l2.
Proof.
  intros HR Hg. destruct (entry_links _ _ _ _ _ HR) as [_ Hn].
  pose proof (chain_next _ _ _ _ (proj2 HR)) as Hh.
  destruct (around_entry _ _ _ _ _ HR) as (Hd1 & Hd2 & Hd12 & He & Hc1 & Hc2).
  destruct (ring_split _ _ _ _ HR) as (_ & Hde & _ & _).
  pose proof (proj2 HR) as Hc. rewrite <- app_assoc in Hc. cbn [app] in Hc.
  apply chain_app in Hc as [Hce _].
  set (f := hd e l1). assert (hd h (l1 ++ e :: l2) = f) as Hf by (destruct l1; reflexivity).
  rewrite Hf in Hh.
  assert (__list_cut_position g h e L = link h (hd h l2) (link e g (link g f L))) as ->.
  { unfold __list_cut_position, link. cbn [nx pv set_next set_prev].
    rewrite Hn, Hh, put_fn_eq. reflexivity. }
  assert (∃ k, l1 ++ [e] = f :: k ∧ chain L f k ∧ f ∉ k) as (k & Ek & Hk & Hfk).
  { pose proof Hd1 as [_ Hl1]%NoDup_cons. destruct l1 as [|x l1]; cbn in *; [exists []; split; [reflexivity|]; set_solver|].
    exists (l1 ++ [e]). split; [reflexivity|]. split; [apply Hce|]. apply NoDup_cons in Hl1. set_solver. }
  assert (∀ y, y ∈ f :: k ↔ y ∈ l1 ∨ y = e) as Hin.
  { intros y. rewrite <- Ek, elem_of_app, list_elem_of_singleton. tauto. }
  destruct (uncons_end h l2 Hd2) as (l2' & E & Hx & Hr). specialize (Hc2 l2' E).
  set (x := hd h l2) in *.
  assert (∀ y, y ∈ x :: l2' → y ∈ l2 ∨ y = h) as Hin2 by (rewrite <- E; set_solver).
  pose proof Hd1 as [Hh1 Hn1]%NoDup_cons. pose proof Hd2 as [Hh2 Hn2]%NoDup_cons.
  rewrite !elem_of_cons, !elem_of_app in *. rewrite elem_of_cons in Hg.
  assert (NoDup (f :: k)) as Hdk.
  { rewrite <- Ek. apply NoDup_app. split; [exact Hn1|]. split; [|apply NoDup_singleton].
    intros y Hy ->%list_elem_of_singleton. tauto. }
  assert (g ∉ f :: k) as Hgk by (rewrite Hin; tauto).
  assert (∀ y, y ∈ f :: k → y ≠ h ∧ (y ∉ l2)) as Hk2.
  { intros y [Hy| ->]%Hin; [|tauto]. split; [congruence|]. apply Hd12. right. exact Hy. }
  destruct (Hk2 f ltac:(left)) as [Hfh Hf2].
  assert (∀ y, y ∈ f :: k → y ∉ x :: l2') as Hkx.
  { intros y Hy [H| ->]%Hin2; apply Hk2 in Hy; tauto. }
  split; split.
  - rewrite Ek. apply NoDup_cons. auto.
  - rewrite Ek. apply chain_link.
    + change (g :: (f :: k) ++ [g]) with ((g :: f :: k) ++ [g]). rewrite removelast_last.
      rewrite elem_of_cons. intros [->|Hy]; [tauto|]. apply Hk2 in Hy. tauto.
    + rewrite elem_of_app, list_elem_of_singleton. intros [Hy|Hy].
      * apply (Hkx x Hy). left.
      * destruct (Hin2 g) as [H|H]; [rewrite <- Hy; left|tauto|tauto].
    + replace e with (List.last (f :: k) g) by (rewrite <- Ek; apply last_last).
      apply (chain_join _ g (f :: k) g []); [|exact I|apply NoDup_cons; auto|exact Hgk|..];
        [|intros H; inversion H|intros H; inversion H].
      apply (chain_join L g [] f k); [exact I|exact Hk|apply NoDup_singleton|intros H; inversion H|exact Hfk|].
      cbn [List.last]. intros Hy%removelast_sub. contradiction.
  - exact Hd2.
  - rewrite E. apply (chain_join _ h [] x l2'); [exact I| |apply NoDup_singleton|intros H; inversion H|exact Hx|].
    + apply chain_link; [rewrite Hr; apply Hk2, Hin; auto| |].
      * intros Hy. destruct (Hin2 g) as [H|H]; [right; exact Hy|tauto|tauto].
      * apply chain_link; [rewrite Hr; tauto| |exact Hc2].
        intros Hy. apply (Hkx f); [left|right; exact Hy].
    + cbn [List.last]. rewrite Hr. exact Hh2.
Qed.

(** ** The contract *)

(** Editing a list.  On a ring with the entries [l1 ++ x :: l2] and a loose
    node [n], the operations of list.h have their effect on the sequence of
    entries, pointer by pointer. *)
Theorem list_edit_correct L h l1 x l2 n :
  ring L h (l1 ++ x :: l2) → n ∉ h :: l1 ++ x :: l2 →
  ring (list_add n h L) h (n :: l1 ++ x :: l2) ∧
  ring (list_add_tail n h L) h ((l1 ++ x :: l2) ++ [n]) ∧
  ring (list_del x L) h (l1 ++ l2) ∧
  (ring (list_del_init x L) h (l1 ++ l2) ∧ ring (list_del_init x L) x []) ∧
  ring (list_replace x n L) h (l1 ++ n :: l2) ∧
  ring (list_move x h L) h (x :: l1 ++ l2) ∧
  ring (list_move_tail x h L) h ((l1 ++ l2) ++ [x]) ∧
  list_is_last x h L = bool_decide (l2 = []) ∧ list_empty h L = false.
Proof.
  intros HR Hn. repeat match goal with |- _ ∧ _ => split end.
  - apply add_ring; assumption.
  - apply add_tail_ring; assumption.
  - apply del_ring, HR.
  - apply del_init_ring, HR.
  - apply (del_init_ring _ _ _ _ _ HR).
  - apply replace_ring; assumption.
  - apply move_ring, HR.
  - apply move_tail_ring, HR.
  - apply (is_last_ring _ _ l1), HR.
  - rewrite (empty_ring _ _ _ HR). destruct l1; reflexivity.
Qed.

(** Joining and cutting lists.  Splicing puts the entries of the list [g]
    in front of, or behind, those of [h]; the [init] variants leave [g] empty;
    cutting moves the entries up to [e] to a new list.  *)
Theorem list_join_correct L h l g k :
  ring L h l → ring L g k → (∀ y, y ∈ g :: k → y ∉ h :: l) →
  ring (list_splice g h L) h (k ++ l) ∧
  ring (list_splice_tail g h L) h (l ++ k) ∧
  (ring (list_splice_init g h L) h (k ++ l) ∧ ring (list_splice_init g h L) g []) ∧
  (ring (list_splice_tail_init g h L) h (l ++ k) ∧ ring (list_splice_tail_init g h L) g []).
Proof.
  intros HR HG Hd. unfold list_splice, list_splice_tail, list_splice_init, list_splice_tail_init.
  rewrite (empty_ring _ _ _ HG), (chain_next _ _ _ _ (proj2 HR)), (chain_prev _ _ _ _ (proj2 HR)).
  assert (g ∉ h :: k ++ l) as Hg.
  { specialize (Hd g ltac:(left)). destruct HG as [[Hg _]%NoDup_cons _].
    rewrite elem_of_cons, elem_of_app in *. tauto. }
  destruct (decide (k = [])) as [->|Hne].
  - rewrite bool_decide_eq_true_2 by reflexivity. rewrite app_nil_r. cbn [app]. auto.
  - rewrite bool_decide_eq_false_2 by exact Hne.
    pose proof (splice_between L h [] l g k HR HG Hne Hd) as H1.
    pose proof (splice_between L h l [] g k) as H2. rewrite !app_nil_r in H2.
    specialize (H2 HR HG Hne Hd). split; [exact H1|]. split; [exact H2|].
    split; (split; [|apply init_ring]); apply set_both_frame; try assumption.
    rewrite elem_of_cons, elem_of_app in *. tauto.
Qed.

(** [list_cut_position] splits the list after [e]. *)
Theorem list_cut_correct L h l1 e l2 g :
  ring L h (l1 ++ e :: l2) → g ∉ h :: l1 ++ e :: l2 →
  ring (list_cut_position g h e L) g (l1 ++ [e]) ∧ ring (list_cut_position g h e L) h l2.
Proof.
  intros HR Hg. unfold list_cut_position. rewrite (empty_ring _ _ _ HR), (singular_ring _ _ _ HR).
  rewrite bool_decide_eq_false_2 by (destruct l1; discriminate).
  assert (Z.eqb e h = false) as Heh.
  { apply Z.eqb_neq. intros ->. destruct HR as [[H _]%NoDup_cons _]. apply H, elem_of_app. right. left. }
  rewrite Heh, (Z.eqb_sym h e), Heh. rewrite andb_true_r.
  destruct (bool_decide_reflect (length (l1 ++ e :: l2) = 1)) as [Hl|_]; [|apply cut_ring; assumption].
  rewrite length_app in Hl. simpl in Hl. destruct l1 as [|y l1]; [|simpl in Hl; lia].
  rewrite (chain_next _ _ _ _ (proj2 HR)). cbn [hd app]. rewrite Z.eqb_refl. cbn [negb andb].
  apply (cut_ring L h [] e l2); assumption.
Qed.

(** Two rings: 1 with the entries 2 to 4, and 10 with the entries 11 and 12. *)
Definition two_rings : links :=
  fold_left (λ L x, list_add_tail x 10 L) [11; 12]%Z
    (fold_left (λ L x, list_add_tail x 1 L) [2; 3; 4]%Z
      (INIT_LIST_HEAD 10 (INIT_LIST_HEAD 1 (Links id id))))%Z.

Lemma list_edit_correct_witness :
  ring (list_del 3%Z two_rings) 1%Z [2; 4]%Z ∧ ring (list_replace 3 20 two_rings)%Z 1%Z [2; 20; 4]%Z ∧
  list_is_last 3 1 two_rings = false.
Proof.
  destruct (list_edit_correct two_rings 1 [2]%Z 3 [4]%Z 20)%Z as (_ & _ & H1 & _ & H2 & _ & _ & H3 & _).
  - split; [vm_decide|]. vm_compute. tauto.
  - vm_decide.
  - auto.
Defined.

Lemma list_join_correct_witness :
  ring (list_splice_init 10 1 two_rings)%Z 1%Z [11; 12; 2; 3; 4]%Z ∧ ring (list_splice_init 10 1 two_rings)%Z 10%Z [].
Proof.
  apply (list_join_correct two_rings 1 [2; 3; 4]%Z 10 [11; 12]%Z)%Z.
  - split; [vm_decide|]. vm_compute. tauto.
  - split; [vm_decide|]. vm_compute. tauto.
  - apply Forall_forall. vm_decide.
Defined.

Lemma list_cut_correct_witness :
  ring (list_cut_position 20 1 3 two_rings)%Z 20%Z [2; 3]%Z ∧ ring (list_cut_position 20 1 3 two_rings)%Z 1%Z [4]%Z.
Proof.
  apply (list_cut_correct two_rings 1 [2]%Z 3 [4]%Z 20)%Z.
  - split; [vm_decide|]. vm_compute. tauto.
  - vm_decide.
Defined.
