(* ===== verification/Text.v ===== *)
(** * C strings

    The functions of the C library that the parsers use, on the bytes before
    the terminator, and the string helpers of object.h. *)

From Stdlib Require Import Ascii.
From S2P Require Import Prelude.

Local Open Scope Z_scope.

(** ** Characters *)

Definition chr (n : nat) : Ascii.ascii := Ascii.ascii_of_nat n.

Definition isdigit (c : Ascii.ascii) : bool :=
  let n := Ascii.nat_of_ascii c in (48 <=? n)%nat && (n <=? 57)%nat.

(** White space in the "C" locale. *)
Definition isspace (c : Ascii.ascii) : bool :=
  let n := Ascii.nat_of_ascii c in (n =? 32)%nat || ((9 <=? n)%nat && (n <=? 13)%nat).

Definition tolower (c : Ascii.ascii) : Ascii.ascii :=
  let n := Ascii.nat_of_ascii c in
  if (65 <=? n)%nat && (n <=? 90)%nat then chr (n + 32) else c.

Definition digit_value (c : Ascii.ascii) : Z := Z.of_nat (Ascii.nat_of_ascii c) - 48.

Fixpoint all_digits (s : string) : bool :=
  match s with EmptyString => true | String c s' => isdigit c && all_digits s' end.

(** ** Searching *)

(** [strchr s c]: what precedes the first [c] and what follows it. *)
Fixpoint strchr (c : Ascii.ascii) (s : string) : option (string * string) :=
  match s with
  | EmptyString => None
  | String d s' =>
      if Ascii.eqb d c then Some (EmptyString, s')
      else match strchr c s' with
           | Some (l, r) => Some (String d l, r)
           | None => None
           end
  end.

(** [strrchr s c]: what precedes the last [c] and what follows it. *)
Fixpoint strrchr (c : Ascii.ascii) (s : string) : option (string * string) :=
  match s with
  | EmptyString => None
  | String d s' =>
      match strrchr c s' with
      | Some (l, r) => Some (String d l, r)
      | None => if Ascii.eqb d c then Some (EmptyString, s') else None
      end
  end.

Fixpoint has_char (c : Ascii.ascii) (s : string) : bool :=
  match s with EmptyString => false | String d s' => Ascii.eqb d c || has_char c s' end.

(** ** Numbers *)

(** The value of the leading digits, continuing from [acc]. *)
Fixpoint digits_from (acc : Z) (s : string) : Z :=
  match s with
  | EmptyString => acc
  | String c s' => if isdigit c then digits_from (10 * acc + digit_value c) s' else acc
  end.

Fixpoint skip_space (s : string) : string :=
  match s with
  | EmptyString => EmptyString
  | String c s' => if isspace c then skip_space s' else s
  end.

(** [strtol] in base 10, before the conversion to its type. *)
Definition strtol (s : string) : Z :=
  match skip_space s with
  | String "-"%char s' => - digits_from 0 s'
  | String "+"%char s' => digits_from 0 s'
  | s' => digits_from 0 s'
  end.

(** [atoi] and [atoll], undefined for a number out of range. *)
Definition ato {S} (w : Z) (s : string) : ST S Z :=
  let z := strtol s in
  if (- 2 ^ (w - 1) <=? z) && (z <? 2 ^ (w - 1)) then mret z else fail OutOfRange.
Definition atoi {S} : string → ST S Z := ato 32.
Definition atoll {S} : string → ST S Z := ato 64.

(** ** Comparison *)

(** [strncasecmp(a, b, n) == 0]: [a] may lack a terminator, [n] bytes are read
    at most; [None] if the buffer [a] ends before the comparison does. *)
Fixpoint strncasecmp0 (n : nat) (a b : string) : option bool :=
  match n with
  | O => Some true
  | S n' =>
      match a with
      | EmptyString => None
      | String x a' =>
          match b with
          | EmptyString => Some (Ascii.eqb x Ascii.zero)
          | String y b' =>
              if Ascii.eqb (tolower x) (tolower y) then
                if Ascii.eqb x Ascii.zero then Some true else strncasecmp0 n' a' b'
              else Some false
          end
      end
  end.

(** ** Lemmas *)

Lemma strchr_app c l r : has_char c l = false → strchr c (l +:+ String c r) = Some (l, r).
Proof.
  induction l as [|d l IH]; simpl.
  - rewrite Ascii.eqb_refl. reflexivity.
  - intros [E H]%orb_false_elim. rewrite E, (IH H). reflexivity.
Qed.

Lemma strchr_none c s : has_char c s = false → strchr c s = None.
Proof.
  induction s as [|d s IH]; [reflexivity|]. cbn [has_char strchr].
  intros [Hd Hs]%orb_false_elim. rewrite Hd, (IH Hs). reflexivity.
Qed.

Lemma has_char_app c s t : has_char c (s +:+ t) = has_char c s || has_char c t.
Proof.
  induction s as [|d s IH]; [reflexivity|]. change (String d s +:+ t) with (String d (s +:+ t)).
  cbn [has_char]. rewrite IH. apply orb_assoc.
Qed.

Lemma strrchr_none c s : has_char c s = false → strrchr c s = None.
Proof.
  induction s as [|d s IH]; simpl; [reflexivity|].
  intros [E H]%orb_false_elim. rewrite (IH H), E. reflexivity.
Qed.

Lemma strrchr_app c l r : has_char c r = false → strrchr c (l +:+ String c r) = Some (l, r).
Proof.
  intros Hr. induction l as [|d l IH]; simpl.
  - rewrite strrchr_none by exact Hr. rewrite Ascii.eqb_refl. reflexivity.
  - rewrite IH. reflexivity.
Qed.

Lemma isdigit_range c : isdigit c = true → (48 ≤ Ascii.nat_of_ascii c ≤ 57)%nat.
Proof. unfold isdigit. intros [H1%Nat.leb_le H2%Nat.leb_le]%andb_prop. lia. Qed.

Lemma digit_not_space c : isdigit c = true → isspace c = false.
Proof.
  intros H%isdigit_range. unfold isspace.
  apply orb_false_intro; [apply Nat.eqb_neq; lia|].
  apply andb_false_intro2, Nat.leb_gt. lia.
Qed.

Lemma digits_no_char c s : isdigit c = false → all_digits s = true → has_char c s = false.
Proof.
  intros Hc. induction s as [|d s IH]; simpl; [reflexivity|].
  intros [Hd Hs]%andb_prop. rewrite IH by exact Hs.
  destruct (Ascii.eqb d c) eqn:E; [|reflexivity]. apply Ascii.eqb_eq in E. congruence.
Qed.

(** The number a string of digits stands for. *)
Lemma strtol_digits s : all_digits s = true → s ≠ EmptyString → strtol s = digits_from 0 s.
Proof.
  destruct s as [|c s]; [congruence|]. simpl. intros [Hc _]%andb_prop _.
  unfold strtol. simpl. rewrite (digit_not_space c Hc).
  pose proof (isdigit_range c Hc) as Hr.
  destruct c as [[] [] [] [] [] [] [] []]; first [reflexivity|exfalso; vm_compute in Hr; lia].
Qed.

Lemma digits_nonneg acc s : 0 ≤ acc → 0 ≤ digits_from acc s.
Proof.
  revert acc. induction s as [|c s IH]; intros acc Ha; simpl; [exact Ha|].
  destruct (isdigit c) eqn:E; [|exact Ha].
  apply IH. pose proof (isdigit_range c E). unfold digit_value. lia.
Qed.

(** A comparison of a whole buffer against a C string tests for a prefix, up to
    case. *)
Fixpoint lower (s : string) : string :=
  match s with EmptyString => EmptyString | String c s' => String (tolower c) (lower s') end.

Lemma strncasecmp0_prefix a b :
  has_char Ascii.zero a = false →
  strncasecmp0 (String.length a) a b = Some (starts_with (lower a) (lower b)).
Proof.
  revert b. induction a as [|x a IH]; intros b Hz; [reflexivity|].
  cbn [has_char] in Hz. apply orb_false_elim in Hz as [Hx Ha].
  cbn [String.length strncasecmp0]. destruct b as [|y b]; rewrite Hx; [reflexivity|].
  cbn [lower starts_with]. destruct (Ascii.eqb (tolower x) (tolower y)); [exact (IH b Ha)|reflexivity].
Qed.

Lemma strncasecmp0_total a b : is_Some (strncasecmp0 (String.length a) a b).
Proof.
  revert b. induction a as [|x a IH]; intros b; [eauto|].
  cbn [String.length strncasecmp0]. destruct b as [|y b]; [eauto|].
  destruct (Ascii.eqb (tolower x) (tolower y)); [|eauto]. destruct (Ascii.eqb x _); eauto.
Qed.
