(* ===== verification/Tree.v ===== *)
(** * Killing the process tree (main.c)

    [kill_all_descendants]: the processes listed in /proc are linked into a
    preorder of the process tree with the lists of list.h, and the segment that
    follows this process in it is killed. *)

From Stdlib Require Import Ascii.
From S2P Require Import Prelude Lists Text.

(** Equality of lists up to the bracketing of [++]. *)
Ltac app_norm := repeat first [progress cbn [app] | rewrite <- app_assoc]; reflexivity.

(** ** The table of processes *)

(** [struct _childp]; [cp_addr] is the address of its [ll]. *)
Record childp := Childp { cp_pid : Z; cp_ppid : Z; cp_addr : node }.

#[export] Instance childp_eq_dec : EqDecision childp.
Proof. solve_decision. Defined.

(** The hash table in insertion order, [self], the links, the fields [pp] and
    [visited], and the pids that were sent SIGTERM, in order. *)
Record kill_state := KillState {
  k_table : list childp;
  k_self : option childp;
  k_links : links;
  k_pp : gmap node node;
  k_visited : gset node;
  k_killed : list Z
}.

(** The address of the [ll] of the sentinel. *)
Definition SENTINEL : node := 0%Z.

(** One entry of /proc: whether [d_type] is [DT_DIR], the name, and the content
    of its stat file if it can be opened. *)
Record dirent := Dirent { d_dir : bool; d_name : string; d_stat : option string }.

(** The parent in a stat text: the field after ["pid (comm) S "]. *)
Definition parse_ppid {S} (stattext : string) : ST S Z :=
  sep1 ← from_opt NullDeref (strrchr ")"%char (till_nul stattext));
  if Nat.ltb (String.length sep1.2) 3 then fail OutOfBounds
  else
    field ← from_opt NullDeref (strchr " "%char (drop_bytes 3 sep1.2));
    atoi field.1.

Definition add_proc (pid cpid ppid : Z) : ST kill_state unit :=
  modify (λ k,
    let np := Childp cpid ppid (Z.of_nat (S (length (k_table k)))) in
    KillState (k_table k ++ [np]) (if Z.eqb cpid pid then Some np else k_self k)
      (INIT_LIST_HEAD (cp_addr np) (k_links k)) (k_pp k) (k_visited k) (k_killed k)).

(** The body of the [readdir] loop. *)
Definition read_entry (pid : Z) (dent : dirent) : ST kill_state unit :=
  if negb (d_dir dent) then mret tt
  else if negb (all_digits (d_name dent)) then mret tt
  else
    cpid ← atoi (d_name dent);
    match d_stat dent with
    | None | Some EmptyString => mret tt
    | Some stattext => ppid ← parse_ppid stattext; add_proc pid cpid ppid
    end.

(** ** Linking *)

Fixpoint find_pid (pid : Z) (ps : list childp) : option childp :=
  match ps with
  | [] => None
  | p :: ps' => if Z.eqb (cp_pid p) pid then Some p else find_pid pid ps'
  end.

Fixpoint find_addr (a : node) (ps : list childp) : option childp :=
  match ps with
  | [] => None
  | p :: ps' => if Z.eqb (cp_addr p) a then Some p else find_addr a ps'
  end.

Definition parent_addr (ps : list childp) (i : childp) : node :=
  match find_pid (cp_ppid i) ps with Some p => cp_addr p | None => SENTINEL end.

Definition link_proc (i : childp) : ST kill_state unit :=
  modify (λ k,
    let pp := parent_addr (k_table k) i in
    KillState (k_table k) (k_self k)
      (__list_splice (cp_addr i) pp (nx (k_links k) pp) (k_links k))
      (<[cp_addr i := pp]> (k_pp k)) (k_visited k) (k_killed k)).

(** ** Traversal *)

Definition mark_visited (a : node) : ST kill_state unit :=
  modify (λ k, KillState (k_table k) (k_self k) (k_links k) (k_pp k) ({[a]} ∪ k_visited k) (k_killed k)).
Definition kill_term (pid : Z) : ST kill_state unit :=
  modify (λ k, KillState (k_table k) (k_self k) (k_links k) (k_pp k) (k_visited k) (k_killed k ++ [pid])).

(** One iteration of [while (1)]; [pp] of the sentinel is never set. *)
Definition visit_step (curr : node) : ST kill_state (option node) :=
  k ← get;
  let curr := nx (k_links k) curr in
  pp ← from_opt Uninit (k_pp k !! curr);
  if bool_decide (pp ∈ k_visited k) then
    p ← from_opt NullDeref (find_addr curr (k_table k));
    kill_term (cp_pid p);;
    mark_visited curr;;
    mret (Some curr)
  else mret None.

(** What follows [closedir]. *)
Definition kill_tree : ST kill_state unit :=
  modify (λ k, KillState (k_table k) (k_self k) (INIT_LIST_HEAD SENTINEL (k_links k))
                 (k_pp k) (k_visited k) (k_killed k));;
  k ← get;
  for_each link_proc (k_table k);;
  self ← from_opt NullDeref (k_self k);
  mark_visited (cp_addr self);;
  while_some (S (length (k_table k))) visit_step (cp_addr self);;
  modify (λ k, KillState [] (k_self k) (k_links k) (k_pp k) (k_visited k) (k_killed k)).

Definition kill_all_descendants (pid : Z) (dir : option (list dirent)) : ST kill_state unit :=
  match dir with
  | None => mret tt
  | Some dents => for_each (read_entry pid) dents;; kill_tree
  end.

(** The variables at entry; the links of a stack are arbitrary. *)
Definition at_entry (L : links) : kill_state := KillState [] None L ∅ ∅ [].

Definition killed (r : outcome kill_state unit) : option (list Z) :=
  match r with Done _ k => Some (k_killed k) | _ => None end.

(** ** The preorder *)

Section preorder.
Context (ps : list childp).

Definition parent (x : childp) : option childp := find_pid (cp_ppid x) ps.

(** [descends a x]: [x] is a child of [a], or of a descendant of [a]. *)
Inductive descends (a : childp) : childp → Prop :=
  | desc_child x : parent x = Some a → descends a x
  | desc_step x p : parent x = Some p → descends a p → descends a x.

Fixpoint insert_after (p x : childp) (R : list childp) : list childp :=
  match R with
  | [] => []
  | y :: R' => if decide (y = p) then y :: x :: R' else y :: insert_after p x R'
  end.

Definition place (R : list childp) (x : childp) : list childp :=
  match parent x with Some p => insert_after p x R | None => x :: R end.

(** The order in which the processes end up in the ring of the sentinel. *)
Definition preorder : list childp := foldl place [] ps.

(** Every process is listed after its parent. *)
Definition parents_first : Prop :=
  ∀ l1 x l2 p, ps = l1 ++ x :: l2 → parent x = Some p → p ∈ l1.

Lemma insert_after_split p x l1 l2 :
  p ∉ l1 → insert_after p x (l1 ++ p :: l2) = l1 ++ p :: x :: l2.
Proof.
  induction l1 as [|y l1 IH]; simpl; intros Hp.
  - rewrite decide_True by reflexivity. reflexivity.
  - rewrite decide_False by set_solver. f_equal. apply IH. set_solver.
Qed.

Lemma descends_parent a x p : parent x = Some p → descends a x ↔ a = p ∨ descends a p.
Proof.
  intros Hp. split.
  - intros Hd. destruct Hd as [x Hx|x q Hx Hd]; rewrite Hp in Hx; injection Hx as ->; auto.
  - intros [->|Hd]; [apply desc_child; exact Hp|exact (desc_step _ _ _ Hp Hd)].
Qed.

Lemma descends_root a x : parent x = None → ¬ descends a x.
Proof. intros Hp Hd. destruct Hd; congruence. Qed.

(** The descendants of [a] follow it without a gap. *)
Definition block (R : list childp) (a : childp) : Prop :=
  ∃ pre ds post, R = pre ++ a :: ds ++ post ∧
    (∀ y, y ∈ ds → descends a y) ∧ (∀ y, y ∈ a :: pre ++ post → ¬ descends a y).

(** The order of the processes before [todo]. *)
Record ordered (seen R : list childp) : Prop := {
  or_perm : R ≡ₚ seen;
  or_nodup : NoDup R;
  or_closed : ∀ x p, x ∈ seen → parent x = Some p → p ∈ seen;
  or_block : ∀ a, a ∈ seen → block R a
}.

(** A process that is placed has no descendants among those placed before. *)
Lemma new_childless seen R x y : ordered seen R → x ∉ seen → y ∈ seen → ¬ descends x y.
Proof.
  intros HO Hx Hy Hd. induction Hd as [y Hp|y p Hp Hd IH].
  - exact (Hx (or_closed _ _ HO _ _ Hy Hp)).
  - exact (IH (or_closed _ _ HO _ _ Hy Hp)).
Qed.

Lemma place_block_new seen R x :
  ordered seen R → x ∉ seen → (∀ p, parent x = Some p → p ∈ seen) →
  ∀ l1 l2, R = l1 ++ l2 → block (l1 ++ x :: l2) x.
Proof.
  intros HO Hx Hp l1 l2 E. exists l1, [], l2. split; [reflexivity|]. split; [set_solver|].
  assert (∀ y, y ∈ seen → ¬ descends x y) as Hn by (intros y; exact (new_childless _ _ _ _ HO Hx)).
  intros y [->|Hy]%elem_of_cons.
  - destruct (parent x) as [p|] eqn:E'; [|exact (descends_root _ _ E')].
    rewrite (descends_parent _ _ _ E'). intros [->|Hd]; [exact (Hx (Hp _ eq_refl))|].
    exact (Hn _ (Hp _ eq_refl) Hd).
  - apply Hn. rewrite <- (or_perm _ _ HO), E. exact Hy.
Qed.

(** [x] is placed after its parent [p]. *)
Lemma place_block_after R x p a :
  NoDup R → p ∈ R → parent x = Some p → block R a → block (insert_after p x R) a.
Proof.
  intros Hd HpR Hp (pre & ds & post & -> & Hds & Hout).
  assert (∀ l1 l2, pre ++ a :: ds ++ post = l1 ++ p :: l2 →
    insert_after p x (pre ++ a :: ds ++ post) = l1 ++ p :: x :: l2) as Hins.
  { intros l1 l2 E. rewrite E in Hd |- *. apply insert_after_split.
    apply NoDup_app in Hd as (_ & H & _). intros Hin. exact (H p Hin (list_elem_of_here _ _)). }
  rewrite elem_of_app, elem_of_cons, elem_of_app in HpR.
  destruct HpR as [(q1 & q2 & ->)%list_elem_of_split|[->|[(q1 & q2 & ->)%list_elem_of_split|(q1 & q2 & ->)%list_elem_of_split]]].
  - exists (q1 ++ p :: x :: q2), ds, post. rewrite (Hins q1 (q2 ++ a :: ds ++ post)) by (rewrite <- app_assoc; reflexivity).
    rewrite <- app_assoc. split; [reflexivity|]. split; [exact Hds|].
    intros y Hy. destruct (decide (y = x)) as [->|Hne]; [|apply Hout; set_solver].
    rewrite (descends_parent _ _ _ Hp). intros [->|Hdp]; [|apply (Hout p); set_solver].
    apply NoDup_app in Hd as (_ & H & _). apply (H p); set_solver.
  - exists pre, (x :: ds), post. rewrite (Hins pre (ds ++ post)) by reflexivity.
    split; [reflexivity|]. split; [|exact Hout].
    intros y [->|Hy]%elem_of_cons; [apply desc_child; exact Hp|exact (Hds y Hy)].
  - exists pre, (q1 ++ p :: x :: q2), post.
    rewrite (Hins (pre ++ a :: q1) (q2 ++ post)) by (rewrite <- !app_assoc; reflexivity).
    split; [rewrite <- !app_assoc; reflexivity|]. split; [|exact Hout].
    intros y Hy. destruct (decide (y = x)) as [->|Hne]; [|apply Hds; set_solver].
    apply (desc_step _ _ _ Hp). apply Hds. set_solver.
  - exists pre, ds, (q1 ++ p :: x :: q2).
    rewrite (Hins (pre ++ a :: ds ++ q1) q2) by (rewrite <- !app_assoc; cbn [app]; rewrite <- !app_assoc; reflexivity).
    split; [rewrite <- !app_assoc; cbn [app]; rewrite <- !app_assoc; reflexivity|]. split; [exact Hds|].
    intros y Hy. destruct (decide (y = x)) as [->|Hne]; [|apply Hout; set_solver].
    rewrite (descends_parent _ _ _ Hp). intros [->|Hdp]; [|apply (Hout p); set_solver].
    apply NoDup_app in Hd as (_ & _ & H%NoDup_cons). set_solver.
Qed.

Lemma place_root_block R x a :
  parent x = None → block R a → block (x :: R) a.
Proof.
  intros Hp (pre & ds & post & -> & Hds & Hout). exists (x :: pre), ds, post.
  split; [reflexivity|]. split; [exact Hds|]. intros y Hy.
  destruct (decide (y = x)) as [->|Hne]; [exact (descends_root _ _ Hp)|apply Hout; set_solver].
Qed.

(** Where [x] goes: after the node before [l2] in [R]. *)
Lemma place_split seen R x :
  ordered seen R → (∀ p, parent x = Some p → p ∈ seen) →
  ∃ l1 l2, R = l1 ++ l2 ∧ place R x = l1 ++ x :: l2 ∧ list.last l1 = parent x.
Proof.
  intros HO Hp. unfold place. destruct (parent x) as [p|]; [|exists [], R; auto].
  specialize (Hp p eq_refl). rewrite <- (or_perm _ _ HO) in Hp.
  apply list_elem_of_split in Hp as (q1 & q2 & ->).
  exists (q1 ++ [p]), q2. rewrite <- !app_assoc. split; [reflexivity|]. split.
  - apply insert_after_split. pose proof (or_nodup _ _ HO) as Hd.
    apply NoDup_app in Hd as (_ & H & _). intros Hin. exact (H p Hin (list_elem_of_here _ _)).
  - apply last_snoc.
Qed.

Lemma place_ordered seen R x :
  ordered seen R → x ∉ seen → (∀ p, parent x = Some p → p ∈ seen) →
  ordered (seen ++ [x]) (place R x).
Proof.
  intros HO Hx Hp. destruct (place_split _ _ _ HO Hp) as (l1 & l2 & E & E' & _).
  pose proof (or_perm _ _ HO) as HP. constructor.
  - rewrite E', <- Permutation_middle, <- E, HP. apply Permutation_cons_append.
  - rewrite E'. apply NoDup_Permutation_proper with (x :: R).
    { rewrite E. symmetry. apply Permutation_middle. }
    apply NoDup_cons. split; [rewrite HP; exact Hx|exact (or_nodup _ _ HO)].
  - intros y p. rewrite !elem_of_app, !list_elem_of_singleton.
    intros [Hy| ->] Hyp; [left; exact (or_closed _ _ HO _ _ Hy Hyp)|auto].
  - intros a. rewrite elem_of_app, list_elem_of_singleton. intros [Ha| ->].
    + pose proof (or_block _ _ HO a Ha) as Hb. unfold place.
      destruct (parent x) as [p|] eqn:Ep; [|exact (place_root_block _ _ _ Ep Hb)].
      apply place_block_after; [exact (or_nodup _ _ HO)|rewrite HP; auto|exact Ep|exact Hb].
    + rewrite E'. exact (place_block_new _ _ _ HO Hx Hp _ _ E).
Qed.
End preorder.

(** ** Linking builds the preorder *)

Lemma find_addr_elem a ps p : find_addr a ps = Some p → p ∈ ps ∧ cp_addr p = a.
Proof.
  induction ps as [|q ps IH]; simpl; [discriminate|].
  destruct (Z.eqb_spec (cp_addr q) a) as [E|E].
  - intros [= ->]. split; [left|exact E].
  - intros H. destruct (IH H). split; [right|]; assumption.
Qed.

Lemma find_addr_self ps p : NoDup (cp_addr <$> ps) → p ∈ ps → find_addr (cp_addr p) ps = Some p.
Proof.
  induction ps as [|q ps IH]; [set_solver|]. rewrite fmap_cons, NoDup_cons. intros [Hq Hd] Hp. simpl.
  destruct (Z.eqb_spec (cp_addr q) (cp_addr p)) as [E|E]; apply elem_of_cons in Hp as [->|Hp].
  - reflexivity.
  - destruct Hq. rewrite E. exact (list_elem_of_fmap_2 cp_addr _ _ Hp).
  - congruence.
  - exact (IH Hd Hp).
Qed.

Section linking.
Context (ps : list childp) (Hnd : NoDup (SENTINEL :: (cp_addr <$> ps))) (Hpf : parents_first ps).

(** The variables after the processes [seen] are linked, with [R] in the
    ring. *)
Record linked (k0 : kill_state) (seen R : list childp) (k : kill_state) : Prop := {
  lk_table : k_table k = ps;
  lk_self : k_self k = k_self k0;
  lk_ring : ring (k_links k) SENTINEL (cp_addr <$> R);
  lk_loose : ∀ i, i ∈ ps → i ∉ seen → nx (k_links k) (cp_addr i) = cp_addr i ∧ pv (k_links k) (cp_addr i) = cp_addr i;
  lk_pp : ∀ i, i ∈ seen → k_pp k !! cp_addr i = Some (parent_addr ps i);
  lk_sentinel : k_pp k !! SENTINEL = None;
  lk_visited : k_visited k = ∅;
  lk_killed : k_killed k = []
}.

Lemma addr_inj i j : i ∈ ps → j ∈ ps → cp_addr i = cp_addr j → i = j.
Proof.
  apply NoDup_cons in Hnd as [_ Hd]. intros Hi Hj E.
  pose proof (find_addr_self _ _ Hd Hi) as Ei. rewrite E, (find_addr_self _ _ Hd Hj) in Ei. congruence.
Qed.

Lemma addr_fresh R x : R ⊆ ps → x ∈ ps → x ∉ R → cp_addr x ∉ SENTINEL :: (cp_addr <$> R).
Proof.
  intros HR Hx HxR. apply NoDup_cons in Hnd as Hn. destruct Hn as [Hs _].
  intros [E|(y & E & Hy)%list_elem_of_fmap]%elem_of_cons.
  - apply Hs. rewrite <- E. exact (list_elem_of_fmap_2 cp_addr _ _ Hx).
  - apply HxR. rewrite (addr_inj x y Hx (HR y Hy) E). exact Hy.
Qed.

Lemma link_proc_linked k0 seen x rest R k :
  ps = seen ++ x :: rest → x ∉ seen → ordered ps seen R → linked k0 seen R k →
  ∃ k', link_proc x k = Done tt k' ∧ linked k0 (seen ++ [x]) (place ps R x) k'.
Proof.
  intros E Hx HO HK. eexists. split; [reflexivity|].
  assert (∀ p, parent ps x = Some p → p ∈ seen) as Hp by (intros p; exact (Hpf _ _ _ _ E)).
  destruct (place_split _ _ _ _ HO Hp) as (l1 & l2 & ER & EP & El).
  assert (x ∈ ps) as Hxps by (rewrite E; set_solver).
  assert (R ⊆ ps) as HRps by (intros y; rewrite (or_perm _ _ _ HO), E; set_solver).
  assert (x ∉ R) as HxR by (rewrite (or_perm _ _ _ HO); exact Hx).
  pose proof (addr_fresh R x HRps Hxps HxR) as Hfr.
  assert (parent_addr ps x = List.last (cp_addr <$> l1) SENTINEL) as Epa.
  { unfold parent_addr. fold (parent ps x). rewrite <- El.
    destruct l1 as [|y l1 _] using rev_ind; [reflexivity|].
    rewrite last_snoc, fmap_app. symmetry. apply List.last_last. }
  constructor; cbn [k_table k_self k_links k_pp k_visited k_killed]; try apply HK.
  - rewrite (lk_table _ _ _ _ HK), Epa, EP, fmap_app, fmap_cons.
    destruct (lk_loose _ _ _ _ HK x Hxps Hx) as [Hnx Hpv].
    pose proof (lk_ring _ _ _ _ HK) as HR. rewrite ER, fmap_app in HR, Hfr.
    exact (splice_loose _ _ _ _ _ HR Hfr Hnx Hpv).
  - intros i Hi [His Hix]%not_elem_of_app.
    rewrite (lk_table _ _ _ _ HK), Epa. destruct (lk_loose _ _ _ _ HK x Hxps Hx) as [Hnx Hpv].
    pose proof (lk_ring _ _ _ _ HK) as HR. rewrite ER, fmap_app in HR.
    destruct (splice_loose_frame _ _ _ _ _ (cp_addr i) HR Hnx Hpv) as [-> ->].
    + intros [Ei|Hin]%elem_of_cons; [apply Hix, list_elem_of_singleton, (addr_inj i x Hi Hxps Ei)|].
      rewrite <- fmap_app, <- ER in Hin. revert Hin. apply addr_fresh; [exact HRps|exact Hi|].
      rewrite (or_perm _ _ _ HO). exact His.
    + exact (lk_loose _ _ _ _ HK i Hi His).
  - intros i. rewrite elem_of_app, list_elem_of_singleton, (lk_table _ _ _ _ HK). intros [Hi| ->].
    + rewrite lookup_insert_ne; [exact (lk_pp _ _ _ _ HK i Hi)|].
      intros Ei. apply Hx. rewrite (addr_inj x i Hxps); [exact Hi|rewrite E; set_solver|exact Ei].
    + apply lookup_insert_eq.
  - rewrite lookup_insert_ne; [exact (lk_sentinel _ _ _ _ HK)|].
    intros Ei. apply Hfr. rewrite Ei. left.
Qed.

Lemma link_rest k0 rest seen R k :
  ps = seen ++ rest → ordered ps seen R → linked k0 seen R k →
  ∃ k', for_each link_proc rest k = Done tt k' ∧
    linked k0 ps (foldl (place ps) R rest) k' ∧ ordered ps ps (foldl (place ps) R rest).
Proof.
  revert seen R k. induction rest as [|x rest IH]; intros seen R k E HO HK; simpl.
  - rewrite app_nil_r in E. subst seen. exists k. auto.
  - assert (x ∉ seen) as Hx.
    { apply NoDup_cons in Hnd as [_ Hd]. rewrite E, fmap_app, fmap_cons in Hd.
      apply NoDup_app in Hd as (_ & Hd & _). intros Hin.
      apply (Hd (cp_addr x)); [exact (list_elem_of_fmap_2 cp_addr _ _ Hin)|left]. }
    destruct (link_proc_linked _ _ _ _ _ _ E Hx HO HK) as (k1 & E1 & HK1).
    assert (ordered ps (seen ++ [x]) (place ps R x)) as HO1
      by (apply place_ordered; [exact HO|exact Hx|intros p; exact (Hpf _ _ _ _ E)]).
    unfold mbind, ST_bind. rewrite E1. apply (IH (seen ++ [x])); [|exact HO1|exact HK1].
    rewrite E, <- app_assoc. reflexivity.
Qed.

(** A node that comes after another does not come before it. *)
Lemma nodup_split (l1 l2 l1' l2' : list childp) a :
  NoDup (l1 ++ a :: l2) → l1 ++ a :: l2 = l1' ++ a :: l2' → l1 = l1'.
Proof.
  revert l1'. induction l1 as [|y l1 IH]; intros l1' Hd E; destruct l1' as [|z l1']; simpl in *.
  - reflexivity.
  - injection E as <- ->. apply NoDup_cons in Hd as [Ha _]. set_solver.
  - injection E as -> <-. apply NoDup_cons in Hd as [Ha _]. set_solver.
  - injection E as <- E. f_equal. apply NoDup_cons in Hd as [_ Hd]. exact (IH _ Hd E).
Qed.

Lemma child_after R p y l1 l2 :
  ordered ps ps R → parent ps y = Some p → R = l1 ++ y :: l2 → p ∈ l1.
Proof.
  intros HO Hp E. pose proof (or_nodup _ _ _ HO) as Hd.
  assert (y ∈ ps) as Hy by (rewrite <- (or_perm _ _ _ HO), E; set_solver).
  pose proof (or_closed _ _ _ HO _ _ Hy Hp) as Hpp.
  destruct (or_block _ _ _ HO p Hpp) as (pre & ds & post & ER & _ & Hout).
  assert (y ∈ ds) as (u & v & ->)%list_elem_of_split.
  { assert (y ∈ R) as HyR by (rewrite E; set_solver).
    rewrite ER, elem_of_app, elem_of_cons, elem_of_app in HyR.
    destruct HyR as [H|[H|[H|H]]]; [|..|exact H|]; exfalso;
      (apply (Hout y); [set_solver|apply desc_child; exact Hp]). }
  assert (l1 = pre ++ p :: u) as ->; [|set_solver].
  apply (nodup_split _ l2 _ (v ++ post) y); [rewrite <- E; exact Hd|].
  rewrite <- E, ER. app_norm.
Qed.

Lemma parent_visited z l :
  l ⊆ ps → parent_addr ps z ∈ (list_to_set (cp_addr <$> l) : gset node) ↔ ∃ p, parent ps z = Some p ∧ p ∈ l.
Proof.
  intros Hl. unfold parent_addr. fold (parent ps z). rewrite elem_of_list_to_set, list_elem_of_fmap.
  destruct (parent ps z) as [p|] eqn:Ep.
  - assert (p ∈ ps) as Hp.
    { unfold parent in Ep. clear -Ep. induction ps as [|q l IH]; simpl in Ep; [discriminate|].
      destruct (Z.eqb _ _); [injection Ep as ->; left|right; auto]. }
    split.
    + intros (y & E & Hy). rewrite (addr_inj p y Hp (Hl y Hy) E). eauto.
    + intros (q & [= ->] & Hq). eauto.
  - split; [|intros (q & [=] & _)]. intros (y & E & Hy). apply NoDup_cons in Hnd as [Hs _].
    destruct Hs. rewrite E. exact (list_elem_of_fmap_2 cp_addr _ _ (Hl y Hy)).
Qed.

(** The walk from [self] through its descendants [d1 ++ d2], of which [d1] are
    visited. *)
Lemma walk_step kb k0 R pre self d1 d2 post k :
  ordered ps ps R → linked kb ps R k0 → R = pre ++ self :: (d1 ++ d2) ++ post →
  (∀ y, y ∈ d1 ++ d2 → descends ps self y) → (∀ y, y ∈ self :: pre ++ post → ¬ descends ps self y) →
  k_table k = ps → k_links k = k_links k0 → k_pp k = k_pp k0 →
  k_visited k = list_to_set (cp_addr <$> self :: d1) → k_killed k = cp_pid <$> d1 →
  visit_step (List.last (cp_addr <$> d1) (cp_addr self)) k =
    match d2 with
    | y :: _ =>
        Done (Some (cp_addr y))
          (KillState ps (k_self k) (k_links k) (k_pp k)
             (list_to_set (cp_addr <$> self :: d1 ++ [y])) (cp_pid <$> d1 ++ [y]))
    | [] => match post with _ :: _ => Done None k | [] => Crash Uninit end
    end.
Proof.
  intros HO HK ER Hds Hout Ht El Epp Ev Ek.
  unfold visit_step, mbind, ST_bind, get. cbn [k_table].
  assert (nx (k_links k) (List.last (cp_addr <$> d1) (cp_addr self)) =
          hd SENTINEL (cp_addr <$> d2 ++ post)) as ->.
  { pose proof (lk_ring _ _ _ _ HK) as HR. rewrite <- El in HR.
    assert (R = (pre ++ self :: d1) ++ d2 ++ post) as ER' by (rewrite ER; app_norm).
    rewrite ER', fmap_app in HR. destruct (ring_split _ _ _ _ HR) as (_ & _ & _ & _ & <- & _ & _).
    f_equal. rewrite fmap_app, fmap_cons. clear. generalize (cp_addr <$> pre), (cp_addr <$> d1).
    intros l1 l2. revert l1. induction l2 as [|y l2 _] using rev_ind; intros l1.
    - rewrite List.last_last. reflexivity.
    - rewrite app_comm_cons, app_assoc, !List.last_last. reflexivity. }
  assert (R ⊆ ps) as HRps by (intros y; rewrite (or_perm _ _ _ HO); auto).
  assert (self :: d1 ⊆ ps) as Hvis by (intros y Hy; apply HRps; rewrite ER; set_solver).
  destruct d2 as [|y d2]; [destruct post as [|z post]|]; cbn [app fmap list_fmap hd].
  - rewrite Epp, (lk_sentinel _ _ _ _ HK). reflexivity.
  - assert (z ∈ ps) as Hz by (apply HRps; rewrite ER; set_solver).
    rewrite Epp, (lk_pp _ _ _ _ HK z Hz). cbn [from_opt mret ST_ret].
    rewrite bool_decide_false; [reflexivity|]. rewrite Ev, parent_visited by exact Hvis.
    intros (p & Ep & [->|Hp]%elem_of_cons); apply (Hout z); [set_solver| |set_solver|].
    + apply desc_child. exact Ep.
    + apply (desc_step _ _ _ _ Ep), Hds. set_solver.
  - assert (y ∈ ps) as Hy by (apply HRps; rewrite ER; set_solver).
    rewrite Epp, (lk_pp _ _ _ _ HK y Hy). cbn [from_opt mret ST_ret].
    rewrite bool_decide_true.
    + rewrite Ht, find_addr_self; [|apply NoDup_cons in Hnd; tauto|exact Hy].
      cbn. rewrite Ht, Ev, Ek, Epp. do 2 f_equal; [|rewrite fmap_app; reflexivity].
      apply set_eq. intros a. rewrite fmap_app. set_solver.
    + rewrite Ev, parent_visited by exact Hvis.
      assert (y ∈ d1 ++ y :: d2) as Hin by set_solver.
      assert (∃ p, parent ps y = Some p) as [p Ep] by (destruct (Hds y Hin); eauto).
      exists p. split; [exact Ep|].
      assert (R = (pre ++ self :: d1) ++ y :: d2 ++ post) as ER' by (rewrite ER; app_norm).
      pose proof (child_after _ _ _ _ _ HO Ep ER') as Hp.
      apply elem_of_app in Hp as [Hp|Hp]; [exfalso|exact Hp].
      destruct (proj1 (descends_parent _ _ _ _ Ep) (Hds y Hin)) as [<-|Hd].
      * pose proof (or_nodup _ _ _ HO) as Hnr. rewrite ER in Hnr.
        apply NoDup_app in Hnr as (_ & Hnr & _). apply (Hnr self Hp). left.
      * apply (Hout p); [set_solver|exact Hd].
Qed.

Lemma walk kb k0 R pre self post :
  ordered ps ps R → linked kb ps R k0 → ∀ d2 d1 k n,
  R = pre ++ self :: (d1 ++ d2) ++ post →
  (∀ y, y ∈ d1 ++ d2 → descends ps self y) → (∀ y, y ∈ self :: pre ++ post → ¬ descends ps self y) →
  k_table k = ps → k_links k = k_links k0 → k_pp k = k_pp k0 →
  k_visited k = list_to_set (cp_addr <$> self :: d1) → k_killed k = cp_pid <$> d1 →
  length d2 < n →
  match while_some n visit_step (List.last (cp_addr <$> d1) (cp_addr self)) k with
  | Done _ k' => post ≠ [] ∧ k_killed k' = cp_pid <$> d1 ++ d2
  | Crash c => post = [] ∧ c = Uninit
  | NoFuel => False
  end.
Proof.
  intros HO HK d2. induction d2 as [|y d2 IH]; intros d1 k n ER Hds Hout Ht El Epp Ev Ek Hn;
    (destruct n as [|n]; [simpl in Hn; lia|]); cbn [while_some]; unfold mbind, ST_bind;
    rewrite (walk_step _ _ _ _ _ _ _ _ _ HO HK ER Hds Hout Ht El Epp Ev Ek).
  - destruct post; [auto|]. split; [discriminate|]. rewrite app_nil_r. exact Ek.
  - assert ((d1 ++ [y]) ++ d2 = d1 ++ y :: d2) as E by app_norm.
    replace (cp_addr y) with (List.last (cp_addr <$> d1 ++ [y]) (cp_addr self))
      by (rewrite fmap_app; apply List.last_last).
    rewrite <- E in *. apply (IH (d1 ++ [y])); try assumption; try reflexivity. simpl in Hn. lia.
Qed.
End linking.

(** ** Reading /proc *)

(** The fields of a stat file that matter. *)
Record stat_fields := StatFields {
  sf_pid : string; sf_comm : string; sf_state : ascii; sf_ppid : string; sf_rest : string
}.

Definition stat_text (f : stat_fields) : string :=
  sf_pid f +:+ " (" +:+ sf_comm f +:+ String ")" (String " " (String (sf_state f) (String " "
    (sf_ppid f +:+ String " " (sf_rest f))))).

Definition number (w : Z) (s : string) (z : Z) : Prop :=
  all_digits s = true ∧ s ≠ EmptyString ∧ z = digits_from 0 s ∧ (z < 2 ^ (w - 1))%Z.

(** What proc(5) promises: the command is in parentheses and may contain
    anything, what follows it contains none. *)
Definition stat_ok (f : stat_fields) (ppid : Z) : Prop :=
  number 32 (sf_ppid f) ppid ∧ has_char ")" (sf_rest f) = false ∧
  Ascii.eqb (sf_state f) ")" = false ∧ till_nul (stat_text f) = stat_text f.

Lemma ato_number {S} w s z (st : S) : (1 ≤ w)%Z → number w s z → ato w s st = Done z st.
Proof.
  intros Hw (Hd & Hne & -> & Hz). unfold ato. rewrite (strtol_digits s Hd Hne).
  pose proof (digits_nonneg 0 s ltac:(lia)). pose proof (Z.pow_nonneg 2 (w - 1)).
  rewrite (proj2 (Z.leb_le _ _)) by lia. rewrite (proj2 (Z.ltb_lt _ _)) by lia. reflexivity.
Qed.

Lemma parse_stat {S} f ppid (st : S) : stat_ok f ppid → parse_ppid (stat_text f) st = Done ppid st.
Proof.
  intros (Hp & Hr & Hs & Ht). unfold parse_ppid. rewrite Ht. unfold stat_text.
  rewrite <- !cat_assoc. rewrite strrchr_app.
  - unfold mbind, ST_bind. cbn [from_opt mret ST_ret fst snd String.length Nat.ltb Nat.leb drop_bytes].
    rewrite strchr_app; [|apply digits_no_char; [reflexivity|apply Hp]].
    cbn [from_opt mret ST_ret fst]. apply ato_number; [lia|exact Hp].
  - destruct Hp as (Hd & _). cbn [has_char]. rewrite has_char_app. cbn [has_char].
    rewrite Hs, Hr, digits_no_char by (reflexivity || exact Hd). reflexivity.
Qed.

(** What an entry of /proc contributes: nothing, or a process. *)
Inductive reads_as : dirent → option (Z * Z) → Prop :=
  | skip_file name st : reads_as (Dirent false name st) None
  | skip_name name st : all_digits name = false → reads_as (Dirent true name st) None
  | skip_gone name pid : number 32 name pid → reads_as (Dirent true name None) None
  | skip_empty name pid : number 32 name pid → reads_as (Dirent true name (Some EmptyString)) None
  | is_process name pid f ppid :
      number 32 name pid → stat_ok f ppid →
      reads_as (Dirent true name (Some (stat_text f))) (Some (pid, ppid)).

(** The processes in the order of /proc, with the addresses [calloc] gives. *)
Fixpoint table_from (n : Z) (l : list (option (Z * Z))) : list childp :=
  match l with
  | [] => []
  | None :: l' => table_from n l'
  | Some (pid, ppid) :: l' => Childp pid ppid n :: table_from (n + 1) l'
  end.
Definition table : list (option (Z * Z)) → list childp := table_from 1.

(** The variables after reading the processes [ps]. *)
Record scanned (pid : Z) (ps : list childp) (k : kill_state) : Prop := {
  sc_table : k_table k = ps;
  sc_self : ∀ p, k_self k = Some p → p ∈ ps ∧ cp_pid p = pid;
  sc_found : ∀ p, p ∈ ps → cp_pid p = pid → k_self k ≠ None;
  sc_loose : ∀ p, p ∈ ps → nx (k_links k) (cp_addr p) = cp_addr p ∧ pv (k_links k) (cp_addr p) = cp_addr p;
  sc_addr : ∀ p, p ∈ ps → (0 < cp_addr p ≤ Z.of_nat (length ps))%Z;
  sc_nodup : NoDup (cp_addr <$> ps);
  sc_rest : k_pp k = ∅ ∧ k_visited k = ∅ ∧ k_killed k = []
}.

Lemma add_proc_scanned pid ps k cpid ppid :
  scanned pid ps k →
  ∃ k', add_proc pid cpid ppid k = Done tt k' ∧
    scanned pid (ps ++ [Childp cpid ppid (Z.of_nat (S (length ps)))]) k'.
Proof.
  intros HS. eexists. split; [reflexivity|]. pose proof (sc_table _ _ _ HS) as Et.
  constructor; cbn [k_table k_self k_links k_pp k_visited k_killed]; rewrite ?Et; try apply HS.
  - reflexivity.
  - intros p. destruct (Z.eqb_spec cpid pid) as [E|E].
    + intros [= <-]. split; [set_solver|exact E].
    + intros Hp. destruct (sc_self _ _ _ HS p Hp). split; [set_solver|assumption].
  - intros p. rewrite elem_of_app, list_elem_of_singleton.
    destruct (Z.eqb_spec cpid pid) as [E|E]; [discriminate|].
    intros [Hp| ->] Epid; [exact (sc_found _ _ _ HS p Hp Epid)|destruct (E Epid)].
  - intros p. rewrite elem_of_app, list_elem_of_singleton. unfold INIT_LIST_HEAD. cbn [nx pv set_next set_prev].
    intros [Hp| ->]; [|cbn [cp_addr]; rewrite !put_fn_eq; auto].
    pose proof (sc_addr _ _ _ HS p Hp). cbn [cp_addr]. rewrite !put_fn_ne by lia.
    exact (sc_loose _ _ _ HS p Hp).
  - intros p. rewrite elem_of_app, list_elem_of_singleton, length_app. cbn [length].
    intros [Hp| ->]; [pose proof (sc_addr _ _ _ HS p Hp)|cbn [cp_addr]]; lia.
  - rewrite fmap_app. apply NoDup_app. split; [exact (sc_nodup _ _ _ HS)|].
    split; [|apply NoDup_singleton]. intros a (p & -> & Hp)%list_elem_of_fmap.
    pose proof (sc_addr _ _ _ HS p Hp). cbn. rewrite list_elem_of_singleton. lia.
Qed.

Lemma read_entry_skip pid d k : reads_as d None → read_entry pid d k = Done tt k.
Proof.
  intros Hr. inversion Hr as [|? ? E|name z H|name z H|]; subst; unfold read_entry; cbn [d_dir d_name d_stat negb].
  - reflexivity.
  - rewrite E. reflexivity.
  - destruct H as (E & H). rewrite E. cbn [negb]. unfold atoi, mbind, ST_bind.
    rewrite (ato_number 32 name z) by (lia || exact (conj E H)). reflexivity.
  - destruct H as (E & H). rewrite E. cbn [negb]. unfold atoi, mbind, ST_bind.
    rewrite (ato_number 32 name z) by (lia || exact (conj E H)). reflexivity.
Qed.

Lemma read_entry_process pid d cpid ppid k :
  reads_as d (Some (cpid, ppid)) → read_entry pid d k = add_proc pid cpid ppid k.
Proof.
  intros Hr. inversion Hr as [| | | |name z f p H Hf]; subst. unfold read_entry. cbn [d_dir d_name d_stat negb].
  destruct H as (E & H). rewrite E. cbn [negb]. unfold atoi, mbind, ST_bind.
  rewrite (ato_number 32 name cpid) by (lia || exact (conj E H)).
  destruct (stat_text f) as [|c s] eqn:Es.
  { unfold stat_text in Es. destruct (sf_pid f); discriminate Es. }
  rewrite <- Es, (parse_stat _ _ _ Hf). reflexivity.
Qed.

Lemma read_dir_scanned pid dents l : Forall2 reads_as dents l → ∀ ps k,
  scanned pid ps k →
  ∃ k', for_each (read_entry pid) dents k = Done tt k' ∧
    scanned pid (ps ++ table_from (Z.of_nat (S (length ps))) l) k'.
Proof.
  induction 1 as [|d o dents l Hr _ IH]; intros ps k HS; cbn [for_each table_from].
  - exists k. rewrite app_nil_r. auto.
  - unfold mbind, ST_bind. destruct o as [[cpid ppid]|].
    + rewrite (read_entry_process _ _ _ _ _ Hr).
      destruct (add_proc_scanned _ _ _ cpid ppid HS) as (k1 & -> & HS1).
      destruct (IH _ _ HS1) as (k2 & E2 & HS2). exists k2. split; [exact E2|].
      rewrite length_app, <- app_assoc in HS2. cbn [length app] in HS2.
      replace (Z.of_nat (S (length ps)) + 1)%Z with (Z.of_nat (S (length ps + 1))) by lia. exact HS2.
    + rewrite (read_entry_skip _ _ _ Hr). exact (IH _ _ HS).
Qed.

(** ** The whole of [kill_all_descendants] *)

Lemma scanned_start pid L : scanned pid [] (at_entry L).
Proof. constructor; cbn; try set_solver. constructor. Qed.

Lemma scanned_addrs pid ps k : scanned pid ps k → NoDup (SENTINEL :: (cp_addr <$> ps)).
Proof.
  intros HS. apply NoDup_cons. split; [|exact (sc_nodup _ _ _ HS)].
  intros (p & E & Hp)%list_elem_of_fmap. pose proof (sc_addr _ _ _ HS p Hp). unfold SENTINEL in E. lia.
Qed.

(** The variables when the list of the sentinel is initialised. *)
Definition sentinel_init (k : kill_state) : kill_state :=
  KillState (k_table k) (k_self k) (INIT_LIST_HEAD SENTINEL (k_links k)) (k_pp k) (k_visited k) (k_killed k).

Lemma scanned_linked pid ps k : scanned pid ps k → linked ps k [] [] (sentinel_init k).
Proof.
  intros HS. destruct (sc_rest _ _ _ HS) as (Ep & Ev & Ek).
  constructor; cbn; try assumption; try reflexivity.
  - exact (sc_table _ _ _ HS).
  - apply init_ring.
  - intros i Hi _. pose proof (sc_addr _ _ _ HS i Hi). unfold SENTINEL.
    rewrite !put_fn_ne by lia. exact (sc_loose _ _ _ HS i Hi).
  - set_solver.
  - rewrite Ep. apply lookup_empty.
Qed.

Lemma ordered_start ps : ordered ps [] [].
Proof. constructor; [reflexivity|constructor|set_solver|set_solver]. Qed.

(** The walk over the linked processes. *)
Definition tree_post (ps : list childp) (self : childp) (k : kill_state) : Prop :=
  ∃ pre ds post, preorder ps = pre ++ self :: ds ++ post ∧ NoDup ds ∧
    (∀ y, y ∈ ds ↔ y ∈ ps ∧ descends ps self y) ∧
    match post with
    | [] => kill_tree k = Crash Uninit
    | _ => ∃ k', kill_tree k = Done tt k' ∧ k_killed k' = cp_pid <$> ds ∧ k_table k' = []
    end.

Lemma kill_tree_correct pid ps k self :
  scanned pid ps k → parents_first ps → self ∈ ps → k_self k = Some self → tree_post ps self k.
Proof.
  intros HS Hpf Hself Eself. pose proof (scanned_addrs _ _ _ HS) as Hnd.
  destruct (link_rest ps Hnd Hpf k ps [] [] (sentinel_init k) eq_refl (ordered_start ps)
              (scanned_linked _ _ _ HS)) as (k1 & E1 & HK & HO).
  change (foldl (place ps) [] ps) with (preorder ps) in *.
  destruct (or_block _ _ _ HO self Hself) as (pre & ds & post & ER & Hds & Hout).
  pose proof (or_nodup _ _ _ HO) as Hnr. rewrite ER in Hnr.
  exists pre, ds, post. split; [exact ER|].
  apply NoDup_app in Hnr as (_ & _ & [_ Hnr]%NoDup_cons). apply NoDup_app in Hnr as (Hnds & _ & _).
  split; [exact Hnds|]. split.
  { intros y. assert (y ∈ ps ↔ y ∈ pre ++ self :: ds ++ post) as ->
      by (rewrite <- ER, (or_perm _ _ _ HO); reflexivity). split.
    - intros Hy. split; [set_solver|exact (Hds y Hy)].
    - rewrite elem_of_app, elem_of_cons, elem_of_app. intros [Hy Hd].
      destruct (decide (y ∈ ds)) as [|Hn]; [assumption|]. exfalso. apply (Hout y); [|exact Hd]. set_solver. }
  assert (length ds < S (length ps)) as Hlen.
  { rewrite <- (Permutation_length (or_perm _ _ _ HO)), ER, length_app. cbn [length]. rewrite length_app. lia. }
  pose proof (walk ps Hnd Hpf k k1 (preorder ps) pre self post HO HK ds []
    (KillState (k_table k1) (k_self k1) (k_links k1) (k_pp k1) ({[cp_addr self]} ∪ k_visited k1) (k_killed k1))
    (S (length ps)) ER Hds Hout (lk_table _ _ _ _ _ HK) eq_refl eq_refl) as Hw.
  cbn [k_visited k_killed app fmap list_fmap List.last] in Hw.
  specialize (Hw ltac:(rewrite (lk_visited _ _ _ _ _ HK); apply set_eq; set_solver)
                 (lk_killed _ _ _ _ _ HK) Hlen).
  unfold kill_tree, modify, get, mbind, ST_bind. fold (sentinel_init k).
  change (k_table (sentinel_init k)) with (k_table k). rewrite (sc_table _ _ _ HS), E1.
  change (k_self (sentinel_init k)) with (k_self k). rewrite Eself. cbn [from_opt mret ST_ret].
  unfold mark_visited, modify.
  destruct (while_some _ _ _ _) as [[] k2|c|]; [|destruct Hw as [-> ->]; reflexivity|destruct Hw].
  destruct Hw as [Hpost Hk], post as [|z post]; [congruence|]. eexists. split; [reflexivity|].
  split; [exact Hk|reflexivity].
Qed.

(** C34. On the content of /proc, read in an order in which every process comes
    after its parent: the processes are put into a preorder of the process
    tree, in which the descendants of this process follow it without a gap, and
    exactly the descendants are sent SIGTERM, once each; the table is empty
    afterwards.  When no process comes after them in that order, the walk
    reaches the sentinel and uses its uninitialised [pp]. *)
Theorem kill_descendants_correct (L : links) (pid : Z) (dents : list dirent) (l : list (option (Z * Z))) (self : childp)
    (Hread : Forall2 reads_as dents l) (Hpf : parents_first (table l))
    (Hself : self ∈ table l) (Hpid : cp_pid self = pid)
    (Hunique : ∀ p, p ∈ table l → cp_pid p = pid → p = self) :
  ∃ pre ds post, preorder (table l) = pre ++ self :: ds ++ post ∧ NoDup ds ∧
    (∀ y, y ∈ ds ↔ y ∈ table l ∧ descends (table l) self y) ∧
    match post with
    | [] => kill_all_descendants pid (Some dents) (at_entry L) = Crash Uninit
    | _ => ∃ k, kill_all_descendants pid (Some dents) (at_entry L) = Done tt k ∧
             k_killed k = cp_pid <$> ds ∧ k_table k = []
    end.
Proof.
  destruct (read_dir_scanned pid dents l Hread [] _ (scanned_start pid L)) as (k & E & HS).
  change ([] ++ table_from _ l) with (table l) in HS.
  assert (k_self k = Some self) as Eself.
  { destruct (k_self k) as [p|] eqn:Ep; [|destruct (sc_found _ _ _ HS self Hself Hpid Ep)].
    destruct (sc_self _ _ _ HS p Ep) as [Hp Hpp]. rewrite (Hunique p Hp Hpp). reflexivity. }
  destruct (kill_tree_correct _ _ _ _ HS Hpf Hself Eself) as (pre & ds & post & H1 & H2 & H3 & H4).
  exists pre, ds, post. split; [exact H1|]. split; [exact H2|]. split; [exact H3|].
  unfold kill_all_descendants, mbind, ST_bind. rewrite E. exact H4.
Qed.

(** A directory entry of a process. *)
Definition proc_dirent (pid ppid : string) : dirent :=
  Dirent true pid (Some (stat_text (StatFields pid "x" "S" ppid "0"))).

(** A process that is listed before its parent makes its parent disappear
    from the ring when the parent is linked, and hides the other descendants:
    here 30, 3000 and 3100 descend from process 10, and none of them is killed. *)
Theorem kill_misses_descendants (L : links) :
  let dents := [proc_dirent "1" "0"; proc_dirent "2" "0"; proc_dirent "10" "1"; proc_dirent "9" "3000";
                proc_dirent "30" "10"; proc_dirent "3000" "10"; proc_dirent "3100" "3000"] in
  killed (kill_all_descendants 10 (Some dents) (at_entry L)) = Some [].
Proof. vm_compute. reflexivity. Qed.

(** Process 10 has the children 30 and 31 and the grandchild 300; process 40 is
    a sibling of process 10. *)
Definition proc_fields (pid ppid : string) : stat_fields := StatFields pid "x" "S" ppid "0".
Definition tree_dents : list dirent :=
  [proc_dirent "1" "0"; Dirent true "self" None; proc_dirent "40" "1"; proc_dirent "10" "1";
   proc_dirent "30" "10"; proc_dirent "31" "10"; proc_dirent "300" "30"].
Definition tree_read : list (option (Z * Z)) :=
  [Some (1, 0); None; Some (40, 1); Some (10, 1); Some (30, 10); Some (31, 10); Some (300, 30)]%Z.

Lemma tree_reads_as : Forall2 reads_as tree_dents tree_read.
Proof.
  assert (∀ a b p q, number 32 a p → number 32 b q → till_nul (stat_text (proc_fields a b)) = stat_text (proc_fields a b) →
    reads_as (proc_dirent a b) (Some (p, q))) as H.
  { intros a b p q Ha Hb Ht. exact (is_process a p (proc_fields a b) q Ha (conj Hb (conj eq_refl (conj eq_refl Ht)))). }
  unfold tree_dents, tree_read.
  repeat (apply List.Forall2_cons;
    [first [apply skip_name; reflexivity
           |apply H; [repeat split; first [reflexivity|discriminate]..|reflexivity]]|]).
  constructor.
Qed.

Lemma tree_parents_first : parents_first (table tree_read).
Proof.
  intros l1 x l2 p E Hp. vm_compute in E.
  repeat (destruct l1 as [|? l1];
    [injection E as <- _; vm_compute in Hp; simplify_eq; set_solver|injection E as <- E; rename E into E]).
  destruct l1; discriminate.
Qed.

Lemma kill_descendants_correct_witness :
  killed (kill_all_descendants 10 (Some tree_dents) (at_entry (Links id id))) = Some [31; 30; 300]%Z ∧
  ∃ pre ds post, preorder (table tree_read) = pre ++ Childp 10 1 3 :: ds ++ post ∧
    ∀ y, y ∈ ds ↔ y ∈ table tree_read ∧ descends (table tree_read) (Childp 10 1 3) y.
Proof.
  split; [vm_compute; reflexivity|].
  destruct (kill_descendants_correct (Links id id) 10 tree_dents tree_read (Childp 10 1 3)) as (pre & ds & post & H & _ & Hd & _).
  - exact tree_reads_as.
  - exact tree_parents_first.
  - vm_decide.
  - reflexivity.
  - assert (Forall (λ p, cp_pid p = 10%Z → p = Childp 10 1 3) (table tree_read)) as HF by vm_decide.
    rewrite Forall_forall in HF. exact HF.
  - exists pre, ds, post. auto.
Defined.
