(* ===== verification/StringBuf.v ===== *)
(** * String buffers (string_buf.c)

    A buffer is a linked list of chunks with a pointer to the last [next]
    field.  The operations are shown to implement a list of chunks. *)

From S2P Require Import Prelude.

(** ** The structure *)

Record sb_node := SbNode { sb_str : string; sb_len : nat; sb_next : option nat }.

(** [sb_tail] is the node whose [next] field the tail points to, or [None] for
    the [head] field.  [sb_fresh] is the next address [malloc] returns. *)
Record string_buf := StringBuf {
  sb_nodes : gmap nat sb_node;
  sb_head : option nat;
  sb_tail : option nat;
  sb_fresh : nat
}.

(** ** Operations *)

Definition string_buf_new : string_buf := StringBuf ∅ None None 0.

(** [*buf->tail = n; buf->tail = &n->next], for a new node. *)
Definition sb_append (str : string) (len : nat) : ST string_buf unit := λ b,
  let n := sb_fresh b in
  let nodes := <[n := SbNode str len None]> (sb_nodes b) in
  match sb_tail b with
  | None => Done tt (StringBuf nodes (Some n) (Some n) (S n))
  | Some t =>
      match nodes !! t with
      | Some x =>
          Done tt (StringBuf (<[t := SbNode (sb_str x) (sb_len x) (Some n)]> nodes)
                     (sb_head b) (Some n) (S n))
      | None => Crash UseAfterFree
      end
  end.

(** [string_buf_push]: the string ends at its first NUL. *)
Definition string_buf_push (str : string) : ST string_buf unit :=
  sb_append (till_nul str) (String.length (till_nul str)).

(** [string_buf_lpush]: [strndup] also stops at a NUL, but the length that is
    stored is [len]. *)
Definition string_buf_lpush (str : string) (len : nat) : ST string_buf unit :=
  sb_append (till_nul (take_bytes len str)) len.

Definition string_buf_is_empty (b : string_buf) : bool :=
  match sb_head b with None => true | Some _ => false end.

(** The nodes a loop [while (tmp) tmp = tmp->next] visits. *)
Fixpoint sb_walk (fuel : nat) (nodes : gmap nat sb_node) (tmp : option nat) : option (list sb_node) :=
  match tmp with
  | None => Some []
  | Some n =>
      match fuel with
      | O => None
      | S k => x ← nodes !! n; xs ← sb_walk k nodes (sb_next x); Some (x :: xs)
      end
  end.

Definition sb_chunks (b : string_buf) : option (list sb_node) :=
  sb_walk (size (sb_nodes b)) (sb_nodes b) (sb_head b).

(** [string_buf_clear]: every node is freed. *)
Definition string_buf_clear : ST string_buf unit := λ b,
  match sb_chunks b with
  | Some _ => Done tt (StringBuf ∅ None None (sb_fresh b))
  | None => Crash UseAfterFree
  end.

(** The copying loop of [string_buf_dump]: [memcpy(pos, tmp->str, tmp->len)]
    reads from a block of [strlen(tmp->str) + 1] bytes and writes to a block of
    [cap] bytes. *)
Fixpoint sb_copy (xs : list sb_node) (out : string) (cap : nat) : option string :=
  match xs with
  | [] => if Nat.ltb (String.length out) cap then Some out else None
  | x :: xs' =>
      if Nat.leb (sb_len x) (S (String.length (sb_str x))) &&
         Nat.leb (String.length out + sb_len x) cap
      then sb_copy xs' (out +:+ take_bytes (sb_len x) (sb_str x +:+ String Ascii.zero EmptyString)) cap
      else None
  end.

(** [string_buf_dump] *)
Definition string_buf_dump : ST string_buf string := λ b,
  match sb_chunks b with
  | Some xs =>
      let len := list_sum (map (λ x, String.length (sb_str x)) xs) in
      match sb_copy xs EmptyString (S len) with
      | Some ret => Done ret (StringBuf ∅ None None (sb_fresh b))
      | None => Crash OutOfBounds
      end
  | None => Crash UseAfterFree
  end.

(** ** Representation *)

(** The nodes [ns], in order, hold the chunks [l]. *)
Fixpoint nodes_ok (m : gmap nat sb_node) (ns : list nat) (l : list (string * nat)) : Prop :=
  match ns, l with
  | [], [] => True
  | n :: ns', (s, k) :: l' => m !! n = Some (SbNode s k (head ns')) ∧ nodes_ok m ns' l'
  | _, _ => False
  end.

Record sb_rep (b : string_buf) (l : list (string * nat)) (ns : list nat) : Prop := {
  rep_nodup : NoDup ns;
  rep_nodes : nodes_ok (sb_nodes b) ns l;
  rep_head : sb_head b = head ns;
  rep_tail : sb_tail b = list.last ns;
  rep_fresh : ∀ n, is_Some (sb_nodes b !! n) → n < sb_fresh b;
  rep_size : size (sb_nodes b) = length ns
}.

Definition rep (b : string_buf) (l : list (string * nat)) : Prop := ∃ ns, sb_rep b l ns.

Lemma nodes_ok_in m ns l n : nodes_ok m ns l → n ∈ ns → is_Some (m !! n).
Proof.
  revert l. induction ns as [|x ns IH]; intros l Hl Hn; [inversion Hn|].
  destruct l as [|[s k] l]; [destruct Hl|]. destruct Hl as [Hx Hl].
  apply elem_of_cons in Hn as [->|Hn]; [rewrite Hx; eauto|eauto].
Qed.

Lemma nodes_ok_frame m n x ns l : n ∉ ns → nodes_ok m ns l → nodes_ok (<[n := x]> m) ns l.
Proof.
  revert l. induction ns as [|y ns IH]; intros l Hn Hl; [exact Hl|].
  destruct l as [|[s k] l]; [destruct Hl|]. destruct Hl as [Hy Hl]. apply not_elem_of_cons in Hn as [? ?].
  split; [rewrite lookup_insert_ne by congruence; exact Hy|auto].
Qed.

Lemma nodes_ok_snoc m ns l t x n s k :
  NoDup ns → nodes_ok m ns l → list.last ns = Some t → m !! t = Some x → n ∉ ns →
  nodes_ok (<[t := SbNode (sb_str x) (sb_len x) (Some n)]> (<[n := SbNode s k None]> m))
    (ns ++ [n]) (l ++ [(s, k)]).
Proof.
  revert l. induction ns as [|y ns IH]; intros l Hd Hl Ht Hx Hn; [discriminate|].
  destruct l as [|[s' k'] l]; [destruct Hl|]. destruct Hl as [Hy Hl].
  apply NoDup_cons in Hd as [Hyn Hd]. apply not_elem_of_cons in Hn as [Hny Hn].
  destruct ns as [|z ns].
  - destruct l as [|[? ?] ?]; [|destruct Hl]. simpl in Ht. injection Ht as ->.
    rewrite Hy in Hx. injection Hx as <-. simpl. rewrite lookup_insert_eq. split; [reflexivity|].
    rewrite lookup_insert_ne, lookup_insert_eq by congruence. auto.
  - change (list.last (z :: ns) = Some t) in Ht.
    cbn [app nodes_ok]. split; [|apply IH; assumption].
    assert (t ≠ y) as Hty.
    { intros ->. apply Hyn. apply last_Some_elem_of in Ht. exact Ht. }
    rewrite !lookup_insert_ne by congruence. exact Hy.
Qed.

Lemma append_rep b l s k :
  rep b l → ∃ b', sb_append s k b = Done tt b' ∧ rep b' (l ++ [(s, k)]).
Proof.
  intros [ns [Hd Hn Hh Ht Hf Hs]]. unfold sb_append. rewrite Ht.
  assert (sb_fresh b ∉ ns) as Hfr.
  { intros H. pose proof (Hf _ (nodes_ok_in _ _ _ _ Hn H)). lia. }
  assert (sb_nodes b !! sb_fresh b = None) as Hnone.
  { destruct (sb_nodes b !! sb_fresh b) eqn:E; [|reflexivity].
    assert (sb_fresh b < sb_fresh b) by (apply Hf; eauto). lia. }
  destruct (list.last ns) as [t|] eqn:Hl.
  - pose proof (last_Some_elem_of _ _ Hl) as Hin. destruct (nodes_ok_in _ _ _ _ Hn Hin) as [x Hx].
    rewrite lookup_insert_ne, Hx by congruence. eexists. split; [reflexivity|].
    exists (ns ++ [sb_fresh b]). constructor; simpl.
    + apply NoDup_app. split; [exact Hd|]. split; [|apply NoDup_singleton].
      intros y Hy ->%list_elem_of_singleton. contradiction.
    + eapply nodes_ok_snoc; eauto.
    + rewrite Hh. destruct ns; [discriminate|reflexivity].
    + rewrite last_snoc. reflexivity.
    + intros n. destruct (decide (n = t)) as [->|].
      { intros _. assert (t < sb_fresh b) by (apply Hf; eauto). lia. }
      rewrite lookup_insert_ne by congruence.
      destruct (decide (n = sb_fresh b)) as [->|]; [lia|]. rewrite lookup_insert_ne by congruence.
      intros H%Hf. lia.
    + rewrite map_size_insert_Some by (rewrite lookup_insert_ne by congruence; eauto).
      rewrite map_size_insert_None by exact Hnone. rewrite Hs, length_app. simpl. lia.
  - apply last_None in Hl. subst ns. eexists. split; [reflexivity|].
    destruct l as [|[? ?] ?]; [|destruct Hn]. exists [sb_fresh b]. constructor; simpl.
    + apply NoDup_singleton.
    + rewrite lookup_insert_eq. auto.
    + reflexivity.
    + reflexivity.
    + intros n. destruct (decide (n = sb_fresh b)) as [->|]; [lia|]. rewrite lookup_insert_ne by congruence.
      intros H%Hf. lia.
    + rewrite map_size_insert_None by exact Hnone. rewrite Hs. reflexivity.
Qed.

Lemma walk_nodes m ns l fuel :
  nodes_ok m ns l → length ns ≤ fuel →
  ∃ xs, sb_walk fuel m (head ns) = Some xs ∧ map (λ x, (sb_str x, sb_len x)) xs = l.
Proof.
  revert l fuel. induction ns as [|n ns IH]; intros l fuel Hl Hf.
  - destruct l; [|destruct Hl]. exists []. destruct fuel; auto.
  - destruct l as [|[s k] l]; [destruct Hl|]. destruct Hl as [Hn Hl].
    destruct fuel as [|fuel]; [simpl in Hf; lia|]. simpl in Hf.
    destruct (IH l fuel Hl ltac:(lia)) as (xs & Hx & <-).
    cbn [head sb_walk]. rewrite Hn. cbn. rewrite Hx. eauto.
Qed.

Lemma chunks_rep b l :
  rep b l → ∃ xs, sb_chunks b = Some xs ∧ map (λ x, (sb_str x, sb_len x)) xs = l.
Proof.
  intros [ns [Hd Hn Hh Ht Hf Hs]]. unfold sb_chunks. rewrite Hh, Hs. apply walk_nodes; [exact Hn|lia].
Qed.

Lemma new_rep : rep string_buf_new [].
Proof.
  exists []. constructor; [apply NoDup_nil_2|exact I|reflexivity|reflexivity| |reflexivity].
  intros n [x Hx]. simpl in Hx. rewrite lookup_empty in Hx. discriminate.
Qed.

Lemma empty_rep k : rep (StringBuf ∅ None None k) [].
Proof.
  exists []. constructor; [apply NoDup_nil_2|exact I|reflexivity|reflexivity| |reflexivity].
  intros n [x Hx]. simpl in Hx. rewrite lookup_empty in Hx. discriminate.
Qed.

Lemma is_empty_rep b l : rep b l → string_buf_is_empty b = bool_decide (l = []).
Proof.
  intros [ns [Hd Hn Hh Ht Hf Hs]]. unfold string_buf_is_empty. rewrite Hh.
  destruct ns, l as [|[? ?] ?]; try destruct Hn; reflexivity.
Qed.

(** The chunks whose length is that of their string. *)
Definition exact (l : list (string * nat)) : Prop := ∀ s k, (s, k) ∈ l → k = String.length s.
Definition text (l : list (string * nat)) : string := foldr (λ p acc, p.1 +:+ acc) EmptyString l.

Lemma copy_exact xs out cap :
  (∀ x, x ∈ xs → sb_len x = String.length (sb_str x)) →
  String.length out + list_sum (map (λ x, String.length (sb_str x)) xs) < cap →
  sb_copy xs out cap = Some (out +:+ text (map (λ x, (sb_str x, sb_len x)) xs)).
Proof.
  revert out. induction xs as [|x xs IH]; intros out Hx Hc; cbn [sb_copy map text foldr fst].
  - simpl in Hc. rewrite (proj2 (Nat.ltb_lt _ _)) by lia. rewrite cat_nil. reflexivity.
  - cbn [map list_sum foldr] in Hc. rewrite (Hx x) by left.
    rewrite (proj2 (Nat.leb_le _ _)) by lia.
    rewrite (proj2 (Nat.leb_le _ _)) by (unfold list_sum in Hc; lia). cbn [andb].
    rewrite take_bytes_app, IH.
    + rewrite cat_assoc. reflexivity.
    + intros y Hy. apply Hx. right. exact Hy.
    + rewrite length_cat. unfold list_sum in *. lia.
Qed.

Lemma dump_rep b l :
  rep b l → exact l → ∃ b', string_buf_dump b = Done (text l) b' ∧ rep b' [].
Proof.
  intros HR He. destruct (chunks_rep b l HR) as (xs & Hx & Hl). unfold string_buf_dump. rewrite Hx.
  rewrite copy_exact, Hl.
  - eexists. split; [reflexivity|apply empty_rep].
  - intros x Hin. symmetry. symmetry. apply He. rewrite <- Hl.
    apply (list_elem_of_fmap_2 (λ x, (sb_str x, sb_len x))), Hin.
  - simpl. lia.
Qed.
