(* ===== verification/DiTypes.v ===== *)
(** * deai types and values (include/deai/object.h, helper.h, di_internal.h)

    The type tags, the tagged union [di_value] with its tag, the sizes of the
    types, their printed names and their libffi descriptors.  A pair of a
    [di_type_t] and a [union di_value] of that type is one [value] here, and
    [type_of] gives back the tag. *)

From S2P Require Import Prelude.
From Stdlib Require Import SpecFloat.

(** ** Type tags *)

Inductive di_type : Type :=
  | DI_TYPE_NIL | DI_TYPE_ANY | DI_TYPE_BOOL | DI_TYPE_NINT | DI_TYPE_NUINT
  | DI_TYPE_INT | DI_TYPE_UINT | DI_TYPE_FLOAT | DI_TYPE_POINTER
  | DI_TYPE_OBJECT | DI_TYPE_WEAK_OBJECT | DI_TYPE_STRING | DI_TYPE_STRING_LITERAL
  | DI_TYPE_ARRAY | DI_TYPE_TUPLE | DI_TYPE_VARIANT | DI_LAST_TYPE.

#[export] Instance di_type_eq_dec : EqDecision di_type.
Proof. solve_decision. Defined.

(** The enumeration values: the constructors in their order, from 0. *)
Definition type_code (t : di_type) : nat :=
  match t with
  | DI_TYPE_NIL => 0 | DI_TYPE_ANY => 1 | DI_TYPE_BOOL => 2 | DI_TYPE_NINT => 3
  | DI_TYPE_NUINT => 4 | DI_TYPE_INT => 5 | DI_TYPE_UINT => 6 | DI_TYPE_FLOAT => 7
  | DI_TYPE_POINTER => 8 | DI_TYPE_OBJECT => 9 | DI_TYPE_WEAK_OBJECT => 10
  | DI_TYPE_STRING => 11 | DI_TYPE_STRING_LITERAL => 12 | DI_TYPE_ARRAY => 13
  | DI_TYPE_TUPLE => 14 | DI_TYPE_VARIANT => 15 | DI_LAST_TYPE => 16
  end.

(** [di_sizeof_type], on an LP64 target; [None] where the code calls [abort]. *)
Definition di_sizeof_type (t : di_type) : option Z :=
  match t with
  | DI_TYPE_NIL => Some 0
  | DI_TYPE_ANY | DI_LAST_TYPE => None
  | DI_TYPE_FLOAT => Some 8
  | DI_TYPE_ARRAY => Some 24
  | DI_TYPE_TUPLE => Some 16
  | DI_TYPE_VARIANT => Some 16
  | DI_TYPE_UINT | DI_TYPE_INT => Some 8
  | DI_TYPE_NUINT => Some 4
  | DI_TYPE_NINT => Some 4
  | DI_TYPE_STRING => Some 16
  | DI_TYPE_STRING_LITERAL | DI_TYPE_OBJECT | DI_TYPE_POINTER => Some 8
  | DI_TYPE_WEAK_OBJECT => Some 8
  | DI_TYPE_BOOL => Some 1
  end%Z.

(** The test [di_sizeof_type(t) == 0], in the monad: it may abort. *)
Definition sizeof_is_zero {S} (t : di_type) : ST S bool :=
  match di_sizeof_type t with
  | None => fail CheckFailed
  | Some n => mret (Z.eqb n 0)
  end.

(** [di_type_to_string] *)
Definition di_type_to_string (t : di_type) : string :=
  match t with
  | DI_TYPE_NIL => "NIL" | DI_TYPE_ANY => "ANY" | DI_TYPE_BOOL => "BOOL"
  | DI_TYPE_INT => "INT" | DI_TYPE_UINT => "UINT" | DI_TYPE_NINT => "NINT"
  | DI_TYPE_NUINT => "NUINT" | DI_TYPE_FLOAT => "FLOAT" | DI_TYPE_STRING => "STRING"
  | DI_TYPE_STRING_LITERAL => "STRING_LITERAL" | DI_TYPE_TUPLE => "TUPLE"
  | DI_TYPE_ARRAY => "ARRAY" | DI_TYPE_VARIANT => "VARIANT" | DI_TYPE_OBJECT => "OBJECT"
  | DI_TYPE_WEAK_OBJECT => "WEAK_OBJECT" | DI_TYPE_POINTER => "POINTER"
  | DI_LAST_TYPE => "LAST_TYPE"
  end%string.

(** The libffi descriptors of di_internal.h. *)
Inductive ffi_type : Type :=
  | ffi_void | ffi_uint8 | ffi_sint | ffi_uint | ffi_uint64 | ffi_sint64
  | ffi_double | ffi_pointer | ffi_struct (elements : list ffi_type).

Definition ffi_type_di_array : ffi_type := ffi_struct [ffi_uint64; ffi_pointer; ffi_uint8].
Definition ffi_type_di_tuple : ffi_type := ffi_struct [ffi_uint64; ffi_pointer].
Definition ffi_type_di_variant : ffi_type := ffi_struct [ffi_pointer; ffi_uint8].
Definition ffi_type_di_string : ffi_type := ffi_struct [ffi_pointer; ffi_uint64].

(** [di_type_to_ffi]: [assert(type_map[in])] fails on the tags without entry. *)
Definition di_type_to_ffi (t : di_type) : option ffi_type :=
  match t with
  | DI_TYPE_NIL => Some ffi_void
  | DI_TYPE_BOOL => Some ffi_uint8
  | DI_TYPE_NINT => Some ffi_sint
  | DI_TYPE_NUINT => Some ffi_uint
  | DI_TYPE_UINT => Some ffi_uint64
  | DI_TYPE_INT => Some ffi_sint64
  | DI_TYPE_FLOAT => Some ffi_double
  | DI_TYPE_POINTER | DI_TYPE_OBJECT | DI_TYPE_WEAK_OBJECT => Some ffi_pointer
  | DI_TYPE_STRING => Some ffi_type_di_string
  | DI_TYPE_STRING_LITERAL => Some ffi_pointer
  | DI_TYPE_ARRAY => Some ffi_type_di_array
  | DI_TYPE_TUPLE => Some ffi_type_di_tuple
  | DI_TYPE_VARIANT => Some ffi_type_di_variant
  | DI_TYPE_ANY | DI_LAST_TYPE => None
  end.

(** ** Values *)

(** Addresses of objects.  Address 0 is the [static const] object behind
    [dead_weak_ref]; it is not in the heap. *)
Abbreviation loc := nat (only parsing).
Definition DEAD : loc := 0.

(** [struct di_string]: [None] is a null [data] pointer with length 0. *)
Abbreviation di_string := (option string) (only parsing).

(** Doubles are IEEE binary64 values. *)
Abbreviation double := spec_float (only parsing).

#[export] Instance spec_float_eq_dec : EqDecision spec_float.
Proof. solve_decision. Defined.

(** A value with its type tag.  An array is its element type, whether its
    storage pointer is null, and its elements; a tuple is a list of variants
    (type tag and value); a variant is the value it holds.  [VBottom] is the
    tag [DI_LAST_TYPE], which has no value. *)
Inductive value : Type :=
  | VNil
  | VBool (b : bool)
  | VNInt (z : Z)
  | VNUInt (z : Z)
  | VInt (z : Z)
  | VUInt (z : Z)
  | VFloat (f : double)
  | VPointer (p : Z)
  | VObject (l : loc)
  | VWeak (l : loc)
  | VString (s : di_string)
  | VStringLiteral (s : string)
  | VArray (elem_type : di_type) (arr_null : bool) (elems : list value)
  | VTuple (elements : list value)
  | VVariant (v : value)
  | VBottom.

Definition type_of (v : value) : di_type :=
  match v with
  | VNil => DI_TYPE_NIL
  | VBool _ => DI_TYPE_BOOL
  | VNInt _ => DI_TYPE_NINT
  | VNUInt _ => DI_TYPE_NUINT
  | VInt _ => DI_TYPE_INT
  | VUInt _ => DI_TYPE_UINT
  | VFloat _ => DI_TYPE_FLOAT
  | VPointer _ => DI_TYPE_POINTER
  | VObject _ => DI_TYPE_OBJECT
  | VWeak _ => DI_TYPE_WEAK_OBJECT
  | VString _ => DI_TYPE_STRING
  | VStringLiteral _ => DI_TYPE_STRING_LITERAL
  | VArray _ _ _ => DI_TYPE_ARRAY
  | VTuple _ => DI_TYPE_TUPLE
  | VVariant _ => DI_TYPE_VARIANT
  | VBottom => DI_LAST_TYPE
  end.

(** Induction with the elements of arrays and tuples. *)
Section value_ind.
Variable P : value → Prop.
Hypothesis Hbase : ∀ v,
  (match v with VArray _ _ _ | VTuple _ | VVariant _ => False | _ => True end) → P v.
Hypothesis Harray : ∀ t b l, Forall P l → P (VArray t b l).
Hypothesis Htuple : ∀ l, Forall P l → P (VTuple l).
Hypothesis Hvariant : ∀ v, P v → P (VVariant v).

Fixpoint value_ind' (v : value) : P v :=
  let fix go (l : list value) : Forall P l :=
    match l with
    | [] => @List.Forall_nil _ P
    | x :: l' => @List.Forall_cons _ P x l' (value_ind' x) (go l')
    end in
  match v with
  | VArray t b l => Harray t b l (go l)
  | VTuple l => Htuple l (go l)
  | VVariant v => Hvariant v (value_ind' v)
  | v => Hbase v I
  end.
End value_ind.

Definition DI_ARRAY_INIT : value := VArray DI_TYPE_ANY true [].
Definition DI_TUPLE_INIT : value := VTuple [].
Definition DI_VARIANT_INIT : value := VVariant VNil.
Definition DI_STRING_INIT : di_string := None.
Definition DI_BOTTOM_VARIANT : value := VVariant VBottom.

(** [di_variant_of_impl]: consumes a value into a variant. *)
Definition di_variant_of_impl (v : value) : value := VVariant v.

(** Error codes (negated [errno] values). *)
Definition ENOENT : Z := -2.
Definition E2BIG : Z := -7.
Definition ENOMEM : Z := -12.
Definition EEXIST : Z := -17.
Definition EINVAL : Z := -22.
Definition ERANGE : Z := -34.
Definition EPERM : Z := -1.
Definition ENOTSUP : Z := -95.

(** A C function that returns 0 and fills its out parameter, or returns an
    error code. *)
Definition rc_of {A} (r : Z + A) : Z := match r with inl rc => rc | inr _ => 0%Z end.

(** An integer fits its C type. *)
Definition int_ok (v : value) : bool :=
  match v with
  | VNInt z => (- 2 ^ 31 <=? z)%Z && (z <? 2 ^ 31)%Z
  | VNUInt z => (0 <=? z)%Z && (z <? 2 ^ 32)%Z
  | VInt z => (- 2 ^ 63 <=? z)%Z && (z <? 2 ^ 63)%Z
  | VUInt z => (0 <=? z)%Z && (z <? 2 ^ 64)%Z
  | _ => true
  end.
