(* ===== verification/Strings.v ===== *)
(** * Strings with a length (object.h)

    A [struct di_string] is a pointer and a length: bytes that may contain NUL
    and have no terminator.  C strings are what precedes the first NUL. *)

From Stdlib Require Import Ascii.
From S2P Require Import Prelude Text DiTypes.

(** [di_string_dup], [di_string_borrow]: of a terminated buffer. *)
Definition di_string_dup (str : string) : di_string := Some (till_nul str).
Definition di_string_borrow (str : string) : di_string := Some (till_nul str).

(** [di_string_ndup]: [None] when the buffer is shorter than [length]. *)
Definition di_string_ndup (str : string) (length : nat) : option di_string :=
  if Nat.leb length (String.length str) then Some (Some (take_bytes length str)) else None.

(** [di_clone_string]; the clone has storage even when it is empty. *)
Definition di_clone_string (other : di_string) : option di_string :=
  di_string_ndup (default EmptyString other) (String.length (default EmptyString other)).

(** [di_string_to_chars]: the buffer that is written, or [None] for false. *)
Definition di_string_to_chars (str : di_string) (capacity : nat) : option string :=
  let data := default EmptyString str in
  if Nat.ltb capacity (S (String.length data)) then None else Some (data +:+ String zero EmptyString).

(** [di_string_to_chars_alloc] *)
Definition di_string_to_chars_alloc (str : di_string) : string :=
  default EmptyString (di_string_to_chars str (S (String.length (default EmptyString str)))).

(** [di_string_tolower] *)
Definition di_string_tolower (str : di_string) : di_string := Some (lower (default EmptyString str)).

(** [di_substring_start] *)
Definition di_substring_start (str : di_string) (start : nat) : di_string :=
  let data := default EmptyString str in
  if Nat.leb (String.length data) start then DI_STRING_INIT else Some (drop_bytes start data).

(** The C string that a callee of the C library sees. *)
Definition c_str (str : di_string) : string := till_nul (di_string_to_chars_alloc str).

(** The capacity of a buffer for a path. *)
Definition PATH_MAX : nat := 4096.

(** ** Properties *)

Lemma nul_free_has_char s : nul_free s = negb (has_char zero s).
Proof. induction s as [|c s IH]; [reflexivity|]. cbn. rewrite IH, negb_orb. reflexivity. Qed.

Lemma till_nul_plain s : has_char zero s = false → till_nul s = s.
Proof. intros Hs. apply till_nul_free. rewrite nul_free_has_char, Hs. reflexivity. Qed.

Lemma till_nul_app s t : till_nul (s +:+ String zero t) = till_nul s.
Proof.
  induction s as [|c s IH]; [reflexivity|]. simpl.
  destruct (Ascii.eqb c zero); [reflexivity|]. rewrite IH. reflexivity.
Qed.

Lemma has_char_till_nul s : has_char zero (till_nul s) = false.
Proof.
  induction s as [|c s IH]; [reflexivity|]. cbn [till_nul]. destruct (Ascii.eqb c zero) eqn:E; [reflexivity|].
  cbn [has_char]. rewrite E. exact IH.
Qed.

Lemma c_str_eq s : c_str s = till_nul (default EmptyString s).
Proof.
  unfold c_str, di_string_to_chars_alloc, di_string_to_chars. rewrite Nat.ltb_irrefl. cbn [default].
  apply till_nul_app.
Qed.

Lemma length_lower s : String.length (lower s) = String.length s.
Proof. induction s as [|c s IH]; [reflexivity|]. cbn. rewrite IH. reflexivity. Qed.

Lemma length_append s t : String.length (s +:+ t) = String.length s + String.length t.
Proof. induction s as [|c s IH]; [reflexivity|]. simpl. f_equal. exact IH. Qed.

Lemma length_drop_bytes n s : n < String.length s → 0 < String.length (drop_bytes n s).
Proof.
  revert n. induction s as [|c s IH]; intros n Hn; [cbn in Hn; lia|]. destruct n as [|n]; [cbn; lia|].
  apply (IH n). cbn in Hn. lia.
Qed.

(** Strings keep their bytes: a clone is the string; a buffer takes the
    string exactly when it has room for the terminator, and then holds its bytes
    and one NUL; borrowing the buffer again gives back a string without NUL
    bytes, and only the part before the first NUL of any other; a substring is
    what follows its start, null when nothing does. *)
Theorem string_buffers (s : string) (capacity start : nat) :
  di_clone_string (Some s) = Some (Some s) ∧
  match di_string_to_chars (Some s) capacity with
  | Some buf => String.length s < capacity ∧ String.length buf = S (String.length s) ∧
                di_string_borrow buf = Some (till_nul s) ∧
                (has_char zero s = false → di_string_borrow buf = Some s)
  | None => capacity ≤ String.length s
  end ∧
  di_string_borrow (di_string_to_chars_alloc (Some s)) = Some (till_nul s) ∧
  match di_substring_start (Some s) start with
  | Some r => take_bytes start s +:+ r = s ∧ 0 < String.length r
  | None => String.length s ≤ start
  end ∧
  String.length (default EmptyString (di_string_tolower (Some s))) = String.length s.
Proof.
  split; [|split; [|split; [|split]]].
  - unfold di_clone_string, di_string_ndup. change (default EmptyString (Some s)) with s.
    rewrite Nat.leb_refl, take_bytes_all. reflexivity.
  - unfold di_string_to_chars. change (default EmptyString (Some s)) with s.
    destruct (Nat.ltb_spec capacity (S (String.length s))); [apply Nat.lt_succ_r; assumption|].
    split; [lia|]. split; [rewrite length_append; apply Nat.add_1_r|]. unfold di_string_borrow. rewrite till_nul_app.
    split; [reflexivity|]. intros Hs. rewrite (till_nul_plain s Hs). reflexivity.
  - unfold di_string_borrow. pose proof (c_str_eq (Some s)) as E. unfold c_str in E. rewrite E. reflexivity.
  - unfold di_substring_start. change (default EmptyString (Some s)) with s.
    destruct (Nat.leb_spec (String.length s) start); [assumption|].
    split; [apply take_drop_bytes|apply length_drop_bytes; assumption].
  - apply length_lower.
Qed.
