(* ===== verification/Os.v ===== *)
(** * The environment (os.c)

    The object [env] of the module [os]: its getter, setter and deleter on the
    environment of the process, which is the list of the strings
    ["name=value"]. *)

From Stdlib Require Import Ascii.
From S2P Require Import Prelude Text DiTypes Strings.

Abbreviation environ := (list string) (only parsing).

(** ** The C library *)

Definition assign (name value : string) : string := name +:+ String "=" value.
Definition is_entry (name e : string) : bool := starts_with (assign name EmptyString) e.

Fixpoint getenv_in (name : string) (env : environ) : option string :=
  match env with
  | [] => None
  | e :: env' => if is_entry name e then Some (drop_bytes (S (String.length name)) e) else getenv_in name env'
  end.

Definition getenv (name : string) (env : environ) : option string :=
  match name with EmptyString => None | _ => getenv_in name env end.

(** [setenv] and [unsetenv] refuse other names. *)
Definition valid_name (name : string) : bool :=
  match name with EmptyString => false | _ => negb (has_char "=" name) end.

Fixpoint put_entry (name value : string) (env : environ) : environ :=
  match env with
  | [] => [assign name value]
  | e :: env' => if is_entry name e then assign name value :: env' else e :: put_entry name value env'
  end.

Definition setenv (name value : string) : ST environ Z :=
  if valid_name name then modify (put_entry name value);; mret 0%Z else mret (-1)%Z.

Definition unsetenv (name : string) : ST environ Z :=
  if valid_name name then modify (List.filter (λ e, negb (is_entry name e)));; mret 0%Z else mret (-1)%Z.

(** ** os.c *)

(** [di_env_get]; the string literal is the pointer [getenv] returns. *)
Definition di_env_get (name_ : di_string) : ST environ value :=
  match name_ with
  | None => mret DI_BOTTOM_VARIANT
  | Some _ =>
      env ← get;
      mret (match getenv (c_str name_) env with
            | Some str => VVariant (VStringLiteral str)
            | None => DI_BOTTOM_VARIANT
            end)
  end.

(** [di_env_set] *)
Definition di_env_set (key_ val_ : di_string) : ST environ unit :=
  match key_, val_ with
  | Some _, Some _ => _ ← setenv (c_str key_) (c_str val_); mret tt
  | _, _ => mret tt
  end.

(** [di_env_unset] *)
Definition di_env_unset (key_ : di_string) : ST environ unit :=
  match key_ with
  | None => mret tt
  | Some _ => _ ← unsetenv (c_str key_); mret tt
  end.

(** ** The abstract specification: a map from names to values *)

Inductive env_op : Type :=
  | EnvGet (name : di_string)
  | EnvSet (name val : di_string)
  | EnvUnset (name : di_string).

Definition run_env (p : env_op) : ST environ value :=
  match p with
  | EnvGet n => di_env_get n
  | EnvSet n v => di_env_set n v;; mret VNil
  | EnvUnset n => di_env_unset n;; mret VNil
  end.

Definition run_envs (ps : list env_op) : ST environ (list value) := collect run_env ps.

Definition spec_env (p : env_op) (m : gmap string string) : value * gmap string string :=
  match p with
  | EnvGet n => (match m !! c_str n with Some v => VVariant (VStringLiteral v) | None => DI_BOTTOM_VARIANT end, m)
  | EnvSet (Some n) (Some v) =>
      (VNil, if valid_name (till_nul n) then <[till_nul n := till_nul v]> m else m)
  | EnvUnset (Some n) => (VNil, delete (till_nul n) m)
  | _ => (VNil, m)
  end.

Fixpoint spec_envs (ps : list env_op) (m : gmap string string) : list value * gmap string string :=
  match ps with
  | [] => ([], m)
  | p :: ps' => let (v, m1) := spec_env p m in let (vs, m2) := spec_envs ps' m1 in (v :: vs, m2)
  end.

(** The map agrees with the environment on every name without ["="]; it has no
    other names. *)
Definition env_rel (env : environ) (m : gmap string string) : Prop :=
  ∀ n, if valid_name n then m !! n = getenv n env else m !! n = None.

Definition plain_get (p : env_op) : bool :=
  match p with EnvGet n => negb (has_char "=" (c_str n)) | _ => true end.

(** ** Entries *)

Lemma starts_with_cons a p b s : starts_with (String a p) (String b s) = Ascii.eqb a b && starts_with p s.
Proof. reflexivity. Qed.

Lemma append_cons c s t : String c s +:+ t = String c (s +:+ t).
Proof. reflexivity. Qed.

Lemma is_entry_assign n n' v :
  has_char "=" n = false → has_char "=" n' = false → is_entry n' (assign n v) = bool_decide (n' = n).
Proof.
  unfold is_entry, assign. revert n'. induction n as [|c n IH]; intros n' Hn Hn'.
  - destruct n' as [|c' n']; [reflexivity|]. cbn [has_char] in Hn'. apply orb_false_elim in Hn' as [Hc _].
    rewrite append_cons. change (EmptyString +:+ String "=" v) with (String "=" v).
    rewrite starts_with_cons, Hc. reflexivity.
  - cbn [has_char] in Hn. apply orb_false_elim in Hn as [Hc Hn]. rewrite append_cons.
    destruct n' as [|c' n'].
    + change (EmptyString +:+ String "=" EmptyString) with (String "=" EmptyString).
      rewrite starts_with_cons, Ascii.eqb_sym, Hc. reflexivity.
    + cbn [has_char] in Hn'. apply orb_false_elim in Hn' as [_ Hn']. rewrite append_cons, starts_with_cons.
      destruct (Ascii.eqb_spec c' c) as [->|Hne]; cbn [andb].
      * rewrite (IH n' Hn Hn'). apply bool_decide_ext. split; congruence.
      * symmetry. apply bool_decide_eq_false. congruence.
Qed.

Lemma entry_split n e : is_entry n e = true → ∃ w, e = assign n w.
Proof.
  intros [w ->]%starts_with_spec. exists w. unfold assign. induction n as [|c n IH]; [reflexivity|].
  rewrite !append_cons. f_equal. exact IH.
Qed.

Lemma drop_assign n v : drop_bytes (S (String.length n)) (assign n v) = v.
Proof. induction n as [|c n IH]; [reflexivity|exact IH]. Qed.

Lemma valid_plain n : valid_name n = true → has_char "=" n = false ∧ n ≠ EmptyString.
Proof. destruct n as [|c n]; [discriminate|]. intros H%negb_true_iff. auto. Qed.

Lemma getenv_valid n env : valid_name n = true → getenv n env = getenv_in n env.
Proof. destruct n; [discriminate|reflexivity]. Qed.

Lemma getenv_put n n' v env :
  valid_name n = true → valid_name n' = true →
  getenv_in n' (put_entry n v env) = if decide (n' = n) then Some v else getenv_in n' env.
Proof.
  intros [Hn _]%valid_plain [Hn' _]%valid_plain.
  assert (∀ env', getenv_in n' (assign n v :: env') = if decide (n' = n) then Some v else getenv_in n' env') as Ha.
  { intros env'. cbn [getenv_in]. rewrite (is_entry_assign n n' v Hn Hn'). case_decide as E.
    - rewrite bool_decide_true by exact E. subst n'. rewrite drop_assign. reflexivity.
    - rewrite bool_decide_false by exact E. reflexivity. }
  induction env as [|e env IH]; [exact (Ha [])|]. cbn [put_entry]. destruct (is_entry n e) eqn:He.
  - rewrite Ha. case_decide as E; [reflexivity|]. cbn [getenv_in].
    apply entry_split in He as [w ->].
    rewrite (is_entry_assign n n' w Hn Hn'), bool_decide_false by exact E. reflexivity.
  - cbn [getenv_in]. destruct (is_entry n' e) eqn:He'; [|exact IH].
    case_decide as E; [|reflexivity]. subst n'. congruence.
Qed.

Lemma getenv_unset n n' env :
  valid_name n = true → valid_name n' = true →
  getenv_in n' (List.filter (λ e, negb (is_entry n e)) env) = if decide (n' = n) then None else getenv_in n' env.
Proof.
  intros [Hn _]%valid_plain [Hn' _]%valid_plain.
  induction env as [|e env IH]; [case_decide; reflexivity|]. cbn [List.filter].
  destruct (is_entry n e) eqn:He; cbn [negb].
  - rewrite IH. case_decide as E; [reflexivity|]. cbn [getenv_in].
    apply entry_split in He as [w ->].
    rewrite (is_entry_assign n n' w Hn Hn'), bool_decide_false by exact E. reflexivity.
  - cbn [getenv_in]. destruct (is_entry n' e) eqn:He'; [|exact IH].
    case_decide as E; [subst n'; congruence|reflexivity].
Qed.

(** ** One operation *)

Lemma run_env_refines p env m :
  env_rel env m → plain_get p = true →
  ∃ env', run_env p env = Done (spec_env p m).1 env' ∧ env_rel env' (spec_env p m).2.
Proof.
  intros HR Hp. destruct p as [n|[n|] [v|]|[n|]]; cbn [run_env spec_env fst snd].
  - exists env. split; [|exact HR]. destruct n as [n|]; cbn [di_env_get].
    + unfold get, mbind, ST_bind, mret, ST_ret. f_equal. specialize (HR (c_str (Some n))).
      cbn [plain_get] in Hp. destruct (c_str (Some n)) as [|c s] eqn:E; [rewrite HR; reflexivity|].
      cbn [valid_name] in HR. rewrite Hp in HR. rewrite HR. reflexivity.
    + specialize (HR EmptyString). cbn in HR. change (c_str None) with EmptyString. rewrite HR. reflexivity.
  - unfold di_env_set, setenv. rewrite !c_str_eq. change (default EmptyString (Some n)) with n. change (default EmptyString (Some v)) with v. destruct (valid_name (till_nul n)) eqn:Hn.
    + eexists. split; [reflexivity|]. intros n'. destruct (valid_name n') eqn:Hn'.
      * rewrite (getenv_valid n' _ Hn'), (getenv_put _ _ _ _ Hn Hn'), lookup_insert. specialize (HR n').
        rewrite Hn', (getenv_valid n' _ Hn') in HR. repeat case_decide; congruence.
      * rewrite lookup_insert_ne by congruence. specialize (HR n'). rewrite Hn' in HR. exact HR.
    + exists env. split; [reflexivity|exact HR].
  - exists env. split; [reflexivity|exact HR].
  - exists env. split; [reflexivity|exact HR].
  - exists env. split; [reflexivity|exact HR].
  - unfold di_env_unset, unsetenv. rewrite !c_str_eq. change (default EmptyString (Some n)) with n. destruct (valid_name (till_nul n)) eqn:Hn.
    + eexists. split; [reflexivity|]. intros n'. destruct (valid_name n') eqn:Hn'.
      * rewrite (getenv_valid n' _ Hn'), (getenv_unset _ _ _ Hn Hn'), lookup_delete. specialize (HR n').
        rewrite Hn', (getenv_valid n' _ Hn') in HR. repeat case_decide; congruence.
      * rewrite lookup_delete_ne by congruence. specialize (HR n'). rewrite Hn' in HR. exact HR.
    + exists env. split; [reflexivity|]. rewrite delete_id; [exact HR|]. specialize (HR (till_nul n)).
      rewrite Hn in HR. exact HR.
  - exists env. split; [reflexivity|exact HR].
Qed.

(** The object [env] refines a map from names to values: reading gives the
    value that was set last, or the bottom variant; names and values are cut at
    their first NUL, setting an empty name or one with ["="] does nothing, and
    null strings are ignored. *)
Theorem env_refines_map (ps : list env_op) : ∀ (env : environ) (m : gmap string string),
  env_rel env m → forallb plain_get ps = true →
  ∃ env', run_envs ps env = Done (spec_envs ps m).1 env' ∧ env_rel env' (spec_envs ps m).2.
Proof.
  induction ps as [|p ps IH]; intros env m HR Hp.
  - exists env. split; [reflexivity|exact HR].
  - cbn [forallb] in Hp. apply andb_prop in Hp as [Hp Hps].
    destruct (run_env_refines p env m HR Hp) as (env1 & E1 & HR1).
    destruct (IH env1 _ HR1 Hps) as (env2 & E2 & HR2). exists env2.
    unfold run_envs in *. cbn [collect spec_envs]. unfold mbind, ST_bind. rewrite E1, E2.
    destruct (spec_env p m) as [v m1]. cbn [fst snd] in *. destruct (spec_envs ps m1) as [vs m2].
    split; [reflexivity|exact HR2].
Qed.

Lemma env_refines_map_witness :
  ∃ env', run_envs [EnvSet (Some "A") (Some "1"); EnvSet (Some "A=B") (Some "2"); EnvGet (Some "A"); EnvUnset (Some "A");
                    EnvGet (Some "A")]%string ["PATH=/bin"]%string =
          Done [VNil; VNil; VVariant (VStringLiteral "1"); VNil; DI_BOTTOM_VARIANT] env'.
Proof.
  destruct (env_refines_map [EnvSet (Some "A") (Some "1"); EnvSet (Some "A=B") (Some "2"); EnvGet (Some "A");
    EnvUnset (Some "A"); EnvGet (Some "A")]%string ["PATH=/bin"]%string {["PATH"%string := "/bin"%string]})
    as (env' & H & _).
  - intros n. destruct (valid_name n) eqn:Hn.
    + rewrite (getenv_valid n _ Hn). pose proof (getenv_put "PATH" n "/bin" [] eq_refl Hn) as E.
      cbn [put_entry] in E. change (assign "PATH" "/bin") with "PATH=/bin"%string in E. rewrite E.
      rewrite lookup_singleton. cbn [getenv_in]. repeat case_decide; congruence.
    + rewrite lookup_singleton_ne; [reflexivity|]. intros <-. discriminate.
  - reflexivity.
  - exists env'. rewrite H. vm_compute. reflexivity.
Defined.
