(* ===== verification/Cmdline.v ===== *)
(** * The command line, the plugin directory and the process title (main.c)

    The arguments are C strings: they have no NUL byte.  [atof] of the C library
    is a parameter. *)

From Stdlib Require Import Ascii.
From S2P Require Import Prelude Text DiTypes Strings.

Local Open Scope Z_scope.

(** ** Arguments *)

(** The part of [main] that splits ["module.method"] at the first dot. *)
Definition parse_target (arg : string) : option string * string :=
  match strchr "." arg with
  | Some (modname, method) => (Some modname, method)
  | None => (None, arg)
  end.

Inductive parsed (A : Type) : Type :=
  | Parsed (a : A)
  | Rejected (message : string).
Arguments Parsed {A} _.
Arguments Rejected {A} _.

Section args.
Context (atof : string → double).

(** One iteration of the loop over the arguments.  Of an empty argument the
    byte behind the terminator is read. *)
Definition parse_arg {S} (arg : string) : ST S (parsed value) :=
  match arg with
  | EmptyString => fail OutOfBounds
  | String t rest =>
      match rest with
      | String ":" s =>
          if Ascii.eqb t "i" then z ← atoll s; mret (Parsed (VInt z))
          else if Ascii.eqb t "s" then mret (Parsed (VStringLiteral s))
          else if Ascii.eqb t "f" then mret (Parsed (VFloat (atof s)))
          else mret (Rejected ("Invalid argument type: " +:+ arg))
      | _ => mret (Rejected ("Invalid argument: " +:+ arg))
      end
  end.

(** The loop: up to ["--"], or the message of the first invalid argument. *)
Fixpoint parse_args {S} (args : list string) : ST S (parsed (list value)) :=
  match args with
  | [] => mret (Parsed [])
  | arg :: args' =>
      if String.eqb arg "--" then mret (Parsed [])
      else
        r ← parse_arg arg;
        match r with
        | Rejected m => mret (Rejected m)
        | Parsed v =>
            rest ← parse_args args';
            match rest with
            | Rejected m => mret (Rejected m)
            | Parsed vs => mret (Parsed (v :: vs))
            end
        end
  end.
End args.

(** ** The plugin directory *)

Inductive d_type : Type := DT_REG | DT_UNKNOWN | DT_LNK | DT_OTHER.

(** An entry of the directory; [d_stat] is whether [fstatat] finds a regular
    file, if it succeeds. *)
Record dirent := Dirent { d_name : string; d_kind : d_type; d_stat : option bool }.

(** Whether the entry is a regular file; [None] when it cannot be told. *)
Definition is_reg (dent : dirent) : option bool :=
  match d_kind dent with
  | DT_REG => Some true
  | DT_OTHER => Some false
  | DT_UNKNOWN | DT_LNK => d_stat dent
  end.

(** [nlen >= 3 && strcmp(name + nlen - 3, ".so") == 0] *)
Definition is_so (name : string) : bool :=
  let nlen := String.length name in
  Nat.leb 3 nlen && String.eqb (drop_bytes (nlen - 3) name) ".so".

Section plugins.
Context {S : Type}.
(** [load_plugin_impl] *)
Context (load : string → ST S unit).

(** The loop over the entries: the result of the function, and whether the
    directory is closed. *)
Fixpoint scan_dir (rpath : string) (dents : list dirent) : ST S (Z * bool) :=
  match dents with
  | [] => mret (0, true)
  | dent :: dents' =>
      match is_reg dent with
      | None => mret (-1, false)
      | Some reg =>
          (if reg && is_so (d_name dent) then load (rpath +:+ "/" +:+ d_name dent) else mret tt);;
          scan_dir rpath dents'
      end
  end.

(** [load_plugin_from_dir_impl]; [dir] is the directory if it can be opened. *)
Definition load_plugin_from_dir_impl (rpath : string) (dir : option (list dirent)) : ST S (Z * bool) :=
  match dir with
  | None => mret (-1, true)
  | Some dents => scan_dir rpath dents
  end.

(** [load_plugin] and [load_plugin_from_dir], the methods of the core object;
    [realpath] and [open] are those of the C library and the entries that are read. *)
Definition load_plugin (sopath : di_string) : ST S unit :=
  match sopath with
  | None => mret tt
  | Some _ => load (c_str sopath)
  end.

Definition load_plugin_from_dir (realpath : string → string) (open : string → option (list dirent)) (path : di_string) :
    ST S (Z * bool) :=
  match path with
  | None => mret (-1, true)
  | Some _ =>
      match di_string_to_chars path PATH_MAX with
      | None => mret (-1, true)
      | Some path_str => load_plugin_from_dir_impl (realpath (till_nul path_str)) (open (till_nul path_str))
      end
  end.
End plugins.

(** ** The process

    [di_chdir], [di_get_argv] and [di_exec]; [chdir] is 0 or [errno], and [execvp]
    succeeds, after which nothing of this program runs any more, or not. *)
Section process.
Context {S : Type} (chdir : string → ST S Z) (execvp : string → list string → ST S bool).

Definition di_chdir (dir : di_string) : ST S Z :=
  match dir with
  | None => mret EINVAL
  | Some _ => errno ← chdir (c_str dir); mret (- errno)
  end.

Definition di_get_argv (argv : list string) : value := VArray DI_TYPE_STRING_LITERAL false (map VStringLiteral argv).

(** The elements are read as [struct di_string] whatever the type of the array is.
    The result is none when the program was replaced. *)
Definition read_string {T} (v : value) : ST T string := match v with VString s => mret (c_str s) | _ => fail TypeConfusion end.

Definition di_exec (argv : list value) : ST S (option Z) :=
  nargv ← collect read_string argv;
  match nargv with
  | [] => fail NullDeref
  | file :: _ => ok ← execvp file nargv; mret (if ok : bool then None else Some (-1))
  end.
End process.

(** The paths that are loaded when every entry can be examined. *)
Definition plugin_paths (rpath : string) (dents : list dirent) : list string :=
  map (λ d, rpath +:+ "/" +:+ d_name d)
    (List.filter (λ d, default false (is_reg d) && is_so (d_name d)) dents).

(** ** The process title *)

Fixpoint zeros (n : nat) : string :=
  match n with O => EmptyString | S n' => String zero (zeros n') end.

(** [di_set_pr_name], on the bytes from [proctitle] to [proctitle_end]:
    [memset] and [strncpy], which fills up with NUL bytes. *)
Definition di_set_pr_name (title : string) (name : di_string) : string :=
  match name with
  | None => title
  | Some data =>
      let size := String.length title in
      let nlen := String.length data in
      let n := if Nat.leb size (nlen + 1) then (size - 1)%nat else nlen in
      let copied := till_nul (take_bytes n data) in
      copied +:+ zeros (size - String.length copied)
  end.

(** The fields of [struct deai] for the title, and the pointers of [argv] and
    [environ]. *)
Record proc := Proc {
  pr_title : Z;
  pr_end : Z;
  pr_orig : Z;
  pr_argv : list Z;
  pr_environ : list Z
}.

(** [setproctitle_init]; [buf] is what [malloc] returns. *)
Definition setproctitle_init (pgsz buf : Z) (argv environ : list Z) : option proc :=
  title ← head argv;
  let offset := buf - title in
  Some (Proc title ((title / pgsz + 1) * pgsz) buf (map (Z.add offset) argv) (map (Z.add offset) environ)).

(** The part of [di_dtor] that puts the pointers back. *)
Definition revert_proctitle (p : proc) : list Z * list Z :=
  let offset := pr_title p - pr_orig p in
  let size := pr_end p - pr_title p in
  (map (Z.add offset) (pr_argv p),
   map (λ e, if (pr_orig p <=? e) && (e <? pr_orig p + size) then offset + e else e) (pr_environ p)).

(** ** Printing arguments *)

(** The decimal digits of a number, before [acc]. *)
Fixpoint print_digits (k : nat) (z : Z) (acc : string) : string :=
  match k with
  | O => acc
  | S k' =>
      let acc' := String (chr (48 + Z.to_nat (z mod 10))) acc in
      if z <? 10 then acc' else print_digits k' (z / 10) acc'
  end.

Definition print_Z (z : Z) : string :=
  if z <? 0 then String "-" (print_digits 20 (- z) EmptyString) else print_digits 20 z EmptyString.

Definition show_arg (v : value) : string :=
  match v with
  | VInt z => "i:" +:+ print_Z z
  | VStringLiteral s => "s:" +:+ s
  | _ => EmptyString
  end.

Definition show_target (t : option string * string) : string :=
  match t.1 with Some m => m +:+ String "." t.2 | None => t.2 end.

(** The values an argument can stand for, beside numbers with a fraction. *)
Definition arg_ok (v : value) : bool :=
  match v with VInt _ => int_ok v | VStringLiteral _ => true | _ => false end.

Definition target_ok (t : option string * string) : bool :=
  negb (has_char "." (default t.2 t.1)).

Lemma digit_chr z : 0 ≤ z < 10 → isdigit (chr (48 + Z.to_nat z)) = true ∧ digit_value (chr (48 + Z.to_nat z)) = z.
Proof.
  intros Hz. assert (z = 0 ∨ z = 1 ∨ z = 2 ∨ z = 3 ∨ z = 4 ∨ z = 5 ∨ z = 6 ∨ z = 7 ∨ z = 8 ∨ z = 9) as H by lia.
  repeat destruct H as [-> | H]; try (vm_compute; split; reflexivity). subst z. vm_compute. split; reflexivity.
Qed.

Lemma digits_from_cons a z s : 0 ≤ z < 10 → digits_from a (String (chr (48 + Z.to_nat z)) s) = digits_from (10 * a + z) s.
Proof. intros Hz. destruct (digit_chr z Hz) as [Hd Hv]. cbn [digits_from]. rewrite Hd, Hv. reflexivity. Qed.

Lemma print_digits_value k : ∀ z acc, 0 ≤ z < 10 ^ Z.of_nat k →
  ∃ n, 0 ≤ n ∧ ∀ a, digits_from a (print_digits k z acc) = digits_from (a * 10 ^ n + z) acc.
Proof.
  induction k as [|k IH]; intros z acc Hz; cbn [print_digits].
  - exists 0. split; [lia|]. intros a. f_equal. cbn in Hz. lia.
  - pose proof (Z.mod_pos_bound z 10 ltac:(lia)) as Hm. pose proof (Z.div_mod z 10 ltac:(lia)) as Hd.
    destruct (z <? 10) eqn:Hlt; [apply Z.ltb_lt in Hlt|apply Z.ltb_ge in Hlt].
    + exists 1. split; [lia|]. intros a. rewrite digits_from_cons by exact Hm.
      rewrite (Z.mod_small z 10) by lia. f_equal. lia.
    + rewrite Nat2Z.inj_succ, Z.pow_succ_r in Hz by lia.
      destruct (IH (z / 10) (String (chr (48 + Z.to_nat (z mod 10))) acc)) as (n & Hn & E).
      { split; [apply Z.div_pos; lia|apply Z.div_lt_upper_bound; lia]. }
      exists (n + 1). split; [lia|]. intros a. rewrite E, digits_from_cons by exact Hm. f_equal.
      rewrite Z.pow_add_r by lia. lia.
Qed.

Lemma print_digits_digits k : ∀ z acc, 0 ≤ z → all_digits acc = true →
  all_digits (print_digits k z acc) = true ∧ (acc ≠ EmptyString ∨ k ≠ O → print_digits k z acc ≠ EmptyString).
Proof.
  induction k as [|k IH]; intros z acc Hz Ha; cbn [print_digits].
  - split; [exact Ha|]. intros [H|H]; [exact H|congruence].
  - assert (all_digits (String (chr (48 + Z.to_nat (z mod 10))) acc) = true) as Ha'.
    { cbn [all_digits]. rewrite (proj1 (digit_chr _ (Z.mod_pos_bound z 10 ltac:(lia)))). exact Ha. }
    destruct (z <? 10).
    + split; [exact Ha'|]. discriminate.
    + destruct (IH (z / 10) _ ltac:(apply Z.div_pos; lia) Ha') as [H1 H2]. split; [exact H1|].
      intros _. apply H2. left. discriminate.
Qed.

Lemma strtol_print z : - 10 ^ 20 < z < 10 ^ 20 → strtol (print_Z z) = z.
Proof.
  intros Hz. unfold print_Z. destruct (z <? 0) eqn:Hs; [apply Z.ltb_lt in Hs|apply Z.ltb_ge in Hs].
  - destruct (print_digits_value 20 (- z) EmptyString ltac:(lia)) as (n & _ & E).
    unfold strtol. cbn [skip_space]. change (isspace "-") with false. cbn match. rewrite E. cbn [digits_from]. lia.
  - destruct (print_digits_value 20 z EmptyString ltac:(lia)) as (n & _ & E).
    destruct (print_digits_digits 20 z EmptyString Hs eq_refl) as [H1 H2].
    rewrite strtol_digits; [|exact H1|apply H2; auto]. rewrite E. cbn [digits_from]. lia.
Qed.

Lemma parse_show_arg {S} atof v (s : S) :
  arg_ok v = true → parse_arg atof (show_arg v) s = Done (Parsed v) s ∧ String.eqb (show_arg v) "--" = false.
Proof.
  destruct v; try discriminate; cbn [arg_ok int_ok].
  - intros [H1%Z.leb_le H2%Z.ltb_lt]%andb_prop. split; [|reflexivity].
    unfold parse_arg, show_arg, atoll, ato. change ("i:" +:+ print_Z z) with (String "i" (String ":" (print_Z z))).
    cbn match. change (Ascii.eqb "i" "i") with true. cbn match.
    rewrite strtol_print by lia. change (64 - 1) with 63. rewrite (proj2 (Z.leb_le _ _) H1), (proj2 (Z.ltb_lt _ _) H2).
    reflexivity.
  - intros _. split; reflexivity.
Qed.

Lemma parse_show_target t : target_ok t = true → parse_target (show_target t) = t.
Proof.
  destruct t as [[m|] method]; unfold target_ok, show_target, parse_target; cbn [fst snd default].
  - intros Hm%negb_true_iff. rewrite (strchr_app _ _ _ Hm). reflexivity.
  - intros Hm%negb_true_iff. rewrite (strchr_none _ _ Hm). reflexivity.
Qed.

(** C29. Print, then parse: a command line gives back the module, the method and the
    values it was printed from; a module name has no dot, a method without a
    module has none either, integers fit 64 bits.  What follows ["--"] is
    ignored. *)
Theorem cmdline_roundtrip {S} (atof : string → double) (t : option string * string) (vs : list value)
    (ignored : option (list string)) (s : S) :
  target_ok t = true → forallb arg_ok vs = true →
  parse_target (show_target t) = t ∧
  parse_args atof (map show_arg vs ++ from_option (cons "--"%string) [] ignored) s = Done (Parsed vs) s.
Proof.
  intros Ht Hvs. split; [apply parse_show_target, Ht|].
  induction vs as [|v vs IH]; cbn [map app].
  - destruct ignored; reflexivity.
  - cbn [forallb] in Hvs. apply andb_prop in Hvs as [Hv Hvs]. cbn [parse_args].
    destruct (parse_show_arg atof v s Hv) as [E ->]. unfold mbind, ST_bind. rewrite E, (IH Hvs). reflexivity.
Qed.

Lemma cmdline_roundtrip_witness :
  parse_target "lua.load_script" = (Some "lua", "load_script")%string ∧
  parse_args (λ _, SpecFloat.S754_zero false) ["s:a:b"; "i:-9223372036854775808"; "--"; "x"]%string tt =
  Done (Parsed [VStringLiteral "a:b"; VInt (- 2 ^ 63)]) tt.
Proof.
  pose proof (cmdline_roundtrip (λ _, SpecFloat.S754_zero false) (Some "lua", "load_script")%string
    [VStringLiteral "a:b"; VInt (- 2 ^ 63)] (Some ["x"%string]) tt eq_refl eq_refl) as H.
  vm_compute in H. vm_compute. exact H.
Defined.

(** ** Properties of the directory scan *)

Lemma scan_dir_app {S} (load : string → ST S unit) r : ∀ dents rest s,
  Forall (λ d, is_Some (is_reg d)) dents →
  scan_dir load r (dents ++ rest) s = (for_each load (plugin_paths r dents);; scan_dir load r rest) s.
Proof.
  induction dents as [|d dents IH]; intros rest s HF; [reflexivity|].
  apply Forall_cons in HF as [[reg Hr] HF]. cbn [app scan_dir]. rewrite Hr.
  unfold plugin_paths. cbn [List.filter]. rewrite Hr. change (default false (Some reg)) with reg.
  destruct (reg && is_so (d_name d)); cbn [map for_each]; unfold mbind, ST_bind, mret, ST_ret.
  - destruct (load _ s) as [[] s1| |]; [|reflexivity..]. exact (IH rest s1 HF).
  - exact (IH rest s HF).
Qed.

(** Loading the plugins of a directory loads exactly the regular files whose
    name ends in [".so"], in the order of the directory, and answers 0.  An
    entry that cannot be examined ends the scan with -1: the plugins before it
    stay loaded, and the directory stays open. *)
Theorem plugin_dir_scan {S} (load : string → ST S unit) (rpath : string) (dents rest : list dirent) (bad : dirent) (s : S) :
  Forall (λ d, is_Some (is_reg d)) dents → is_reg bad = None →
  load_plugin_from_dir_impl load rpath (Some dents) s = (for_each load (plugin_paths rpath dents);; mret (0, true)) s ∧
  load_plugin_from_dir_impl load rpath (Some (dents ++ bad :: rest)) s =
    (for_each load (plugin_paths rpath dents);; mret (-1, false)) s.
Proof.
  intros HF Hb. split; cbn [load_plugin_from_dir_impl].
  - rewrite <- (app_nil_r dents) at 1. exact (scan_dir_app load rpath dents [] s HF).
  - rewrite (scan_dir_app load rpath dents (bad :: rest) s HF). cbn [scan_dir]. rewrite Hb. reflexivity.
Qed.

Lemma plugin_dir_scan_witness :
  load_plugin_from_dir_impl (λ p, modify (cons p)) "/lib/deai"
    (Some [Dirent "." DT_OTHER None; Dirent "lua.so" DT_LNK (Some true); Dirent "lua.so.1" DT_REG None;
           Dirent "xorg.so" DT_REG None])%string [] = Done (0, true) ["/lib/deai/xorg.so"; "/lib/deai/lua.so"]%string.
Proof.
  destruct (plugin_dir_scan (λ p : string, modify (cons p)) "/lib/deai"
    [Dirent "." DT_OTHER None; Dirent "lua.so" DT_LNK (Some true); Dirent "lua.so.1" DT_REG None; Dirent "xorg.so" DT_REG None]%string
    [] (Dirent "x" DT_UNKNOWN None)%string [] ltac:(vm_decide) eq_refl) as [E _].
  rewrite E. vm_compute. reflexivity.
Defined.

(** A path that does not fit into the buffer is an error, and nothing is loaded. *)
Lemma load_plugin_from_dir_long {S} (load : string → ST S unit) realpath open (path : string) :
  (PATH_MAX ≤ String.length path)%nat → load_plugin_from_dir load realpath open (Some path) = mret (-1, true).
Proof.
  intros H. unfold load_plugin_from_dir, di_string_to_chars. cbn [default]. rewrite (proj2 (Nat.ltb_lt _ _)) by (cbn; lia). reflexivity.
Qed.

(** ** Properties of the process *)

(** The program that is run gets the strings, each up to its first NUL byte, and is
    looked up under the first one. *)
Lemma exec_arguments {S} (execvp : string → list string → ST S bool) (file : string) (args : list string) s :
  let argv := map till_nul (file :: args) in
  di_exec execvp (map (λ x, VString (Some x)) (file :: args)) s =
    (ok ← execvp (till_nul file) argv; mret (if ok : bool then None else Some (-1))) s.
Proof.
  intros argv. assert (∀ l s, collect (S := S) read_string (map (λ x, VString (Some x)) l) s = Done (map till_nul l) s) as H.
  { induction l as [|x l IH]; intros s'; [reflexivity|]. cbn [map collect].
    eapply then_done; [reflexivity|]. eapply then_done; [apply IH|]. cbn [read_string].
    assert (c_str (Some x) = till_nul x) as ->; [|reflexivity]. unfold c_str, di_string_to_chars_alloc, di_string_to_chars.
    cbn [default]. rewrite Nat.ltb_irrefl. apply till_nul_app. }
  unfold di_exec. erewrite then_done; [reflexivity|apply H|reflexivity].
Qed.

(** An array of anything else is read as an array of strings all the same. *)
Lemma exec_confuses_types {S} (execvp : string → list string → ST S bool) z argv s :
  di_exec execvp (VInt z :: argv) s = Crash TypeConfusion.
Proof. reflexivity. Qed.

(** ** Properties of the process title *)

Lemma length_zeros n : String.length (zeros n) = n.
Proof. induction n; cbn; congruence. Qed.

Lemma length_till_nul s : (String.length (till_nul s) ≤ String.length s)%nat.
Proof. induction s as [|c s IH]; [reflexivity|]. cbn. destruct (Ascii.eqb c zero); cbn; lia. Qed.

Lemma length_take_bytes n s : (String.length (take_bytes n s) ≤ n)%nat.
Proof. revert s. induction n as [|n IH]; intros [|c s]; cbn; try lia. specialize (IH s). lia. Qed.

Lemma take_bytes_long n s : (String.length s ≤ n)%nat → take_bytes n s = s.
Proof. revert s. induction n as [|n IH]; intros [|c s]; cbn; intros H; try reflexivity; [lia|]. f_equal. apply IH. lia. Qed.

Lemma till_nul_zeros s n : (0 < n)%nat → till_nul (till_nul s +:+ zeros n) = till_nul s.
Proof.
  destruct n as [|n]; [lia|]. intros _. change (zeros (S n)) with (String zero (zeros n)).
  rewrite till_nul_app, till_nul_plain; [reflexivity|]. apply has_char_till_nul.
Qed.

(** C30. Setting the process title stays within its memory and keeps it
    terminated: the title reads as the new name up to its first NUL byte, cut to
    the space there is without the terminator.  Starting up and shutting down
    moves the pointers of [argv] and [environ] back to where they were, except
    those to strings beyond the copied page, which are left pointing outside of
    any buffer. *)
Theorem proctitle_bounds (title data : string) (pgsz buf : Z) (argv environ : list Z) (p : proc) :
  (0 < String.length title)%nat → setproctitle_init pgsz buf argv environ = Some p →
  String.length (di_set_pr_name title (Some data)) = String.length title ∧
  till_nul (di_set_pr_name title (Some data)) = till_nul (take_bytes (String.length title - 1) data) ∧
  revert_proctitle p =
    (argv, map (λ e, if (pr_title p <=? e) && (e <? pr_end p) then e else e + (pr_orig p - pr_title p)) environ).
Proof.
  intros Ht Hp. unfold di_set_pr_name. set (size := String.length title).
  set (n := if Nat.leb size (String.length data + 1) then (size - 1)%nat else String.length data).
  assert (n ≤ size - 1)%nat as Hn.
  { unfold n. destruct (Nat.leb_spec size (String.length data + 1)); lia. }
  assert (take_bytes n data = take_bytes (size - 1) data) as E.
  { unfold n. destruct (Nat.leb_spec size (String.length data + 1)); [reflexivity|].
    rewrite !take_bytes_long by lia. reflexivity. }
  pose proof (length_till_nul (take_bytes n data)). pose proof (length_take_bytes n data).
  split; [|split].
  - rewrite length_append, length_zeros. lia.
  - rewrite till_nul_zeros by lia. rewrite E. reflexivity.
  - unfold setproctitle_init in Hp. destruct (head argv) as [t|]; [|discriminate]. injection Hp as <-.
    unfold revert_proctitle. cbn [pr_title pr_end pr_orig pr_argv pr_environ]. rewrite !map_map. f_equal.
    + rewrite <- (map_id argv) at 2. apply map_ext. intros a. lia.
    + apply map_ext. intros e. destruct (Z.leb_spec buf (buf - t + e)), (Z.leb_spec t e); cbn [andb]; try lia.
      destruct (Z.ltb_spec (buf - t + e) (buf + ((t / pgsz + 1) * pgsz - t))),
        (Z.ltb_spec e ((t / pgsz + 1) * pgsz)); lia.
Qed.

(** A name that does not fit, and an environment of two strings of which the
    second is behind the page. *)
Lemma proctitle_bounds_witness :
  let p := Proc 8000 8192 50000 [50000; 50005] [50100; 51000] in
  setproctitle_init 4096 50000 [8000; 8005] [8100; 9000] = Some p ∧
  till_nul (di_set_pr_name "deai" (Some "longer")) = "lon"%string ∧
  revert_proctitle p = ([8000; 8005], [8100; 51000]).
Proof.
  intros p. destruct (proctitle_bounds "deai" "longer" 4096 50000 [8000; 8005] [8100; 9000] p) as (_ & -> & ->);
    [cbn; lia|reflexivity|]. vm_compute. auto.
Defined.
