(* ===== verification/File.v ===== *)
(** * File watches (plugins/file/file.c)

    A watch object translates the events of an inotify descriptor into signals.
    Its entries are in two hash tables, by watch descriptor and by name.  The
    results of the system calls and the events that are read are inputs. *)

From Stdlib Require Import Ascii.
From S2P Require Import Prelude Text DiTypes Strings.

Local Open Scope Z_scope.

(** ** The watch object *)

(** [struct di_file_watch_entry] *)
Record entry := Entry { we_fname : string; we_wd : Z }.

#[export] Instance entry_eq_dec : EqDecision entry.
Proof. solve_decision. Defined.

(** [struct di_file_watch].  A hash table is the list of its keys with the
    addresses of the elements, newest first: among elements of the same key
    [HASH_FIND] meets the newest first as long as no bucket was expanded, which
    takes ten elements in one bucket.  [fw_event] tells
    whether the member [__inotify_fd_event] is there, [fw_wds] are the results
    of [inotify_add_watch] to come, [fw_log] the signals emitted so far. *)
Record watch := Watch {
  fw_open : bool;
  fw_event : bool;
  fw_entries : gmap nat entry;
  fw_bywd : list (Z * nat);
  fw_byname : list (string * nat);
  fw_next : nat;
  fw_wds : list Z;
  fw_log : list (string * list value)
}.

Fixpoint find_key {A} `{EqDecision A} (k : A) (t : list (A * nat)) : option nat :=
  match t with
  | [] => None
  | (k', i) :: t' => if decide (k' = k) then Some i else find_key k t'
  end.

(** [HASH_DEL] of the element [i]. *)
Definition del_elem {A} (i : nat) (t : list (A * nat)) : list (A * nat) :=
  List.filter (λ p, negb (Nat.eqb p.2 i)) t.

Definition deref (i : nat) : ST watch entry := λ fw,
  match fw_entries fw !! i with Some e => Done e fw | None => Crash UseAfterFree end.

Definition log_signal (name : string) (args : list value) : ST watch unit :=
  modify (λ fw, Watch (fw_open fw) (fw_event fw) (fw_entries fw) (fw_bywd fw) (fw_byname fw) (fw_next fw) (fw_wds fw)
                  (fw_log fw ++ [(name, args)])).

Definition inotify_add_watch (path : string) : ST watch Z := λ fw,
  match fw_wds fw with
  | [] => Done (-1) fw
  | w :: ws => Done w (Watch (fw_open fw) (fw_event fw) (fw_entries fw) (fw_bywd fw) (fw_byname fw) (fw_next fw) ws (fw_log fw))
  end.

(** ** Events *)

(** [struct inotify_event]; [ev_name] is empty when [len] is 0. *)
Record inotify_event := Event { ev_wd : Z; ev_mask : Z; ev_cookie : Z; ev_name : string }.

Definition IN_ACCESS : Z := 0x1.
Definition IN_MODIFY : Z := 0x2.
Definition IN_ATTRIB : Z := 0x4.
Definition IN_CLOSE_WRITE : Z := 0x8.
Definition IN_CLOSE_NOWRITE : Z := 0x10.
Definition IN_OPEN : Z := 0x20.
Definition IN_MOVED_FROM : Z := 0x40.
Definition IN_MOVED_TO : Z := 0x80.
Definition IN_CREATE : Z := 0x100.
Definition IN_DELETE : Z := 0x200.
Definition IN_DELETE_SELF : Z := 0x400.
Definition IN_MOVE_SELF : Z := 0x800.
Definition IN_IGNORED : Z := 0x8000.

(** The signals in the order of the code, and whether they carry the cookie. *)
Definition signals : list (Z * string * bool) :=
  [(IN_CREATE, "create", false); (IN_ACCESS, "access", false); (IN_ATTRIB, "attrib", false);
   (IN_CLOSE_WRITE, "close-write", false); (IN_CLOSE_NOWRITE, "close-nowrite", false);
   (IN_DELETE, "delete", false); (IN_DELETE_SELF, "delete-self", false); (IN_MODIFY, "modify", false);
   (IN_MOVE_SELF, "move-self", false); (IN_OPEN, "open", false);
   (IN_MOVED_FROM, "moved-from", true); (IN_MOVED_TO, "moved-to", true)]%string.

Section watching.

(** What the listeners of a signal do to the watch object. *)
Context (on_signal : string → list value → ST watch unit).

Definition signal_args (fname : string) (ev : inotify_event) (cookie : bool) : list value :=
  [VStringLiteral fname; VStringLiteral (till_nul (ev_name ev))] ++
  (if cookie then [VNUInt (ev_cookie ev)] else []).

(** The macro [emit], and the two tests after its uses. *)
Definition emit_if (we : nat) (ev : inotify_event) (s : Z * string * bool) : ST watch unit :=
  let '(m, name, cookie) := s in
  if Z.land (ev_mask ev) m =? 0 then mret tt
  else
    e ← deref we;
    let args := signal_args (we_fname e) ev cookie in
    log_signal name args;; on_signal name args.

(** One iteration of the loop of [di_file_ioev] on the events from [off] on; an
    event of an unknown watch is not skipped. *)
Definition ioev_step (evs : list inotify_event) : ST watch (option (list inotify_event)) :=
  match evs with
  | [] => mret None
  | ev :: rest =>
      fw ← get;
      match find_key (ev_wd ev) (fw_bywd fw) with
      | None => mret (Some evs)
      | Some we => for_each (emit_if we ev) signals;; mret (Some rest)
      end
  end.

(** [di_file_ioev] on the events that one [read] returned. *)
Definition di_file_ioev (fuel : nat) (evs : list inotify_event) : ST watch Z :=
  while_some fuel ioev_step evs;; mret 0.
End watching.

(** ** Adding and removing *)

(** [di_file_add_watch] *)
Definition di_file_add_watch (path : di_string) : ST watch Z :=
  match path with
  | None => mret EINVAL
  | Some p =>
      let path_str := c_str path in
      ret ← inotify_add_watch path_str;
      if ret <? 0 then mret ret
      else
        modify (λ fw,
          let i := fw_next fw in
          Watch (fw_open fw) (fw_event fw) (<[i := Entry path_str ret]> (fw_entries fw)) ((ret, i) :: fw_bywd fw)
            ((p, i) :: fw_byname fw) (S i) (fw_wds fw) (fw_log fw));;
        mret 0
  end.

(** A loop that stops at the first error. *)
Fixpoint add_all (paths : list di_string) : ST watch Z :=
  match paths with
  | [] => mret 0
  | p :: paths' => ret ← di_file_add_watch p; if ret =? 0 then add_all paths' else mret ret
  end.

Definition path_of (v : value) : option di_string :=
  match v with
  | VString s => Some s
  | VStringLiteral s => Some (di_string_borrow s)
  | _ => None
  end.

(** [di_file_add_many_watch] *)
Definition di_file_add_many_watch (elem_type : di_type) (paths : list value) : ST watch Z :=
  match paths with
  | [] => mret 0
  | _ =>
      if bool_decide (elem_type = DI_TYPE_STRING) || bool_decide (elem_type = DI_TYPE_STRING_LITERAL) then
        ps ← from_opt TypeConfusion (mapM path_of paths); add_all ps
      else mret EINVAL
  end.

Definition drop_entry (i : nat) : ST watch unit :=
  modify (λ fw, Watch (fw_open fw) (fw_event fw) (delete i (fw_entries fw)) (del_elem i (fw_bywd fw)) (del_elem i (fw_byname fw))
                  (fw_next fw) (fw_wds fw) (fw_log fw)).

(** [di_file_rm_watch] *)
Definition di_file_rm_watch (path : di_string) : ST watch Z :=
  match path with
  | None => mret EINVAL
  | Some p =>
      fw ← get;
      match find_key p (fw_byname fw) with
      | None => mret ENOENT
      | Some we => _ ← deref we; drop_entry we;; mret 0
      end
  end.

(** [stop_file_watcher]: the destructor. *)
Definition stop_file_watcher : ST watch unit :=
  fw ← get;
  check (fw_event fw);;
  modify (λ fw, Watch false (fw_event fw) (fw_entries fw) (fw_bywd fw) (fw_byname fw) (fw_next fw) (fw_wds fw) (fw_log fw));;
  for_each (λ p, _ ← deref p.2; drop_entry p.2) (rev (fw_bywd fw)).

(** ** Creating a watch *)

Inductive watch_result : Type :=
  | WatchError (msg : string)
  | WatchObject (fw : watch).

(** [di_file_new_watch]: the state counts the inotify descriptors that are
    open; [ifd] and [wds] are the results of the system calls, [has_eventm]
    tells whether the event module is found. *)
Definition di_file_new_watch (elem_type : di_type) (paths : list value) (ifd : Z) (has_eventm : bool) (wds : list Z)
    : ST nat watch_result :=
  if match paths with
     | [] => false
     | _ => negb (bool_decide (elem_type = DI_TYPE_STRING)) && negb (bool_decide (elem_type = DI_TYPE_STRING_LITERAL))
     end
  then mret (WatchError "Argument needs to be an array of strings")
  else if ifd <? 0 then mret (WatchError "Failed to create new inotify file descriptor")
  else
    modify S;;
    if negb has_eventm then mret (WatchError "Can't find event module")
    else
      match di_file_add_many_watch elem_type paths (Watch true true ∅ [] [] 0 wds []) with
      | Crash c => fail c
      | NoFuel => out_of_fuel
      | Done ret fw =>
          if ret =? 0 then mret (WatchObject fw)
          else
            match stop_file_watcher fw with
            | Done _ _ => modify pred;; mret (WatchError "Failed to add watches")
            | Crash c => fail c
            | NoFuel => out_of_fuel
            end
      end.

(** ** The abstract state: the watched paths, newest first *)

Abbreviation item := (string * Z * nat)%type (only parsing).

(** The tables hold the items [l]: their names, watch descriptors and
    addresses. *)
Record repr (l : list item) (fw : watch) : Prop := {
  re_name : fw_byname fw = (λ x, (x.1.1, x.2)) <$> l;
  re_wd : fw_bywd fw = (λ x, (x.1.2, x.2)) <$> l;
  re_nodup : NoDup (snd <$> l);
  re_entries : fw_entries fw = list_to_map ((λ x, (x.2, Entry (till_nul x.1.1) x.1.2)) <$> l);
  re_next : ∀ x, x ∈ l → (x.2 < fw_next fw)%nat
}.

Lemma find_item {A} `{EqDecision A} (f : item → A) (k : A) (l : list item) :
  match find_key k ((λ x, (f x, x.2)) <$> l) with
  | Some i => ∃ l1 x l2, l = l1 ++ x :: l2 ∧ i = x.2 ∧ f x = k ∧ Forall (λ x, f x ≠ k) l1
  | None => Forall (λ x, f x ≠ k) l
  end.
Proof.
  induction l as [|x l IH]; [constructor|]. cbn. case_decide as E; [exists [], x, l; auto|].
  destruct (find_key k _); [|auto]. destruct IH as (l1 & y & l2 & -> & Hi & Hy & Hl1).
  exists (x :: l1), y, l2. auto.
Qed.

Lemma del_elem_fmap {A} (f : item → A) (x : item) l1 l2 :
  NoDup (snd <$> l1 ++ x :: l2) →
  del_elem x.2 ((λ x, (f x, x.2)) <$> l1 ++ x :: l2) = (λ x, (f x, x.2)) <$> l1 ++ l2.
Proof.
  intros Hnd. rewrite fmap_app in Hnd. cbn in Hnd. apply NoDup_app in Hnd as (_ & Hd & [Hx _]%NoDup_cons).
  assert (∀ l, x.2 ∉ snd <$> l → del_elem x.2 ((λ x, (f x, x.2)) <$> l) = (λ x, (f x, x.2)) <$> l) as Hkeep.
  { induction l as [|y l IH]; [reflexivity|]. cbn. intros [Hy Hl]%not_elem_of_cons.
    destruct (Nat.eqb_spec y.2 x.2); [congruence|]. cbn. f_equal. exact (IH Hl). }
  unfold del_elem in *. rewrite !fmap_app, List.filter_app, Hkeep by (intros H; apply (Hd _ H); left).
  cbn. rewrite Nat.eqb_refl. cbn. rewrite Hkeep by exact Hx. reflexivity.
Qed.

(** The first item of a key, by its address. *)
Lemma item_entry l1 (x : item) l2 fw :
  repr (l1 ++ x :: l2) fw → fw_entries fw !! x.2 = Some (Entry (till_nul x.1.1) x.1.2).
Proof.
  intros HR. rewrite (re_entries _ _ HR). apply elem_of_list_to_map.
  - pose proof (re_nodup _ _ HR) as Hnd. rewrite <- list_fmap_compose. exact Hnd.
  - apply list_elem_of_fmap. exists x. split; [reflexivity|]. apply elem_of_app. right. left.
Qed.

Lemma drop_item l1 (x : item) l2 fw :
  repr (l1 ++ x :: l2) fw →
  ∃ fw', drop_entry x.2 fw = Done tt fw' ∧ repr (l1 ++ l2) fw' ∧ fw_wds fw' = fw_wds fw ∧
         fw_log fw' = fw_log fw ∧ fw_open fw' = fw_open fw ∧ fw_event fw' = fw_event fw.
Proof.
  intros [H1 H2 H3 H4 H5]. eexists. split; [reflexivity|]. split; [|auto].
  constructor; cbn [fw_byname fw_bywd fw_entries fw_next].
  - rewrite H1. apply (del_elem_fmap (λ x, x.1.1)). exact H3.
  - rewrite H2. apply (del_elem_fmap (λ x, x.1.2)). exact H3.
  - rewrite fmap_app in H3 |- *. cbn in H3. apply NoDup_app in H3 as (Hn1 & Hd & [_ Hn2]%NoDup_cons).
    apply NoDup_app. split; [exact Hn1|]. split; [|exact Hn2]. intros y Hy Hy2. apply (Hd y Hy). right. exact Hy2.
  - rewrite H4. apply map_eq. intros i. rewrite lookup_delete.
    rewrite fmap_app in H3. cbn in H3. apply NoDup_app in H3 as (_ & Hd & [Hx _]%NoDup_cons).
    rewrite !fmap_app, !list_to_map_app. cbn. case_decide as E.
    + subst i. symmetry. apply lookup_union_None. split; apply not_elem_of_list_to_map; rewrite <- list_fmap_compose.
      * intros Hy. apply (Hd _ Hy). left.
      * exact Hx.
    + rewrite !lookup_union, lookup_insert_ne by exact E. reflexivity.
  - intros y Hy. apply H5. rewrite elem_of_app in *. rewrite elem_of_cons. tauto.
Qed.

(** ** The abstract operations *)

Inductive file_op : Type :=
  | FAdd (path : di_string)
  | FRemove (path : di_string).

Definition run_file (p : file_op) : ST watch Z :=
  match p with FAdd path => di_file_add_watch path | FRemove path => di_file_rm_watch path end.

(** Remove the newest item of a name. *)
Fixpoint remove_name (p : string) (l : list (string * Z)) : option (list (string * Z)) :=
  match l with
  | [] => None
  | x :: l' => if decide (x.1 = p) then Some l' else cons x <$> remove_name p l'
  end.

(** The watched paths and the results of the system call to come. *)
Definition spec_file (p : file_op) (st : list (string * Z) * list Z) : Z * (list (string * Z) * list Z) :=
  match p with
  | FAdd None | FRemove None => (EINVAL, st)
  | FAdd (Some path) =>
      match st.2 with
      | [] => (-1, st)
      | w :: ws => if w <? 0 then (w, (st.1, ws)) else (0, ((path, w) :: st.1, ws))
      end
  | FRemove (Some path) =>
      match remove_name path st.1 with Some l => (0, (l, st.2)) | None => (ENOENT, st) end
  end.

Fixpoint spec_files (ps : list file_op) (st : list (string * Z) * list Z) : list Z * (list (string * Z) * list Z) :=
  match ps with
  | [] => ([], st)
  | p :: ps' => let (r, st1) := spec_file p st in let (rs, st2) := spec_files ps' st1 in (r :: rs, st2)
  end.

Definition abs (l : list item) (fw : watch) : list (string * Z) * list Z := (fst <$> l, fw_wds fw).

Lemma remove_name_none p l : Forall (λ x : item, x.1.1 ≠ p) l → remove_name p (fst <$> l) = None.
Proof.
  induction 1 as [|x l Hx _ IH]; [reflexivity|]. cbn. rewrite decide_False by exact Hx.
  change (list_fmap _ _ fst l) with (fst <$> l). rewrite IH. reflexivity.
Qed.

Lemma remove_name_some p l1 (x : item) l2 :
  Forall (λ x : item, x.1.1 ≠ p) l1 → x.1.1 = p → remove_name p (fst <$> l1 ++ x :: l2) = Some (fst <$> l1 ++ l2).
Proof.
  intros Hl1 Hx. induction Hl1 as [|y l1 Hy _ IH]; cbn.
  - rewrite decide_True by exact Hx. reflexivity.
  - rewrite decide_False by exact Hy. change (list_fmap _ _ fst (l1 ++ x :: l2)) with (fst <$> l1 ++ x :: l2).
    rewrite IH. reflexivity.
Qed.

Lemma file_op_refines p l fw :
  repr l fw →
  ∃ l' fw', run_file p fw = Done (spec_file p (abs l fw)).1 fw' ∧ repr l' fw' ∧ abs l' fw' = (spec_file p (abs l fw)).2 ∧
            fw_log fw' = fw_log fw ∧ fw_event fw' = fw_event fw.
Proof.
  intros HR. destruct p as [[p|]|[p|]]; cbn [run_file spec_file].
  - unfold di_file_add_watch, inotify_add_watch, mbind, ST_bind. cbn [snd abs].
    destruct (fw_wds fw) as [|w ws] eqn:Ew.
    { exists l, fw. unfold abs. rewrite Ew. auto. }
    destruct (w <? 0) eqn:Hw.
    { eexists l, _. split; [reflexivity|]. split; [|auto]. destruct HR. constructor; assumption. }
    eexists ((p, w, fw_next fw) :: l), _. split; [reflexivity|]. split; [|auto]. destruct HR as [H1 H2 H3 H4 H5].
    constructor; cbn [fw_byname fw_bywd fw_entries fw_next].
    + rewrite H1. reflexivity.
    + rewrite H2. reflexivity.
    + cbn. apply NoDup_cons. split; [|exact H3]. intros (y & Hy & Hin)%list_elem_of_fmap. specialize (H5 y Hin). lia.
    + rewrite H4, c_str_eq. reflexivity.
    + intros y [->|Hy]%elem_of_cons; [cbn; lia|]. specialize (H5 y Hy). lia.
  - exists l, fw. auto.
  - unfold di_file_rm_watch, get, mbind, ST_bind. rewrite (re_name _ _ HR).
    pose proof (find_item (λ x : item, x.1.1) p l) as HF. destruct (find_key p _) as [i|].
    + destruct HF as (l1 & x & l2 & -> & -> & Hx & Hl1). unfold deref. rewrite (item_entry _ _ _ _ HR).
      destruct (drop_item _ _ _ _ HR) as (fw' & E & HR' & Ew & El & _ & Ee). rewrite E.
      unfold abs. cbn [fst snd]. rewrite (remove_name_some p l1 x l2 Hl1 Hx). cbn [fst snd].
      exists (l1 ++ l2), fw'. rewrite Ew. auto.
    + unfold abs. cbn [fst snd]. rewrite (remove_name_none p l HF). exists l, fw. auto.
  - exists l, fw. auto.
Qed.

Lemma stop_drops : ∀ l fw, repr l fw →
  ∃ fw', for_each (λ p : Z * nat, _ ← deref p.2; drop_entry p.2) (rev ((λ x : item, (x.1.2, x.2)) <$> l)) fw = Done tt fw' ∧
         repr [] fw' ∧ fw_open fw' = fw_open fw.
Proof.
  induction l as [|x l IH] using rev_ind; intros fw HR; [exists fw; auto|].
  rewrite fmap_app, rev_app_distr. cbn [fmap list_fmap rev app for_each snd]. unfold mbind at 1, ST_bind at 1.
  unfold mbind at 1, ST_bind at 1. unfold deref. rewrite (item_entry _ _ _ _ HR).
  destruct (drop_item _ _ _ _ HR) as (fw1 & E & HR1 & _ & _ & Eo & _). rewrite E. rewrite app_nil_r in HR1.
  destruct (IH fw1 HR1) as (fw2 & E2 & HR2 & Eo2). exists fw2. split; [exact E2|]. split; [exact HR2|congruence].
Qed.

Lemma stop_ok l fw : repr l fw → fw_event fw = true →
  ∃ fw', stop_file_watcher fw = Done tt fw' ∧ repr [] fw' ∧ fw_open fw' = false.
Proof.
  intros HR He. unfold stop_file_watcher, get, mbind, ST_bind. rewrite He. cbn [check mret ST_ret modify].
  unfold modify, mret, ST_ret. cbn [fw_bywd]. rewrite (re_wd _ _ HR).
  match goal with |- context [for_each _ _ ?s] => destruct (stop_drops l s) as (fw' & E & HR' & Eo) end;
    [destruct HR; constructor; first [assumption|reflexivity]|]. exists fw'. auto.
Qed.

(** C38. A watch object refines a list of watched paths, newest first: adding
    puts a path with its watch descriptor in front, removing takes out the newest
    entry of the name or answers ENOENT; the two tables always hold the same
    entries, none of which is freed while it is in a table.  After any sequence
    of operations, stopping the watch closes the descriptor and frees every
    entry. *)
Theorem file_watch_refines (ps : list file_op) : ∀ (l : list (string * Z * nat)) (fw : watch), repr l fw →
  ∃ l' fw', collect run_file ps fw = Done (spec_files ps (abs l fw)).1 fw' ∧ repr l' fw' ∧
    abs l' fw' = (spec_files ps (abs l fw)).2 ∧
    (fw_event fw = true → ∃ fw'', stop_file_watcher fw' = Done tt fw'' ∧ repr [] fw'' ∧ fw_open fw'' = false).
Proof.
  induction ps as [|p ps IH]; intros l fw HR.
  - exists l, fw. split; [reflexivity|]. split; [exact HR|]. split; [reflexivity|]. exact (stop_ok l fw HR).
  - destruct (file_op_refines p l fw HR) as (l1 & fw1 & E1 & HR1 & A1 & _ & Ee).
    destruct (IH l1 fw1 HR1) as (l2 & fw2 & E2 & HR2 & A2 & Hs). exists l2, fw2.
    cbn [collect spec_files]. unfold mbind, ST_bind. rewrite E1, E2, A1. rewrite A1 in A2. rewrite Ee in Hs.
    destruct (spec_file p (abs l fw)) as [r st1]. cbn [fst snd] in *. destruct (spec_files ps st1) as [rs st2].
    auto.
Qed.

Lemma file_watch_refines_witness :
  ∃ fw', collect run_file [FAdd (Some "a"); FAdd (Some "b"); FRemove (Some "a"); FRemove (Some "a")]%string
           (Watch true true ∅ [] [] 0 [1; 2] []) = Done [0; 0; 0; ENOENT] fw' ∧ fw_bywd fw' = [(2, 1%nat)].
Proof.
  destruct (file_watch_refines [FAdd (Some "a"); FAdd (Some "b"); FRemove (Some "a"); FRemove (Some "a")]%string []
              (Watch true true ∅ [] [] 0 [1; 2] [])) as (l & fw' & H & _).
  - constructor; try reflexivity; [constructor|intros x Hx; inversion Hx].
  - exists fw'. rewrite H. split; [vm_compute; reflexivity|]. vm_compute in H. injection H as <-. reflexivity.
Defined.

(** ** Events *)

Definition no_listener (name : string) (args : list value) : ST watch unit := mret tt.

(** The signals for an event of the watch of [fname]. *)
Definition event_signals (fname : string) (ev : inotify_event) : list (string * list value) :=
  omap (λ s : Z * string * bool,
          if Z.land (ev_mask ev) s.1.1 =? 0 then None else Some (s.1.2, signal_args fname ev s.2)) signals.

Fixpoint name_of_wd (w : Z) (l : list (string * Z)) : option string :=
  match l with
  | [] => None
  | (name, v) :: l' => if decide (v = w) then Some name else name_of_wd w l'
  end.

Definition with_log (log : list (string * list value)) (fw : watch) : watch :=
  Watch (fw_open fw) (fw_event fw) (fw_entries fw) (fw_bywd fw) (fw_byname fw) (fw_next fw) (fw_wds fw) log.

Lemma repr_with_log l fw log : repr l fw → repr l (with_log log fw).
Proof. intros []. constructor; assumption. Qed.

Lemma emit_signals (ev : inotify_event) (x : item) ss : ∀ fw,
  fw_entries fw !! x.2 = Some (Entry (till_nul x.1.1) x.1.2) →
  for_each (emit_if no_listener x.2 ev) ss fw =
  Done tt (with_log (fw_log fw ++ omap (λ s : Z * string * bool,
          if Z.land (ev_mask ev) s.1.1 =? 0 then None
          else Some (s.1.2, signal_args (till_nul x.1.1) ev s.2)) ss) fw).
Proof.
  induction ss as [|[[m name] cookie] ss IH]; intros fw Hx; cbn [for_each omap list_omap fst snd].
  - rewrite app_nil_r. destruct fw. reflexivity.
  - unfold mbind at 1, ST_bind at 1. unfold emit_if at 1. destruct (Z.land (ev_mask ev) m =? 0).
    + exact (IH fw Hx).
    + unfold deref, log_signal, no_listener, mbind, ST_bind. rewrite Hx. cbn [we_fname modify mret ST_ret].
      unfold modify, mret, ST_ret. rewrite IH by exact Hx. unfold with_log. cbn. rewrite <- app_assoc. reflexivity.
Qed.

Lemma find_wd w (l : list item) :
  match find_key w ((λ x, (x.1.2, x.2)) <$> l) with
  | Some i => ∃ l1 x l2, l = l1 ++ x :: l2 ∧ i = x.2 ∧ name_of_wd w (fst <$> l) = Some x.1.1
  | None => name_of_wd w (fst <$> l) = None
  end.
Proof.
  induction l as [|[[p v] i] l IH]; [reflexivity|]. cbn. case_decide as E.
  - exists [], (p, v, i), l. auto.
  - destruct (find_key w _); [|exact IH]. destruct IH as (l1 & y & l2 & -> & Hi & Hn).
    exists ((p, v, i) :: l1), y, l2. auto.
Qed.

(** When every event belongs to a watch, [di_file_ioev] ends after as many
    iterations as there are events and has emitted, in order, exactly the signals
    of the bits of each event, with the watched path, the name in the event and,
    for moves, the cookie; nothing else changes. *)
Theorem file_events (l : list (string * Z * nat)) (evs : list inotify_event) : ∀ (fw : watch),
  repr l fw → Forall (λ ev, is_Some (name_of_wd (ev_wd ev) (fst <$> l))) evs →
  di_file_ioev no_listener (S (length evs)) evs fw =
  Done 0 (with_log (fw_log fw ++ concat (map (λ ev,
    match name_of_wd (ev_wd ev) (fst <$> l) with Some p => event_signals (till_nul p) ev | None => [] end) evs)) fw).
Proof.
  induction evs as [|ev evs IH]; intros fw HR Hevs.
  - cbn. rewrite app_nil_r. destruct fw. reflexivity.
  - apply Forall_cons in Hevs as [[p Hp] Hevs]. unfold di_file_ioev. cbn [length].
    change (while_some (S (S (length evs))) (ioev_step no_listener) (ev :: evs)) with
      (r ← ioev_step no_listener (ev :: evs);
       match r with None => mret tt | Some a' => while_some (S (length evs)) (ioev_step no_listener) a' end).
    cbn [ioev_step]. unfold get, mbind, ST_bind. rewrite (re_wd _ _ HR).
    pose proof (find_wd (ev_wd ev) l) as HF. destruct (find_key (ev_wd ev) _) as [i|]; [|congruence].
    destruct HF as (l1 & x & l2 & El & -> & Hx). rewrite El in HR.
    rewrite (emit_signals ev x signals fw (item_entry _ _ _ _ HR)). rewrite <- El in HR.
    cbn [mret ST_ret]. unfold mret, ST_ret.
    specialize (IH _ (repr_with_log l fw (fw_log fw ++ event_signals (till_nul x.1.1) ev) HR) Hevs).
    unfold di_file_ioev, mbind, ST_bind, mret, ST_ret in IH. unfold event_signals in IH at 1.
    match goal with |- context [while_some ?n ?f ?a ?s] => destruct (while_some n f a s) as [[] s'| |] end;
      [|discriminate..].
    injection IH as ->. f_equal. cbn [map concat]. rewrite Hx. unfold with_log. cbn [fw_log].
    rewrite <- app_assoc. reflexivity.
Qed.

Lemma file_events_witness :
  match di_file_ioev no_listener 3 [Event 1 IN_CREATE 0 "new"; Event 2 IN_MOVED_TO 7 ""]%string
          (Watch true true (list_to_map [(0%nat, Entry "/a" 1); (1%nat, Entry "/b" 2)]) [(1, 0%nat); (2, 1%nat)]
             [("/a"%string, 0%nat); ("/b"%string, 1%nat)] 2 [] []) with
  | Done r fw => r = 0 ∧ fw_log fw = [("create", [VStringLiteral "/a"; VStringLiteral "new"]);
                                     ("moved-to", [VStringLiteral "/b"; VStringLiteral ""; VNUInt 7])]%string
  | _ => False
  end.
Proof.
  rewrite (file_events [("/a", 1, 0%nat); ("/b", 2, 1%nat)]%string [_; _]).
  - vm_compute. auto.
  - constructor; try reflexivity; [vm_decide|].
    intros x Hx. repeat (apply elem_of_cons in Hx as [->|Hx]; [cbn; lia|]). inversion Hx.
  - repeat constructor; vm_compute; eauto.
Defined.

Lemma name_of_wd_in w l p : name_of_wd w l = Some p → (p, w) ∈ l.
Proof.
  induction l as [|[q v] l IH]; [discriminate|]. cbn. case_decide as E.
  - intros [= ->]. rewrite E. left.
  - intros H. right. exact (IH H).
Qed.

(** After a name is removed, its watch descriptor is in no table. *)
Lemma removed_wd l1 (x : item) l2 p w :
  NoDup ((l1 ++ x :: l2).*1.*1) → NoDup ((l1 ++ x :: l2).*1.*2) →
  name_of_wd w (l1 ++ x :: l2).*1 = Some p → x.1.1 = p → name_of_wd w (l1 ++ l2).*1 = None.
Proof.
  intros Hn Hw Hp%name_of_wd_in Hx.
  assert ((p, x.1.2) ∈ (l1 ++ x :: l2).*1) as Hin.
  { apply list_elem_of_fmap. exists x. split; [destruct x as [[]]; cbn in *; congruence|].
    apply elem_of_app. right. left. }
  assert (x.1.2 = w) as E.
  { apply (elem_of_list_to_map (M := gmap string) _ _ _ Hn) in Hp, Hin. congruence. }
  destruct (name_of_wd w (l1 ++ l2).*1) as [q|] eqn:Hq; [|reflexivity]. exfalso.
  apply name_of_wd_in in Hq. apply (list_elem_of_fmap_2 snd) in Hq. cbn in Hq.
  rewrite !fmap_app in Hw, Hq. cbn in Hw. rewrite E in Hw. apply NoDup_app in Hw as (_ & Hd & [Hw _]%NoDup_cons).
  apply elem_of_app in Hq as [Hq|Hq]; [|exact (Hw Hq)]. apply (Hd w Hq). left.
Qed.

(** Removing a watch hangs the program: the kernel answers
    [inotify_rm_watch] with an event [IN_IGNORED] for the removed descriptor,
    and [di_file_ioev] never gets past an event of a descriptor that is not in
    its table, whatever the listeners do. *)
Theorem removed_watch_hangs (on_signal : string → list value → ST watch unit) (l : list (string * Z * nat))
    (fw fw' : watch) (p : string) (w cookie : Z) (rest : list inotify_event) (fuel : nat) :
  repr l fw → name_of_wd w (fst <$> l) = Some p → NoDup (l.*1.*1) → NoDup (l.*1.*2) →
  di_file_rm_watch (Some p) fw = Done 0 fw' →
  di_file_ioev on_signal fuel (Event w IN_IGNORED cookie "" :: rest) fw' = NoFuel.
Proof.
  intros HR Hp Hn Hw Hrm.
  assert (find_key w (fw_bywd fw') = None) as Hnone.
  { unfold di_file_rm_watch, get, mbind, ST_bind in Hrm. rewrite (re_name _ _ HR) in Hrm.
    pose proof (find_item (λ x : item, x.1.1) p l) as HF. destruct (find_key p _) as [i|]; [|discriminate].
    destruct HF as (l1 & x & l2 & -> & -> & Hx & Hl1). unfold deref in Hrm. rewrite (item_entry _ _ _ _ HR) in Hrm.
    destruct (drop_item _ _ _ _ HR) as (fw1 & E & HR' & _). rewrite E in Hrm. injection Hrm as <-.
    rewrite (re_wd _ _ HR'). pose proof (find_wd w (l1 ++ l2)) as HF. destruct (find_key w _); [|reflexivity].
    destruct HF as (k1 & y & k2 & _ & _ & Hy). rewrite (removed_wd _ _ _ _ _ Hn Hw Hp Hx) in Hy. discriminate. }
  unfold di_file_ioev, mbind, ST_bind.
  assert (while_some fuel (ioev_step on_signal) (Event w IN_IGNORED cookie "" :: rest) fw' = NoFuel) as ->; [|reflexivity].
  induction fuel as [|fuel IH]; [reflexivity|]. cbn [while_some ioev_step]. unfold get, mbind, ST_bind in *.
  cbn [ev_wd]. rewrite Hnone. exact IH.
Qed.

Lemma removed_watch_hangs_witness :
  let fw := Watch true true {[0%nat := Entry "/a" 1]} [(1, 0%nat)] [("/a"%string, 0%nat)] 1 [] [] in
  match di_file_rm_watch (Some "/a"%string) fw with
  | Done _ fw' => di_file_ioev no_listener 1000 [Event 1 IN_IGNORED 0 ""] fw' = NoFuel
  | _ => False
  end.
Proof.
  intros fw. destruct (di_file_rm_watch (Some "/a"%string) fw) as [r fw'| |] eqn:E; [|vm_compute in E; discriminate..].
  assert (r = 0) as -> by (vm_compute in E; injection E as <-; reflexivity).
  apply (removed_watch_hangs no_listener [("/a", 1, 0%nat)]%string fw fw' "/a" 1 0 []).
  - constructor; try reflexivity; [vm_decide|]. intros x ->%list_elem_of_singleton. cbn. lia.
  - reflexivity.
  - vm_decide.
  - vm_decide.
  - exact E.
Defined.

(** ** Creating a watch *)

Lemma add_many_runs ps : ∀ l fw, repr l fw →
  ∃ rc l' fw', add_all ps fw = Done rc fw' ∧ repr l' fw' ∧ fw_event fw' = fw_event fw.
Proof.
  induction ps as [|p ps IH]; intros l fw HR; [exists 0, l, fw; auto|]. cbn [add_all].
  destruct (file_op_refines (FAdd p) l fw HR) as (l1 & fw1 & E & HR1 & _ & _ & Ee). cbn [run_file] in E.
  unfold mbind, ST_bind. rewrite E. destruct (_ =? 0); [|eauto 6].
  destruct (IH l1 fw1 HR1) as (rc & l2 & fw2 & E2 & HR2 & Ee2). exists rc, l2, fw2. split; [exact E2|].
  split; [exact HR2|congruence].
Qed.

(** [di_file_new_watch] answers for every outcome of its calls.  It keeps
    the descriptor exactly when it returns a watch - and when the event module is
    missing, where it returns an error without dropping the object. *)
Theorem new_watch_fds (elem_type : di_type) (paths : list value) (ifd : Z) (has_eventm : bool) (wds : list Z) (n : nat) :
  forallb (λ v, bool_decide (type_of v = elem_type)) paths = true →
  ∃ res n', di_file_new_watch elem_type paths ifd has_eventm wds n = Done res n' ∧
    n' = match res with
         | WatchObject _ => S n
         | WatchError msg => if bool_decide (msg = "Can't find event module"%string) then S n else n
         end.
Proof.
  intros Hp. unfold di_file_new_watch. destruct (match paths with [] => false | _ => _ end) eqn:Ht; [eauto|].
  destruct (ifd <? 0); [eauto|]. unfold mbind at 1, ST_bind at 1. cbn [modify].
  unfold modify. destruct has_eventm; cbn [negb]; [|eauto].
  assert (repr [] (Watch true true ∅ [] [] 0 wds [])) as HR
    by (constructor; try reflexivity; [constructor|intros x Hx; inversion Hx]).
  assert (∃ rc l fw, di_file_add_many_watch elem_type paths (Watch true true ∅ [] [] 0 wds []) = Done rc fw ∧
            repr l fw ∧ fw_event fw = true) as (rc & l & fw & -> & HR' & He).
  { unfold di_file_add_many_watch. destruct paths as [|v paths]; [eauto 6|].
    destruct (bool_decide (elem_type = DI_TYPE_STRING)) eqn:Es; [|destruct (bool_decide (elem_type = DI_TYPE_STRING_LITERAL)) eqn:El];
      cbn [orb negb andb] in *; [..|discriminate].
    all: assert (is_Some (mapM path_of (v :: paths))) as [qs Hqs]
      by (apply mapM_is_Some, Forall_forall; intros x Hx%list_elem_of_In;
          apply (proj1 (forallb_forall _ _) Hp), bool_decide_eq_true in Hx;
          repeat match goal with H : bool_decide _ = true |- _ => apply bool_decide_eq_true in H end;
          destruct x; cbn in Hx; simplify_eq; cbn; eauto).
    all: rewrite Hqs; unfold mbind, ST_bind; cbn [from_opt mret ST_ret]; unfold mret, ST_ret;
      destruct (add_many_runs qs _ _ HR) as (rc & l & fw & E & HR' & He); eauto 6. }
  destruct (rc =? 0); [eauto|].
  destruct (stop_ok l fw HR' He) as (fw' & -> & _). eauto.
Qed.

Lemma new_watch_fds_witness :
  ∃ res n', di_file_new_watch DI_TYPE_STRING [VString (Some "/a"%string)] 7 true [-1] 0%nat = Done res n' ∧ n' = 0%nat.
Proof.
  destruct (new_watch_fds DI_TYPE_STRING [VString (Some "/a"%string)] 7 true [-1] 0%nat) as (res & n' & E & Hn);
    [reflexivity|]. exists res, n'. split; [exact E|]. vm_compute in E. injection E as <- <-. reflexivity.
Defined.
