(* ===== verification/Key.v ===== *)
(** * Key bindings (plugins/xorg/key.c)

    A binding grabs the key codes of a key symbol with a set of modifiers and
    emits signals when they are pressed.  The X server is the set of grabs; the
    keyboard mapping, and whether a grab is refused, are inputs. *)

From Stdlib Require Import Ascii.
From S2P Require Import Prelude Text StringBuf DiTypes Strings.

(** ** Modifiers *)

Definition modifier_names : list string :=
  ["shift"; "lock"; "control"; "mod1"; "mod2"; "mod3"; "mod4"; "mod5"]%string.

Definition XCB_NO_SYMBOL : Z := 0.
Definition XCB_MOD_MASK_CONTROL : Z := 4.
Definition XCB_BUTTON_MASK_ANY : Z := 32768.

(** The first name the key name abbreviates, with its mask. *)
Fixpoint match_mod (data : string) (names : list string) (mask : Z) : option (option Z) :=
  match names with
  | [] => Some None
  | n :: names' =>
      b ← strncasecmp0 (String.length data) data n;
      if (b : bool) then Some (Some mask) else match_mod data names' (mask * 2)%Z
  end.

(** [name_to_mod]; [None] would be a read past the end of the name. *)
Definition name_to_mod (keyname : di_string) : option Z :=
  let data := default EmptyString keyname in
  r ← match_mod data modifier_names 1;
  match r with
  | Some mask => Some mask
  | None =>
      c ← strncasecmp0 (String.length data) data "ctrl";
      if (c : bool) then Some XCB_MOD_MASK_CONTROL
      else
        a ← strncasecmp0 (String.length data) data "any";
        Some (if (a : bool) then XCB_BUTTON_MASK_ANY else XCB_NO_SYMBOL)
  end.

(** The loop over the modifiers of [new_binding]: the mask, or an error. *)
Fixpoint mods_of (names : list di_string) (mods : Z) : option (option Z) :=
  match names with
  | [] => Some (Some mods)
  | n :: names' =>
      tmp ← name_to_mod n;
      if Z.eqb tmp XCB_NO_SYMBOL then Some None else mods_of names' (Z.lor mods tmp)
  end.

(** The loop of [describe_keybinding] over the modifier names; the result tells
    whether no modifier was pushed yet. *)
Fixpoint push_mods (names : list string) (mask modifiers : Z) (first_modifier : bool) : ST string_buf bool :=
  match names with
  | [] => mret first_modifier
  | n :: names' =>
      if Z.eqb (Z.land modifiers mask) 0 then push_mods names' (mask * 2)%Z modifiers first_modifier
      else
        (if first_modifier then mret tt else string_buf_push "+");;
        string_buf_push n;;
        push_mods names' (mask * 2)%Z modifiers false
  end.

(** [describe_keybinding]; [keyname] is what [xkb_keysym_get_name] writes. *)
Definition describe_keybinding (modifiers : Z) (keyname : option string) : ST string_buf string :=
  first_modifier ← push_mods modifier_names 1 modifiers true;
  (if (first_modifier : bool) then mret tt else string_buf_push "+");;
  string_buf_push (default "(invalid)"%string keyname);;
  string_buf_dump.

(** [mod_from_keycode]: the reply lists [keycodes_per_modifier] key codes for
    each of the 8 modifiers; [length] is the reply length field. *)
Record mapping_reply := MappingReply { mr_length : nat; mr_keycodes_per_modifier : nat; mr_keycodes : list Z }.

Fixpoint scan_keycodes (n i per : nat) (kcs : list Z) (kc ret : Z) : option Z :=
  match n with
  | O => Some ret
  | S n' =>
      k ← kcs !! i;
      scan_keycodes n' (S i) per kcs kc
        (if negb (Z.eqb k XCB_NO_SYMBOL) && Z.eqb k kc then Z.lor ret (Z.shiftl 1 (Z.of_nat (i / per))) else ret)
  end.

Definition mod_from_keycode (r : option mapping_reply) (kc : Z) : option Z :=
  match r with
  | None => Some 0%Z
  | Some r =>
      if Nat.eqb (mr_keycodes_per_modifier r) 0 then Some 0%Z
      else scan_keycodes (mr_length r) 0 (mr_keycodes_per_modifier r) (mr_keycodes r) kc 0
  end.

(** ** Bindings *)

(** [struct keybinding]; [b_keycodes] is the array before its terminator, or a
    null pointer. *)
Record binding := Binding {
  b_keysym : Z;
  b_keycodes : option (list Z);
  b_modifiers : Z;
  b_replay : bool;
  b_refs : nat;
  b_dtor : bool
}.

(** [struct xorg_key] with the bindings that are allocated, the list of those
    that are linked, newest first, the references to the extension object, the
    grabs of the X server, and the signals emitted so far.  [ks_errs] tells for
    the grabs to come whether they are refused. *)
Record keys := Keys {
  ks_bindings : gmap nat binding;
  ks_ring : list nat;
  ks_dc : bool;
  ks_keymap : Z → option (list Z);
  ks_errs : list bool;
  ks_grabs : gset (Z * Z);
  ks_refs : nat;
  ks_next : nat;
  ks_log : list (nat * string);
  ks_allow : list bool
}.

Definition rd_kb (i : nat) : ST keys binding := λ s,
  match ks_bindings s !! i with Some b => Done b s | None => Crash UseAfterFree end.
Definition set_bindings (m : gmap nat binding) (s : keys) : keys :=
  Keys m (ks_ring s) (ks_dc s) (ks_keymap s) (ks_errs s) (ks_grabs s) (ks_refs s) (ks_next s) (ks_log s) (ks_allow s).
Definition wr_kb (i : nat) (b : binding) : ST keys unit := modify (λ s, set_bindings (<[i := b]> (ks_bindings s)) s).
Definition set_grabs (g : gset (Z * Z)) (s : keys) : keys :=
  Keys (ks_bindings s) (ks_ring s) (ks_dc s) (ks_keymap s) (ks_errs s) g (ks_refs s) (ks_next s) (ks_log s) (ks_allow s).
Definition set_ring (l : list nat) (s : keys) : keys :=
  Keys (ks_bindings s) l (ks_dc s) (ks_keymap s) (ks_errs s) (ks_grabs s) (ks_refs s) (ks_next s) (ks_log s) (ks_allow s).
Definition set_krefs (n : nat) (s : keys) : keys :=
  Keys (ks_bindings s) (ks_ring s) (ks_dc s) (ks_keymap s) (ks_errs s) (ks_grabs s) n (ks_next s) (ks_log s) (ks_allow s).

Definition with_refs (n : nat) (b : binding) : binding :=
  Binding (b_keysym b) (b_keycodes b) (b_modifiers b) (b_replay b) n (b_dtor b).
Definition with_codes (c : option (list Z)) (b : binding) : binding :=
  Binding (b_keysym b) c (b_modifiers b) (b_replay b) (b_refs b) (b_dtor b).
Definition with_kdtor (d : bool) (b : binding) : binding :=
  Binding (b_keysym b) (b_keycodes b) (b_modifiers b) (b_replay b) (b_refs b) d.

Definition codes_of (m : Z) (ks : list Z) : gset (Z * Z) := list_to_set (map (λ k, (k, m)) ks).

(** [ungrab] *)
Definition ungrab (i : nat) : ST keys unit :=
  kb ← rd_kb i;
  s ← get;
  if ks_dc s then
    ks ← from_opt NullDeref (b_keycodes kb);
    modify (λ s, set_grabs (ks_grabs s ∖ codes_of (b_modifiers kb) ks) s)
  else mret tt.

(** [di_unref_object] of the extension object. *)
Definition unref_k : ST keys unit :=
  s ← get;
  match ks_refs s with
  | O => fail RefUnderflow
  | S n => modify (set_krefs n)
  end.

(** [binding_dtor] *)
Definition binding_dtor (i : nat) : ST keys unit :=
  ungrab i;;
  modify (λ s, set_ring (List.filter (λ j, negb (Nat.eqb j i)) (ks_ring s)) s);;
  unref_k.

(** [di_ref_object], [di_unref_object] and [di_finalize_object] of a binding:
    the destructor runs once. *)
Definition ref_kb (i : nat) : ST keys unit := kb ← rd_kb i; wr_kb i (with_refs (S (b_refs kb)) kb).

Definition run_dtor_kb (i : nat) : ST keys unit :=
  kb ← rd_kb i;
  if b_dtor kb then wr_kb i (with_kdtor false kb);; binding_dtor i else mret tt.

Definition unref_kb (i : nat) : ST keys unit :=
  kb ← rd_kb i;
  match b_refs kb with
  | O => fail RefUnderflow
  | S n =>
      wr_kb i (with_refs n kb);;
      if Nat.eqb n 0 then run_dtor_kb i;; modify (λ s, set_bindings (delete i (ks_bindings s)) s) else mret tt
  end.

Definition finalize_kb (i : nat) : ST keys unit := ref_kb i;; run_dtor_kb i;; unref_kb i.

(** One [xcb_grab_key_checked]; a grab that is refused is logged. *)
Definition grab_key (m k : Z) : ST keys unit := λ s,
  match ks_errs s with
  | true :: es =>
      Done tt (Keys (ks_bindings s) (ks_ring s) (ks_dc s) (ks_keymap s) es (ks_grabs s) (ks_refs s) (ks_next s)
                 (ks_log s) (ks_allow s))
  | es =>
      Done tt (Keys (ks_bindings s) (ks_ring s) (ks_dc s) (ks_keymap s) (tl es) ({[(k, m)]} ∪ ks_grabs s) (ks_refs s)
                 (ks_next s) (ks_log s) (ks_allow s))
  end.

(** [refresh_binding] *)
Definition refresh_binding (i : nat) : ST keys Z :=
  kb ← rd_kb i;
  match b_keycodes kb with
  | Some _ => ungrab i;; kb ← rd_kb i; wr_kb i (with_codes None kb)
  | None => mret tt
  end;;
  s ← get;
  match ks_keymap s (b_keysym kb) with
  | None => mret (-1)%Z
  | Some kc =>
      kb ← rd_kb i;
      wr_kb i (with_codes (Some kc) kb);;
      if negb (ks_dc s) then fail NullDeref
      else for_each (grab_key (b_modifiers kb)) kc;; mret 0%Z
  end.

(** [new_binding]; [ks] is what [xkb_keysym_from_name] returns, and [names] the
    array of modifiers. *)
Definition new_binding (names : list di_string) (elem_type : di_type) (ks : Z) (replay : bool) : ST keys (string + nat) :=
  s ← get;
  if negb (ks_dc s) then mret (inl "Connection died"%string)
  else if Z.eqb ks 0 then mret (inl "Invalid key name"%string)
  else if match names with [] => false | _ => negb (bool_decide (elem_type = DI_TYPE_STRING)) end
  then mret (inl "Invalid modifiers"%string)
  else
    m ← from_opt OutOfBounds (mods_of names 0);
    match m with
    | None => mret (inl "Invalid modifiers"%string)
    | Some mods =>
        let i := ks_next s in
        modify (λ s, Keys (<[i := Binding ks None mods replay 1 true]> (ks_bindings s)) (i :: ks_ring s) (ks_dc s)
                       (ks_keymap s) (ks_errs s) (ks_grabs s) (S (ks_refs s)) (S i) (ks_log s) (ks_allow s));;
        ret ← refresh_binding i;
        if Z.eqb ret 0 then mret (inr i)
        else unref_kb i;; mret (inl "Failed to setup key grab"%string)
    end.

(** The node after [i] in the list, read from [i] itself. *)
Fixpoint after (i : nat) (l : list nat) : option (option nat) :=
  match l with
  | [] => None
  | j :: l' => if Nat.eqb i j then Some (head l') else after i l'
  end.

Definition next_kb (i : nat) : ST keys (option nat) := s ← get; from_opt StaleIter (after i (ks_ring s)).

(** A loop [list_for_each_entry_safe] over the bindings. *)
Definition for_each_safe (body : nat → ST keys unit) : ST keys unit :=
  s ← get;
  match head (ks_ring s) with
  | None => mret tt
  | Some i => while_some (S (length (ks_ring s))) (λ i, nkb ← next_kb i; body i;; mret nkb) i
  end.

(** A loop [list_for_each_entry]: the successor is read after the body. *)
Definition for_each_unsafe (body : nat → ST keys unit) : ST keys unit :=
  s ← get;
  match head (ks_ring s) with
  | None => mret tt
  | Some i => while_some (S (length (ks_ring s))) (λ i, body i;; next_kb i) i
  end.

(** [free_key] *)
Definition free_key : ST keys unit := for_each_safe finalize_kb.

Inductive key_event : Type :=
  | KeyPress (detail state : Z)
  | KeyRelease (detail state : Z) (r : option mapping_reply)
  | MappingPointer
  | MappingNotify (changed : bool) (keymap : Z → option (list Z))
  | OtherEvent.

Definition emit_key (i : nat) (event : string) : ST keys unit :=
  modify (λ s, Keys (ks_bindings s) (ks_ring s) (ks_dc s) (ks_keymap s) (ks_errs s) (ks_grabs s) (ks_refs s)
                 (ks_next s) (ks_log s ++ [(i, event)]) (ks_allow s)).
Definition allow_events (replay : bool) : ST keys unit :=
  modify (λ s, Keys (ks_bindings s) (ks_ring s) (ks_dc s) (ks_keymap s) (ks_errs s) (ks_grabs s) (ks_refs s)
                 (ks_next s) (ks_log s) (ks_allow s ++ [replay])).
Definition set_keymap (keymap : Z → option (list Z)) : ST keys unit :=
  modify (λ s, Keys (ks_bindings s) (ks_ring s) (ks_dc s) keymap (ks_errs s) (ks_grabs s) (ks_refs s)
                 (ks_next s) (ks_log s) (ks_allow s)).

(** The body of the loop over the bindings: the new value of [replay], which a
    binding with other modifiers leaves, together with its reference. *)
Definition match_binding (event : string) (kc mods : Z) (i : nat) (replay : bool) : ST keys bool :=
  kb ← rd_kb i;
  if negb (Z.eqb (b_modifiers kb) mods) then mret replay
  else
    ks ← from_opt NullDeref (b_keycodes kb);
    if existsb (Z.eqb kc) ks then emit_key i event;; unref_kb i;; mret (b_replay kb)
    else unref_kb i;; mret replay.

Fixpoint match_loop (fuel : nat) (event : string) (kc mods : Z) (i : option nat) (replay : bool) : ST keys bool :=
  match i with
  | None => mret replay
  | Some i =>
      match fuel with
      | O => out_of_fuel
      | S k =>
          nkb ← next_kb i;
          replay' ← match_binding event kc mods i replay;
          match_loop k event kc mods nkb replay'
      end
  end.

Definition match_all (event : string) (kc mods : Z) : ST keys bool :=
  s ← get; match_loop (length (ks_ring s)) event kc mods (head (ks_ring s)) true.

(** The part of [handle_key] after the switch. *)
Definition dispatch_key (event : string) (kc mods : Z) : ST keys Z :=
  for_each_safe ref_kb;;
  replay ← match_all event kc mods;
  allow_events replay;;
  mret 0%Z.

(** [handle_key] *)
Definition handle_key (ev : key_event) : ST keys Z :=
  match ev with
  | KeyPress detail state => dispatch_key "pressed" detail state
  | KeyRelease detail state r =>
      m ← from_opt OutOfBounds (mod_from_keycode r detail);
      dispatch_key "released" detail (Z.land state (Z.lnot m))
  | MappingPointer => mret 1%Z
  | MappingNotify changed keymap =>
      (if changed then
         set_keymap keymap;;
         for_each_unsafe (λ i, ret ← refresh_binding i; if Z.eqb ret 0 then mret tt else finalize_kb i)
       else mret tt);;
      mret 1%Z
  | OtherEvent => mret 1%Z
  end.

(** [new_key] *)
Definition new_key (keymap : Z → option (list Z)) (errs : list bool) : keys :=
  Keys ∅ [] true keymap errs ∅ 1 0 [] [].

(** ** Descriptions *)

(** The names of the bits of a mask, lowest first. *)
Fixpoint mod_names (names : list string) (mask modifiers : Z) : list string :=
  match names with
  | [] => []
  | n :: names' =>
      let rest := mod_names names' (mask * 2)%Z modifiers in
      if Z.eqb (Z.land modifiers mask) 0 then rest else n :: rest
  end.

(** The strings joined by ["+"]. *)
Fixpoint join_plus (l : list string) : string :=
  match l with
  | [] => EmptyString
  | [s] => s
  | s :: l' => s +:+ "+" +:+ join_plus l'
  end.

Definition chunk (s : string) : string * nat := (s, String.length s).

(** What the loop pushes: every name after the first behind a ["+"]. *)
Definition plus_names (first_modifier : bool) (l : list string) : list string :=
  match l with
  | [] => []
  | s :: l' => (if first_modifier then [s] else ["+"%string; s]) ++ concat (map (λ s, ["+"%string; s]) l')
  end.

Lemma push_rep b l s : rep b (map chunk l) → has_char zero s = false →
  ∃ b', string_buf_push s b = Done tt b' ∧ rep b' (map chunk (l ++ [s])).
Proof. intros HR Hs. unfold string_buf_push. rewrite (till_nul_plain s Hs), map_app. apply append_rep, HR. Qed.

Lemma push_plus b l first : rep b (map chunk l) →
  ∃ b', (if (first : bool) then mret tt else string_buf_push "+") b = Done tt b' ∧
        rep b' (map chunk (l ++ if first then [] else ["+"%string])).
Proof.
  intros HR. destruct first; [exists b; rewrite app_nil_r; auto|]. apply push_rep; [exact HR|reflexivity].
Qed.

Lemma push_mods_rep modifiers names : ∀ mask first b l,
  Forall (λ n, has_char zero n = false) names → rep b (map chunk l) →
  ∃ b', push_mods names mask modifiers first b = Done (first && bool_decide (mod_names names mask modifiers = [])) b' ∧
        rep b' (map chunk (l ++ plus_names first (mod_names names mask modifiers))).
Proof.
  induction names as [|n names IH]; intros mask first b l Hn HR; cbn [push_mods mod_names].
  - exists b. rewrite bool_decide_true, andb_true_r by reflexivity. cbn. rewrite app_nil_r. auto.
  - apply Forall_cons in Hn as [Hn Hns]. destruct (Z.eqb _ _); [apply (IH _ _ _ _ Hns HR)|].
    destruct (push_plus b l first HR) as (b1 & E1 & HR1). destruct (push_rep b1 _ n HR1 Hn) as (b2 & E2 & HR2).
    destruct (IH (mask * 2)%Z false b2 _ Hns HR2) as (b3 & E3 & HR3). exists b3.
    unfold mbind, ST_bind. rewrite E1, E2, E3. rewrite (bool_decide_false (n :: _ = [])) by discriminate.
    rewrite andb_false_r. split; [reflexivity|]. rewrite <- !app_assoc in HR3.
    match goal with |- rep _ (map chunk ?x) =>
      match type of HR3 with rep _ (map chunk ?y) => replace x with y; [exact HR3|] end end.
    f_equal. destruct first, (mod_names names _ modifiers); cbn; rewrite ?app_nil_r; reflexivity.
Qed.

Lemma text_chunks l : text (map chunk l) = foldr String.append EmptyString l.
Proof. induction l as [|s l IH]; [reflexivity|]. exact (f_equal (String.append s) IH). Qed.

Lemma join_names l s :
  foldr String.append EmptyString (plus_names true l ++ (if bool_decide (l = []) then [] else ["+"%string]) ++ [s]) =
  join_plus (l ++ [s]).
Proof.
  destruct l as [|x l]; [cbn; apply cat_nil|]. rewrite bool_decide_false by discriminate.
  revert x. induction l as [|y l IH]; intros x.
  - cbn. rewrite cat_nil. reflexivity.
  - specialize (IH y). cbn in IH |- *. rewrite <- IH. reflexivity.
Qed.

(** The description of a binding is the names of its modifiers, in the order
    of their bits, and the name of its key, joined by ["+"]. *)
Theorem describe_keybinding_join (modifiers : Z) (keyname : option string) :
  has_char zero (default EmptyString keyname) = false →
  ∃ b, describe_keybinding modifiers keyname string_buf_new =
       Done (join_plus (mod_names modifier_names 1 modifiers ++ [default "(invalid)"%string keyname])) b.
Proof.
  intros Hk. unfold describe_keybinding.
  destruct (push_mods_rep modifiers modifier_names 1 true string_buf_new []) as (b & E & HR);
    [repeat constructor|apply new_rep|]. cbn [andb app] in E, HR.
  unfold mbind at 1, ST_bind at 1. rewrite E. set (names := mod_names modifier_names 1 modifiers) in *.
  destruct (push_plus b _ (bool_decide (names = [])) HR) as (b1 & E1 & HR1).
  assert (has_char zero (default "(invalid)"%string keyname) = false) as Hk' by (destruct keyname; [exact Hk|reflexivity]).
  destruct (push_rep b1 _ _ HR1 Hk') as (b2 & E2 & HR2). unfold mbind, ST_bind. rewrite E1, E2.
  destruct (dump_rep b2 _ HR2) as (b3 & E3 & _).
  { intros s k (x & Hx & _)%list_elem_of_fmap. unfold chunk in Hx. injection Hx as -> ->. reflexivity. }
  exists b3. rewrite E3, text_chunks, <- app_assoc, join_names. reflexivity.
Qed.

Lemma describe_keybinding_join_witness :
  ∃ b, describe_keybinding 5 (Some "Return"%string) string_buf_new = Done "shift+control+Return"%string b.
Proof.
  destruct (describe_keybinding_join 5 (Some "Return"%string) eq_refl) as [b H]. exists b. rewrite H. vm_compute. reflexivity.
Defined.

(** ** Modifiers of a key code *)

Lemma scan_keycodes_spec n : ∀ i per kcs kc ret,
  per ≠ 0 → kc ≠ 0%Z → i + n ≤ length kcs →
  ∃ m, scan_keycodes n i per kcs kc ret = Some m ∧
    ∀ j : nat, Z.testbit m (Z.of_nat j) = true ↔
      Z.testbit ret (Z.of_nat j) = true ∨ ∃ x, i ≤ x < i + n ∧ x / per = j ∧ kcs !! x = Some kc.
Proof.
  induction n as [|n IH]; intros i per kcs kc ret Hper Hkc Hlen; cbn [scan_keycodes].
  - exists ret. split; [reflexivity|]. intros j. split; [auto|]. intros [H|(x & Hx & _)]; [exact H|lia].
  - destruct (lookup_lt_is_Some_2 kcs i ltac:(lia)) as [k Hk]. rewrite Hk. cbn [mbind option_bind].
    set (ret' := if negb (Z.eqb k XCB_NO_SYMBOL) && Z.eqb k kc then _ else ret).
    destruct (IH (S i) per kcs kc ret' Hper Hkc ltac:(lia)) as (m & E & Hm). exists m. split; [exact E|].
    assert (∀ j : nat, Z.testbit ret' (Z.of_nat j) = true ↔
              Z.testbit ret (Z.of_nat j) = true ∨ (i / per = j ∧ k = kc)) as Hret.
    { intros j. unfold ret', XCB_NO_SYMBOL. destruct (Z.eqb_spec k kc) as [->|Hne].
      - rewrite (proj2 (Z.eqb_neq kc 0) Hkc). cbn [negb andb]. rewrite Z.lor_spec, Z.shiftl_1_l, orb_true_iff.
        rewrite Z.pow2_bits_eqb, Z.eqb_eq by lia. rewrite Nat2Z.inj_iff. tauto.
      - rewrite andb_false_r. tauto. }
    intros j. rewrite Hm, Hret. split.
    + intros [[H|[H1 ->]]|(x & Hx & H1 & H2)]; [auto|right; exists i; split; [lia|auto]|right; exists x; split; [lia|auto]].
    + intros [H|(x & Hx & H1 & H2)]; [auto|]. destruct (decide (x = i)) as [->|Hne].
      * left. right. split; [exact H1|congruence].
      * right. exists x. split; [lia|auto].
Qed.

(** [mod_from_keycode] only finds shift and lock.  The reply field it uses as
    the number of key codes counts units of four bytes, of which there are twice
    the key codes per modifier, where there are eight times as many key codes. *)
Theorem mod_from_keycode_spec (per : nat) (kcs : list Z) (kc : Z) :
  per ≠ 0 → length kcs = 8 * per → kc ≠ 0%Z →
  ∃ m, mod_from_keycode (Some (MappingReply (2 * per) per kcs)) kc = Some m ∧
    ∀ j : nat, Z.testbit m (Z.of_nat j) = true ↔ j < 2 ∧ ∃ n, n < per ∧ kcs !! (j * per + n) = Some kc.
Proof.
  intros Hper Hlen Hkc. unfold mod_from_keycode. cbn [mr_keycodes_per_modifier mr_length mr_keycodes].
  rewrite (proj2 (Nat.eqb_neq per 0) Hper).
  destruct (scan_keycodes_spec (2 * per) 0 per kcs kc 0 Hper Hkc ltac:(lia)) as (m & E & Hm).
  exists m. split; [exact E|]. intros j. rewrite Hm, Z.bits_0. split.
  - intros [H|(x & Hx & <- & Hl)]; [discriminate|]. pose proof (Nat.div_mod_eq x per).
    pose proof (Nat.mod_upper_bound x per Hper). split; [apply Nat.Div0.div_lt_upper_bound; lia|].
    exists (x mod per). split; [lia|]. rewrite Nat.mul_comm, <- H. exact Hl.
  - intros (Hj & n & Hn & Hl). right. exists (j * per + n). split; [nia|]. split; [|exact Hl].
    rewrite Nat.div_add_l, Nat.div_small by lia. lia.
Qed.

(** Key code 37 is the only one of the third modifier, control. *)
Lemma mod_from_keycode_spec_witness :
  ∃ m, mod_from_keycode (Some (MappingReply 4 2 [50; 62; 66; 0; 37; 105; 64; 0; 77; 0; 0; 0; 133; 0; 0; 0]%Z)) 37 = Some m ∧
    Z.testbit m 2 = false.
Proof.
  destruct (mod_from_keycode_spec 2 [50; 62; 66; 0; 37; 105; 64; 0; 77; 0; 0; 0; 133; 0; 0; 0]%Z 37) as (m & E & Hm);
    [lia|reflexivity|lia|]. exists m. split; [exact E|]. specialize (Hm 2).
  destruct (Z.testbit m 2) eqn:Hb; [|reflexivity]. destruct (proj1 Hm Hb) as [Hlt _]. lia.
Defined.

(** Binding a key that the keyboard does not have crashes: the object is
    dropped before it has key codes, and its destructor reads them. *)
Theorem missing_key_crashes (names : list di_string) (ks m : Z) (replay : bool) (s : keys) :
  ks_dc s = true → ks ≠ 0%Z → mods_of names 0 = Some (Some m) → ks_keymap s ks = None →
  new_binding names DI_TYPE_STRING ks replay s = Crash NullDeref.
Proof.
  intros Hdc Hks Hm Hmap. unfold new_binding, get, mbind, ST_bind. rewrite Hdc. cbn [negb].
  rewrite (proj2 (Z.eqb_neq ks 0) Hks).
  assert ((match names with [] => false | _ => negb (bool_decide (DI_TYPE_STRING = DI_TYPE_STRING)) end) = false) as ->
    by (destruct names; reflexivity).
  rewrite Hm. cbn [from_opt mret ST_ret]. unfold mret, ST_ret. cbn [modify].
  unfold refresh_binding, rd_kb, get, modify, mbind, ST_bind, mret, ST_ret. cbn [ks_bindings].
  rewrite lookup_insert_eq. cbn [b_keycodes ks_keymap b_keysym]. rewrite Hmap. cbn [Z.eqb].
  unfold unref_kb, rd_kb, wr_kb, set_bindings, run_dtor_kb, binding_dtor, ungrab, rd_kb, get, modify, mbind, ST_bind, mret, ST_ret.
  repeat first [rewrite lookup_insert_eq | rewrite Hdc | progress simpl]. reflexivity.
Qed.

Lemma missing_key_crashes_witness :
  new_binding [Some "ctrl"%string] DI_TYPE_STRING 65 false (new_key (λ _, None) []) = Crash NullDeref.
Proof. apply (missing_key_crashes _ 65 4); [reflexivity|discriminate|reflexivity..]. Defined.

(** ** Dispatching a key *)

Lemma after_split i l1 l2 : i ∉ l1 → after i (l1 ++ i :: l2) = Some (head l2).
Proof.
  induction l1 as [|j l1 IH]; cbn; [rewrite Nat.eqb_refl; reflexivity|].
  intros [Hj Hl]%not_elem_of_cons. rewrite (proj2 (Nat.eqb_neq i j) Hj). exact (IH Hl).
Qed.

Lemma next_kb_split i l1 l2 s : ks_ring s = l1 ++ i :: l2 → NoDup (ks_ring s) → next_kb i s = Done (head l2) s.
Proof.
  intros E Hnd. unfold next_kb, get, mbind, ST_bind. rewrite E in *. apply NoDup_app in Hnd as (_ & Hd & _).
  rewrite after_split; [reflexivity|]. intros Hi. apply (Hd i Hi). left.
Qed.

(** A loop over the bindings whose body keeps the list. *)
Lemma for_each_safe_eq (body : nat → ST keys unit) s :
  (∀ i s, match body i s with Done _ s' => ks_ring s' = ks_ring s | _ => True end) → NoDup (ks_ring s) →
  for_each_safe body s = for_each body (ks_ring s) s.
Proof.
  intros Hb Hnd. set (step := λ i, nkb ← next_kb i; body i;; mret nkb).
  assert (∀ l1 i l2 s1, ks_ring s1 = ks_ring s → ks_ring s = l1 ++ i :: l2 →
    step i s1 = match body i s1 with Done _ s2 => Done (head l2) s2 | Crash c => Crash c | NoFuel => NoFuel end) as Hstep.
  { intros l1 i l2 s1 E1 E. unfold step, mbind, ST_bind.
    rewrite (next_kb_split i l1 _ s1 (eq_trans E1 E) (eq_ind_r NoDup Hnd E1)). reflexivity. }
  assert (∀ l2 l1 i n s1, ks_ring s1 = ks_ring s → ks_ring s = l1 ++ i :: l2 → length l2 < n →
    while_some n step i s1 = for_each body (i :: l2) s1) as Hw.
  { induction l2 as [|j l2 IH]; intros l1 i n s1 E1 E Hn; (destruct n as [|n]; [lia|]); cbn [while_some];
      unfold mbind, ST_bind; rewrite (Hstep l1 i _ s1 E1 E); cbn [for_each]; unfold mbind at 1, ST_bind at 1;
      pose proof (Hb i s1) as Hi; destruct (body i s1) as [[] s2| |]; try reflexivity.
    cbn [head]. cbn in Hn. apply (IH (l1 ++ [i]) j n s2); [congruence|rewrite <- app_assoc; exact E|lia]. }
  unfold for_each_safe, get. unfold mbind at 1, ST_bind at 1. fold step.
  destruct (ks_ring s) as [|i l] eqn:E; [reflexivity|]. cbn [head]. apply (Hw l [] i); [congruence|reflexivity|cbn; lia].
Qed.

(** The bindings of [l] changed by [f]. *)
Definition on_ids (l : list nat) (f : binding → binding) (m : gmap nat binding) : gmap nat binding :=
  map_imap (λ i b, Some (if decide (i ∈ l) then f b else b)) m.

Lemma on_ids_lookup l f m i : on_ids l f m !! i = (λ b, if decide (i ∈ l) then f b else b) <$> m !! i.
Proof. unfold on_ids. rewrite map_lookup_imap. destruct (m !! i); reflexivity. Qed.

Lemma on_ids_cons i l f m b : m !! i = Some b → i ∉ l → on_ids l f (<[i := f b]> m) = on_ids (i :: l) f m.
Proof.
  intros Hb Hi. apply map_eq. intros j. rewrite !on_ids_lookup. destruct (decide (j = i)) as [->|Hne].
  - rewrite lookup_insert_eq, Hb. cbn. rewrite decide_False by exact Hi. rewrite decide_True by left. reflexivity.
  - rewrite lookup_insert_ne by congruence. destruct (m !! j); [|reflexivity]. cbn. f_equal.
    repeat case_decide; try reflexivity; set_solver.
Qed.

Lemma ref_all l : ∀ s, NoDup l → (∀ i, i ∈ l → is_Some (ks_bindings s !! i)) →
  for_each ref_kb l s = Done tt (set_bindings (on_ids l (λ b, with_refs (S (b_refs b)) b) (ks_bindings s)) s).
Proof.
  induction l as [|i l IH]; intros s Hnd Hl; cbn [for_each].
  - unfold mret, ST_ret. f_equal. destruct s. unfold set_bindings. cbn. f_equal. apply map_eq. intros j.
    rewrite on_ids_lookup. destruct (_ !! j); reflexivity.
  - apply NoDup_cons in Hnd as [Hi Hnd]. destruct (Hl i) as [b Hb]; [left|].
    unfold mbind, ST_bind. unfold ref_kb at 1, rd_kb, wr_kb, modify, mbind, ST_bind. rewrite Hb.
    rewrite IH; [|exact Hnd|].
    + cbn [ks_bindings set_bindings]. rewrite (on_ids_cons i l (λ b, with_refs (S (b_refs b)) b) _ b Hb Hi). reflexivity.
    + intros j Hj. cbn [ks_bindings set_bindings]. rewrite lookup_insert_ne by (intros ->; contradiction).
      apply Hl. right. exact Hj.
Qed.

Definition matching (kc mods : Z) (m : gmap nat binding) (i : nat) : bool :=
  match m !! i with
  | Some b => Z.eqb (b_modifiers b) mods && existsb (Z.eqb kc) (default [] (b_keycodes b))
  | None => false
  end.

Definition replay_step (kc mods : Z) (m : gmap nat binding) (replay : bool) (i : nat) : bool :=
  if matching kc mods m i then from_option b_replay replay (m !! i) else replay.

Definition unref_same (mods : Z) (b : binding) : binding :=
  if Z.eqb (b_modifiers b) mods then with_refs (pred (b_refs b)) b else b.

Definition with_kb_log (log : list (nat * string)) (s : keys) : keys :=
  Keys (ks_bindings s) (ks_ring s) (ks_dc s) (ks_keymap s) (ks_errs s) (ks_grabs s) (ks_refs s) (ks_next s) log (ks_allow s).

Lemma match_binding_eq event kc mods i replay s b ks :
  ks_bindings s !! i = Some b → b_keycodes b = Some ks → 1 < b_refs b →
  match_binding event kc mods i replay s =
  Done (replay_step kc mods (ks_bindings s) replay i)
    (set_bindings (<[i := unref_same mods b]> (ks_bindings s))
      (with_kb_log (ks_log s ++ if matching kc mods (ks_bindings s) i then [(i, event)] else []) s)).
Proof.
  intros Hb Hks Hr. unfold match_binding, replay_step, matching, unref_same, rd_kb, mbind, ST_bind. rewrite Hb, Hks.
  cbn [from_option default]. destruct (Z.eqb (b_modifiers b) mods); cbn [negb andb].
  - destruct b as [sym codes m rp refs d]. cbn in *. subst codes. destruct refs as [|[|n]]; [lia..|].
    change (default [] (Some ks)) with ks. destruct (existsb (Z.eqb kc) ks).
    + unfold emit_key, unref_kb, rd_kb, wr_kb, modify, mret, ST_ret, mbind, ST_bind. cbn [from_opt mret ST_ret].
      unfold mret, ST_ret. cbn [ks_bindings]. rewrite Hb. reflexivity.
    + unfold unref_kb, rd_kb, wr_kb, modify, mret, ST_ret, mbind, ST_bind. cbn [from_opt mret ST_ret].
      unfold mret, ST_ret. rewrite Hb. cbn. rewrite app_nil_r. destruct s. reflexivity.
  - unfold mret, ST_ret. f_equal. rewrite app_nil_r, (insert_id _ _ _ Hb). destruct s. reflexivity.
Qed.

(** The loop over the bindings from one of them on. *)
Lemma match_loop_eq event kc mods : ∀ l2 l1 replay s n,
  ks_ring s = l1 ++ l2 → NoDup (ks_ring s) → length l2 ≤ n →
  (∀ i, i ∈ l2 → ∃ b ks, ks_bindings s !! i = Some b ∧ b_keycodes b = Some ks ∧ 1 < b_refs b) →
  match_loop n event kc mods (head l2) replay s =
  Done (foldl (replay_step kc mods (ks_bindings s)) replay l2)
    (set_bindings (on_ids l2 (unref_same mods) (ks_bindings s))
      (with_kb_log (ks_log s ++ ((λ i, (i, event)) <$> List.filter (matching kc mods (ks_bindings s)) l2)) s)).
Proof.
  induction l2 as [|i l2 IH]; intros l1 replay s n E Hnd Hn Hl.
  - cbn [head foldl List.filter fmap list_fmap]. rewrite app_nil_r.
    assert (on_ids [] (unref_same mods) (ks_bindings s) = ks_bindings s) as ->.
    { apply map_eq. intros j. rewrite on_ids_lookup. destruct (_ !! j); reflexivity. }
    destruct n; destruct s; reflexivity.
  - destruct n as [|n]; [cbn in Hn; lia|]. cbn [head match_loop]. unfold mbind, ST_bind.
    rewrite (next_kb_split i l1 l2 s E Hnd). destruct (Hl i) as (b & ks & Hb & Hks & Hr); [left|].
    rewrite (match_binding_eq event kc mods i replay s b ks Hb Hks Hr).
    assert (i ∉ l2) as Hi.
    { rewrite E in Hnd. apply NoDup_app in Hnd as (_ & _ & [Hi _]%NoDup_cons). exact Hi. }
    assert (∀ j, j ∈ l2 → <[i := unref_same mods b]> (ks_bindings s) !! j = ks_bindings s !! j) as Hkeep.
    { intros j Hj. apply lookup_insert_ne. intros ->. contradiction. }
    rewrite (IH (l1 ++ [i])); cbn [ks_ring set_bindings with_kb_log ks_bindings ks_log].
    + assert (∀ r, foldl (replay_step kc mods (<[i := unref_same mods b]> (ks_bindings s))) r l2 =
                   foldl (replay_step kc mods (ks_bindings s)) r l2) as ->.
      { clear -Hkeep. induction l2 as [|j l2 IH]; intros r; [reflexivity|]. cbn. rewrite IH.
        - f_equal. unfold replay_step, matching. rewrite (Hkeep j) by left. reflexivity.
        - intros j' Hj'. apply Hkeep. right. exact Hj'. }
      assert (List.filter (matching kc mods (<[i := unref_same mods b]> (ks_bindings s))) l2 =
              List.filter (matching kc mods (ks_bindings s)) l2) as ->.
      { apply List.filter_ext_in. intros j Hj. unfold matching. rewrite (Hkeep j); [reflexivity|]. apply list_elem_of_In, Hj. }
      rewrite (on_ids_cons i l2 (unref_same mods) _ b Hb Hi). f_equal. unfold set_bindings, with_kb_log. cbn. f_equal.
      rewrite <- app_assoc. f_equal. cbn. destruct (matching kc mods (ks_bindings s) i); reflexivity.
    + rewrite E, <- app_assoc. reflexivity.
    + exact Hnd.
    + cbn in Hn. lia.
    + intros j Hj. rewrite (Hkeep j Hj). apply Hl. right. exact Hj.
Qed.

(** The state after a key event. *)
Definition dispatched (event : string) (kc mods : Z) (s : keys) : keys :=
  Keys (on_ids (ks_ring s) (λ b, if Z.eqb (b_modifiers b) mods then b else with_refs (S (b_refs b)) b) (ks_bindings s))
    (ks_ring s) (ks_dc s) (ks_keymap s) (ks_errs s) (ks_grabs s) (ks_refs s) (ks_next s)
    (ks_log s ++ ((λ i, (i, event)) <$> List.filter (matching kc mods (ks_bindings s)) (ks_ring s)))
    (ks_allow s ++ [foldl (replay_step kc mods (ks_bindings s)) true (ks_ring s)]).

Lemma dispatch_key_eq (event : string) (kc mods : Z) (s : keys) :
  NoDup (ks_ring s) →
  (∀ i, i ∈ ks_ring s → ∃ b ks, ks_bindings s !! i = Some b ∧ b_keycodes b = Some ks ∧ 0 < b_refs b) →
  dispatch_key event kc mods s = Done 0%Z (dispatched event kc mods s).
Proof.
  intros Hnd Hl. unfold dispatch_key. unfold mbind at 1, ST_bind at 1.
  rewrite for_each_safe_eq; [|intros i s1; unfold ref_kb, rd_kb, wr_kb, modify, mbind, ST_bind;
                              destruct (_ !! i); [reflexivity|exact I]|exact Hnd].
  rewrite ref_all; [|exact Hnd|intros i Hi; destruct (Hl i Hi) as (b & ks & Hb & _); eauto].
  set (m1 := on_ids (ks_ring s) _ (ks_bindings s)).
  assert (∀ i, m1 !! i = (λ b, if decide (i ∈ ks_ring s) then with_refs (S (b_refs b)) b else b) <$> ks_bindings s !! i) as Hm1
    by (intros i; apply on_ids_lookup).
  assert (∀ i, matching kc mods m1 i = matching kc mods (ks_bindings s) i) as Hmat.
  { intros i. unfold matching. rewrite Hm1. destruct (_ !! i) as [b|]; [|reflexivity]. cbn. case_decide; reflexivity. }
  assert (∀ i, i ∈ ks_ring s → ∃ b ks, m1 !! i = Some b ∧ b_keycodes b = Some ks ∧ 1 < b_refs b) as Hl1.
  { intros i Hi. destruct (Hl i Hi) as (b & ks & Hb & Hks & Hr). exists (with_refs (S (b_refs b)) b), ks.
    rewrite Hm1, Hb. cbn. rewrite decide_True by exact Hi. auto with lia. }
  unfold mbind at 1, ST_bind at 1.
  assert (match_all event kc mods (set_bindings m1 s) =
          match_loop (length (ks_ring s)) event kc mods (head (ks_ring s)) true (set_bindings m1 s)) as -> by reflexivity.
  rewrite (match_loop_eq event kc mods (ks_ring s) [] true (set_bindings m1 s)); [|reflexivity|exact Hnd|reflexivity|exact Hl1].
  unfold mbind at 1, ST_bind at 1. unfold allow_events, modify, mret, ST_ret. unfold dispatched.
  cbn [ks_bindings ks_ring ks_dc ks_keymap ks_errs ks_grabs ks_refs ks_next ks_log ks_allow set_bindings with_kb_log].
  f_equal. f_equal.
  - apply map_eq. intros i. rewrite !on_ids_lookup, Hm1. destruct (_ !! i) as [b|]; [|reflexivity]. cbn. f_equal.
    case_decide; [|reflexivity]. unfold unref_same. cbn. destruct (Z.eqb (b_modifiers b) mods); [|reflexivity].
    destruct b. reflexivity.
  - f_equal. f_equal. apply List.filter_ext. exact Hmat.
  - f_equal. f_equal.
    assert (∀ l r, foldl (replay_step kc mods m1) r l = foldl (replay_step kc mods (ks_bindings s)) r l) as ->; [|reflexivity].
    induction l as [|i l IH]; intros r; [reflexivity|]. cbn. rewrite IH. f_equal. unfold replay_step. rewrite Hmat, Hm1.
    destruct (_ !! i) as [b|]; [|reflexivity]. cbn. case_decide; reflexivity.
Qed.

(** A key event is offered to every binding, newest first: those with its
    modifiers and its key code emit the signal, and the last of them decides
    whether the event is replayed.  Every binding with other modifiers is left
    with one reference too many, which nothing drops. *)
Theorem dispatch_key_spec (event : string) (kc mods : Z) (s : keys) :
  NoDup (ks_ring s) →
  (∀ i, i ∈ ks_ring s → ∃ b ks, ks_bindings s !! i = Some b ∧ b_keycodes b = Some ks ∧ 0 < b_refs b) →
  ∃ s', dispatch_key event kc mods s = Done 0%Z s' ∧
    ks_log s' = ks_log s ++ ((λ i, (i, event)) <$> List.filter (matching kc mods (ks_bindings s)) (ks_ring s)) ∧
    ks_allow s' = ks_allow s ++ [foldl (replay_step kc mods (ks_bindings s)) true (ks_ring s)] ∧
    ks_ring s' = ks_ring s ∧ ks_grabs s' = ks_grabs s ∧
    ∀ i, ks_bindings s' !! i =
      (λ b, if decide (i ∈ ks_ring s) then
              if Z.eqb (b_modifiers b) mods then b else with_refs (S (b_refs b)) b
            else b) <$> ks_bindings s !! i.
Proof.
  intros Hnd Hl. exists (dispatched event kc mods s). rewrite (dispatch_key_eq event kc mods s Hnd Hl).
  repeat split. intros i. apply on_ids_lookup.
Qed.

(** Two bindings; a key with the modifiers of the first one. *)
Definition two_bindings : keys :=
  Keys {[0 := Binding 65 (Some [38%Z]) 4 true 1 true; 1 := Binding 66 (Some [39%Z]) 8 false 1 true]} [1; 0] true
    (λ _, None) [] {[(38, 4); (39, 8)]}%Z 3 2 [] [].

Lemma dispatch_key_spec_witness :
  match dispatch_key "pressed" 38 4 two_bindings with
  | Done _ s' => ks_log s' = [(0, "pressed"%string)] ∧ ks_allow s' = [true] ∧
                 (b_refs <$> ks_bindings s' !! 0) = Some 1 ∧ (b_refs <$> ks_bindings s' !! 1) = Some 2
  | _ => False
  end.
Proof.
  destruct (dispatch_key_spec "pressed" 38 4 two_bindings) as (s' & -> & Hlog & Hallow & _ & _ & Hb).
  - vm_decide.
  - assert (Forall (λ i, match ks_bindings two_bindings !! i with
                         | Some b => is_Some (b_keycodes b) ∧ 0 < b_refs b | None => False end) (ks_ring two_bindings)) as HF
      by (repeat constructor; vm_compute; eauto).
    rewrite Forall_forall in HF. intros i Hi. specialize (HF i Hi).
    destruct (ks_bindings two_bindings !! i) as [b|]; [|destruct HF]. destruct HF as [[ks Hks] Hr]. exists b, ks. auto.
  - rewrite Hlog, Hallow, !Hb. vm_compute. auto.
Defined.
