(* ===== verification/Grabs.v ===== *)
(** * The life of key bindings (plugins/xorg/key.c)

    The invariant of the bindings, their list, the references to the extension
    and the grabs of the X server, and what dropping the extension leaves. *)

From S2P Require Import Prelude Text StringBuf DiTypes Strings Key.

(** Everything but the reference counts of the bindings, while the connection
    is alive. *)
Record core (s : keys) : Prop := {
  co_dc : ks_dc s = true;
  co_nodup : NoDup (ks_ring s);
  co_linked : ∀ i, i ∈ ks_ring s ↔ ∃ b, ks_bindings s !! i = Some b ∧ b_dtor b = true;
  co_codes : ∀ i b, ks_bindings s !! i = Some b → b_dtor b = true → is_Some (b_keycodes b);
  co_next : ∀ i, is_Some (ks_bindings s !! i) → i < ks_next s;
  co_refs : length (ks_ring s) < ks_refs s;
  co_grabs : ∀ g, g ∈ ks_grabs s → ∃ i b ks,
    ks_bindings s !! i = Some b ∧ b_dtor b = true ∧ b_keycodes b = Some ks ∧ g ∈ codes_of (b_modifiers b) ks
}.

Record keys_ok (s : keys) : Prop := {
  ko_core : core s;
  ko_refs : ∀ i b, ks_bindings s !! i = Some b → 0 < b_refs b
}.

(** ** Changes of one binding *)

(** A change that keeps the list and the grabs. *)
Lemma core_wr s i b b' :
  core s → ks_bindings s !! i = Some b → b_dtor b' = b_dtor b → b_keycodes b' = b_keycodes b → b_modifiers b' = b_modifiers b →
  core (set_bindings (<[i := b']> (ks_bindings s)) s).
Proof.
  intros [H1 H2 H3 H4 H5 H6 H7] Hb Hd Hc Hm. constructor; cbn [ks_dc ks_ring ks_bindings ks_next ks_refs ks_grabs set_bindings]; auto.
  - intros j. rewrite H3. destruct (decide (j = i)) as [->|Hne].
    + rewrite lookup_insert_eq, Hb. split; intros (x & [= <-] & Hx); eexists; (split; [reflexivity|congruence]).
    + rewrite lookup_insert_ne by congruence. reflexivity.
  - intros j x. rewrite lookup_insert. case_decide as E; [intros [= <-]; subst j; rewrite Hd, Hc; apply (H4 i b Hb)|apply H4].
  - intros j. rewrite lookup_insert. case_decide as E; [subst j; intros _; apply H5; eauto|apply H5].
  - intros g Hg. destruct (H7 g Hg) as (j & x & ks & Hx & Hxd & Hxk & Hin). exists j.
    rewrite lookup_insert. case_decide as E; [|exists x, ks; auto]. subst j. rewrite Hb in Hx. injection Hx as <-.
    exists b', ks. rewrite Hd, Hc, Hm. auto.
Qed.

Lemma core_delete s i b :
  core s → ks_bindings s !! i = Some b → b_dtor b = false → core (set_bindings (delete i (ks_bindings s)) s).
Proof.
  intros [H1 H2 H3 H4 H5 H6 H7] Hb Hd. constructor; cbn [ks_dc ks_ring ks_bindings ks_next ks_refs ks_grabs set_bindings]; auto.
  - intros j. rewrite H3. destruct (decide (j = i)) as [->|Hne].
    + rewrite lookup_delete_eq, Hb. split; [intros (x & [= <-] & Hx); congruence|intros (x & ? & _); discriminate].
    + rewrite lookup_delete_ne by congruence. reflexivity.
  - intros j x [_ Hx]%lookup_delete_Some. apply (H4 j x Hx).
  - intros j [x [_ Hx]%lookup_delete_Some]. apply H5. eauto.
  - intros g Hg. destruct (H7 g Hg) as (j & x & ks & Hx & Hxd & Hxk & Hin). exists j, x, ks.
    rewrite lookup_delete_ne by congruence. auto.
Qed.

Lemma remove_length i (l : list nat) : NoDup l → i ∈ l →
  S (length (List.filter (λ j, negb (Nat.eqb j i)) l)) = length l.
Proof.
  induction l as [|j l IH]; [intros _ H; inversion H|]. intros [Hj Hnd]%NoDup_cons Hi. cbn [List.filter].
  destruct (Nat.eqb_spec j i) as [->|Hne]; cbn [negb length].
  - f_equal. clear -Hj. induction l as [|k l IH]; [reflexivity|]. apply not_elem_of_cons in Hj as [Hk Hl]. cbn [List.filter].
    rewrite (proj2 (Nat.eqb_neq k i)) by congruence. cbn [negb length]. f_equal. exact (IH Hl).
  - f_equal. apply IH; [exact Hnd|]. apply elem_of_cons in Hi as [Hi|Hi]; [congruence|exact Hi].
Qed.

Lemma remove_elem i j (l : list nat) : j ∈ List.filter (λ j, negb (Nat.eqb j i)) l ↔ j ∈ l ∧ j ≠ i.
Proof.
  rewrite !list_elem_of_In, filter_In. destruct (Nat.eqb_spec j i); cbn; intuition congruence.
Qed.

(** The destructor runs once: it takes the binding out of the list, drops its
    grabs and its reference to the extension. *)
Lemma run_dtor_ok s i b :
  core s → ks_bindings s !! i = Some b →
  ∃ s', run_dtor_kb i s = Done tt s' ∧ core s' ∧
    ks_bindings s' = <[i := with_kdtor false b]> (ks_bindings s) ∧
    ks_ring s' = List.filter (λ j, negb (Nat.eqb j i)) (ks_ring s) ∧
    ks_refs s' + length (ks_ring s) = ks_refs s + length (ks_ring s').
Proof.
  intros HC Hb. pose proof HC as [H1 H2 H3 H4 H5 H6 H7]. unfold run_dtor_kb, rd_kb. unfold mbind at 1, ST_bind at 1. rewrite Hb.
  destruct (b_dtor b) eqn:Hd.
  - destruct (H4 i b Hb Hd) as [ks Hk].
    assert (i ∈ ks_ring s) as Hi by (apply H3; eauto).
    pose proof (remove_length i _ H2 Hi) as Hlen.
    unfold wr_kb, binding_dtor, ungrab, rd_kb, unref_k, get, modify, mret, ST_ret, mbind, ST_bind.
    cbn [ks_bindings set_bindings ks_dc]. rewrite lookup_insert_eq. cbn [b_keycodes b_modifiers with_kdtor].
    cbn [ks_dc set_bindings]. rewrite H1, Hk. cbn [from_opt]. unfold mret, ST_ret.
    cbn [ks_refs ks_grabs ks_ring set_ring set_grabs set_bindings].
    destruct (ks_refs s) as [|n] eqn:Hn; [lia|]. eexists. split; [reflexivity|].
    cbn [ks_bindings ks_ring ks_refs set_krefs set_ring set_grabs set_bindings]. split; [|split; [reflexivity|split; [reflexivity|lia]]].
    constructor; cbn [ks_dc ks_ring ks_bindings ks_next ks_refs ks_grabs set_krefs set_ring set_grabs set_bindings].
    + exact H1.
    + apply NoDup_ListNoDup, List.NoDup_filter, NoDup_ListNoDup, H2.
    + intros j. rewrite remove_elem, H3, lookup_insert. case_decide as E.
      * subst j. split; [intros [_ ?]; congruence|intros (x & [= <-] & Hx); discriminate].
      * split; [intros [? _]; assumption|]. intros Hx. split; [exact Hx|congruence].
    + intros j x. rewrite lookup_insert. case_decide as E; [intros [= <-]; discriminate|apply H4].
    + intros j. rewrite lookup_insert. case_decide as E; [subst j; intros _; apply H5; eauto|apply H5].
    + lia.
    + intros g [Hg Hng]%elem_of_difference. destruct (H7 g Hg) as (j & x & ks' & Hx & Hxd & Hxk & Hin). exists j, x, ks'.
      rewrite lookup_insert_ne; [auto|]. intros <-. rewrite Hb in Hx. injection Hx as <-. rewrite Hk in Hxk. injection Hxk as <-.
      contradiction.
  - exists s. split; [reflexivity|]. split; [exact HC|].
    assert (List.filter (λ j, negb (Nat.eqb j i)) (ks_ring s) = ks_ring s) as ->.
    { assert (i ∉ ks_ring s) as Hi by (rewrite H3; intros (x & Hx & Hxd); congruence). clear -Hi.
      induction (ks_ring s) as [|j l IH]; [reflexivity|]. apply not_elem_of_cons in Hi as [Hj Hl]. cbn [List.filter].
      rewrite (proj2 (Nat.eqb_neq j i)) by congruence. cbn [negb]. f_equal. exact (IH Hl). }
    split; [|auto]. rewrite insert_id; [reflexivity|]. rewrite Hb. f_equal. clear -Hd. destruct b. cbn in *. subst. reflexivity.
Qed.

(** ** Dropping references *)

Lemma with_refs_core s i b n :
  core s → ks_bindings s !! i = Some b → core (set_bindings (<[i := with_refs n b]> (ks_bindings s)) s).
Proof. intros HC Hb. apply (core_wr s i b); [exact HC|exact Hb|reflexivity..]. Qed.

(** The operations of the holders of bindings. *)
Lemma ref_kb_ok s i b :
  keys_ok s → ks_bindings s !! i = Some b →
  ref_kb i s = Done tt (set_bindings (<[i := with_refs (S (b_refs b)) b]> (ks_bindings s)) s) ∧
  keys_ok (set_bindings (<[i := with_refs (S (b_refs b)) b]> (ks_bindings s)) s).
Proof.
  intros [HC HR] Hb. split.
  - unfold ref_kb, rd_kb, wr_kb, modify, mbind, ST_bind. rewrite Hb. reflexivity.
  - constructor; [apply with_refs_core; assumption|]. intros j x. cbn [ks_bindings set_bindings]. rewrite lookup_insert.
    case_decide; [intros [= <-]; cbn; lia|apply HR].
Qed.

Lemma unref_kb_ok s i b :
  keys_ok s → ks_bindings s !! i = Some b →
  ∃ s', unref_kb i s = Done tt s' ∧ keys_ok s' ∧
    ks_ring s' = (if Nat.eqb (b_refs b) 1 then List.filter (λ j, negb (Nat.eqb j i)) (ks_ring s) else ks_ring s) ∧
    (∀ j, j ≠ i → ks_bindings s' !! j = ks_bindings s !! j).
Proof.
  intros [HC HR] Hb. pose proof (HR i b Hb) as Hpos. unfold unref_kb, rd_kb. unfold mbind at 1, ST_bind at 1. rewrite Hb.
  destruct (b_refs b) as [|n] eqn:Hn; [lia|]. unfold mbind at 1, ST_bind at 1. unfold wr_kb at 1, modify at 1.
  set (s1 := set_bindings (<[i := with_refs n b]> (ks_bindings s)) s).
  assert (core s1) as HC1 by (apply with_refs_core; assumption). destruct n as [|n]; cbn [Nat.eqb].
  - destruct (run_dtor_ok s1 i (with_refs 0 b) HC1) as (s2 & E & HC2 & Hb2 & Hr2 & _); [apply lookup_insert_eq|].
    unfold mbind, ST_bind. rewrite E. unfold modify. eexists. split; [reflexivity|].
    assert (∀ j, delete i (ks_bindings s2) !! j = delete i (ks_bindings s) !! j) as Hdel.
    { intros j. rewrite Hb2. cbn [s1 ks_bindings set_bindings]. rewrite !lookup_delete. case_decide; [reflexivity|].
      rewrite !lookup_insert_ne by congruence. reflexivity. }
    split; [|split].
    + constructor; [apply (core_delete s2 i (with_kdtor false (with_refs 0 b))); [exact HC2|rewrite Hb2; apply lookup_insert_eq|reflexivity]|].
      intros j x. cbn [ks_bindings set_bindings]. rewrite Hdel. intros [_ Hx]%lookup_delete_Some. apply (HR j x Hx).
    + cbn [ks_ring set_bindings]. exact Hr2.
    + intros j Hj. cbn [ks_bindings set_bindings]. rewrite Hdel. apply lookup_delete_ne. congruence.
  - exists s1. split; [reflexivity|]. split; [|split; [reflexivity|]].
    + constructor; [exact HC1|]. intros j x. cbn [s1 ks_bindings set_bindings]. rewrite lookup_insert.
      case_decide; [intros [= <-]; cbn; lia|apply HR].
    + intros j Hj. cbn [s1 ks_bindings set_bindings]. apply lookup_insert_ne. congruence.
Qed.

(** Finalizing runs the destructor, and leaves the binding to its holders. *)
Lemma finalize_kb_ok s i b :
  keys_ok s → ks_bindings s !! i = Some b →
  ∃ s', finalize_kb i s = Done tt s' ∧ keys_ok s' ∧
    ks_ring s' = List.filter (λ j, negb (Nat.eqb j i)) (ks_ring s) ∧
    (∀ j, j ≠ i → ks_bindings s' !! j = ks_bindings s !! j).
Proof.
  intros HK Hb. destruct (ref_kb_ok s i b HK Hb) as [E HK1]. unfold finalize_kb. unfold mbind at 1, ST_bind at 1. rewrite E.
  set (s1 := set_bindings _ s) in *.
  destruct (run_dtor_ok s1 i (with_refs (S (b_refs b)) b) (ko_core _ HK1)) as (s2 & E2 & HC2 & Hb2 & Hr2 & _);
    [apply lookup_insert_eq|]. unfold mbind at 1, ST_bind at 1. rewrite E2.
  assert (ks_bindings s2 !! i = Some (with_kdtor false (with_refs (S (b_refs b)) b))) as Hi by (rewrite Hb2; apply lookup_insert_eq).
  assert (keys_ok s2) as HK2.
  { constructor; [exact HC2|]. intros j x. rewrite Hb2, lookup_insert. case_decide; [intros [= <-]; cbn; lia|apply (ko_refs _ HK1)]. }
  destruct (unref_kb_ok s2 i _ HK2 Hi) as (s3 & E3 & HK3 & Hr3 & Hb3). exists s3. split; [exact E3|]. split; [exact HK3|].
  pose proof (ko_refs _ HK i b Hb) as Hpos. split.
  - rewrite Hr3. cbn [with_kdtor with_refs b_refs]. rewrite (proj2 (Nat.eqb_neq _ _)) by lia. rewrite Hr2. reflexivity.
  - intros j Hj. rewrite Hb3, Hb2 by exact Hj. rewrite lookup_insert_ne by congruence. cbn [s1 ks_bindings set_bindings].
    apply lookup_insert_ne. congruence.
Qed.

(** ** Grabbing *)

Lemma grab_all m kc : ∀ s, ∃ s', for_each (grab_key m) kc s = Done tt s' ∧
  ks_bindings s' = ks_bindings s ∧ ks_ring s' = ks_ring s ∧ ks_dc s' = ks_dc s ∧ ks_keymap s' = ks_keymap s ∧
  ks_refs s' = ks_refs s ∧ ks_next s' = ks_next s ∧ ks_grabs s' ⊆ ks_grabs s ∪ codes_of m kc.
Proof.
  induction kc as [|k kc IH]; intros s; [exists s; repeat split; set_solver|]. cbn [for_each].
  unfold mbind, ST_bind.
  assert (∃ s1, grab_key m k s = Done tt s1 ∧ ks_bindings s1 = ks_bindings s ∧ ks_ring s1 = ks_ring s ∧ ks_dc s1 = ks_dc s ∧
    ks_keymap s1 = ks_keymap s ∧ ks_refs s1 = ks_refs s ∧ ks_next s1 = ks_next s ∧ ks_grabs s1 ⊆ {[(k, m)]} ∪ ks_grabs s)
    as (s1 & E & Hb & Hr & Hd & Hk & Hf & Hn & Hg).
  { unfold grab_key. destruct (ks_errs s) as [|[|] es]; eexists; (split; [reflexivity|repeat split; set_solver]). }
  rewrite E. destruct (IH s1) as (s2 & E2 & Hb2 & Hr2 & Hd2 & Hk2 & Hf2 & Hn2 & Hg2). exists s2. split; [exact E2|].
  unfold codes_of in *. cbn [map list_to_set]. repeat split; try congruence. set_solver.
Qed.

(** Refreshing a binding whose key is on the keyboard: it gets the key codes and
    a grab of each, unless it is refused. *)
Lemma refresh_eq s i b kc :
  ks_bindings s !! i = Some b → ks_dc s = true → ks_keymap s (b_keysym b) = Some kc →
  ∃ s', refresh_binding i s = Done 0%Z s' ∧ ks_bindings s' = <[i := with_codes (Some kc) b]> (ks_bindings s) ∧
    ks_ring s' = ks_ring s ∧ ks_dc s' = ks_dc s ∧ ks_keymap s' = ks_keymap s ∧ ks_refs s' = ks_refs s ∧ ks_next s' = ks_next s ∧
    ks_grabs s' ⊆ (ks_grabs s ∖ from_option (codes_of (b_modifiers b)) ∅ (b_keycodes b)) ∪ codes_of (b_modifiers b) kc.
Proof.
  intros Hb Hd Hkc. unfold refresh_binding.
  assert (rd_kb i s = Done b s) as Erd by (unfold rd_kb; rewrite Hb; reflexivity).
  unfold mbind at 1, ST_bind at 1. rewrite Erd.
  set (old := from_option (codes_of (b_modifiers b)) ∅ (b_keycodes b)).
  set (s1 := match b_keycodes b with
             | Some _ => set_bindings (<[i := with_codes None b]> (ks_bindings s)) (set_grabs (ks_grabs s ∖ old) s)
             | None => s
             end).
  assert ((match b_keycodes b with
           | Some _ => ungrab i;; kb ← rd_kb i; wr_kb i (with_codes None kb)
           | None => mret tt
           end) s = Done tt s1) as E1.
  { unfold s1, old. destruct (b_keycodes b) as [ks|] eqn:Hks; [|reflexivity].
    unfold ungrab, rd_kb, wr_kb, get, modify, mbind, ST_bind. rewrite Hb, Hd, Hks. cbn [from_opt]. unfold mret, ST_ret.
    cbn [ks_bindings set_grabs]. rewrite Hb. reflexivity. }
  unfold mbind at 1, ST_bind at 1. rewrite E1.
  assert (ks_bindings s1 !! i = Some (with_codes None b)) as Hb1.
  { unfold s1. destruct (b_keycodes b) eqn:Hks; [apply lookup_insert_eq|]. rewrite Hb. f_equal. clear -Hks. destruct b. cbn in *. subst. reflexivity. }
  assert (ks_ring s1 = ks_ring s ∧ ks_dc s1 = ks_dc s ∧ ks_keymap s1 = ks_keymap s ∧ ks_refs s1 = ks_refs s ∧ ks_next s1 = ks_next s ∧
          ks_grabs s1 ⊆ ks_grabs s ∖ old ∧ ∀ x, <[i := x]> (ks_bindings s1) = <[i := x]> (ks_bindings s)) as (Hr & Hdd & Hkm & Hrf & Hnx & Hg & Hins).
  { unfold s1, old. destruct (b_keycodes b); do 5 (split; [reflexivity|]).
    - split; [reflexivity|]. intros x. apply insert_insert_eq.
    - split; [cbn; set_solver|reflexivity]. }
  unfold get. unfold mbind at 1, ST_bind at 1. cbv beta. rewrite Hkm, Hkc. unfold rd_kb, wr_kb, modify, mbind, ST_bind.
  rewrite Hb1. rewrite Hdd, Hd. cbn [negb with_codes b_modifiers].
  destruct (grab_all (b_modifiers b) kc (set_bindings (<[i := with_codes (Some kc) (with_codes None b)]> (ks_bindings s1)) s1))
    as (s2 & E2 & Gb & Gr & Gd & Gk & Gf & Gn & Gg).
  cbn [with_codes b_modifiers b_keysym b_replay b_refs b_dtor] in E2. rewrite E2. exists s2.
  cbn [ks_bindings ks_ring ks_dc ks_keymap ks_refs ks_next ks_grabs set_bindings] in *.
  rewrite Hins in Gb. split; [reflexivity|]. split; [exact Gb|].
  do 5 (split; [congruence|]). set_solver.
Qed.

(** A binding without key codes cannot be dropped. *)
Lemma codeless_crash s i b :
  ks_bindings s !! i = Some b → ks_dc s = true → b_keycodes b = None → b_dtor b = true → run_dtor_kb i s = Crash NullDeref.
Proof.
  intros Hb Hd Hk Hdt. unfold run_dtor_kb, rd_kb, wr_kb, binding_dtor, ungrab, rd_kb, get, modify, mbind, ST_bind. rewrite Hb, Hdt.
  cbn [ks_bindings set_bindings]. rewrite lookup_insert_eq. cbn [ks_dc set_bindings]. rewrite Hd.
  cbn [b_keycodes with_kdtor]. rewrite Hk. reflexivity.
Qed.

Lemma refresh_missing s i b :
  ks_bindings s !! i = Some b → ks_dc s = true → ks_keymap s (b_keysym b) = None →
  ∃ s', refresh_binding i s = Done (-1)%Z s' ∧ ks_dc s' = true ∧ ks_bindings s' !! i = Some (with_codes None b).
Proof.
  intros Hb Hd Hm. unfold refresh_binding, rd_kb, get. unfold mbind at 1, ST_bind at 1. rewrite Hb.
  destruct (b_keycodes b) as [ks|] eqn:Hks.
  - unfold ungrab, rd_kb, wr_kb, get, modify, mbind, ST_bind. rewrite Hb, Hd, Hks. cbn [from_opt]. unfold mret, ST_ret.
    cbn [ks_bindings set_grabs]. rewrite Hb. cbn [ks_keymap set_bindings set_grabs]. rewrite Hm. eexists.
    split; [reflexivity|]. split; [exact Hd|]. apply lookup_insert_eq.
  - unfold mret, ST_ret, mbind, ST_bind. rewrite Hm. exists s. split; [reflexivity|]. split; [exact Hd|]. rewrite Hb. f_equal.
    clear -Hks. destruct b. cbn in *. subst. reflexivity.
Qed.

(** Refreshing a linked binding keeps the invariant. *)
Lemma refresh_ok s i b kc :
  keys_ok s → ks_bindings s !! i = Some b → b_dtor b = true → ks_keymap s (b_keysym b) = Some kc →
  ∃ s', refresh_binding i s = Done 0%Z s' ∧ keys_ok s' ∧ ks_ring s' = ks_ring s ∧ ks_keymap s' = ks_keymap s.
Proof.
  intros [HC HR] Hb Hdt Hkc. pose proof HC as [H1 H2 H3 H4 H5 H6 H7].
  destruct (refresh_eq s i b kc Hb H1 Hkc) as (s' & E & Eb & Er & Ed & Ek & Ef & En & Eg). exists s'.
  split; [exact E|]. split; [|auto].
  assert (∀ j x, ks_bindings s' !! j = Some x → j = i ∧ x = with_codes (Some kc) b ∨ j ≠ i ∧ ks_bindings s !! j = Some x) as Hcase.
  { intros j x. rewrite Eb, lookup_insert. case_decide as E'; [intros [= <-]; auto|intros Hx; right; split; [congruence|exact Hx]]. }
  constructor; [constructor|].
  - congruence.
  - congruence.
  - intros j. rewrite Er, H3, Eb. destruct (decide (j = i)) as [->|Hne].
    + rewrite lookup_insert_eq, Hb. split; intros _; eexists; (split; [reflexivity|exact Hdt]).
    + rewrite lookup_insert_ne by congruence. reflexivity.
  - intros j x [[-> ->]|[_ Hx]]%Hcase; [intros _; eexists; reflexivity|apply (H4 j x Hx)].
  - intros j [x [[-> _]|[_ Hx]]%Hcase]; rewrite En; apply H5; eauto.
  - rewrite Er, Ef. exact H6.
  - intros g Hg. specialize (Eg g Hg). apply elem_of_union in Eg as [Hold|Hnew].
    + apply elem_of_difference in Hold as [Hgs Hng]. destruct (H7 g Hgs) as (j & x & ks & Hx & Hxd & Hxk & Hin).
      exists j, x, ks. rewrite Eb, lookup_insert_ne; [auto|]. intros <-. rewrite Hb in Hx. injection Hx as <-.
      rewrite Hxk in Hng. contradiction.
    + exists i, (with_codes (Some kc) b), kc. rewrite Eb, lookup_insert_eq. auto.
  - intros j x [[_ ->]|[_ Hx]]%Hcase; [exact (HR i b Hb)|exact (HR j x Hx)].
Qed.

(** A new binding: refreshed, it satisfies the invariant; if its key is missing,
    dropping it crashes. *)
Lemma new_binding_ok s names t ks replay :
  keys_ok s →
  match new_binding names t ks replay s with
  | Done _ s' => keys_ok s'
  | Crash c => c = NullDeref ∨ c = OutOfBounds
  | NoFuel => False
  end.
Proof.
  intros HK. pose proof HK as [HC HR]. pose proof HC as [H1 H2 H3 H4 H5 H6 H7].
  unfold new_binding, get. unfold mbind at 1, ST_bind at 1. cbv beta. rewrite H1. cbn [negb].
  destruct (ks =? 0)%Z; [exact HK|]. destruct (match names with [] => false | _ => _ end); [exact HK|].
  destruct (mods_of names 0) as [[m|]|]; [|exact HK|right; reflexivity].
  cbn [from_opt]. unfold mbind at 1, ST_bind at 1. unfold mret at 1, ST_ret at 1. cbv beta iota zeta.
  unfold mbind at 1, ST_bind at 1. unfold modify at 1. cbv beta.
  set (i := ks_next s). set (b := Binding ks None m replay 1 true).
  set (s1 := Keys _ _ _ _ _ _ _ _ _ _).
  assert (ks_bindings s1 !! i = Some b) as Hb1 by apply lookup_insert_eq.
  assert (ks_bindings s !! i = None) as Hfree.
  { destruct (ks_bindings s !! i) eqn:E; [|reflexivity]. specialize (H5 i (mk_is_Some _ _ E)). unfold i in H5. lia. }
  unfold mbind at 1, ST_bind at 1. destruct (ks_keymap s ks) as [kc|] eqn:Hkc.
  - destruct (refresh_eq s1 i b kc Hb1 H1 Hkc) as (s' & E & Eb & Er & Ed & Ek & Ef & En & Eg). rewrite E. cbn [Z.eqb].
    unfold mret, ST_ret. cbn [s1 ks_bindings] in Eb. rewrite insert_insert_eq in Eb.
    assert (∀ j x, ks_bindings s' !! j = Some x → j = i ∧ x = with_codes (Some kc) b ∨ j ≠ i ∧ ks_bindings s !! j = Some x) as Hcase.
    { intros j x. rewrite Eb, lookup_insert. case_decide; [intros [= <-]; auto|intros Hx; right; split; [congruence|exact Hx]]. }
    constructor; [constructor|].
    + rewrite Ed. exact H1.
    + rewrite Er. cbn [s1 ks_ring]. apply NoDup_cons. split; [|exact H2]. rewrite H3. intros (x & Hx & _). congruence.
    + intros j. rewrite Er, Eb. cbn [s1 ks_ring]. rewrite elem_of_cons, H3. destruct (decide (j = i)) as [->|Hne].
      * rewrite lookup_insert_eq. split; [intros _; eexists; split; reflexivity|auto].
      * rewrite lookup_insert_ne by congruence. naive_solver.
    + intros j x [[-> ->]|[_ Hx]]%Hcase; [intros _; eexists; reflexivity|apply (H4 j x Hx)].
    + intros j [x [[-> _]|[_ Hx]]%Hcase]; rewrite En; cbn [s1 ks_next]; [unfold i; lia|].
      specialize (H5 j (mk_is_Some _ _ Hx)). lia.
    + rewrite Er, Ef. cbn [s1 ks_ring ks_refs length]. lia.
    + intros g Hg. specialize (Eg g Hg). cbn [s1 ks_grabs b_modifiers b b_keycodes from_option] in Eg.
      apply elem_of_union in Eg as [Hold|Hnew].
      * apply elem_of_difference in Hold as [Hgs _]. destruct (H7 g Hgs) as (j & x & ks' & Hx & Hxd & Hxk & Hin).
        exists j, x, ks'. rewrite Eb, lookup_insert_ne; [auto|]. intros <-. congruence.
      * exists i, (with_codes (Some kc) b), kc. rewrite Eb, lookup_insert_eq. auto.
    + intros j x [[_ ->]|[_ Hx]]%Hcase; [cbn; lia|exact (HR j x Hx)].
  - destruct (refresh_missing s1 i b Hb1 H1 Hkc) as (s' & E & Ed & Eb). rewrite E. cbn [Z.eqb].
    unfold mbind at 1, ST_bind at 1.
    assert (unref_kb i s' = Crash NullDeref) as ->; [|left; reflexivity].
    unfold unref_kb, rd_kb, wr_kb, modify. unfold mbind at 1, ST_bind at 1. rewrite Eb. cbn [b_refs with_codes b].
    unfold mbind, ST_bind. cbn [Nat.eqb].
    rewrite (codeless_crash _ i (with_refs 0 (with_codes None b))); [reflexivity|apply lookup_insert_eq|exact Ed|reflexivity..].
Qed.

(** ** Events *)

(** A key event keeps the invariant: it only adds references. *)
Lemma dispatch_ok s event kc mods : keys_ok s → ∃ s', dispatch_key event kc mods s = Done 0%Z s' ∧ keys_ok s'.
Proof.
  intros [HC HR]. pose proof HC as [H1 H2 H3 H4 H5 H6 H7]. exists (dispatched event kc mods s). split.
  - apply dispatch_key_eq; [exact H2|]. intros i (b & Hb & Hd)%H3. destruct (H4 i b Hb Hd) as [ks Hk].
    exists b, ks. split; [exact Hb|]. split; [exact Hk|]. exact (HR i b Hb).
  - assert (∀ i x, ks_bindings (dispatched event kc mods s) !! i = Some x →
      ∃ b, ks_bindings s !! i = Some b ∧ b_dtor x = b_dtor b ∧ b_keycodes x = b_keycodes b ∧ b_modifiers x = b_modifiers b ∧
           b_refs b ≤ b_refs x) as Hold.
    { intros i x. cbn [dispatched ks_bindings]. rewrite on_ids_lookup. destruct (ks_bindings s !! i) as [b|]; [|discriminate].
      intros [= <-]. exists b. case_decide; [|auto]. destruct (Z.eqb (b_modifiers b) mods); cbn; auto with lia. }
    assert (∀ i b, ks_bindings s !! i = Some b → ∃ x, ks_bindings (dispatched event kc mods s) !! i = Some x ∧
      b_dtor x = b_dtor b ∧ b_keycodes x = b_keycodes b ∧ b_modifiers x = b_modifiers b) as Hnew.
    { intros i b Hb. destruct (ks_bindings (dispatched event kc mods s) !! i) as [x|] eqn:Hx.
      - exists x. destruct (Hold i x Hx) as (b' & Hb' & ? & ? & ? & _). rewrite Hb in Hb'. injection Hb' as <-. auto.
      - cbn [dispatched ks_bindings] in Hx. rewrite on_ids_lookup, Hb in Hx. discriminate. }
    constructor; [constructor; [exact H1|exact H2|..|exact H6|]|].
    + intros i. cbn [dispatched ks_ring]. rewrite H3. split.
      * intros (b & Hb & Hd). destruct (Hnew i b Hb) as (x & Hx & Hxd & _). exists x. split; [exact Hx|congruence].
      * intros (x & Hx & Hd). destruct (Hold i x Hx) as (b & Hb & Hxd & _). exists b. split; [exact Hb|congruence].
    + intros i x Hx Hd. destruct (Hold i x Hx) as (b & Hb & Hxd & Hxk & _). rewrite Hxk. apply (H4 i b Hb). congruence.
    + intros i [x Hx]. destruct (Hold i x Hx) as (b & Hb & _). apply (H5 i). eauto.
    + intros g Hg. destruct (H7 g Hg) as (i & b & ks & Hb & Hd & Hk & Hin). destruct (Hnew i b Hb) as (x & Hx & Hxd & Hxk & Hxm).
      exists i, x, ks. rewrite Hxd, Hxk, Hxm. auto.
    + intros i x Hx. destruct (Hold i x Hx) as (b & Hb & _ & _ & _ & Hle). specialize (HR i b Hb). lia.
Qed.

(** The loop over the bindings after the keyboard has changed. *)
Definition remap (i : nat) : ST keys unit := ret ← refresh_binding i; if Z.eqb ret 0 then mret tt else finalize_kb i.

Lemma remap_ok s i :
  keys_ok s → i ∈ ks_ring s →
  match remap i s with Done _ s' => keys_ok s' ∧ ks_ring s' = ks_ring s | Crash c => c = NullDeref | NoFuel => False end.
Proof.
  intros HK Hi. apply (co_linked _ (ko_core _ HK)) in Hi as (b & Hb & Hd). unfold remap. unfold mbind at 1, ST_bind at 1.
  destruct (ks_keymap s (b_keysym b)) as [kc|] eqn:Hkc.
  - destruct (refresh_ok s i b kc HK Hb Hd Hkc) as (s' & -> & HK' & Hr & _). cbn [Z.eqb]. split; assumption.
  - destruct (refresh_missing s i b Hb (co_dc _ (ko_core _ HK)) Hkc) as (s' & -> & Hdc & Hb'). cbn [Z.eqb].
    unfold finalize_kb, ref_kb, rd_kb, wr_kb, modify. unfold mbind at 1, ST_bind at 1. unfold mbind at 1, ST_bind at 1.
    rewrite Hb'. unfold mbind at 1, ST_bind at 1.
    rewrite (codeless_crash _ i (with_refs (S (b_refs (with_codes None b))) (with_codes None b)));
      [reflexivity|apply lookup_insert_eq|exact Hdc|reflexivity|exact Hd].
Qed.

Lemma remap_all s :
  keys_ok s → match for_each_unsafe remap s with Done _ s' => keys_ok s' | Crash c => c = NullDeref | NoFuel => False end.
Proof.
  intros HK. unfold for_each_unsafe, get. unfold mbind at 1, ST_bind at 1. cbv beta.
  destruct (ks_ring s) as [|i l] eqn:E; [exact HK|]. cbn [head].
  assert (∀ l i l1 n s1, keys_ok s1 → ks_ring s1 = l1 ++ i :: l → length l < n →
    match while_some n (λ i, remap i;; next_kb i) i s1 with
    | Done _ s' => keys_ok s' | Crash c => c = NullDeref | NoFuel => False end) as Hw.
  { clear. induction l as [|j l IH]; intros i l1 n s1 HK E Hn; (destruct n as [|n]; [lia|]); cbn [while_some];
      unfold mbind at 1, ST_bind at 1; unfold mbind at 1, ST_bind at 1;
      pose proof (remap_ok s1 i HK ltac:(rewrite E; apply elem_of_app; right; left)) as Hi;
      destruct (remap i s1) as [[] s2| |]; try exact Hi; destruct Hi as [HK2 Hr2];
      rewrite (next_kb_split i l1 _ s2 (eq_trans Hr2 E) (co_nodup _ (ko_core _ HK2))); cbn [head].
    - exact HK2.
    - cbn in Hn. apply (IH j (l1 ++ [i]) n s2 HK2); [rewrite Hr2, E, <- app_assoc; reflexivity|lia]. }
  apply (Hw l i [] _ s HK); [exact E|cbn; lia].
Qed.

Lemma handle_key_ok s ev :
  keys_ok s → match handle_key ev s with Done _ s' => keys_ok s' | Crash c => c = NullDeref ∨ c = OutOfBounds | NoFuel => False end.
Proof.
  intros HK. destruct ev as [detail state|detail state r| |changed keymap|]; cbn [handle_key]; [..|exact HK].
  - destruct (dispatch_ok s "pressed" detail state HK) as (s' & -> & HK'). exact HK'.
  - destruct (mod_from_keycode r detail) as [m|]; cbn [from_opt]; [|right; reflexivity].
    unfold mbind at 1, ST_bind at 1. unfold mret at 1, ST_ret at 1. cbv beta iota.
    destruct (dispatch_ok s "released" detail (Z.land state (Z.lnot m)) HK) as (s' & -> & HK'). exact HK'.
  - exact HK.
  - destruct changed; [|exact HK]. unfold mbind at 1, ST_bind at 1. unfold mbind at 1, ST_bind at 1. unfold set_keymap, modify at 1.
    set (s1 := Keys _ _ _ _ _ _ _ _ _ _).
    assert (keys_ok s1) as HK1 by (destruct HK as [[] ?]; constructor; [constructor|]; assumption).
    pose proof (remap_all s1 HK1) as H. unfold remap in H. destruct (for_each_unsafe _ s1); auto.
Qed.

(** ** Clients *)

(** What can be done with key bindings: clients only use bindings they have. *)
Inductive key_op : Type :=
  | KNew (names : list di_string) (elem_type : di_type) (ks : Z) (replay : bool)
  | KRef (i : nat)
  | KUnref (i : nat)
  | KFinalize (i : nat)
  | KEvent (ev : key_event).

Definition with_binding (i : nat) (m : ST keys unit) : ST keys unit :=
  s ← get; match ks_bindings s !! i with Some _ => m | None => mret tt end.

Definition run_key (p : key_op) : ST keys unit :=
  match p with
  | KNew names t ks replay => _ ← new_binding names t ks replay; mret tt
  | KRef i => with_binding i (ref_kb i)
  | KUnref i => with_binding i (unref_kb i)
  | KFinalize i => with_binding i (finalize_kb i)
  | KEvent ev => _ ← handle_key ev; mret tt
  end.

Definition acceptable (o : outcome keys unit) : Prop :=
  match o with Done _ s' => keys_ok s' | Crash c => c = NullDeref ∨ c = OutOfBounds | NoFuel => False end.

Lemma run_key_ok s p : keys_ok s → acceptable (run_key p s).
Proof.
  intros HK. destruct p as [names t ks replay|i|i|i|ev]; cbn [run_key].
  - pose proof (new_binding_ok s names t ks replay HK) as H. unfold mbind, ST_bind. destruct (new_binding _ _ _ _ s); auto.
  - unfold with_binding, get, mbind, ST_bind. destruct (ks_bindings s !! i) as [b|] eqn:Hb; [|exact HK].
    destruct (ref_kb_ok s i b HK Hb) as [-> H]. exact H.
  - unfold with_binding, get, mbind, ST_bind. destruct (ks_bindings s !! i) as [b|] eqn:Hb; [|exact HK].
    destruct (unref_kb_ok s i b HK Hb) as (s' & -> & H & _). exact H.
  - unfold with_binding, get, mbind, ST_bind. destruct (ks_bindings s !! i) as [b|] eqn:Hb; [|exact HK].
    destruct (finalize_kb_ok s i b HK Hb) as (s' & -> & H & _). exact H.
  - pose proof (handle_key_ok s ev HK) as H. unfold mbind, ST_bind. destruct (handle_key ev s); auto.
Qed.

Lemma run_keys_ok ps : ∀ s, keys_ok s → acceptable (for_each run_key ps s).
Proof.
  induction ps as [|p ps IH]; intros s HK; [exact HK|]. cbn [for_each]. unfold mbind, ST_bind.
  pose proof (run_key_ok s p HK) as H. destruct (run_key p s) as [[] s'| |]; [exact (IH s' H)|exact H|exact H].
Qed.

(** [free_key] takes every binding out of the list. *)
Lemma free_key_ok s : keys_ok s → ∃ s', free_key s = Done tt s' ∧ keys_ok s' ∧ ks_ring s' = [].
Proof.
  intros HK. unfold free_key, for_each_safe, get. unfold mbind at 1, ST_bind at 1. cbv beta.
  assert (∀ l i n s1, keys_ok s1 → ks_ring s1 = i :: l → length l < n →
    ∃ s', while_some n (λ i, nkb ← next_kb i; finalize_kb i;; mret nkb) i s1 = Done tt s' ∧ keys_ok s' ∧ ks_ring s' = []) as Hw.
  { clear. induction l as [|j l IH]; intros i n s1 HK E Hn; (destruct n as [|n]; [lia|]); cbn [while_some];
      unfold mbind at 1, ST_bind at 1; unfold mbind at 1, ST_bind at 1;
      pose proof (co_nodup _ (ko_core _ HK)) as Hnd;
      rewrite (next_kb_split i [] _ s1 E Hnd); unfold mbind at 1, ST_bind at 1;
      (assert (i ∈ ks_ring s1) as Hi by (rewrite E; left));
      apply (co_linked _ (ko_core _ HK)) in Hi as (b & Hb & _);
      destruct (finalize_kb_ok s1 i b HK Hb) as (s2 & -> & HK2 & Hr2 & _); unfold mret at 1, ST_ret at 1; cbn [head];
      rewrite E in Hr2, Hnd; cbn [List.filter] in Hr2; rewrite Nat.eqb_refl in Hr2; cbn [negb] in Hr2.
    - exists s2. auto.
    - apply NoDup_cons in Hnd as [Hi _]. assert (List.filter (λ j, negb (j =? i)) (j :: l) = j :: l) as Hf.
      { clear -Hi. induction (j :: l) as [|k m IHm]; [reflexivity|]. apply not_elem_of_cons in Hi as [Hk Hm]. cbn [List.filter].
        rewrite (proj2 (Nat.eqb_neq k i)) by congruence. cbn [negb]. f_equal. exact (IHm Hm). }
      cbn in Hn. apply (IH j n s2 HK2); [|lia]. rewrite Hr2. exact Hf. }
  destruct (ks_ring s) as [|i l] eqn:E; [exists s; auto|]. cbn [head].
  apply (Hw l i _ s HK E). cbn. lia.
Qed.

Lemma new_key_ok keymap errs : keys_ok (new_key keymap errs).
Proof.
  constructor; [constructor|]; cbn [new_key ks_dc ks_ring ks_bindings ks_next ks_refs ks_grabs length]; try lia.
  - constructor.
  - intros i. split; [intros H; inversion H|intros (b & Hb & _); rewrite lookup_empty in Hb; discriminate].
  - intros i b Hb. rewrite lookup_empty in Hb. discriminate.
  - intros i [b Hb]. rewrite lookup_empty in Hb. discriminate.
  - intros g Hg. set_solver.
  - intros i b Hb. rewrite lookup_empty in Hb. discriminate.
Qed.

