(* ===== verification/DbusNames.v ===== *)
(** * Names and signals of a D-Bus connection (plugins/dbus/dbus.c)

    A connection keeps the owners of the well-known names its objects use, and
    turns the signals of the bus into deai signals named
    ["%bus name%path%interface.member"].  Strings of libdbus are C strings; a
    [struct di_string] that is used as one here is followed by a NUL byte, as it
    comes from one. *)

From Stdlib Require Import Ascii.
From S2P Require Import Prelude Text DiTypes Strings.

(** ** State *)

(** [dbus_bus_name] *)
Record dbus_bus_name := BusName { well_known : string; unique : string }.

(** [di_dbus_connection]: whether [conn] is set, and [known_names], newest
    first; the calls to [dbus_bus_add_match] (true) and [dbus_bus_remove_match],
    and the signals emitted so far. *)
Record di_dbus_connection := Connection {
  c_conn : bool;
  c_known_names : list dbus_bus_name;
  c_matches : list (bool * string);
  c_emitted : list (string * list value)
}.

Definition set_names (l : list dbus_bus_name) (c : di_dbus_connection) : di_dbus_connection :=
  Connection (c_conn c) l (c_matches c) (c_emitted c).

Definition match_call (add : bool) (rule : string) : ST di_dbus_connection unit :=
  modify (λ c, Connection (c_conn c) (c_known_names c) (c_matches c ++ [(add, rule)]) (c_emitted c)).

(** [di_emitn]; what the listeners do is not part of the model. *)
Definition emit_signal (name : string) (t : list value) : ST di_dbus_connection unit :=
  modify (λ c, Connection (c_conn c) (c_known_names c) (c_matches c) (c_emitted c ++ [(name, t)])).

(** [strncmp(a, b, n) == 0] on the [n] bytes of [a] and the C string [b]. *)
Fixpoint strncmp0 (a b : string) : bool :=
  match a with
  | EmptyString => true
  | String x a' =>
      match b with
      | EmptyString => Ascii.eqb x zero
      | String y b' => Ascii.eqb x y && (Ascii.eqb x zero || strncmp0 a' b')
      end
  end.

(** ** Owners of names *)

(** [di_dbus_update_name] *)
Definition di_dbus_update_name (wk old new : di_string) (force_remove : bool) : ST di_dbus_connection unit :=
  let name := default EmptyString wk in
  match name with
  | EmptyString => fail OutOfBounds
  | String c _ =>
      if Ascii.eqb c ":" then mret tt
      else
        (if force_remove || negb (String.eqb (default EmptyString old) EmptyString) then
           modify (λ s, set_names (List.filter (λ i, negb (strncmp0 name (well_known i))) (c_known_names s)) s)
         else mret tt);;
        (if negb (String.eqb (default EmptyString new) EmptyString) then
           modify (λ s, set_names (BusName (till_nul name) (till_nul (default EmptyString new)) :: c_known_names s) s)
         else mret tt)
  end.

(** ** Match rules *)

(** [to_dbus_match_rule], on a name without its first ["%"]. *)
Definition to_dbus_match_rule (name : string) : option string :=
  match strchr "%" name with
  | None => None
  | Some (bus, rest) =>
      match strchr "%" rest with
      | None => None
      | Some (path, rest2) =>
          if String.eqb path EmptyString then None
          else
            match strchr "." rest2 with
            | Some (interface, signal) =>
                if String.eqb interface EmptyString || String.eqb (till_nul signal) EmptyString then None
                else Some ("type='signal',sender='" +:+ till_nul bus +:+ "',path='" +:+ till_nul path +:+ "',interface='" +:+
                           till_nul interface +:+ "',member='" +:+ till_nul signal +:+ "'")
            | None =>
                Some ("type='signal',sender='" +:+ till_nul bus +:+ "',path='" +:+ till_nul path +:+ "',member='" +:+
                      till_nul rest2 +:+ "'")
            end
      end
  end.

(** [di_dbus_new_signal] and [di_dbus_del_signal] *)
Definition change_match (add : bool) (name : di_string) : ST di_dbus_connection unit :=
  c ← get;
  if negb (c_conn c) then mret tt
  else
    match name with
    | None => mret tt
    | Some EmptyString => fail OutOfBounds
    | Some (String ch rest) =>
        if Ascii.eqb ch "%" then
          match to_dbus_match_rule (default EmptyString (di_substring_start name 1)) with
          | None => mret tt
          | Some rule => match_call add rule
          end
        else mret tt
    end.

Definition di_dbus_new_signal : di_string → ST di_dbus_connection unit := change_match true.
Definition di_dbus_del_signal : di_string → ST di_dbus_connection unit := change_match false.

(** ** Messages *)

(** A message; [m_args] are its deserialized arguments.  A signal has a path, an
    interface and a member. *)
Record message := Message {
  m_signal : bool;
  m_sender : option string;
  m_path : string;
  m_interface : string;
  m_member : string;
  m_args : list value
}.

Inductive handler_result : Type := HANDLED | NOT_YET_HANDLED.

Definition signal_name (bus path name : string) : string := "%" +:+ bus +:+ "%" +:+ path +:+ "%" +:+ name.

Definition string_arg (t : list value) (i : nat) : ST di_dbus_connection di_string :=
  v ← from_opt OutOfBounds (t !! i);
  match v with VString s => mret s | _ => fail TypeConfusion end.

(** The test whether the message is the signal [NameOwnerChanged] of the bus;
    [strcmp] of a null sender crashes. *)
Definition is_name_owner_changed (msg : message) : ST di_dbus_connection bool :=
  if String.eqb (m_member msg) "NameOwnerChanged" then
    sender ← from_opt NullDeref (m_sender msg);
    mret (String.eqb sender "org.freedesktop.DBus" && String.eqb (m_path msg) "/org/freedesktop/DBus" &&
          String.eqb (m_interface msg) "org.freedesktop.DBus")
  else mret false.

(** The two signals of one bus name. *)
Definition emit_both (bus : string) (msg : message) : ST di_dbus_connection unit :=
  emit_signal (signal_name bus (m_path msg) (m_interface msg +:+ "." +:+ m_member msg)) (m_args msg);;
  emit_signal (signal_name bus (m_path msg) (m_member msg)) (m_args msg).

(** [dbus_filter] *)
Definition dbus_filter (msg : message) : ST di_dbus_connection handler_result :=
  if negb (m_signal msg) then mret NOT_YET_HANDLED
  else
    changed ← is_name_owner_changed msg;
    (if (changed : bool) then
       wk ← string_arg (m_args msg) 0;
       old ← string_arg (m_args msg) 1;
       new ← string_arg (m_args msg) 2;
       di_dbus_update_name wk old new false
     else mret tt);;
    match m_sender msg with
    | None => mret NOT_YET_HANDLED
    | Some bus_name =>
        (if starts_with ":" bus_name then
           c ← get;
           for_each (λ ni, if String.eqb (unique ni) bus_name then emit_both (well_known ni) msg else mret tt)
             (c_known_names c)
         else emit_both bus_name msg);;
        mret HANDLED
    end.

(** The name of the signal of the connection that a signal of an object is
    proxied from, in [di_dbus_object_new_signal]. *)
Definition object_signal_name (bus obj : string) (name : di_string) : string :=
  signal_name bus obj (till_nul (default EmptyString name)).

(** ** Method names *)

Inductive method_result : Type :=
  | MethodError (msg : string)
  | DbusMethod (interface : option string) (method : string).

(** The parts of a method name, in [di_dbus_object_getter]. *)
Definition split_method_name (method : di_string) : method_result :=
  let name := default EmptyString method in
  match strrchr "." name with
  | None => DbusMethod None (c_str method)
  | Some (ifc, m) =>
      if String.eqb ifc EmptyString || String.eqb (till_nul m) EmptyString
      then MethodError "Method name or interface name is empty"
      else if negb (has_char "." ifc) then MethodError "Invalid interface name"
      else DbusMethod (Some (till_nul ifc)) (till_nul m)
  end.

(** * Properties *)

Definition plain (c : ascii) (s : string) : Prop := has_char c s = false.

Lemma cut_inj c a b x y : plain c a → plain c b → a +:+ String c x = b +:+ String c y → a = b ∧ x = y.
Proof.
  intros Ha Hb E. pose proof (strchr_app c a x Ha) as Hx. rewrite E, (strchr_app c b y Hb) in Hx.
  split; congruence.
Qed.

Lemma signal_name_inj bus bus' path path' s s' :
  plain "%" bus → plain "%" bus' → plain "%" path → plain "%" path' →
  signal_name bus path s = signal_name bus' path' s' ↔ bus = bus' ∧ path = path' ∧ s = s'.
Proof.
  intros Hb Hb' Hp Hp'. split.
  - unfold signal_name. intros E. injection E as E.
    destruct (cut_inj _ _ _ _ _ Hb Hb' E) as [-> E'].
    destruct (cut_inj _ _ _ _ _ Hp Hp' E') as [-> ->]. done.
  - intros (-> & -> & ->). reflexivity.
Qed.

(** ** Emission of signals *)

(** The signals of the names [names] that stand for the sender of [msg]. *)
Definition heard (names : list dbus_bus_name) (sender : string) (msg : message) (bus path name : string) : Prop :=
  path = m_path msg ∧ (name = m_interface msg +:+ "." +:+ m_member msg ∨ name = m_member msg) ∧
  (if starts_with ":" sender then BusName bus sender ∈ names else bus = sender).

Definition both (bus : string) (msg : message) : list (string * list value) :=
  [(signal_name bus (m_path msg) (m_interface msg +:+ "." +:+ m_member msg), m_args msg);
   (signal_name bus (m_path msg) (m_member msg), m_args msg)].

Definition emitted_for (names : list dbus_bus_name) (sender : string) (msg : message) : list (string * list value) :=
  if starts_with ":" sender
  then concat ((λ ni, if String.eqb (unique ni) sender then both (well_known ni) msg else []) <$> names)
  else both sender msg.

Lemma emit_names msg sender l c :
  for_each (λ ni, if String.eqb (unique ni) sender then emit_both (well_known ni) msg else mret tt) l c =
  Done tt (Connection (c_conn c) (c_known_names c) (c_matches c) (c_emitted c ++
    concat ((λ ni, if String.eqb (unique ni) sender then both (well_known ni) msg else []) <$> l))).
Proof.
  revert c. induction l as [|ni l IH]; intros [conn names ms em].
  - cbn. rewrite app_nil_r. reflexivity.
  - cbn [for_each]. rewrite fmap_cons. cbn [concat]. destruct (String.eqb (unique ni) sender).
    + change (for_each (λ ni0, if String.eqb (unique ni0) sender then emit_both (well_known ni0) msg else mret tt) l
        (Connection conn names ms ((em ++ [(signal_name (well_known ni) (m_path msg) (m_interface msg +:+ "." +:+ m_member msg), m_args msg)])
          ++ [(signal_name (well_known ni) (m_path msg) (m_member msg), m_args msg)])) = 
        Done tt (Connection conn names ms (em ++ (both (well_known ni) msg ++
          concat ((λ ni0, if String.eqb (unique ni0) sender then both (well_known ni0) msg else []) <$> l))))).
      rewrite IH. cbn [c_conn c_known_names c_matches c_emitted]. rewrite <- !app_assoc. reflexivity.
    + exact (IH (Connection conn names ms em)).
Qed.

Lemma emitted_heard names sender msg bus path name args :
  plain "%" sender → plain "%" (m_path msg) → Forall (λ ni, plain "%" (well_known ni)) names →
  plain "%" bus → plain "%" path →
  (signal_name bus path name, args) ∈ emitted_for names sender msg ↔
  args = m_args msg ∧ heard names sender msg bus path name.
Proof.
  intros Hs Hp Hn Hb Hpath.
  assert (Hboth : ∀ b, plain "%" b → (signal_name bus path name, args) ∈ both b msg ↔
    args = m_args msg ∧ path = m_path msg ∧
    (name = m_interface msg +:+ "." +:+ m_member msg ∨ name = m_member msg) ∧ bus = b).
  { intros b Hb'. unfold both. rewrite elem_of_cons, list_elem_of_singleton, !pair_equal_spec, !signal_name_inj by done.
    naive_solver. }
  unfold emitted_for, heard. destruct (starts_with ":" sender).
  - rewrite list_elem_of_In, in_concat. setoid_rewrite <- list_elem_of_In. split.
    + intros (l & (ni & -> & Hni)%list_elem_of_fmap & Hin).
      destruct (String.eqb (unique ni) sender) eqn:E; [|by apply elem_of_nil in Hin].
      apply String.eqb_eq in E. rewrite Forall_forall in Hn. apply Hboth in Hin; [|by apply Hn].
      destruct Hin as (-> & -> & Hname & ->). destruct ni as [w u]. cbn in *. subst u. done.
    + intros (-> & -> & Hname & Hin). exists (both bus msg). split; [|by apply Hboth].
      apply list_elem_of_fmap. exists (BusName bus sender). cbn [unique well_known]. rewrite String.eqb_refl. done.
  - rewrite Hboth by done. naive_solver.
Qed.

(** C14. A signal of the bus is emitted under exactly the names the objects of the
    connection listen to: an object [(bus, path)] hears it, with and without its
    interface, when the path is its path and its bus name is the sender, or is
    owned by the sender; nothing else of the connection changes. *)
Theorem signal_routed msg sender c :
  m_signal msg = true → m_sender msg = Some sender → m_member msg ≠ "NameOwnerChanged" →
  plain "%" sender → plain "%" (m_path msg) → Forall (λ ni, plain "%" (well_known ni)) (c_known_names c) →
  ∃ new,
    dbus_filter msg c = Done HANDLED (Connection (c_conn c) (c_known_names c) (c_matches c) (c_emitted c ++ new)) ∧
    ∀ bus path name args, plain "%" bus → plain "%" path →
      (object_signal_name bus path (Some name), args) ∈ new ↔
      args = m_args msg ∧ heard (c_known_names c) sender msg bus path (till_nul name).
Proof.
  intros Hsig Hsender Hm Hs Hp Hn. exists (emitted_for (c_known_names c) sender msg). split.
  - unfold dbus_filter, is_name_owner_changed. rewrite Hsig, Hsender.
    rewrite (proj2 (String.eqb_neq _ _) Hm). unfold emitted_for.
    destruct (starts_with ":" sender).
    + change (mbind (M := ST di_dbus_connection) (λ _ : unit, mret HANDLED)
        (for_each (λ ni, if String.eqb (unique ni) sender then emit_both (well_known ni) msg else mret tt) (c_known_names c)) c = 
        Done HANDLED (Connection (c_conn c) (c_known_names c) (c_matches c) (c_emitted c ++
          concat ((λ ni, if String.eqb (unique ni) sender then both (well_known ni) msg else []) <$> c_known_names c)))).
      unfold mbind at 1, ST_bind at 1. rewrite emit_names. reflexivity.
    + change (Done HANDLED (Connection (c_conn c) (c_known_names c) (c_matches c)
        ((c_emitted c ++ [hd ("", [])%string (both sender msg)]) ++ [List.last (both sender msg) ("", [])%string])) =
        Done HANDLED (Connection (c_conn c) (c_known_names c) (c_matches c) (c_emitted c ++ both sender msg))).
      rewrite <- app_assoc. reflexivity.
  - intros bus path name args Hb Hpath. unfold object_signal_name. apply emitted_heard; done.
Qed.

Definition example_signal : message :=
  Message true (Some ":1.7"%string) "/org/foo" "org.foo.Bar" "Changed" [VInt 3].

Definition example_connection : di_dbus_connection :=
  Connection true [BusName "org.other" ":1.8"; BusName "org.foo" ":1.7"] [] [].

Lemma signal_routed_witness :
  dbus_filter example_signal example_connection =
    Done HANDLED (Connection true (c_known_names example_connection) []
      [("%org.foo%/org/foo%org.foo.Bar.Changed", [VInt 3]); ("%org.foo%/org/foo%Changed", [VInt 3])])%string ∧
  ∃ new,
    dbus_filter example_signal example_connection =
      Done HANDLED (Connection true (c_known_names example_connection) [] new) ∧
    (object_signal_name "org.foo" "/org/foo" (Some "Changed"%string), [VInt 3]) ∈ new.
Proof.
  split; [vm_compute; reflexivity|].
  destruct (signal_routed example_signal ":1.7" example_connection) as (new & E & H);
    [reflexivity|reflexivity|discriminate|reflexivity|reflexivity|repeat constructor|].
  exists new. split; [exact E|]. apply H; [reflexivity|reflexivity|]. split; [reflexivity|].
  split; [reflexivity|]. split; [right; reflexivity|]. change (BusName "org.foo" ":1.7" ∈ c_known_names example_connection).
  right. left.
Defined.

(** ** Owners of names *)

(** A change of an owner: the name, and its new owner or "". *)
Definition bus_step (owners : gmap string string) (ch : string * string) : gmap string string :=
  if String.eqb ch.2 EmptyString then delete ch.1 owners else <[ch.1 := ch.2]> owners.

Definition owner_changed (name old new : string) : message :=
  Message true (Some "org.freedesktop.DBus"%string) "/org/freedesktop/DBus" "org.freedesktop.DBus" "NameOwnerChanged"
    [VString (Some name); VString (Some old); VString (Some new)].

(** The messages the bus sends for a sequence of changes. *)
Fixpoint reported (owners : gmap string string) (l : list (string * string)) : list message :=
  match l with
  | [] => []
  | ch :: l' => owner_changed ch.1 (default EmptyString (owners !! ch.1)) ch.2 :: reported (bus_step owners ch) l'
  end.

(** A well-known name: not empty, without NUL bytes, and not a unique name. *)
Definition name_ok (w : string) : bool :=
  negb (String.eqb w EmptyString) && nul_free w && negb (starts_with ":" w).

Definition prefix_free (W : list string) : Prop :=
  ∀ a b, a ∈ W → b ∈ W → starts_with a b = true → a = b.

(** The known names are the owners. *)
Record tracks (W : list string) (owners : gmap string string) (names : list dbus_bus_name) : Prop := {
  tr_nodup : NoDup (well_known <$> names);
  tr_watched : ∀ ni, ni ∈ names → well_known ni ∈ W;
  tr_owner : ∀ w u, BusName w u ∈ names ↔ owners !! w = Some u;
  tr_some : ∀ w, owners !! w ≠ Some EmptyString
}.

Lemma strncmp_prefix a b : nul_free a = true → strncmp0 a b = starts_with a b.
Proof.
  revert b. induction a as [|x a IH]; intros b; [reflexivity|].
  cbn [nul_free]. intros [Hx%negb_true_iff Ha]%andb_prop.
  destruct b as [|y b]; cbn [strncmp0 starts_with].
  - exact Hx.
  - rewrite (IH b Ha). unfold zero in *. rewrite Hx. reflexivity.
Qed.

Lemma starts_with_refl s : starts_with s s = true.
Proof. apply starts_with_spec. exists EmptyString. symmetry. apply cat_nil. Qed.

(** Removing the entries of a name. *)
Lemma tracks_remove W owners names w :
  prefix_free W → w ∈ W → nul_free w = true → tracks W owners names →
  tracks W (delete w owners) (List.filter (λ i, negb (strncmp0 w (well_known i))) names).
Proof.
  intros HW Hw Hn [Hnd Hwa Ho Hs].
  assert (Hin : ∀ ni, ni ∈ List.filter (λ i, negb (strncmp0 w (well_known i))) names ↔ ni ∈ names ∧ well_known ni ≠ w).
  { intros ni. rewrite !list_elem_of_In, filter_In, <- list_elem_of_In, negb_true_iff, strncmp_prefix by done.
    split; intros [Hni H]; (split; [exact Hni|]).
    - intros E. rewrite E, starts_with_refl in H. discriminate.
    - apply not_true_is_false. intros Hp. apply H. symmetry. apply HW; auto. }
  split.
  - clear Hin Ho Hwa. induction names as [|ni l IH]; [constructor|].
    rewrite fmap_cons in Hnd. apply NoDup_cons in Hnd as [Hni Hnd]. cbn [List.filter].
    destruct (negb _); [|auto]. rewrite fmap_cons. apply NoDup_cons. split; [|auto].
    intros (x & E & Hx)%list_elem_of_fmap. apply list_elem_of_In, filter_In in Hx as [Hx _]. apply Hni.
    apply list_elem_of_fmap. exists x. rewrite list_elem_of_In. done.
  - intros ni [H _]%Hin. auto.
  - intros w' u. rewrite Hin. cbn [well_known]. rewrite Ho, lookup_delete_Some. naive_solver.
  - intros w'. rewrite lookup_delete_Some. intros [_ H]. exact (Hs _ H).
Qed.

Lemma tracks_add W owners names w u :
  w ∈ W → u ≠ EmptyString → owners !! w = None → tracks W owners names →
  tracks W (<[w := u]> owners) (BusName w u :: names).
Proof.
  intros Hw Hu Hno [Hnd Hwa Ho Hs].
  assert (Hnew : ∀ u', BusName w u' ∉ names). { intros u' H%Ho. congruence. }
  split.
  - rewrite fmap_cons. apply NoDup_cons. split; [|exact Hnd].
    intros ([w' u'] & E & H)%list_elem_of_fmap. cbn in E. subst w'. exact (Hnew _ H).
  - intros ni [->|H]%elem_of_cons; [exact Hw|auto].
  - intros w' u'. rewrite elem_of_cons, lookup_insert_Some, Ho. split.
    + intros [[= -> ->]|H]; [auto|]. right. split; [congruence|exact H].
    + intros [[-> ->]|[_ H]]; auto.
  - intros w'. rewrite lookup_insert_Some. intros [[_ ->]|[_ H]]; [congruence|exact (Hs _ H)].
Qed.

Definition forget (w : string) : list dbus_bus_name → list dbus_bus_name :=
  List.filter (λ i, negb (strncmp0 w (well_known i))).

Lemma update_name_runs w old u force c :
  name_ok w = true → nul_free u = true →
  di_dbus_update_name (Some w) (Some old) (Some u) force c =
  let kept := if force || negb (String.eqb old EmptyString) then forget w (c_known_names c) else c_known_names c in
  Done tt (set_names (if String.eqb u EmptyString then kept else BusName w u :: kept) c).
Proof.
  destruct c as [conn names ms em].
  intros [[Hw%negb_true_iff Hn]%andb_prop Hc]%andb_prop Hu. unfold di_dbus_update_name.
  cbn [default]. unfold default, id. pose proof (till_nul_free w Hn) as Ew. pose proof (till_nul_free u Hu) as Eu.
  destruct w as [|ch w']; [discriminate|]. apply negb_true_iff in Hc.
  replace (starts_with ":" (String ch w')) with (Ascii.eqb ":" ch) in Hc
    by (cbn [starts_with]; rewrite andb_true_r; reflexivity).
  rewrite Ascii.eqb_sym, Hc. rewrite Ew, Eu.
  destruct (force || _), (String.eqb u EmptyString); reflexivity.
Qed.

(** One change of an owner, as the bus or the answer to [GetNameOwner] reports it. *)
Lemma update_name_tracks W owners w old u (force : bool) c :
  prefix_free W → w ∈ W → name_ok w = true → nul_free u = true →
  force = true ∨ old = default EmptyString (owners !! w) → tracks W owners (c_known_names c) →
  ∃ names, di_dbus_update_name (Some w) (Some old) (Some u) force c = Done tt (set_names names c) ∧
    tracks W (bus_step owners (w, u)) names.
Proof.
  intros HW Hw Hok Hu Hold HT. eexists. rewrite update_name_runs by done. split; [reflexivity|].
  set (kept := if force || negb (String.eqb old EmptyString) then forget w (c_known_names c) else c_known_names c).
  assert (tracks W (delete w owners) kept) as HK.
  { unfold kept. destruct (force || negb (String.eqb old EmptyString)) eqn:E.
    - apply tracks_remove; try done. apply andb_prop in Hok as [Hok _]. apply andb_prop in Hok. tauto.
    - apply orb_false_elim in E as [-> E%negb_false_iff%String.eqb_eq]. destruct Hold as [|Hold]; [discriminate|].
      rewrite delete_id; [done|]. destruct (owners !! w) as [v|] eqn:Ev; [|reflexivity].
      cbn in Hold. subst. destruct (tr_some _ _ _ HT w). congruence. }
  unfold bus_step. cbn [fst snd]. destruct (String.eqb u EmptyString) eqn:Eu; [exact HK|].
  rewrite <- insert_delete_eq. apply tracks_add; [done| |apply lookup_delete_eq|exact HK].
  apply String.eqb_neq. exact Eu.
Qed.

(** ** The filter on changes of owners *)

Definition handle (msg : message) : ST di_dbus_connection unit := dbus_filter msg;; mret tt.

Lemma filter_owner_changed W owners w u c :
  prefix_free W → w ∈ W → name_ok w = true → nul_free u = true → tracks W owners (c_known_names c) →
  ∃ c', handle (owner_changed w (default EmptyString (owners !! w)) u) c = Done tt c' ∧
    tracks W (bus_step owners (w, u)) (c_known_names c').
Proof.
  intros HW Hw Hok Hu HT. set (old := default EmptyString (owners !! w)).
  destruct (update_name_tracks W owners w old u false c HW Hw Hok Hu (or_intror eq_refl) HT) as (names & E & HT').
  eexists. split.
  - change (handle (owner_changed w old u) c) with
      (((di_dbus_update_name (Some w) (Some old) (Some u) false;;
        (emit_both "org.freedesktop.DBus" (owner_changed w old u);; mret HANDLED));; mret tt : ST di_dbus_connection unit) c).
    unfold mbind, ST_bind. rewrite E. reflexivity.
  - exact HT'.
Qed.

(** C13. The names a connection knows are the owners of the bus: after any
    sequence of changes, [known_names] has one entry for each name that has an
    owner, and it is that owner, provided that no watched name is a prefix of
    another. *)
Theorem owners_tracked W l c :
  prefix_free W → c_known_names c = [] →
  Forall (λ ch, ch.1 ∈ W ∧ name_ok ch.1 = true ∧ nul_free ch.2 = true) l →
  ∃ c', for_each handle (reported ∅ l) c = Done tt c' ∧ NoDup (well_known <$> c_known_names c') ∧
    ∀ w u, BusName w u ∈ c_known_names c' ↔ foldl bus_step ∅ l !! w = Some u.
Proof.
  intros HW Hc Hl.
  assert (Hmain : ∀ owners c0, tracks W owners (c_known_names c0) →
    ∃ c', for_each handle (reported owners l) c0 = Done tt c' ∧ tracks W (foldl bus_step owners l) (c_known_names c')).
  { clear c Hc. induction Hl as [|[w u] l (Hw & Hok & Hu) _ IH]; intros owners c HT; [exists c; done|].
    destruct (filter_owner_changed W owners w u c HW Hw Hok Hu HT) as (c1 & E1 & HT1).
    destruct (IH _ c1 HT1) as (c2 & E2 & HT2). exists c2. split; [|exact HT2].
    cbn [reported for_each fst snd]. unfold mbind, ST_bind. rewrite E1. exact E2. }
  destruct (Hmain ∅ c) as (c' & E & [Hnd _ Ho _]).
  - rewrite Hc. split; [constructor|intros ? []%not_elem_of_nil| |intros ?; rewrite lookup_empty; discriminate].
    intros w u. rewrite lookup_empty. split; [intros []%not_elem_of_nil|discriminate].
  - exists c'. done.
Qed.

Definition example_changes : list (string * string) :=
  [("org.foo", ":1.7"); ("org.bar", ":1.8"); ("org.foo", ":1.9"); ("org.bar", "")]%string.

Lemma owners_tracked_witness :
  let c := Connection true [] [] [] in
  (∃ c', for_each handle (reported ∅ example_changes) c = Done tt c' ∧
         c_known_names c' = [BusName "org.foo" ":1.9"]) ∧
  ∃ c', for_each handle (reported ∅ example_changes) c = Done tt c' ∧
    NoDup (well_known <$> c_known_names c') ∧
    ∀ w u, BusName w u ∈ c_known_names c' ↔ foldl bus_step ∅ example_changes !! w = Some u.
Proof.
  split.
  - eexists. split; [vm_compute; reflexivity|reflexivity].
  - apply (owners_tracked ["org.foo"; "org.bar"]%string).
    + intros a b Ha Hb. rewrite !elem_of_cons in Ha, Hb.
      destruct Ha as [->|[->|[]%not_elem_of_nil]], Hb as [->|[->|[]%not_elem_of_nil]]; vm_compute; congruence.
    + reflexivity.
    + repeat constructor.
Defined.

(** The owner of a name is forgotten when a name that it starts with changes
    its owner: the comparison stops at the length of the shorter name. *)
Theorem prefix_forgotten w suffix v old u c :
  name_ok w = true → nul_free u = true → old ≠ EmptyString →
  ∃ c', di_dbus_update_name (Some w) (Some old) (Some u) false c = Done tt c' ∧
    (suffix ≠ EmptyString → BusName (w +:+ suffix) v ∉ c_known_names c').
Proof.
  intros Hok Hu Hold. rewrite update_name_runs by done. eexists. split; [reflexivity|].
  rewrite (proj2 (String.eqb_neq _ _) Hold). cbn [orb negb c_known_names set_names].
  assert (BusName (w +:+ suffix) v ∉ forget w (c_known_names c)) as Hf.
  { unfold forget. intros [_ H]%list_elem_of_In%filter_In. apply negb_true_iff in H. cbn [well_known] in H.
    rewrite strncmp_prefix in H; [rewrite starts_with_app in H; discriminate|].
    apply andb_prop in Hok as [Hok _]. apply andb_prop in Hok. tauto. }
  intros Hs. destruct (String.eqb u EmptyString); [exact Hf|]. intros [[= E _]|H]%elem_of_cons; [|exact (Hf H)].
  apply Hs. apply (string_app_inj_l w). rewrite cat_nil. exact E.
Qed.

Lemma prefix_forgotten_witness :
  BusName "org.foo.bar" ":1.2" ∈ c_known_names (Connection true [BusName "org.foo.bar" ":1.2"] [] []) ∧
  ∃ c', di_dbus_update_name (Some "org.foo"%string) (Some ":1.7"%string) (Some ":1.9"%string) false
          (Connection true [BusName "org.foo.bar" ":1.2"] [] []) = Done tt c' ∧
    BusName "org.foo.bar" ":1.2" ∉ c_known_names c'.
Proof.
  split; [left|].
  destruct (prefix_forgotten "org.foo" ".bar" ":1.2" ":1.7" ":1.9" (Connection true [BusName "org.foo.bar" ":1.2"] [] []))
    as (c' & E & H); [reflexivity|reflexivity|discriminate|]. exists c'. split; [exact E|]. apply H. discriminate.
Defined.

(** ** Match rules and method names *)

Definition rule_of (bus path : string) (interface : option string) (member : string) : string :=
  "type='signal',sender='" +:+ bus +:+ "',path='" +:+ path +:+
  match interface with
  | Some i => "',interface='" +:+ i +:+ "',member='" +:+ member +:+ "'"
  | None => "',member='" +:+ member +:+ "'"
  end.

Definition clean (s : string) : Prop := plain "%" s ∧ nul_free s = true.

Lemma change_match_signal add bus path name c :
  c_conn c = true → clean bus → clean path → path ≠ EmptyString →
  change_match add (Some (signal_name bus path name)) c =
  match (match strchr "." name with
         | Some (i, m) => if String.eqb i EmptyString || String.eqb (till_nul m) EmptyString then None
                          else Some (rule_of bus path (Some (till_nul i)) (till_nul m))
         | None => Some (rule_of bus path None (till_nul name))
         end) with
  | Some rule => match_call add rule c
  | None => Done tt c
  end.
Proof.
  intros Hc [Hb Hbn] [Hp Hpn] Hpe. unfold change_match, get, mbind, ST_bind. rewrite Hc. cbn [negb].
  change (signal_name bus path name) with (String "%" (bus +:+ String "%" (path +:+ String "%" name))).
  cbn match. rewrite Ascii.eqb_refl.
  replace (default EmptyString (di_substring_start (Some (String "%" (bus +:+ String "%" (path +:+ String "%" name)))) 1))
    with (bus +:+ String "%" (path +:+ String "%" name)) by (destruct bus; reflexivity).
  unfold to_dbus_match_rule.
  rewrite (strchr_app _ _ _ Hb), (strchr_app _ _ _ Hp), (proj2 (String.eqb_neq _ _) Hpe).
  rewrite (till_nul_free _ Hbn), (till_nul_free _ Hpn).
  destruct (strchr "." name) as [[i m]|]; [destruct (_ || _)|]; reflexivity.
Qed.

(** The match rule for a signal of an interface: every interface name of D-Bus
    has a dot, but the rule is cut at the first dot of the name, so that it asks
    for the interface [a] and the member [b.m] of a signal [m] of [a.b]; without an
    interface it asks for the member.  The same rule is removed again. *)
Theorem interface_cut_at_first_dot (add : bool) bus path a b m c :
  c_conn c = true → clean bus → clean path → path ≠ EmptyString →
  plain "." a → a ≠ EmptyString → nul_free a = true → nul_free (b +:+ "." +:+ m) = true →
  plain "." m → nul_free m = true →
  (if add then di_dbus_new_signal else di_dbus_del_signal)
    (Some (object_signal_name bus path (Some (a +:+ "." +:+ (b +:+ "." +:+ m))))) c =
    match_call add (rule_of bus path (Some a) (b +:+ "." +:+ m)) c ∧
  (if add then di_dbus_new_signal else di_dbus_del_signal)
    (Some (object_signal_name bus path (Some m))) c =
    match_call add (rule_of bus path None m) c ∧
  a +:+ "." +:+ b ≠ a.
Proof.
  intros Hc Hb Hp Hpe Ha Hae Han Hbm Hm Hmn. unfold object_signal_name. cbn [default]. unfold default, id.
  assert (nul_free (a +:+ "." +:+ (b +:+ "." +:+ m)) = true) as Hall.
  { rewrite nul_free_has_char, has_char_app. rewrite nul_free_has_char in Han, Hbm.
    apply negb_true_iff in Han, Hbm. rewrite Han. change (negb (has_char zero (b +:+ "." +:+ m)) = true).
    rewrite Hbm. reflexivity. }
  rewrite (till_nul_free _ Hall), (till_nul_free _ Hmn).
  assert (b +:+ "." +:+ m ≠ EmptyString) as Hne by (destruct b; discriminate).
  split; [|split].
  - transitivity (change_match add (Some (signal_name bus path (a +:+ "." +:+ (b +:+ "." +:+ m)))) c);
      [destruct add; reflexivity|].
    rewrite change_match_signal by done. change ("." +:+ (b +:+ "." +:+ m)) with (String "." (b +:+ "." +:+ m)).
    rewrite (strchr_app _ _ _ Ha), (till_nul_free _ Hbm), (till_nul_free _ Han).
    rewrite (proj2 (String.eqb_neq _ _) Hae), (proj2 (String.eqb_neq _ _) Hne). reflexivity.
  - transitivity (change_match add (Some (signal_name bus path m)) c); [destruct add; reflexivity|].
    rewrite change_match_signal by done. rewrite (strchr_none _ _ Hm), (till_nul_free _ Hmn). reflexivity.
  - intros E. rewrite <- (cat_nil a) in E at 2. apply string_app_inj_l in E. discriminate.
Qed.

Lemma interface_cut_at_first_dot_witness :
  di_dbus_new_signal (Some (object_signal_name "org.foo" "/org/foo" (Some "org.foo.Bar.Changed"%string)))
    example_connection =
  match_call true "type='signal',sender='org.foo',path='/org/foo',interface='org',member='foo.Bar.Changed'"
    example_connection.
Proof.
  apply (interface_cut_at_first_dot true "org.foo" "/org/foo" "org" "foo.Bar" "Changed" example_connection);
    try reflexivity; try discriminate; split; reflexivity.
Defined.

(** A method name is split at its last dot into an interface, which has a dot
    itself, and a method; the errors are those of an empty part and of an interface
    without a dot, and a name without a dot is a method of no interface. *)
Theorem method_name_split (ifc m : string) :
  nul_free ifc = true → nul_free m = true → plain "." m →
  split_method_name (Some m) = DbusMethod None m ∧
  split_method_name (Some (ifc +:+ "." +:+ m)) =
    if String.eqb ifc EmptyString || String.eqb m EmptyString
    then MethodError "Method name or interface name is empty"
    else if has_char "." ifc then DbusMethod (Some ifc) m
    else MethodError "Invalid interface name".
Proof.
  intros Hi Hm Hd. unfold split_method_name. cbn [default]. unfold default, id. split.
  - rewrite (strrchr_none _ _ Hd), c_str_eq. cbn. rewrite (till_nul_free _ Hm). reflexivity.
  - change ("." +:+ m) with (String "." m). rewrite (strrchr_app _ _ _ Hd), (till_nul_free _ Hi), (till_nul_free _ Hm).
    destruct (String.eqb ifc EmptyString || String.eqb m EmptyString), (has_char "." ifc); reflexivity.
Qed.

Lemma method_name_split_witness :
  split_method_name (Some "org.foo.Bar.Get"%string) = DbusMethod (Some "org.foo.Bar"%string) "Get" ∧
  split_method_name (Some "Get"%string) = DbusMethod None "Get" ∧
  split_method_name (Some "foo.Get"%string) = MethodError "Invalid interface name".
Proof.
  split; [exact (proj2 (method_name_split "org.foo.Bar" "Get" eq_refl eq_refl eq_refl))|].
  split; [exact (proj1 (method_name_split "" "Get" eq_refl eq_refl eq_refl))|].
  exact (proj2 (method_name_split "foo" "Get" eq_refl eq_refl eq_refl)).
Defined.
