(* ===== verification/Spawn.v ===== *)
(** * Child processes (spawn.c)

    The line splitter of the output of a child, the life cycle of a child
    object, and the file descriptors of a spawn.  The reads of the pipes, the
    outcomes of system calls and the exit status are inputs. *)

From S2P Require Import Prelude DiTypes StringBuf.

(** ** The child *)

Inductive stream : Type := Stdout | Stderr.

#[export] Instance stream_eq_dec : EqDecision stream.
Proof. solve_decision. Defined.

Inductive spawn_event : Type :=
  | EvLine (st : stream) (line : string)     (** [stdout_line], [stderr_line] *)
  | EvExit (exit_code sig : Z)
  | EvClose (st : stream)                    (** [close] of the read end *)
  | EvStopChild.                             (** [ev_child_stop] *)

(** [struct child]: the buffers, whether the io watchers run, whether the member
    ["__deai"] is there, and the log of what happened, oldest first. *)
Record child := Child {
  c_out : option string_buf;
  c_err : option string_buf;
  c_deai : bool;
  c_log : list spawn_event
}.

Definition buf_of (st : stream) (c : child) : option string_buf :=
  match st with Stdout => c_out c | Stderr => c_err c end.
Definition with_buf (st : stream) (b : option string_buf) (c : child) : child :=
  match st with
  | Stdout => Child b (c_err c) (c_deai c) (c_log c)
  | Stderr => Child (c_out c) b (c_deai c) (c_log c)
  end.

Definition log_ev (e : spawn_event) : ST child unit :=
  modify (λ c, Child (c_out c) (c_err c) (c_deai c) (c_log c ++ [e])).

Definition get_buf (st : stream) : ST child string_buf :=
  c ← get; from_opt NullDeref (buf_of st c).

(** An operation on the buffer of a stream. *)
Definition on_buf {A} (st : stream) (m : ST string_buf A) : ST child A := λ c,
  match buf_of st c with
  | None => Crash NullDeref
  | Some b =>
      match m b with
      | Done a b' => Done a (with_buf st (Some b') c)
      | Crash e => Crash e
      | NoFuel => NoFuel
      end
  end.

(** ** Splitting the output into lines *)

Definition newline : Ascii.ascii := Ascii.ascii_of_nat 10.

(** [memchr(pos, '\n', len)]: what is before the newline and what follows it. *)
Fixpoint split_eol (s : string) : option (string * string) :=
  match s with
  | EmptyString => None
  | String c s' =>
      if Ascii.eqb c newline then Some (EmptyString, s')
      else match split_eol s' with
           | Some (l, r) => Some (String c l, r)
           | None => None
           end
  end.

(** The inner loop of [output_handler], on the bytes from [pos] on. *)
Fixpoint scan_lines (fuel : nat) (st : stream) (pos : string) : ST child unit :=
  match fuel with
  | O => out_of_fuel
  | S k =>
      match split_eol pos with
      | Some (line, rest) =>
          b ← get_buf st;
          (if string_buf_is_empty b then log_ev (EvLine st (till_nul line))
           else
             on_buf st (string_buf_push line);;
             out ← on_buf st string_buf_dump;
             log_ev (EvLine st out));;
          scan_lines k st rest
      | None => on_buf st (string_buf_lpush pos (String.length pos))
      end
  end.

(** [output_handler]; [reads] are the chunks that [read] returns before it
    returns 0 or an error. *)
Definition output_handler (st : stream) (reads : list string) : ST child unit :=
  for_each (λ buf, scan_lines (S (String.length buf)) st buf) reads.

(** [stdout_cb], [stderr_cb]: the callbacks of the io watchers. *)
Definition output_cb (st : stream) (reads : list string) : ST child unit :=
  c ← get;
  check (match buf_of st c with Some _ => true | None => false end);;
  output_handler st reads.

(** ** Exit *)

(** The exit status of [waitpid] (Linux encoding). *)
Definition WTERMSIG (status : Z) : Z := Z.land status 0x7f.
Definition WIFSIGNALED (status : Z) : bool := (0 <? wrap_s 8 (Z.land status 0x7f + 1) / 2)%Z.
Definition WEXITSTATUS (status : Z) : Z := Z.shiftr (Z.land status 0xff00) 8.

(** The part of [child_cleanup] for one stream. *)
Definition cleanup_stream (st : stream) : ST child unit :=
  c ← get;
  match buf_of st c with
  | Some _ => log_ev (EvClose st);; modify (with_buf st None)
  | None => mret tt
  end.

(** [child_cleanup]: nothing happens without a reference to deai. *)
Definition child_cleanup : ST child unit :=
  c ← get;
  if c_deai c then
    log_ev EvStopChild;; cleanup_stream Stdout;; cleanup_stream Stderr
  else mret tt.

(** What is left in the buffer is a last line. *)
Definition flush (st : stream) : ST child unit :=
  b ← get_buf st;
  if string_buf_is_empty b then mret tt
  else o ← on_buf st string_buf_dump; log_ev (EvLine st o).

Definition drain (st : stream) (reads : list string) : ST child unit :=
  c ← get;
  match buf_of st c with
  | Some _ => output_handler st reads;; flush st
  | None => mret tt
  end.

(** [sigchld_handler] *)
Definition sigchld_handler (rstatus : Z) (out_reads err_reads : list string) : ST child unit :=
  let sig := if WIFSIGNALED rstatus then WTERMSIG rstatus else 0%Z in
  let ec := WEXITSTATUS rstatus in
  drain Stdout out_reads;;
  drain Stderr err_reads;;
  log_ev (EvExit ec sig);;
  child_cleanup;;
  modify (λ c, Child (c_out c) (c_err c) false (c_log c)).

(** [child_destroy] *)
Definition child_destroy : ST child unit :=
  c ← get;
  match c_err c with Some _ => on_buf Stderr string_buf_clear | None => mret tt end;;
  match c_out c with Some _ => on_buf Stdout string_buf_clear | None => mret tt end;;
  child_cleanup.

(** The child of a [di_spawn_run] that captures the output. *)
Definition new_child : child := Child (Some string_buf_new) (Some string_buf_new) true [].

(** ** The specification of the splitter *)

(** The complete lines of a text, and what follows the last newline; [cur] is
    the beginning of the current line. *)
Fixpoint lines_from (cur s : string) : list string * string :=
  match s with
  | EmptyString => ([], cur)
  | String c s' =>
      if Ascii.eqb c newline then
        let (ls, r) := lines_from EmptyString s' in (cur :: ls, r)
      else lines_from (cur +:+ String c EmptyString) s'
  end.

Fixpoint cat (l : list string) : string :=
  match l with [] => EmptyString | s :: l' => s +:+ cat l' end.

(** *** Lemmas on lines *)

Lemma lines_app cur a b :
  lines_from cur (a +:+ b) =
  ((lines_from cur a).1 ++ (lines_from (lines_from cur a).2 b).1, (lines_from (lines_from cur a).2 b).2).
Proof.
  revert cur. induction a as [|c a IH]; intros cur.
  - change (EmptyString +:+ b) with b. cbn. destruct (lines_from cur b); reflexivity.
  - change (String c a +:+ b) with (String c (a +:+ b)). cbn [lines_from].
    destruct (Ascii.eqb c newline); [|apply IH]. rewrite IH.
    destruct (lines_from "" a) as [ls r]. cbn [fst snd]. destruct (lines_from r b). reflexivity.
Qed.

Lemma split_some cur s l r :
  split_eol s = Some (l, r) →
  lines_from cur s = ((cur +:+ l) :: (lines_from EmptyString r).1, (lines_from EmptyString r).2).
Proof.
  revert cur l. induction s as [|c s IH]; intros cur l; simpl; [discriminate|].
  destruct (Ascii.eqb c newline).
  - intros [= <- <-]. rewrite cat_nil. destruct (lines_from "" s); reflexivity.
  - destruct (split_eol s) as [[l' r']|]; [|discriminate]. intros [= <- <-].
    rewrite (IH _ l' eq_refl), cat_assoc. reflexivity.
Qed.

Lemma split_none cur s : split_eol s = None → lines_from cur s = ([], cur +:+ s).
Proof.
  revert cur. induction s as [|c s IH]; intros cur; simpl; [rewrite cat_nil; reflexivity|].
  destruct (Ascii.eqb c newline); [discriminate|].
  destruct (split_eol s) as [[l r]|]; [discriminate|]. intros _. rewrite IH by reflexivity.
  rewrite cat_assoc. reflexivity.
Qed.

Lemma split_parts s l r :
  split_eol s = Some (l, r) →
  String.length r < String.length s ∧ (nul_free s = true → nul_free l = true ∧ nul_free r = true).
Proof.
  revert l. induction s as [|c s IH]; intros l; simpl; [discriminate|].
  destruct (Ascii.eqb c newline).
  - intros [= <- <-]. split; [lia|]. intros [_ H]%andb_prop. auto.
  - destruct (split_eol s) as [[l' r']|]; [|discriminate]. intros [= <- <-].
    destruct (IH l' eq_refl) as [Hl Hn]. split; [lia|]. intros [Hc H]%andb_prop.
    destruct (Hn H). simpl. rewrite Hc. auto.
Qed.

Lemma text_snoc l s k : text (l ++ [(s, k)]) = text l +:+ s.
Proof.
  induction l as [|[s' k'] l IH]; cbn [app text foldr fst]; [apply cat_nil|].
  fold (text (l ++ [(s, k)])). fold (text l). rewrite IH, cat_assoc. reflexivity.
Qed.

Lemma exact_snoc l s : exact l → exact (l ++ [(s, String.length s)]).
Proof.
  intros He s' k' [H|H%list_elem_of_singleton]%elem_of_app; [apply He, H|]. congruence.
Qed.

(** *** The splitter *)

(** The buffer of [st] holds the text [r]; [ne] tells that it is not empty. *)
Definition holding (st : stream) (r : string) (ne : bool) (c : child) : Prop :=
  ∃ b l, buf_of st c = Some b ∧ rep b l ∧ exact l ∧ text l = r ∧ (ne = true → l ≠ []).

(** The child after the lines [ls], with a new buffer. *)
Definition after (st : stream) (ls : list string) (c c' : child) : Prop :=
  c_log c' = c_log c ++ map (EvLine st) ls ∧ c_deai c' = c_deai c ∧
  ∀ st', st' ≠ st → buf_of st' c' = buf_of st' c.

Lemma after_trans st l1 l2 c1 c2 c3 : after st l1 c1 c2 → after st l2 c2 c3 → after st (l1 ++ l2) c1 c3.
Proof.
  intros (H1 & H2 & H3) (H4 & H5 & H6). split; [rewrite H4, H1, map_app, app_assoc; reflexivity|].
  split; [congruence|]. intros st' Hst. rewrite H6, H3 by exact Hst. reflexivity.
Qed.

Lemma buf_with_eq st b c : buf_of st (with_buf st b c) = b.
Proof. destruct st; reflexivity. Qed.

Lemma after_with st b c : after st [] c (with_buf st b c).
Proof.
  destruct st; (split; [symmetry; apply app_nil_r|]; split; [reflexivity|]);
    intros [] H; try reflexivity; destruct H; reflexivity.
Qed.

Lemma lpush_holding st r ne c pos :
  holding st r ne c → nul_free pos = true →
  ∃ c', on_buf st (string_buf_lpush pos (String.length pos)) c = Done tt c' ∧
        after st [] c c' ∧ holding st (r +:+ pos) true c'.
Proof.
  intros (b & l & Hb & HR & He & <- & _) Hn. unfold on_buf, string_buf_lpush. rewrite Hb.
  assert (take_bytes (String.length pos) pos = pos) as ->.
  { apply take_bytes_all. }
  rewrite till_nul_free by exact Hn.
  destruct (append_rep b l pos (String.length pos) HR) as (b' & -> & HR').
  eexists. split; [reflexivity|]. split; [apply after_with|].
  exists b', (l ++ [(pos, String.length pos)]). rewrite buf_with_eq, text_snoc.
  split; [reflexivity|]. split; [exact HR'|]. split; [apply exact_snoc, He|]. split; [reflexivity|].
  intros _ H. destruct l; discriminate H.
Qed.

(** Pushing a line and dumping the buffer. *)
Lemma dump_holding st r ne c :
  holding st r ne c →
  ∃ c', on_buf st string_buf_dump c = Done r c' ∧ after st [] c c' ∧ holding st EmptyString false c'.
Proof.
  intros (b & l & Hb & HR & He & <- & _). unfold on_buf. rewrite Hb.
  destruct (dump_rep b l HR He) as (b' & -> & HR'). eexists. split; [reflexivity|].
  split; [apply after_with|]. exists b', []. rewrite buf_with_eq.
  split; [reflexivity|]. split; [exact HR'|]. split; [intros s k H; inversion H|]. split; [reflexivity|discriminate].
Qed.

Lemma log_holding st r ne c line :
  holding st r ne c →
  ∃ c', log_ev (EvLine st line) c = Done tt c' ∧ after st [line] c c' ∧ holding st r ne c'.
Proof.
  intros (b & l & Hb & H). eexists. split; [reflexivity|]. split.
  - split; [reflexivity|]. split; [reflexivity|]. intros []; reflexivity.
  - exists b, l. split; [|exact H]. destruct st; exact Hb.
Qed.

(** One line: it is emitted with what the buffer holds. *)
Lemma emit_line st r ne c line :
  holding st r ne c → nul_free line = true →
  ∃ c', (b ← get_buf st;
         if string_buf_is_empty b then log_ev (EvLine st (till_nul line))
         else on_buf st (string_buf_push line);;
              out ← on_buf st string_buf_dump; log_ev (EvLine st out)) c = Done tt c' ∧
        after st [r +:+ line] c c' ∧ holding st EmptyString false c'.
Proof.
  intros Hc Hn. pose proof Hc as (b & l & Hb & HR & He & Hr & _).
  unfold get_buf, get, mbind, ST_bind. rewrite Hb. cbn [from_opt mret ST_ret].
  rewrite (is_empty_rep b l HR). destruct (bool_decide_reflect (l = [])) as [->|Hl].
  - rewrite till_nul_free by exact Hn. cbn in Hr. subst r.
    destruct (log_holding st EmptyString ne c line Hc) as (c' & -> & Ha & Hh). exists c'.
    split; [reflexivity|]. split; [exact Ha|]. destruct Hh as (b' & l' & H1 & H2 & H3 & H4 & _).
    exists b', l'. auto.
  - unfold string_buf_push. rewrite till_nul_free by exact Hn.
    unfold on_buf at 1. rewrite Hb.
    destruct (append_rep b l line (String.length line) HR) as (b1 & -> & HR1).
    assert (holding st (r +:+ line) false (with_buf st (Some b1) c)) as Hc1.
    { exists b1, (l ++ [(line, String.length line)]). rewrite buf_with_eq, text_snoc, Hr.
      split; [reflexivity|]. split; [exact HR1|]. split; [apply exact_snoc, He|]. auto. }
    destruct (dump_holding _ _ _ _ Hc1) as (c2 & -> & Ha2 & Hc2).
    destruct (log_holding st EmptyString false c2 (r +:+ line) Hc2) as (c3 & -> & Ha3 & Hc3).
    exists c3. split; [reflexivity|]. split; [|exact Hc3].
    apply (after_trans st [] [r +:+ line] c (with_buf st (Some b1) c)); [apply after_with|].
    apply (after_trans st [] [r +:+ line] _ c2); assumption.
Qed.

Lemma scan_lines_spec fuel st pos : ∀ r ne c,
  holding st r ne c → nul_free pos = true → String.length pos < fuel →
  ∃ c', scan_lines fuel st pos c = Done tt c' ∧
        after st (lines_from r pos).1 c c' ∧ holding st (lines_from r pos).2 true c'.
Proof.
  revert pos. induction fuel as [|fuel IH]; intros pos r ne c Hc Hn Hf; [lia|]. cbn [scan_lines].
  destruct (split_eol pos) as [[line rest]|] eqn:Hs.
  - destruct (split_parts _ _ _ Hs) as [Hl Hp]. destruct (Hp Hn) as [Hn1 Hn2].
    destruct (emit_line st r ne c line Hc Hn1) as (c1 & He & Ha1 & Hc1).
    rewrite (split_some r _ _ _ Hs). cbn [fst snd].
    destruct (IH rest EmptyString false c1 Hc1 Hn2 ltac:(lia)) as (c2 & Hs2 & Ha2 & Hc2).
    exists c2. split; [|split; [exact (after_trans _ _ _ _ _ _ Ha1 Ha2)|exact Hc2]].
    revert He. unfold mbind, ST_bind. destruct (get_buf st c) as [b c0|e|]; [|discriminate..].
    intros He. rewrite He. exact Hs2.
  - rewrite (split_none r _ Hs). cbn [fst snd]. apply (lpush_holding st r ne c pos Hc Hn).
Qed.

Lemma output_handler_spec st reads : ∀ r ne c,
  holding st r ne c → forallb nul_free reads = true →
  ∃ c', output_handler st reads c = Done tt c' ∧
        after st (lines_from r (cat reads)).1 c c' ∧
        holding st (lines_from r (cat reads)).2 (ne || negb (bool_decide (reads = []))) c'.
Proof.
  induction reads as [|s reads IH]; intros r ne c Hc Hn.
  - exists c. split; [reflexivity|]. cbn. split; [|rewrite orb_false_r; exact Hc].
    split; [symmetry; apply app_nil_r|]. auto.
  - cbn in Hn. apply andb_prop in Hn as [Hs Hn]. cbn [output_handler for_each cat].
    destruct (scan_lines_spec (S (String.length s)) st s r ne c Hc Hs ltac:(lia)) as (c1 & H1 & Ha1 & Hc1).
    destruct (IH _ true c1 Hc1 Hn) as (c2 & H2 & Ha2 & Hc2).
    exists c2. rewrite lines_app. cbn [fst snd]. split; [|split].
    + unfold mbind, ST_bind. rewrite H1. exact H2.
    + exact (after_trans _ _ _ _ _ _ Ha1 Ha2).
    + cbn [orb] in Hc2. rewrite bool_decide_eq_false_2 by discriminate. cbn [negb].
      rewrite orb_true_r. exact Hc2.
Qed.

(** ** The theorems *)

Lemma new_holding st : holding st EmptyString false new_child.
Proof.
  exists string_buf_new, []. split; [destruct st; reflexivity|]. split; [apply new_rep|].
  split; [intros s k H; inversion H|]. split; [reflexivity|discriminate].
Qed.


(** The lines of a whole output: the rest after the last newline is a line of
    its own as soon as anything was read, even when it is empty. *)
Definition all_lines (reads : list string) : list string :=
  (lines_from EmptyString (cat reads)).1 ++
  (if bool_decide (reads = []) then [] else [(lines_from EmptyString (cat reads)).2]).

Lemma drain_spec st reads c :
  holding st EmptyString false c → string_buf_is_empty (default string_buf_new (buf_of st c)) = true →
  forallb nul_free reads = true →
  ∃ c', drain st reads c = Done tt c' ∧ after st (all_lines reads) c c' ∧
        ∃ r ne, holding st r ne c'.
Proof.
  intros Hc He Hn. pose proof Hc as (b & l & Hb & HR & _ & _ & _). rewrite Hb in He. cbn in He.
  destruct (output_handler_spec st reads EmptyString false c Hc Hn) as (c1 & H1 & Ha & Hc1).
  unfold drain, get, mbind, ST_bind. rewrite Hb, H1.
  pose proof Hc1 as (b1 & l1 & Hb1 & HR1 & _ & _ & Hne).
  unfold flush, get_buf, get, mbind, ST_bind. rewrite Hb1. cbn [from_opt mret ST_ret].
  rewrite (is_empty_rep b1 l1 HR1). unfold all_lines.
  destruct (bool_decide_reflect (reads = [])) as [->|Hr].
  - cbn in H1. injection H1 as <-. rewrite Hb in Hb1. injection Hb1 as <-.
    rewrite (is_empty_rep b l1 HR1) in He. rewrite He. exists c. split; [reflexivity|].
    cbn. split; [split; [symmetry; apply app_nil_r|auto]|]. eauto.
  - rewrite bool_decide_eq_false_2 by (apply Hne; reflexivity).
    destruct (dump_holding _ _ _ _ Hc1) as (c2 & -> & Ha2 & Hc2).
    destruct (log_holding st _ _ c2 (lines_from "" (cat reads)).2 Hc2) as (c3 & -> & Ha3 & Hc3).
    exists c3. split; [reflexivity|]. split; [|eauto].
    apply (after_trans _ _ _ _ _ _ Ha). apply (after_trans st [] _ c1 c2 c3 Ha2 Ha3).
Qed.

Lemma sigchld_run status out err :
  forallb nul_free out = true → forallb nul_free err = true →
  ∃ c', sigchld_handler status out err new_child = Done tt c' ∧
        c_log c' = map (EvLine Stdout) (all_lines out) ++ map (EvLine Stderr) (all_lines err) ++
          [EvExit (WEXITSTATUS status) (if WIFSIGNALED status then WTERMSIG status else 0%Z);
           EvStopChild; EvClose Stdout; EvClose Stderr] ∧
        child_destroy c' = Done tt c'.
Proof.
  intros Ho He.
  destruct (drain_spec Stdout out new_child (new_holding _) eq_refl Ho)
    as (c1 & H1 & (Hl1 & Hd1 & Hb1) & r1 & ne1 & Hc1).
  assert (buf_of Stderr c1 = Some string_buf_new) as Hb by (rewrite Hb1 by discriminate; reflexivity).
  assert (holding Stderr EmptyString false c1) as Hc1'.
  { exists string_buf_new, []. split; [exact Hb|]. split; [apply new_rep|].
    split; [intros s k H; inversion H|]. split; [reflexivity|discriminate]. }
  destruct (drain_spec Stderr err c1 Hc1') as (c2 & H2 & (Hl2 & Hd2 & Hb2) & r2 & ne2 & Hc2).
  { rewrite Hb. reflexivity. }
  { exact He. }
  destruct Hc1 as (b1 & _ & Hout & _). destruct Hc2 as (b2 & _ & Herr & _).
  rewrite <- Hb2 in Hout by discriminate. cbn in Hout, Herr, Hd1.
  unfold sigchld_handler, mbind at 1, ST_bind. rewrite H1. unfold mbind at 1, ST_bind. rewrite H2.
  destruct c2 as [co ce cd cl]. cbn in *. subst co ce cd.
  eexists. split; [unfold child_cleanup, cleanup_stream, get, log_ev, modify, mbind, ST_bind; cbn;
                   rewrite Hd1; reflexivity|].
  split; [|reflexivity]. cbn. rewrite Hl2, Hl1, <- !app_assoc. reflexivity.
Qed.

(** The end of a child.  When a child that captured its output exits, the
    remaining output is emitted as lines, then the exit code and the signal,
    once; both pipes are closed once, and destroying the object afterwards
    closes nothing. *)
Theorem sigchld_correct status out err :
  forallb nul_free out = true → forallb nul_free err = true →
  ∃ c', sigchld_handler status out err new_child = Done tt c' ∧
        c_log c' = map (EvLine Stdout) (all_lines out) ++ map (EvLine Stderr) (all_lines err) ++
          [EvExit (WEXITSTATUS status) (if WIFSIGNALED status then WTERMSIG status else 0%Z);
           EvStopChild; EvClose Stdout; EvClose Stderr] ∧
        child_destroy c' = Done tt c'.
Proof. apply sigchld_run. Qed.

Lemma all_lines_newline line :
  nul_free line = true → split_eol line = None →
  all_lines [line +:+ String newline EmptyString] = [line; EmptyString].
Proof.
  intros _ Hs. unfold all_lines. cbn [cat]. rewrite cat_nil, lines_app, (split_none _ _ Hs). reflexivity.
Qed.

Lemma nul_free_app a b : nul_free (a +:+ b) = nul_free a && nul_free b.
Proof.
  induction a as [|c a IH]; [reflexivity|].
  change (negb (Ascii.eqb c Ascii.zero) && nul_free (a +:+ b) =
          negb (Ascii.eqb c Ascii.zero) && nul_free a && nul_free b).
  rewrite IH. apply andb_assoc.
Qed.

(** A final newline produces an empty line.  A child that writes one
    complete line and exits is reported with an additional empty line: every
    read leaves a chunk in the buffer, even when nothing follows its last
    newline. *)
Theorem spurious_empty_line status line :
  nul_free line = true → split_eol line = None →
  ∃ c', sigchld_handler status [line +:+ String newline EmptyString] [] new_child = Done tt c' ∧
        ∃ rest, c_log c' = EvLine Stdout line :: EvLine Stdout EmptyString :: rest.
Proof.
  intros Hn Hs.
  destruct (sigchld_run status [line +:+ String newline EmptyString] []) as (c' & H1 & H2 & _).
  - cbn. rewrite nul_free_app, Hn. reflexivity.
  - reflexivity.
  - exists c'. split; [exact H1|]. rewrite H2, all_lines_newline by assumption. eexists. reflexivity.
Qed.

(** *** Output with NUL bytes *)

Lemma length_take k s : k ≤ String.length s → String.length (take_bytes k s) = k.
Proof.
  revert k. induction s as [|c s IH]; intros [|k] Hk; simpl in *; try reflexivity; [lia|].
  rewrite IH by lia. reflexivity.
Qed.

(** [string_buf_dump] writes as many bytes as the chunks claim to have. *)
Lemma copy_overflow xs out cap :
  cap ≤ String.length out + list_sum (map sb_len xs) → sb_copy xs out cap = None.
Proof.
  revert out. induction xs as [|x xs IH]; intros out Hc; cbn [sb_copy map] in *.
  - simpl in Hc. rewrite (proj2 (Nat.ltb_ge _ _)) by lia. reflexivity.
  - destruct (Nat.leb_spec (sb_len x) (S (String.length (sb_str x)))); [|reflexivity].
    destruct (Nat.leb _ _); [|reflexivity]. cbn [andb]. apply IH.
    rewrite length_cat, length_take.
    + cbn in Hc. unfold list_sum in *. lia.
    + rewrite length_cat. simpl. lia.
Qed.

Lemma till_nul_shorter s : nul_free s = false → String.length (till_nul s) < String.length s.
Proof.
  induction s as [|c s IH]; simpl; [discriminate|].
  destruct (Ascii.eqb c Ascii.zero); simpl; [lia|]. intros H. specialize (IH H). lia.
Qed.

(** A NUL byte in the output overflows the heap.  When an unfinished line
    contains a NUL byte, the buffer remembers its full length but only copies
    the bytes before the NUL; assembling the line then reads and writes out of
    bounds. *)
Theorem nul_byte_overflow st s :
  nul_free s = false → split_eol s = None →
  output_handler st [s; String newline EmptyString] new_child = Crash OutOfBounds.
Proof.
  intros Hn Hs.
  assert (∃ b1, scan_lines (S (String.length s)) st s new_child = Done tt (with_buf st (Some b1) new_child) ∧
            rep b1 [(till_nul s, String.length s)]) as (b1 & H1 & HR1).
  { cbn [scan_lines]. rewrite Hs. unfold on_buf, string_buf_lpush.
    assert (take_bytes (String.length s) s = s) as ->.
    { apply take_bytes_all. }
    destruct (append_rep _ _ (till_nul s) (String.length s) new_rep) as (b1 & Hb & HR).
    exists b1. split; [|exact HR]. destruct st; cbn [buf_of new_child c_out c_err]; rewrite Hb; reflexivity. }
  unfold output_handler. cbn [for_each]. unfold mbind at 1, ST_bind. rewrite H1.
  unfold mbind at 1, ST_bind.
  enough (scan_lines (S (String.length (String newline ""))) st (String newline "")
            (with_buf st (Some b1) new_child) = Crash OutOfBounds) as -> by reflexivity.
  cbn [scan_lines String.length]. change (split_eol (String newline "")) with (Some ("", "")%string).
  unfold mbind at 1, ST_bind, get_buf. unfold get, mbind at 1, ST_bind. rewrite buf_with_eq.
  cbn [from_opt mret ST_ret]. rewrite (is_empty_rep _ _ HR1). cbn [bool_decide decide_rel].
  rewrite bool_decide_eq_false_2 by discriminate.
  destruct (append_rep _ _ EmptyString 0 HR1) as (b2 & Hb2 & HR2).
  unfold mbind at 1, ST_bind. unfold mbind at 1, ST_bind. unfold on_buf at 1. rewrite buf_with_eq.
  unfold string_buf_push. cbn [till_nul String.length]. rewrite Hb2.
  unfold mbind at 1, ST_bind, on_buf at 1. rewrite buf_with_eq.
  destruct (chunks_rep _ _ HR2) as (xs & Hx & Hl). unfold string_buf_dump. rewrite Hx.
  rewrite copy_overflow; [reflexivity|].
  pose proof (till_nul_shorter s Hn). destruct xs as [|x1 [|x2 [|]]]; try discriminate Hl.
  injection Hl as H2 H3 H4 H5. cbn. rewrite H2, H3, H4, H5. simpl. lia.
Qed.


Lemma sigchld_correct_witness :
  match sigchld_handler 256 ["ab"]%string [] new_child with
  | Done _ c => c_log c = [EvLine Stdout "ab"%string; EvExit 1 0; EvStopChild; EvClose Stdout; EvClose Stderr]
  | _ => False
  end.
Proof.
  destruct (sigchld_correct 256 ["ab"]%string []) as (c & -> & Hc & _); [reflexivity..|].
  rewrite Hc. vm_compute. reflexivity.
Defined.

Lemma spurious_empty_line_witness :
  match sigchld_handler 0 [("done" +:+ String newline EmptyString)%string] [] new_child with
  | Done _ c => ∃ rest, c_log c = EvLine Stdout "done"%string :: EvLine Stdout EmptyString :: rest
  | _ => False
  end.
Proof.
  destruct (spurious_empty_line 0 "done") as (c & -> & Hc); [reflexivity..|]. exact Hc.
Defined.

Lemma nul_byte_overflow_witness :
  output_handler Stdout ["a" +:+ String Ascii.zero "b"; String newline EmptyString]%string new_child = Crash OutOfBounds.
Proof. apply nul_byte_overflow; reflexivity. Defined.
