(* ===== verification/SpawnRun.v ===== *)
(** * Starting a child process (spawn.c)

    The file descriptors and the reference to deai that [di_spawn_run] handles
    in the parent process, for every outcome of the system calls; the child is in
    SpawnChild. *)

From S2P Require Import Prelude DiTypes.

(** ** The process *)

(** The open descriptors, the next free one, the outcomes of the system calls
    to come ([true] is success; calls beyond the list succeed), and the strong
    references to deai that were taken and not dropped. *)
Record proc := Proc {
  p_fds : gset Z;
  p_next : Z;
  p_oracle : list bool;
  p_deai_refs : nat
}.

Definition ask : ST proc bool := λ p,
  match p_oracle p with
  | [] => Done true p
  | b :: o => Done b (Proc (p_fds p) (p_next p) o (p_deai_refs p))
  end.

Definition new_fd : ST proc Z := λ p,
  Done (p_next p) (Proc ({[p_next p]} ∪ p_fds p) (p_next p + 1) (p_oracle p) (p_deai_refs p)).

Definition sys_open : ST proc Z := ok ← ask; if (ok : bool) then new_fd else mret (-1)%Z.
Definition sys_pipe : ST proc (option (Z * Z)) :=
  ok ← ask;
  if (ok : bool) then a ← new_fd; b ← new_fd; mret (Some (a, b)) else mret None.
Definition sys_fcntl (fd : Z) : ST proc bool := ask.
Definition sys_close (fd : Z) : ST proc unit :=
  modify (λ p, Proc (p_fds p ∖ {[fd]}) (p_next p) (p_oracle p) (p_deai_refs p)).

(** [opfds], [epfds] and [ifd]; -1 is no descriptor. *)
Record fds := Fds { op0 : Z; op1 : Z; ep0 : Z; ep1 : Z; ifd : Z }.

(** [a < 0 || b < 0] on two calls: the second is made only if the first
    succeeds. *)
Definition both {A} (a b : ST A bool) : ST A bool :=
  x ← a; if (x : bool) then b else mret false.

(** ** [di_setup_fds] *)

Definition close_all (f : fds) : ST proc unit :=
  sys_close (op0 f);; sys_close (op1 f);; sys_close (ep0 f);; sys_close (ep1 f);; sys_close (ifd f).

(** The body of the [do ... while (0)]: the descriptors, and the error. *)
Definition open_fds (ignore_output : bool) : ST proc (fds * option string) :=
  let finish (f : fds) : ST proc (fds * option string) :=
    i ← sys_open;
    let f' := Fds (op0 f) (op1 f) (ep0 f) (ep1 f) i in
    mret (f', if (i <? 0)%Z then Some "Can't open /dev/null"%string else None) in
  if negb ignore_output then
    o ← sys_pipe;
    match o with
    | None => mret (Fds (-1) (-1) (-1) (-1) (-1), Some "Failed to open pipe"%string)
    | Some (o0, o1) =>
        e ← sys_pipe;
        match e with
        | None => mret (Fds o0 o1 (-1) (-1) (-1), Some "Failed to open pipe"%string)
        | Some (e0, e1) =>
            let f := Fds o0 o1 e0 e1 (-1) in
            ok ← both (sys_fcntl o0) (sys_fcntl e0);
            if negb ok then mret (f, Some "Can't set cloexec"%string)
            else
              ok ← both (sys_fcntl o0) (sys_fcntl e0);
              if negb ok then mret (f, Some "Can't set non block"%string) else finish f
        end
    end
  else
    o1 ← sys_open;
    e1 ← sys_open;
    let f := Fds (-1) o1 (-1) e1 (-1) in
    if (o1 <? 0)%Z || (e1 <? 0)%Z then mret (f, Some "Can't open /dev/null"%string) else finish f.

Definition di_setup_fds (ignore_output : bool) : ST proc (fds * option string) :=
  r ← open_fds ignore_output;
  match r.2 with
  | Some _ => close_all r.1;; mret r
  | None => mret r
  end.

(** ** [di_spawn_run] in the parent *)

Inductive spawn_result : Type :=
  | SpawnError (msg : string)
  | SpawnChild (out_fd err_fd : Z).

Definition ref_deai : ST proc unit :=
  modify (λ p, Proc (p_fds p) (p_next p) (p_oracle p) (S (p_deai_refs p))).

(** [alive] tells whether deai can still be upgraded to a strong reference; the
    reference moves to the child object when there is one. *)
Definition di_spawn_run (elem_type : di_type) (alive ignore_output : bool) : ST proc spawn_result :=
  if negb (bool_decide (elem_type = DI_TYPE_STRING)) then mret (SpawnError "Invalid argv type")
  else if negb alive then mret (SpawnError "deai is shutting down...")
  else
    ref_deai;;
    r ← di_setup_fds ignore_output;
    match r.2 with
    | Some msg => mret (SpawnError msg)
    | None =>
        let f := r.1 in
        forked ← ask;
        sys_close (ifd f);;
        sys_close (op1 f);;
        sys_close (ep1 f);;
        if negb forked then
          sys_close (op0 f);; sys_close (ep0 f);; mret (SpawnError "Failed to fork")
        else mret (SpawnChild (op0 f) (ep0 f))
    end.

(** ** Descriptors are not leaked *)

(** A process with the descriptors [F], up to the outcomes of later calls. *)
Definition at_fds (F : gset Z) (n : Z) (r : nat) (p : proc) : Prop :=
  p_fds p = F ∧ p_next p = n ∧ p_deai_refs p = r.

(** One system call and what follows it, for both outcomes. *)
Section calls.
Context {A : Type} (F : gset Z) (n : Z) (r : nat) (Q : A → proc → Prop).

Lemma ask_then (k : bool → ST proc A) :
  (∀ b, completes (at_fds F n r) (k b) Q) → completes (at_fds F n r) (ask ≫= k) Q.
Proof.
  intros Hk p (HF & Hn & Hr). unfold mbind, ST_bind, ask.
  destruct (p_oracle p); apply Hk; repeat split; assumption.
Qed.

Lemma open_then (k : Z → ST proc A) :
  completes (at_fds F n r) (k (-1)%Z) Q →
  completes (at_fds ({[n]} ∪ F) (n + 1) r) (k n) Q →
  completes (at_fds F n r) (sys_open ≫= k) Q.
Proof.
  intros H1 H2 p (<- & <- & <-). unfold mbind, ST_bind, sys_open, ask, new_fd, mbind, ST_bind.
  destruct (p_oracle p) as [|[] o]; cbn; [apply H2|apply H2|apply H1]; repeat split; reflexivity.
Qed.

Lemma pipe_then (k : option (Z * Z) → ST proc A) :
  completes (at_fds F n r) (k None) Q →
  completes (at_fds ({[(n + 1)%Z]} ∪ ({[n]} ∪ F)) (n + 1 + 1) r) (k (Some (n, (n + 1)%Z))) Q →
  completes (at_fds F n r) (sys_pipe ≫= k) Q.
Proof.
  intros H1 H2 p (<- & <- & <-). unfold mbind, ST_bind, sys_pipe, ask, new_fd, mbind, ST_bind.
  destruct (p_oracle p) as [|[] o]; cbn; [apply H2|apply H2|apply H1]; repeat split; reflexivity.
Qed.

Lemma close_then fd (k : unit → ST proc A) :
  completes (at_fds (F ∖ {[fd]}) n r) (k tt) Q →
  completes (at_fds F n r) (sys_close fd ≫= k) Q.
Proof. intros H p (<- & <- & <-). apply H. repeat split; reflexivity. Qed.

Lemma both_then fd fd' (k : bool → ST proc A) :
  (∀ b, completes (at_fds F n r) (k b) Q) →
  completes (at_fds F n r) (both (sys_fcntl fd) (sys_fcntl fd') ≫= k) Q.
Proof.
  intros Hk p (HF & Hn & Hr). unfold both, sys_fcntl, mbind, ST_bind, ask.
  destruct (p_oracle p) as [|[] [|[] o]] eqn:E; cbn; rewrite ?E; apply Hk; repeat split; assumption.
Qed.
End calls.

(** Equality of sets of descriptors below and above [n]. *)
Ltac fd_set :=
  apply set_eq; intros ?x; set_unfold;
  repeat match goal with H : ∀ fd, fd ∈ ?F → _ |- context [?y ∈ ?F] => pose proof (H y); clear H end;
  intuition lia.

(** The descriptors that are open after a successful set-up. *)
Definition set_up (ignore_output : bool) (F : gset Z) (n : Z) (f : fds) (p : proc) : Prop :=
  if ignore_output then
    op0 f = (-1)%Z ∧ ep0 f = (-1)%Z ∧ op1 f = n ∧ ep1 f = (n + 1)%Z ∧ ifd f = (n + 2)%Z ∧
    p_fds p = F ∪ {[n; n + 1; n + 2]}%Z
  else
    op0 f = n ∧ op1 f = (n + 1)%Z ∧ ep0 f = (n + 2)%Z ∧ ep1 f = (n + 3)%Z ∧ ifd f = (n + 4)%Z ∧
    p_fds p = F ∪ {[n; n + 1; n + 2; n + 3; n + 4]}%Z.

Definition fds_below (F : gset Z) (n : Z) : Prop :=
  (0 ≤ n)%Z ∧ ∀ fd, fd ∈ F → (0 ≤ fd < n)%Z.

Definition minus (F : gset Z) (f : fds) : gset Z :=
  F ∖ {[op0 f]} ∖ {[op1 f]} ∖ {[ep0 f]} ∖ {[ep1 f]} ∖ {[ifd f]}.

(** What the body of the set-up leaves open. *)
Definition body_post (ign : bool) (F : gset Z) (n : Z) (r : nat) (x : fds * option string) (p : proc) : Prop :=
  ∃ F' n', at_fds F' n' r p ∧
    match x.2 with
    | Some _ => minus F' x.1 = F
    | None => set_up ign F n x.1 p
    end.

Ltac body_ret :=
  apply completes_ret; intros ?p (?HF' & ?Hn' & ?Hr'); eexists _, _; split;
  [split; [exact HF'|split; [exact Hn'|exact Hr']]|cbn [fst snd op0 op1 ep0 ep1 ifd]; unfold minus; cbn [op0 op1 ep0 ep1 ifd]].

Lemma open_fds_runs ign F n r :
  fds_below F n → completes (at_fds F n r) (open_fds ign) (body_post ign F n r).
Proof.
  intros [Hn HF]. unfold open_fds. destruct ign; cbn [negb].
  - apply open_then; apply open_then; cbn [orb].
    + body_ret. fd_set.
    + body_ret. fd_set.
    + rewrite orb_true_r. body_ret. fd_set.
    + rewrite (proj2 (Z.ltb_ge n 0)) by lia. rewrite (proj2 (Z.ltb_ge (n + 1) 0)) by lia. cbn [orb].
      apply open_then.
      * body_ret. fd_set.
      * rewrite (proj2 (Z.ltb_ge (n + 1 + 1) 0)) by lia. body_ret. unfold set_up.
        cbn [op0 op1 ep0 ep1 ifd]. rewrite HF'. do 5 (split; [lia|]). fd_set.
  - apply pipe_then; [body_ret; fd_set|].
    apply pipe_then; [body_ret; fd_set|].
    apply both_then. intros []; cbn [negb]; [|body_ret; fd_set].
    apply both_then. intros []; cbn [negb]; [|body_ret; fd_set].
    apply open_then; [body_ret; fd_set|].
    rewrite (proj2 (Z.ltb_ge (n + 1 + 1 + 1 + 1) 0)) by lia. body_ret. unfold set_up.
    cbn [op0 op1 ep0 ep1 ifd]. rewrite HF'. do 5 (split; [lia|]). fd_set.
Qed.

Lemma close_all_then {A} f F n r (k : unit → ST proc A) Q :
  completes (at_fds (minus F f) n r) (k tt) Q →
  completes (at_fds F n r) (close_all f ≫= k) Q.
Proof. intros H p (<- & <- & <-). apply H. repeat split; reflexivity. Qed.

(** On success the descriptors are the fresh ones of [set_up]; on failure every
    descriptor opened on the way is closed again. *)
Definition setup_post (ign : bool) (F : gset Z) (n : Z) (r : nat) (x : fds * option string) (p : proc) : Prop :=
  ∃ F' n', at_fds F' n' r p ∧
    match x.2 with Some _ => F' = F | None => set_up ign F n x.1 p end.

Lemma setup_fds_runs ign F n r :
  fds_below F n → completes (at_fds F n r) (di_setup_fds ign) (setup_post ign F n r).
Proof.
  intros HF. unfold di_setup_fds.
  apply (completes_bind _ _ _ (body_post ign F n r)); [apply open_fds_runs; exact HF|].
  intros [f [msg|]] p (F' & n' & Hat & HF').
  - refine (close_all_then f F' n' r _ _ _ p Hat).
    apply completes_ret. intros p' Hp. exists (minus F' f), n'. split; [exact Hp|exact HF'].
  - eexists _, _. split; [reflexivity|]. exists F', n'. split; [exact Hat|exact HF'].
Qed.

(** ** [di_spawn_run] *)

(** The descriptors the parent has open after the call. *)
Definition kept (F : gset Z) (res : spawn_result) : gset Z :=
  match res with
  | SpawnError _ => F
  | SpawnChild o e => F ∪ (({[o; e]} : gset Z) ∖ {[(-1)%Z]})
  end.

(** The parts of the call that report an error before [deai] is referenced. *)
Definition early (ty : di_type) (alive : bool) : bool :=
  negb (bool_decide (ty = DI_TYPE_STRING)) || negb alive.

Definition run_post (ty : di_type) (alive ign : bool) (F : gset Z) (n : Z) (r : nat) (res : spawn_result) (p : proc) : Prop :=
  p_fds p = kept F res ∧
  p_deai_refs p = (if early ty alive then r else S r) ∧
  match res with
  | SpawnError _ => True
  | SpawnChild o e =>
      early ty alive = false ∧
      if ign then o = (-1)%Z ∧ e = (-1)%Z else o = n ∧ e = (n + 2)%Z
  end.

(** C33. For every outcome of [pipe], [open], [fcntl] and [fork], [di_spawn_run]
    answers, and the parent keeps exactly the read ends of the two pipes it
    gives to the new child object (none when the output is ignored); after an
    error it has the descriptors it started with.  The strong reference to deai
    is taken and never dropped by the function, so an error after the liveness
    test leaves deai with one reference too many. *)
Theorem spawn_run_fds (ty : di_type) (alive ign : bool) (p : proc)
    (Hfds : fds_below (p_fds p) (p_next p)) :
  ∃ res p', di_spawn_run ty alive ign p = Done res p' ∧
    run_post ty alive ign (p_fds p) (p_next p) (p_deai_refs p) res p'.
Proof.
  unfold di_spawn_run, run_post, early.
  destruct (bool_decide _); cbn [negb orb]; [|do 2 eexists; split; [reflexivity|]; repeat split].
  destruct alive; cbn [negb orb]; [|do 2 eexists; split; [reflexivity|]; repeat split].
  set (F := p_fds p) in *. set (n := p_next p) in *. set (r := p_deai_refs p).
  set (p1 := Proc F n (p_oracle p) (S r)).
  destruct (setup_fds_runs ign F n (S r) Hfds p1) as ([f o] & p2 & E & F' & n' & (HF' & Hn' & Hr') & Hs);
    [repeat split|].
  unfold mbind at 1, ST_bind at 1. cbn [ref_deai modify].
  unfold mbind at 1, ST_bind at 1. change (Proc _ _ _ _) with p1. rewrite E. cbn [snd fst] in *.
  destruct o as [msg|].
  { do 2 eexists. split; [reflexivity|]. subst F'. repeat split; assumption. }
  destruct Hfds as [Hn HF].
  unfold mbind, ST_bind, ask. unfold set_up in Hs.
  destruct ign; destruct Hs as (E0 & E1 & E2 & E3 & E4 & Ef); rewrite E0, E1, E2, E3, E4;
    destruct (p_oracle p2) as [|[] ?]; do 2 eexists; (split; [reflexivity|]); cbn;
    rewrite ?Ef; (split; [unfold kept; fd_set|split; [exact Hr'|auto]]).
Qed.

(** The second [open] fails: the pipes are closed again. *)
Lemma spawn_run_fds_witness :
  let p := Proc {[0; 1; 2]}%Z 3 [true; true; true; true; true; true; false] 1 in
  ∃ res p', di_spawn_run DI_TYPE_STRING true false p = Done res p' ∧ p_fds p' = kept (p_fds p) res ∧ p_deai_refs p' = 2.
Proof.
  set (p := Proc _ _ _ _).
  destruct (spawn_run_fds DI_TYPE_STRING true false p) as (res & p' & E & H1 & H2 & _).
  - split; [vm_compute; discriminate|]. change (set_Forall (λ fd, 0 ≤ fd < 3)%Z (p_fds p)). vm_decide.
  - exists res, p'. auto.
Defined.
