(* ===== verification/SpawnChild.v ===== *)
(** * The child process (spawn.c)

    What [di_spawn_run] does after [fork] in the child: the descriptors it moves and
    closes before it becomes another program, and the arguments it passes. *)

From S2P Require Import Prelude DiTypes Strings SpawnRun.

Local Open Scope Z_scope.

Definition STDIN_FILENO : Z := 0.
Definition STDOUT_FILENO : Z := 1.
Definition STDERR_FILENO : Z := 2.

(** [execvp] with these arguments, of which the first is the program, or [_exit]. *)
Inductive child_end :=
  | Executed (argv : list string)
  | Exited (status : Z).

Section child.
(** What descriptors refer to. *)
Context {file : Type}.
Implicit Types (t : gmap Z file).

(** [dup2]: false for an error, when [oldfd] is not open. *)
Definition dup2 (oldfd newfd : Z) : ST (gmap Z file) bool := λ t,
  match t !! oldfd with
  | Some x => Done true (<[newfd := x]> t)
  | None => Done false t
  end.
Definition close_fd (fd : Z) : ST (gmap Z file) unit := modify (delete fd).

(** The arguments that are made from the array of strings. *)
Definition make_argv (argv : list di_string) : list string := map c_str argv.

(** The child; [runs] tells whether a program can be run.  Without arguments there is
    none. *)
Definition run_child (runs : list string → bool) (ignore_output : bool) (f : fds) (argv : list di_string)
  : ST (gmap Z file) child_end :=
  let nargv := make_argv argv in
  (if negb ignore_output then close_fd (op0 f);; close_fd (ep0 f) else mret tt);;
  ok ← both (dup2 (ifd f) STDIN_FILENO) (both (dup2 (op1 f) STDOUT_FILENO) (dup2 (ep1 f) STDERR_FILENO));
  if negb ok then mret (Exited 1)
  else
    close_fd (op1 f);;
    close_fd (ep1 f);;
    close_fd (ifd f);;
    mret (if negb (bool_decide (nargv = [])) && runs nargv then Executed nargv else Exited 1).

Lemma both_done (a b : ST (gmap Z file) bool) t t' r : a t = Done true t' → b t' = r → both a b t = r.
Proof. intros Ha <-. unfold both, mbind, ST_bind. rewrite Ha. reflexivity. Qed.

Lemma dup2_done oldfd newfd x t : t !! oldfd = Some x → dup2 oldfd newfd t = Done true (<[newfd := x]> t).
Proof. intros H. unfold dup2. rewrite H. reflexivity. Qed.

(** The descriptors after the moves. *)
Definition moved (ignore_output : bool) (f : fds) (i o e : file) t : gmap Z file :=
  delete (ifd f) (delete (ep1 f) (delete (op1 f) (<[STDERR_FILENO := e]> (<[STDOUT_FILENO := o]> (<[STDIN_FILENO := i]>
    (if ignore_output then t else delete (ep0 f) (delete (op0 f) t))))))).

Lemma run_child_done runs ignore_output f argv i o e t :
  t !! ifd f = Some i → t !! op1 f = Some o → t !! ep1 f = Some e →
  op1 f ≠ 0 → ep1 f ≠ 0 → ep1 f ≠ 1 →
  (ignore_output = false → ∀ fd, fd ∈ [op0 f; ep0 f] → fd ≠ ifd f ∧ fd ≠ op1 f ∧ fd ≠ ep1 f) →
  run_child runs ignore_output f argv t =
    Done (if negb (bool_decide (make_argv argv = [])) && runs (make_argv argv) then Executed (make_argv argv) else Exited 1)
      (moved ignore_output f i o e t).
Proof.
  intros Hi Ho He Ho0 He0 He1 Hd. unfold run_child.
  set (t1 := if ignore_output then t else delete (ep0 f) (delete (op0 f) t)).
  assert (∀ fd, fd ∈ [ifd f; op1 f; ep1 f] → t1 !! fd = t !! fd) as Ht1.
  { intros fd Hfd. unfold t1. destruct ignore_output; [reflexivity|].
    destruct (Hd eq_refl (op0 f) ltac:(left)) as (A1 & A2 & A3). destruct (Hd eq_refl (ep0 f) ltac:(right; left)) as (B1 & B2 & B3).
    rewrite !lookup_delete_ne; [reflexivity|..]; intros <-; set_unfold in Hfd; intuition congruence. }
  eapply then_done with (a := tt) (s' := t1); [unfold t1; destruct ignore_output; reflexivity|].
  eapply then_done.
  { eapply both_done; [apply dup2_done; rewrite Ht1 by (set_unfold; auto); exact Hi|].
    eapply both_done; [apply dup2_done; rewrite lookup_insert_ne, Ht1 by (set_unfold; auto); exact Ho|].
    apply dup2_done. rewrite !lookup_insert_ne, Ht1 by (set_unfold; auto). exact He. }
  cbn [negb]. do 3 (eapply then_done; [reflexivity|]). reflexivity.
Qed.
End child.



(** A process without a standard input: the first descriptor that is opened is 0.  The
    child moves the null device for reading there, takes it for its output, and closes
    it: it has no standard input, and cannot write to its output. *)
Theorem closed_stdin_breaks_output {file : Type} runs f argv i o e (t : gmap Z file) :
  op1 f = 0 → 2 < ifd f → 2 < ep1 f → t !! ifd f = Some i → t !! 0 = Some o → t !! ep1 f = Some e →
  ∃ r t', run_child runs true f argv t = Done r t' ∧ t' !! 0 = None ∧ t' !! 1 = Some i.
Proof.
  intros E0 Hi2 He2 Hi Ho He. eexists _, _. split.
  - unfold run_child. cbn [negb]. eapply then_done; [reflexivity|]. eapply then_done.
    { eapply both_done; [apply dup2_done, Hi|]. eapply both_done; [apply dup2_done; rewrite E0; apply lookup_insert_eq|].
      apply dup2_done. rewrite !lookup_insert_ne by (unfold STDIN_FILENO, STDOUT_FILENO; lia). exact He. }
    cbn [negb]. do 3 (eapply then_done; [reflexivity|]). reflexivity.
  - unfold STDIN_FILENO, STDOUT_FILENO, STDERR_FILENO. rewrite E0, !lookup_delete_ne by lia.
    split; [apply lookup_delete_eq|]. rewrite !lookup_delete_ne by lia. rewrite lookup_insert_ne by lia. apply lookup_insert_eq.
Qed.
