(* ===== verification/Conv.v ===== *)
(** * Integer conversions (include/utils.h)

    [integer_conversion] converts between the four integer types of deai with a
    range check that is written with C comparisons between integers of possibly
    different types.  The usual arithmetic conversions of C are modelled, since
    they decide what the range check accepts. *)

From S2P Require Import Prelude DiTypes.
From Stdlib Require Import SpecFloat.

(** ** C integer types and the usual arithmetic conversions (LP64) *)

Inductive ctype : Type := C_int | C_uint | C_long | C_ulong.

Definition conv_to (t : ctype) (z : Z) : Z :=
  match t with
  | C_int => wrap_s 32 z
  | C_uint => wrap_u 32 z
  | C_long => wrap_s 64 z
  | C_ulong => wrap_u 64 z
  end.

Definition in_ctype (t : ctype) (z : Z) : bool :=
  match t with
  | C_int => (- 2 ^ 31 <=? z) && (z <? 2 ^ 31)
  | C_uint => (0 <=? z) && (z <? 2 ^ 32)
  | C_long => (- 2 ^ 63 <=? z) && (z <? 2 ^ 63)
  | C_ulong => (0 <=? z) && (z <? 2 ^ 64)
  end%Z.

(** The common type of the operands of a comparison. *)
Definition common_type (a b : ctype) : ctype :=
  match a, b with
  | C_ulong, _ | _, C_ulong => C_ulong
  | C_long, _ | _, C_long => C_long
  | C_uint, _ | _, C_uint => C_uint
  | C_int, C_int => C_int
  end.

(** A C expression of integer type: its type and its value. *)
Abbreviation cval := (ctype * Z)%type (only parsing).

Definition c_gt (a b : cval) : bool :=
  let t := common_type a.1 b.1 in (conv_to t b.2 <? conv_to t a.2)%Z.
Definition c_lt (a b : cval) : bool :=
  let t := common_type a.1 b.1 in (conv_to t a.2 <? conv_to t b.2)%Z.

Definition INT64_MAX : cval := (C_long, 2 ^ 63 - 1)%Z.
Definition INT64_MIN : cval := (C_long, - 2 ^ 63)%Z.
Definition INT_MAX : cval := (C_int, 2 ^ 31 - 1)%Z.
Definition INT_MIN : cval := (C_int, - 2 ^ 31)%Z.
Definition UINT64_MAX : cval := (C_ulong, 2 ^ 64 - 1)%Z.
Definition UINT_MAX : cval := (C_uint, 2 ^ 32 - 1)%Z.
Definition ZERO : cval := (C_int, 0)%Z.

(** ** The conversion *)

Definition is_integer (t : di_type) : bool :=
  match t with
  | DI_TYPE_INT | DI_TYPE_NINT | DI_TYPE_UINT | DI_TYPE_NUINT => true
  | _ => false
  end.

(** The integer in a value, with the C type of its field. *)
Definition int_field (v : value) : option cval :=
  match v with
  | VNInt z => Some (C_int, z)
  | VNUInt z => Some (C_uint, z)
  | VInt z => Some (C_long, z)
  | VUInt z => Some (C_ulong, z)
  | _ => None
  end.

(** [outp->dstfield = (typeof(outp->dstfield))tmp] *)
Definition store_int (outty : di_type) (z : Z) : value :=
  match outty with
  | DI_TYPE_INT => VInt (conv_to C_long z)
  | DI_TYPE_NINT => VNInt (conv_to C_int z)
  | DI_TYPE_UINT => VUInt (conv_to C_ulong z)
  | DI_TYPE_NUINT => VNUInt (conv_to C_uint z)
  | _ => VNil
  end.

(** The macro [convert_case]. *)
Definition convert_case (tmp : cval) (outty : di_type) (dstmax dstmin : cval) : Z + value :=
  if c_gt tmp dstmax || c_lt tmp dstmin then inl ERANGE
  else inr (store_int outty tmp.2).

(** The macro [convert_switch]: the three other integer types are converted,
    anything else is refused. *)
Definition convert_switch (inp : value) (outty : di_type) (dstmax dstmin : cval) : Z + value :=
  match int_field inp with
  | Some tmp => convert_case tmp outty dstmax dstmin
  | None => inl EINVAL
  end.

Definition integer_conversion (inp : value) (outty : di_type) : Z + value :=
  if bool_decide (type_of inp = outty) then inr inp
  else
    match outty with
    | DI_TYPE_INT => convert_switch inp outty INT64_MAX INT64_MIN
    | DI_TYPE_NINT => convert_switch inp outty INT_MAX INT_MIN
    | DI_TYPE_UINT => convert_switch inp outty UINT64_MAX ZERO
    | DI_TYPE_NUINT => convert_switch inp outty UINT_MAX ZERO
    | _ => inl EINVAL
    end.

(** [(double)n] for an integer: correctly rounded to binary64. *)
Definition double_of_Z (z : Z) : spec_float := binary_normalize 53 1024 z 0 false.

(** ** What the conversion does *)

(** The C type of a deai integer type. *)
Definition ctype_of (t : di_type) : option ctype :=
  match t with
  | DI_TYPE_INT => Some C_long
  | DI_TYPE_NINT => Some C_int
  | DI_TYPE_UINT => Some C_ulong
  | DI_TYPE_NUINT => Some C_uint
  | _ => None
  end.

(** The pairs of types for which the lower bound of the range check is converted
    to an unsigned type and becomes a large positive number. *)
Definition bound_wraps (src dst : di_type) : bool :=
  match src, dst with
  | DI_TYPE_UINT, (DI_TYPE_INT | DI_TYPE_NINT) => true
  | DI_TYPE_NUINT, DI_TYPE_NINT => true
  | _, _ => false
  end.

(** The specification: keep the number if the target type can represent it. *)
Definition convert_spec (v : value) (outty : di_type) : Z + value :=
  match int_field v, ctype_of outty with
  | Some (_, z), Some ct => if in_ctype ct z then inr (store_int outty z) else inl ERANGE
  | _, _ => inl EINVAL
  end.

Lemma conv_to_in_ctype ct z : in_ctype ct z = true → conv_to ct z = z.
Proof.
  destruct ct; simpl in_ctype; unfold conv_to; intros [H1 H2]%andb_prop;
    apply Z.leb_le in H1; apply Z.ltb_lt in H2;
    (apply wrap_s_small || apply wrap_u_small); lia.
Qed.

(** The number a value holds is kept by [store_int] when it fits. *)
Lemma int_field_store outty ct z :
  ctype_of outty = Some ct → in_ctype ct z = true →
  int_field (store_int outty z) = Some (ct, z) ∧ type_of (store_int outty z) = outty.
Proof.
  intros Hc Hz. pose proof (conv_to_in_ctype _ _ Hz) as E.
  destruct outty; simplify_eq/=; split; congruence.
Qed.

(** The machine constants of the comparisons, reduced once. *)
Ltac c_compare :=
  unfold convert_switch, convert_case, c_gt, c_lt, INT64_MAX, INT64_MIN, INT_MAX, INT_MIN,
    UINT64_MAX, UINT_MAX, ZERO, in_ctype, conv_to, wrap_s, wrap_u, common_type in *;
  cbn [int_field fst snd type_of ctype_of] in *.

(** Decide every boolean comparison of integers in the goal. *)
Ltac zbool :=
  repeat match goal with
  | |- context [(?a <? ?b)%Z] => destruct (Z.ltb_spec a b)
  | |- context [(?a <=? ?b)%Z] => destruct (Z.leb_spec a b)
  end; cbn [orb andb negb]; try reflexivity; try (exfalso; Z.div_mod_to_equations; lia).

(** C37. The conversion of a well-formed integer between two different integer
    types keeps the number when the target type can represent it and answers
    ERANGE otherwise - except for UINT to INT, UINT to NINT and NUINT to NINT,
    where it answers ERANGE on every number. *)
Theorem integer_conversion_spec v outty :
  int_ok v = true → is_integer (type_of v) = true → type_of v ≠ outty →
  integer_conversion v outty =
    if bound_wraps (type_of v) outty then inl ERANGE else convert_spec v outty.
Proof.
  intros Hok Hint Hne. unfold integer_conversion, convert_spec.
  rewrite bool_decide_eq_false_2 by exact Hne.
  destruct v; try discriminate Hint;
    cbn [int_ok] in Hok; apply andb_prop in Hok as [H1%Z.leb_le H2%Z.ltb_lt];
    destruct outty; try reflexivity; try congruence;
    cbn [bound_wraps type_of]; c_compare; zbool.
Qed.

Lemma integer_conversion_spec_witness :
  integer_conversion (VInt 2147483648) DI_TYPE_NINT = inl ERANGE ∧
  integer_conversion (VUInt 7) DI_TYPE_INT = inl ERANGE.
Proof.
  split; [rewrite (integer_conversion_spec (VInt 2147483648) DI_TYPE_NINT)|
          rewrite (integer_conversion_spec (VUInt 7) DI_TYPE_INT)];
    first [reflexivity|discriminate].
Defined.
