(* ===== verification/Xorg.v ===== *)
(** * The X connection (plugins/xorg/xorg.c)

    What a connection keeps of the X server: the atoms it has seen, the resource
    string of the screen and the keyboard mapping.  The X server is a parameter;
    a request sees its state and changes it.  The objects of the plugin are not in
    this file. *)

From Stdlib Require Import Ascii.
From S2P Require Import Prelude Text DiTypes Strings.

Local Open Scope Z_scope.

(** ** The X server

    The answer to a request: a reply, an X error, or nothing when the connection
    is broken. *)
Inductive reply (A : Type) : Type :=
  | Reply (a : A)
  | XError
  | NoReply.
Arguments Reply {A} a.
Arguments XError {A}.
Arguments NoReply {A}.

(** The state of the server and the requests of xorg.c.  [get_property] is asked
    for the first [4 * long_length] bytes of the resource string, and answers with
    the bytes after those, [change_property] replaces the string. *)
Class XServer := {
  xserver : Type;
  intern_atom : string → xserver → reply Z * xserver;
  get_atom_name : Z → xserver → reply string * xserver;
  get_resource_manager : Z → xserver → reply (Z * string) * xserver;
  change_resource_manager : string → xserver → bool * xserver
}.

(** Its extensions: their names, and the major opcode and first event of one. *)
Class XExtensions (X : XServer) := {
  list_extensions : xserver → option (list string) * xserver;
  query_extension : string → xserver → option (Z * Z) * xserver
}.

(** [struct di_atom_entry] *)
Record di_atom_entry := AtomEntry { ae_name : string; ae_atom : Z }.

(** [struct di_xorg_connection] without its objects: the two hash tables of
    atoms, whether the log module can be reached, and what was logged. *)
Record xconnection `{XServer} := XConnection {
  x_byatom : list di_atom_entry;
  x_byname : list di_atom_entry;
  x_server : xserver;
  x_logm : bool;
  x_logged : list string
}.
Arguments XConnection {_} _ _ _ _ _.

Section xorg.
Context {X : XServer}.
Implicit Types (x : xconnection).

Definition with_server (sv : xserver) x : xconnection :=
  XConnection (x_byatom x) (x_byname x) sv (x_logm x) (x_logged x).
Definition with_tables (a n : list di_atom_entry) x : xconnection :=
  XConnection a n (x_server x) (x_logm x) (x_logged x).

(** A request, and [di_log_va] with the log module, which may be a null pointer. *)
Definition request {A} (f : xserver → A * xserver) : ST xconnection A := λ x,
  let '(r, sv) := f (x_server x) in Done r (with_server sv x).
Definition xlog (msg : string) : ST xconnection unit := λ x,
  if x_logm x then Done tt (XConnection (x_byatom x) (x_byname x) (x_server x) true (msg :: x_logged x))
  else Crash NullDeref.

(** ** Atoms *)

(** [HASH_FIND] in each of the tables, and [HASH_ADD] to both. *)
Fixpoint find_atom (atom : Z) (l : list di_atom_entry) : option di_atom_entry :=
  match l with
  | [] => None
  | ae :: l' => if ae_atom ae =? atom then Some ae else find_atom atom l'
  end.

Fixpoint find_name (name : string) (l : list di_atom_entry) : option di_atom_entry :=
  match l with
  | [] => None
  | ae :: l' => if String.eqb (ae_name ae) name then Some ae else find_name name l'
  end.

Definition add_atom (ae : di_atom_entry) : ST xconnection unit :=
  modify (λ x, with_tables (x_byatom x ++ [ae]) (x_byname x ++ [ae]) x).

(** [di_xorg_get_atom_name]; [None] is a null pointer. *)
Definition di_xorg_get_atom_name (atom : Z) : ST xconnection (option string) :=
  x ← get;
  match find_atom atom (x_byatom x) with
  | Some ae => mret (Some (ae_name ae))
  | None =>
      r ← request (get_atom_name atom);
      match r with
      | Reply name => add_atom (AtomEntry name atom);; mret (Some name)
      | _ => mret None
      end
  end.

(** A name as xcb sends it, with a length of 16 bits. *)
Definition name16 (name : string) : string :=
  take_bytes (Z.to_nat (Z.of_nat (String.length name) mod 2 ^ 16)) name.

(** What [di_xorg_intern_atom] returns and what it makes of [*e]. *)
Inductive error_ptr : Type := Unwritten | NullPtr | ErrorPtr.

(** [di_xorg_intern_atom]; [*e] is not written when the log module is missing. *)
Definition di_xorg_intern_atom (name : di_string) : ST xconnection (Z * error_ptr) :=
  x ← get;
  if negb (x_logm x) then mret (0, Unwritten)
  else
    let key := default EmptyString name in
    match find_name key (x_byname x) with
    | Some ae => mret (ae_atom ae, NullPtr)
    | None =>
        r ← request (intern_atom (name16 key));
        match r with
        | Reply atom => add_atom (AtomEntry key atom);; mret (atom, NullPtr)
        | XError => xlog "Cannot intern atom";; mret (0, ErrorPtr)
        | NoReply => xlog "Cannot intern atom";; mret (0, NullPtr)
        end
    end.

(** [HASH_DEL] of an entry. *)
Fixpoint del_entry (ae : di_atom_entry) (l : list di_atom_entry) : option (list di_atom_entry) :=
  match l with
  | [] => None
  | a :: l' =>
      if (ae_atom a =? ae_atom ae) && String.eqb (ae_name a) (ae_name ae) then Some l'
      else cons a <$> del_entry ae l'
  end.

(** The end of [xorg_disconnect]: the entries are taken out of both tables. *)
Definition free_atoms : ST xconnection unit :=
  x ← get;
  for_each (λ ae,
    x ← get;
    a ← from_opt HashCorrupt (del_entry ae (x_byatom x));
    n ← from_opt HashCorrupt (del_entry ae (x_byname x));
    modify (with_tables a n)) (x_byatom x).

(** ** The resource string *)

(** [di_xorg_get_resource]: the size is asked for first. *)
Definition di_xorg_get_resource : ST xconnection di_string :=
  r ← request (get_resource_manager 0);
  match r with
  | Reply (bytes_after, _) =>
      r ← request (get_resource_manager bytes_after);
      match r with
      | Reply (_, val) => mret (Some val)
      | _ => mret DI_STRING_INIT
      end
  | _ => mret DI_STRING_INIT
  end.

(** [di_xorg_set_resource]; an error is dropped. *)
Definition di_xorg_set_resource (rdb : di_string) : ST xconnection unit :=
  e ← request (change_resource_manager (default EmptyString rdb));
  let _ := e : bool in mret tt.
End xorg.

(** [xorg_has_extension] of xorg.h compares up to the length of the name that the
    server lists. *)
Definition xorg_has_extension {X : XServer} {XE : XExtensions X} (name : string) : ST xconnection bool :=
  r ← request list_extensions;
  mret (match r with None => false | Some names => existsb (λ n, starts_with n name) names end).

(** A new extension, whose state has the connection in it, on which [m] is run. *)
Definition new_extension {X : XServer} {S} (new : xconnection → S) (conn : S → xconnection) (m : ST S unit) : ST xconnection S :=
  λ x,
    match m (new x) with
    | Done _ s => Done s (conn s)
    | Crash c => Crash c
    | NoFuel => NoFuel
    end.

(** ** The tables of atoms are a cache of the server's

    What the X protocol says of atoms: [atom_table] is what they stand for; once
    interned an atom keeps its name, and no two have the same. *)
Class XServerOk (X : XServer) := {
  atom_table : xserver → Z → option string;
  atom_table_inj sv a b n : atom_table sv a = Some n → atom_table sv b = Some n → a = b;
  intern_atom_ok n sv :
    (∀ a m, atom_table sv a = Some m → atom_table (intern_atom n sv).2 a = Some m) ∧
    (∀ a, (intern_atom n sv).1 = Reply a → a ≠ 0 ∧ atom_table (intern_atom n sv).2 a = Some n);
  get_atom_name_ok a sv :
    (∀ b m, atom_table sv b = Some m → atom_table (get_atom_name a sv).2 b = Some m) ∧
    (∀ n, (get_atom_name a sv).1 = Reply n → a ≠ 0 ∧ atom_table (get_atom_name a sv).2 a = Some n)
}.

Section atoms.
Context {X : XServer} {XO : XServerOk X}.
Implicit Types (x : xconnection) (sv : xserver).

(** The atoms of [sv] are those of [sv'], which may have more. *)
Definition grows sv sv' : Prop := ∀ a n, atom_table sv a = Some n → atom_table sv' a = Some n.

(** Both tables have the same entries, no atom and no name twice, and the server
    agrees with them. *)
Record coherent x : Prop := {
  co_tables : x_byname x = x_byatom x;
  co_atoms : NoDup (map ae_atom (x_byatom x));
  co_server : ∀ ae, ae ∈ x_byatom x → ae_atom ae ≠ 0 ∧ atom_table (x_server x) (ae_atom ae) = Some (ae_name ae)
}.

Lemma find_atom_some a l ae : find_atom a l = Some ae → ae ∈ l ∧ ae_atom ae = a.
Proof.
  induction l as [|b l IH]; cbn [find_atom]; [discriminate|].
  destruct (Z.eqb_spec (ae_atom b) a) as [Hb|Hb]; [intros [= <-]; split; [left|exact Hb]|].
  intros H. destruct (IH H). split; [right|]; assumption.
Qed.

Lemma find_atom_none a l : find_atom a l = None → a ∉ map ae_atom l.
Proof.
  induction l as [|b l IH]; cbn [find_atom map]; [intros _ H; inversion H|].
  destruct (Z.eqb_spec (ae_atom b) a) as [Hb|Hb]; [discriminate|].
  intros H [Ha|Ha]%elem_of_cons; [congruence|]. exact (IH H Ha).
Qed.

Lemma find_atom_elem l ae : NoDup (map ae_atom l) → ae ∈ l → find_atom (ae_atom ae) l = Some ae.
Proof.
  induction l as [|b l IH]; [intros _ H; inversion H|]. cbn [map find_atom]. intros [Hb Hl]%NoDup_cons.
  intros [->|Ha]%elem_of_cons; [rewrite Z.eqb_refl; reflexivity|].
  destruct (Z.eqb_spec (ae_atom b) (ae_atom ae)) as [E|E]; [|exact (IH Hl Ha)].
  exfalso. apply Hb. rewrite E. apply (list_elem_of_fmap_2 ae_atom), Ha.
Qed.

Lemma find_name_some n l ae : find_name n l = Some ae → ae ∈ l ∧ ae_name ae = n.
Proof.
  induction l as [|b l IH]; cbn [find_name]; [discriminate|].
  destruct (String.eqb_spec (ae_name b) n) as [Hb|Hb]; [intros [= <-]; split; [left|exact Hb]|].
  intros H. destruct (IH H). split; [right|]; assumption.
Qed.

Lemma find_name_none n l : find_name n l = None → n ∉ map ae_name l.
Proof.
  induction l as [|b l IH]; cbn [find_name map]; [intros _ H; inversion H|].
  destruct (String.eqb_spec (ae_name b) n) as [Hb|Hb]; [discriminate|].
  intros H [Ha|Ha]%elem_of_cons; [congruence|]. exact (IH H Ha).
Qed.

Lemma co_names x a b : coherent x → a ∈ x_byatom x → b ∈ x_byatom x → ae_name a = ae_name b → a = b.
Proof.
  intros [_ _ H] [_ Ha]%H [_ Hb]%H E. destruct a as [n a], b as [m b]. cbn in *. subst m.
  f_equal. exact (atom_table_inj _ _ _ _ Ha Hb).
Qed.

Lemma find_name_elem x ae : coherent x → ae ∈ x_byatom x → find_name (ae_name ae) (x_byname x) = Some ae.
Proof.
  intros Hx Ha. rewrite (co_tables x Hx). destruct (find_name (ae_name ae) (x_byatom x)) as [b|] eqn:E.
  - apply find_name_some in E as [Hb Hn]. f_equal. exact (co_names x b ae Hx Hb Ha Hn).
  - destruct (find_name_none _ _ E). apply (list_elem_of_fmap_2 ae_name), Ha.
Qed.

Lemma coherent_grows x sv : coherent x → grows (x_server x) sv → coherent (with_server sv x).
Proof.
  intros [H1 H2 H3] Hg. constructor; [exact H1|exact H2|]. intros ae [Hz Ha]%H3. split; [exact Hz|exact (Hg _ _ Ha)].
Qed.

Lemma coherent_add x ae :
  coherent x → ae_atom ae ≠ 0 → ae_atom ae ∉ map ae_atom (x_byatom x) →
  atom_table (x_server x) (ae_atom ae) = Some (ae_name ae) →
  coherent (with_tables (x_byatom x ++ [ae]) (x_byname x ++ [ae]) x).
Proof.
  intros [H1 H2 H3] Hz Hn Ha. constructor; cbn [x_byatom x_byname x_server with_tables].
  - rewrite H1. reflexivity.
  - rewrite map_app. apply NoDup_app. split; [exact H2|]. split; [|apply NoDup_singleton].
    intros a Hi ->%list_elem_of_singleton. exact (Hn Hi).
  - intros b [Hb| ->%list_elem_of_singleton]%elem_of_app; auto.
Qed.

(** *** Requests *)

(** What a request may change: the server and the tables have more atoms. *)
Record extends x x' : Prop := {
  ex_server : grows (x_server x) (x_server x');
  ex_tables : ∀ ae, ae ∈ x_byatom x → ae ∈ x_byatom x';
  ex_logm : x_logm x' = x_logm x
}.

Lemma extends_refl x : extends x x.
Proof. constructor; [intros ? ? H; exact H|auto|reflexivity]. Qed.

Lemma extends_trans x y z : extends x y → extends y z → extends x z.
Proof.
  intros [H1 H2 H3] [H4 H5 H6]. constructor; [intros ? ? H; apply H4, H1, H|auto|congruence].
Qed.

Lemma extends_grows x sv : grows (x_server x) sv → extends x (with_server sv x).
Proof. intros H. constructor; [exact H|auto|reflexivity]. Qed.

Lemma extends_add x ae : extends x (with_tables (x_byatom x ++ [ae]) (x_byname x ++ [ae]) x).
Proof. constructor; [intros ? ? H; exact H|intros a Ha; apply elem_of_app; left; exact Ha|reflexivity]. Qed.

Lemma get_atom_name_spec a x :
  coherent x → ∃ r x', di_xorg_get_atom_name a x = Done r x' ∧ coherent x' ∧ extends x x' ∧
    match r with Some n => AtomEntry n a ∈ x_byatom x' | None => True end.
Proof.
  intros Hx. unfold di_xorg_get_atom_name, get, mbind, ST_bind.
  destruct (find_atom a (x_byatom x)) as [ae|] eqn:E.
  { eexists _, _. split; [reflexivity|]. split; [exact Hx|]. split; [apply extends_refl|].
    destruct (find_atom_some _ _ _ E) as [Hi <-]. destruct ae. exact Hi. }
  destruct (get_atom_name_ok a (x_server x)) as [Hg Hr].
  assert (coherent (with_server (get_atom_name a (x_server x)).2 x)) as Hc by (apply coherent_grows; assumption).
  unfold request. destruct (get_atom_name a (x_server x)) as [r sv]. cbn [fst snd] in *. apply (extends_grows x sv) in Hg.
  destruct r as [n| |].
  2, 3: eexists _, _; split; [reflexivity|]; split; [exact Hc|]; split; [exact Hg|exact I].
  destruct (Hr n eq_refl) as [Hz Ha]. eexists _, _. split; [reflexivity|].
  split; [apply (coherent_add _ (AtomEntry n a) Hc Hz (find_atom_none _ _ E) Ha)|].
  split; [exact (extends_trans _ _ _ Hg (extends_add (with_server sv x) (AtomEntry n a)))|].
  apply elem_of_app. right. left.
Qed.

Lemma intern_atom_spec n x :
  coherent x → (Z.of_nat (String.length (default EmptyString n)) < 2 ^ 16) → x_logm x = true →
  ∃ r x', di_xorg_intern_atom n x = Done r x' ∧ coherent x' ∧ extends x x' ∧
    (r.1 ≠ 0 → r.2 = NullPtr ∧ AtomEntry (default EmptyString n) r.1 ∈ x_byatom x').
Proof.
  intros Hx Hlen Hlog. unfold di_xorg_intern_atom, get, mbind, ST_bind. rewrite Hlog. cbn [negb].
  set (key := default EmptyString n) in *.
  destruct (find_name key (x_byname x)) as [ae|] eqn:E.
  { eexists _, _. split; [reflexivity|]. split; [exact Hx|]. split; [apply extends_refl|].
    intros _. split; [reflexivity|]. destruct (find_name_some _ _ _ E) as [Hi <-].
    rewrite (co_tables x Hx) in Hi. destruct ae. exact Hi. }
  assert (name16 key = key) as Hk.
  { unfold name16. rewrite Z.mod_small by lia. rewrite Nat2Z.id. apply take_bytes_all. }
  rewrite Hk. destruct (intern_atom_ok key (x_server x)) as [Hg Hr].
  assert (coherent (with_server (intern_atom key (x_server x)).2 x)) as Hc by (apply coherent_grows; assumption).
  unfold request. destruct (intern_atom key (x_server x)) as [r sv]. cbn [fst snd] in *. apply (extends_grows x sv) in Hg.
  destruct r as [a| |].
  2, 3: unfold xlog; cbn [x_logm with_server]; rewrite Hlog; eexists _, _; split; [reflexivity|];
    (split; [destruct Hc; constructor; assumption|]);
    (split; [destruct Hg; constructor; first [assumption|symmetry; exact Hlog]|]); cbn [fst]; intros H; destruct (H eq_refl).
  destruct (Hr a eq_refl) as [Hz Ha]. eexists _, _. split; [reflexivity|].
  assert (a ∉ map ae_atom (x_byatom x)) as Hnew.
  { intros Hi%list_elem_of_fmap. destruct Hi as (ae & -> & Hi). destruct (co_server _ Hc ae Hi) as [_ Hn].
    cbn in Hn. rewrite Ha in Hn. injection Hn as Hn. apply (find_name_none _ _ E).
    rewrite (co_tables x Hx), Hn. apply (list_elem_of_fmap_2 ae_name), Hi. }
  split; [apply (coherent_add _ (AtomEntry key a) Hc Hz Hnew Ha)|].
  split; [exact (extends_trans _ _ _ Hg (extends_add (with_server sv x) (AtomEntry key a)))|].
  intros _. split; [reflexivity|]. apply elem_of_app. right. left.
Qed.

(** What users of a connection and other clients of the server do. *)
Inductive atom_op : Type :=
  | AskName (atom : Z)
  | AskAtom (name : di_string)
  | Others (sv : xserver → xserver).

Inductive atom_answer : Type :=
  | IsName (name : option string)
  | IsAtom (r : Z * error_ptr)
  | Silent.

Definition do_atom (op : atom_op) : ST xconnection atom_answer :=
  match op with
  | AskName a => r ← di_xorg_get_atom_name a; mret (IsName r)
  | AskAtom n => r ← di_xorg_intern_atom n; mret (IsAtom r)
  | Others f => request (λ sv, (tt, f sv));; mret Silent
  end.

Definition op_fine (op : atom_op) : Prop :=
  match op with
  | AskName _ => True
  | AskAtom n => Z.of_nat (String.length (default EmptyString n)) < 2 ^ 16
  | Others f => ∀ sv, grows sv (f sv)
  end.

(** The answer that the table of the server has. *)
Definition answered (table : Z → option string) (op : atom_op) (r : atom_answer) : Prop :=
  match op, r with
  | AskName a, IsName (Some n) => table a = Some n
  | AskAtom n, IsAtom (a, e) => a ≠ 0 → e = NullPtr ∧ table a = Some (default EmptyString n)
  | _, _ => True
  end.

(** The answer that is in the tables of the connection. *)
Definition found (op : atom_op) (r : atom_answer) x : Prop :=
  match op, r with
  | AskName a, IsName (Some n) => AtomEntry n a ∈ x_byatom x
  | AskAtom n, IsAtom (a, e) => a ≠ 0 → e = NullPtr ∧ AtomEntry (default EmptyString n) a ∈ x_byatom x
  | _, _ => True
  end.

Lemma do_atom_spec op x :
  coherent x → x_logm x = true → op_fine op →
  ∃ r x', do_atom op x = Done r x' ∧ coherent x' ∧ extends x x' ∧ found op r x'.
Proof.
  intros Hx Hlog Hop. destruct op as [a|n|f]; cbn [do_atom op_fine found] in *; unfold mbind, ST_bind.
  - destruct (get_atom_name_spec a x Hx) as (r & x' & -> & Hc & Hg & Hr). exists (IsName r), x'. auto.
  - destruct (intern_atom_spec n x Hx Hop Hlog) as ([a e] & x' & -> & Hc & Hg & Hr). exists (IsAtom (a, e)), x'. auto.
  - eexists _, _. split; [reflexivity|]. split; [apply coherent_grows; [exact Hx|apply Hop]|].
    split; [apply extends_grows, Hop|exact I].
Qed.

Lemma found_extends op r x x' : found op r x → extends x x' → found op r x'.
Proof.
  intros H [_ He _]. destruct op as [a|n|f], r as [[m|]|[b e]|]; cbn [found] in *; auto.
  intros Hb. destruct (H Hb). auto.
Qed.

Lemma found_answered op r x : coherent x → found op r x → answered (atom_table (x_server x)) op r.
Proof.
  intros Hx H. destruct op as [a|n|f], r as [[m|]|[b e]|]; cbn [found answered] in *; auto.
  - apply (co_server x Hx _ H).
  - intros Hb. destruct (H Hb) as [He Hi]. split; [exact He|]. apply (co_server x Hx _ Hi).
Qed.

(** Whether an answer is a name or an atom. *)
Definition positive (op : atom_op) (r : atom_answer) : Prop :=
  match op, r with
  | AskName _, IsName (Some _) => True
  | AskAtom _, IsAtom (a, _) => a ≠ 0
  | _, _ => False
  end.

(** Asking again needs no request: neither the server nor the connection changes. *)
Lemma found_again op r x :
  coherent x → x_logm x = true → found op r x → positive op r → do_atom op x = Done r x.
Proof.
  intros Hx Hlog Hf Hp. destruct op as [a|n|f], r as [[m|]|[b e]|]; cbn [found positive] in *; try contradiction.
  - cbn [do_atom]. unfold di_xorg_get_atom_name, get, mbind, ST_bind.
    rewrite (find_atom_elem _ _ (co_atoms x Hx) Hf : find_atom a _ = _). reflexivity.
  - destruct (Hf Hp) as [-> Hi]. cbn [do_atom]. unfold di_xorg_intern_atom, get, mbind, ST_bind. rewrite Hlog.
    cbn [negb]. rewrite (find_name_elem x _ Hx Hi : find_name (default EmptyString n) _ = _). reflexivity.
Qed.

Lemma del_entry_head ae l : del_entry ae (ae :: l) = Some l.
Proof. cbn [del_entry]. rewrite Z.eqb_refl, String.eqb_refl. reflexivity. Qed.

Lemma free_atoms_ok x : x_byname x = x_byatom x → free_atoms x = Done tt (with_tables [] [] x).
Proof.
  intros E. unfold free_atoms, get, mbind at 1, ST_bind at 1.
  assert (x = with_tables (x_byatom x) (x_byatom x) x) as Hx by (destruct x; cbn in *; subst; reflexivity).
  rewrite Hx at 2. generalize (x_byatom x). intros l. induction l as [|ae l IH]; cbn [for_each]; [reflexivity|].
  unfold get, mbind, ST_bind, from_opt. cbn [x_byatom x_byname with_tables]. rewrite del_entry_head. exact IH.
Qed.

(** C19. The tables of atoms are a cache of the atoms of the X server.  Every
    sequence of questions for names and atoms, mixed with requests of other
    clients, is answered, each answer is the one of the server, an answer once
    given is given again without a request, and disconnecting takes every entry
    out of both tables. *)
Theorem atoms_cached (ops : list atom_op) x :
  coherent x → x_logm x = true → (∀ op, op ∈ ops → op_fine op) →
  ∃ rs x', collect do_atom ops x = Done rs x' ∧
    Forall2 (answered (atom_table (x_server x'))) ops rs ∧
    Forall2 (λ op r, positive op r → do_atom op x' = Done r x') ops rs ∧
    ∃ x'', free_atoms x' = Done tt x'' ∧ x_byatom x'' = [] ∧ x_byname x'' = [].
Proof.
  intros Hx Hlog Hops.
  assert (∃ rs x', collect do_atom ops x = Done rs x' ∧ coherent x' ∧ extends x x' ∧
            Forall2 (λ op r, found op r x') ops rs) as (rs & x' & Hrun & Hc & He & Hf).
  { revert x Hx Hlog. induction ops as [|op ops IH]; intros x Hx Hlog; cbn [collect].
    { eexists [], x. split; [reflexivity|]. split; [exact Hx|]. split; [apply extends_refl|constructor]. }
    destruct (do_atom_spec op x Hx Hlog) as (r & x1 & Hr & Hc1 & He1 & Hf1); [apply Hops; left|].
    destruct (IH ltac:(intros; apply Hops; right; assumption) x1 Hc1) as (rs & x2 & Hrs & Hc2 & He2 & Hf2).
    { rewrite (ex_logm _ _ He1). exact Hlog. }
    exists (r :: rs), x2. unfold mbind, ST_bind. rewrite Hr, Hrs. split; [reflexivity|]. split; [exact Hc2|].
    split; [exact (extends_trans _ _ _ He1 He2)|]. constructor; [exact (found_extends _ _ _ _ Hf1 He2)|exact Hf2]. }
  exists rs, x'. split; [exact Hrun|]. split; [|split].
  - eapply Forall2_impl; [exact Hf|]. intros op r. apply found_answered, Hc.
  - eapply Forall2_impl; [exact Hf|]. intros op r H Hp. apply found_again; try assumption.
    rewrite (ex_logm _ _ He). exact Hlog.
  - eexists. split; [apply free_atoms_ok, co_tables, Hc|]. split; reflexivity.
Qed.
End atoms.

(** *** A server

    The atom [k + 1] has the name number [k]; what is sent for the keyboard is
    kept in [dx_sent]. *)
Record demo_x := DemoX { dx_atoms : list string; dx_resource : string; dx_sent : list (list Z) }.

Definition demo_intern (name : string) (sv : demo_x) : reply Z * demo_x :=
  match list_find (λ n, n = name) (dx_atoms sv) with
  | Some (k, _) => (Reply (Z.of_nat k + 1), sv)
  | None => (Reply (Z.of_nat (length (dx_atoms sv)) + 1), DemoX (dx_atoms sv ++ [name]) (dx_resource sv) (dx_sent sv))
  end.

Definition demo_name (sv : demo_x) (a : Z) : option string :=
  if a <=? 0 then None else dx_atoms sv !! Z.to_nat (a - 1).

(** No atom when a name is there twice, which no request brings about. *)
Definition demo_table (sv : demo_x) (a : Z) : option string :=
  n ← demo_name sv a;
  if decide (list_find (λ m, m = n) (dx_atoms sv) = Some (Z.to_nat (a - 1), n)) then Some n else None.

#[export] Instance demo_xserver : XServer := {|
  xserver := demo_x;
  intern_atom := demo_intern;
  get_atom_name a sv := (match demo_table sv a with Some n => Reply n | None => XError end, sv);
  get_resource_manager n sv :=
    (Reply (Z.of_nat (String.length (dx_resource sv)) - Z.min (4 * n) (Z.of_nat (String.length (dx_resource sv))),
            take_bytes (Z.to_nat (4 * n)) (dx_resource sv)), sv);
  change_resource_manager s sv := (false, DemoX (dx_atoms sv) s (dx_sent sv))
|}.

#[export] Instance demo_extensions : XExtensions demo_xserver := {|
  list_extensions sv := (Some ["XInputExtension"; "RANDR"]%string, sv);
  query_extension name sv := (Some (if String.eqb name "RANDR" then (140, 89) else (131, 66)), sv)
|}.

Lemma demo_table_some sv a n :
  demo_table sv a = Some n ↔ 0 < a ∧ list_find (λ m, m = n) (dx_atoms sv) = Some (Z.to_nat (a - 1), n).
Proof.
  unfold demo_table, demo_name. destruct (Z.leb_spec a 0); [split; [discriminate|lia]|].
  destruct (dx_atoms sv !! Z.to_nat (a - 1)) as [m|] eqn:E; cbn [mbind option_bind].
  - destruct (decide _) as [Hd|Hd].
    + split; [intros [= ->]; auto with lia|]. intros [_ Hn]. apply list_find_Some in Hn as [Hn _]. congruence.
    + split; [discriminate|]. intros [_ Hn]. pose proof (proj1 (list_find_Some _ _ _ _) Hn) as [Hm _].
      assert (m = n) as -> by congruence. contradiction.
  - split; [discriminate|]. intros [_ Hn]. apply list_find_Some in Hn as [Hm _]. congruence.
Qed.

Lemma demo_intern_ok n sv :
  (∀ a m, demo_table sv a = Some m → demo_table (demo_intern n sv).2 a = Some m) ∧
  (∀ a, (demo_intern n sv).1 = Reply a → a ≠ 0 ∧ demo_table (demo_intern n sv).2 a = Some n).
Proof.
  unfold demo_intern. destruct (list_find (λ m, m = n) (dx_atoms sv)) as [[k y]|] eqn:E; cbn [fst snd].
  - split; [auto|]. intros a [= <-]. apply list_find_Some in E as Hy. destruct Hy as (_ & -> & _).
    split; [lia|]. apply demo_table_some. split; [lia|]. rewrite E. do 2 f_equal. lia.
  - split.
    + intros a m [Ha Hm]%demo_table_some. apply demo_table_some. split; [exact Ha|]. cbn [dx_atoms].
      apply list_find_app_Some. left. exact Hm.
    + intros a [= <-]. split; [lia|]. apply demo_table_some. split; [lia|]. cbn [dx_atoms].
      apply list_find_app_Some. right. split; [lia|]. split; [exact E|].
      replace (Z.to_nat (Z.of_nat (length (dx_atoms sv)) + 1 - 1) - length (dx_atoms sv))%nat with 0%nat by lia.
      cbn. rewrite decide_True by reflexivity. reflexivity.
Qed.

#[export] Instance demo_xserver_ok : XServerOk demo_xserver.
Proof.
  refine {| atom_table := (demo_table : @xserver demo_xserver → _) |}; cbn.
  - intros sv a b n [Ha H]%demo_table_some [Hb H']%demo_table_some. rewrite H in H'. injection H' as E. lia.
  - exact demo_intern_ok.
  - intros a sv. split; [auto|]. intros n. destruct (demo_table sv a) as [m|] eqn:E; [|discriminate].
    intros [= ->]. split; [|reflexivity]. apply demo_table_some in E. lia.
Defined.

(** Names and atoms are asked for, another client interns one in between. *)
Definition demo_ops : list atom_op :=
  [AskName 1; AskAtom (Some "WM_NAME"%string); AskName 7; Others (λ sv, (demo_intern "FLOAT" sv).2);
   AskAtom (Some "FLOAT"%string); AskName 2; AskAtom (Some "PRIMARY"%string)].

Definition demo_connection : xconnection := XConnection [] [] (DemoX ["PRIMARY"%string] "" []) true [].

Lemma atoms_cached_witness :
  match collect do_atom demo_ops demo_connection with
  | Done rs x =>
      rs = [IsName (Some "PRIMARY"); IsAtom (2, NullPtr); IsName None; Silent; IsAtom (3, NullPtr);
            IsName (Some "WM_NAME"); IsAtom (1, NullPtr)]%string ∧
      do_atom (AskAtom (Some "FLOAT"%string)) x = Done (IsAtom (3, NullPtr)) x
  | _ => False
  end.
Proof.
  destruct (atoms_cached demo_ops demo_connection) as (rs & x & Hrun & _ & Hagain & _).
  - constructor; cbn; [reflexivity|constructor|]. intros ae H. inversion H.
  - reflexivity.
  - apply Forall_forall. repeat (apply Forall_cons; split; [try exact I; try (cbn; lia)|]); [|constructor].
    intros sv. exact (proj1 (demo_intern_ok "FLOAT" sv)).
  - rewrite Hrun. vm_compute in Hrun. injection Hrun as <- <-. split; [reflexivity|].
    do 4 (apply Forall2_cons in Hagain as [_ Hagain]). apply Forall2_cons in Hagain as [H _]. apply H. discriminate.
Defined.
