(* ===== verification/Keymap.v ===== *)
(** * The keyboard mapping (set_keymap and find_modifiers of plugins/xorg/xorg.c)

    A keymap of xkbcommon is turned into the two tables of the X server: the key
    symbols of every key code, and the key codes of every modifier.  The modifiers
    are found by pressing every key and looking at what it changes. *)

From S2P Require Import Prelude Text DiTypes Strings Xorg.

Local Open Scope Z_scope.

(** ** xkbcommon

    Keymaps, keyboard states, and what the code asks of them. *)
Record xkb_rule_names := RuleNames {
  rn_layout : string; rn_model : option string; rn_variant : option string; rn_options : option string
}.

Class Xkb := {
  xkb_keymap : Type;
  xkb_state : Type;
  xkb_keymap_new_from_names : xkb_rule_names → option xkb_keymap;
  xkb_keymap_num_layouts : xkb_keymap → Z;
  xkb_keymap_min_keycode : xkb_keymap → Z;
  xkb_keymap_max_keycode : xkb_keymap → Z;
  xkb_keymap_num_levels : xkb_keymap → Z → nat;
  xkb_keymap_syms : xkb_keymap → Z → nat → list Z;
  xkb_map_has_mod : xkb_keymap → string → bool;
  xkb_state_new : xkb_keymap → xkb_state;
  xkb_state_update_key : xkb_state → Z → bool → Z * xkb_state;
  xkb_state_mod_name_is_active : xkb_state → string → Z → Z
}.

(** What the X server says about the keyboard. *)
Class XKeyboard (X : XServer) := {
  setup_min_keycode : Z;
  setup_max_keycode : Z;
  change_keyboard_mapping : Z → Z → Z → list Z → xserver → bool * xserver;
  set_modifier_mapping : Z → list Z → xserver → reply Z * xserver
}.

Definition MAPPING_STATUS_SUCCESS : Z := 0.
Definition MAPPING_STATUS_BUSY : Z := 1.
Definition MAPPING_STATUS_FAILURE : Z := 2.

(** [XKB_STATE_MODS_DEPRESSED | XKB_STATE_MODS_LATCHED | XKB_STATE_MODS_LOCKED] *)
Definition XKB_STATE_MODS_LATCHED : Z := 2.
Definition XKB_STATE_MODS_LOCKED : Z := 4.
Definition XKB_STATE_MODS : Z := 7.

Definition modifier_names : list string :=
  ["Shift"; "Lock"; "Control"; "Mod1"; "Mod2"; "Mod3"; "Mod4"; "Mod5"]%string.

Definition MAX_KEYCODE : nat := 256.

(** The integers from [lo] to [hi]. *)
Definition upto (lo hi : Z) : list Z := seqZ lo (hi - lo + 1).

(** An element of an array is written. *)
Definition store_at {S A} (i : nat) (v : A) (l : list A) : ST S (list A) :=
  if Nat.ltb i (length l) then mret (<[i := v]> l) else fail OutOfBounds.

Section keymap.
Context {X : XServer} {XK : XKeyboard X} {B : Xkb}.

(** ** [find_modifiers]

    The local variables: [next_keycode_indices], [keycodes] (which is not
    initialised), [total_keycodes], [modifier_keycode_head] and
    [modifier_keycode_count], and the state of the keyboard. *)
Record fm := Fm {
  fm_next : list Z;
  fm_keycodes : list (option Z);
  fm_total : nat;
  fm_heads : list Z;
  fm_counts : list Z;
  fm_state : xkb_state
}.

Definition fm_init (map : xkb_keymap) : fm :=
  Fm (repeat (-1) MAX_KEYCODE) (repeat None MAX_KEYCODE) 0 (repeat (-1) 8) (repeat 0 8) (xkb_state_new map).

Definition set_state (st : xkb_state) : ST fm unit := modify (λ s,
  Fm (fm_next s) (fm_keycodes s) (fm_total s) (fm_heads s) (fm_counts s) st).

Definition press (i : Z) (down : bool) : ST fm Z :=
  s ← get;
  let '(updates, st) := xkb_state_update_key (fm_state s) i down in
  set_state st;; mret updates.

(** The key code [i] goes to the front of the list of the modifier [j]. *)
Definition add_keycode (i : Z) (j : nat) : ST fm unit :=
  s ← get;
  head ← from_opt OutOfBounds (fm_heads s !! j);
  count ← from_opt OutOfBounds (fm_counts s !! j);
  next ← store_at (fm_total s) head (fm_next s);
  heads ← store_at j (Z.of_nat (fm_total s)) (fm_heads s);
  kcs ← store_at (fm_total s) (Some i) (fm_keycodes s);
  counts ← store_at j (count + 1) (fm_counts s);
  put (Fm next kcs (S (fm_total s)) heads counts (fm_state s)).

Definition is_active (st : xkb_state) (j : nat) (updates : Z) : bool :=
  negb (xkb_state_mod_name_is_active st (default EmptyString (modifier_names !! j)) updates =? 0).

(** One key is pressed and released. *)
Definition try_key (map : xkb_keymap) (i : Z) : ST fm unit :=
  u ← press i true;
  let updates := Z.land u XKB_STATE_MODS in
  if updates =? 0 then _ ← press i false; mret tt
  else
    for_each (λ j, s ← get; if is_active (fm_state s) j updates then add_keycode i j else mret tt) (seq 0 8);;
    _ ← press i false;
    (if Z.land updates XKB_STATE_MODS_LOCKED =? 0 then mret tt
     else _ ← press i true; _ ← press i false; mret tt);;
    (if Z.land updates XKB_STATE_MODS_LATCHED =? 0 then mret tt else set_state (xkb_state_new map)).

(** One step through the list of the modifier [i], which writes a row. *)
Definition walk_step (s : fm) (per i : nat) (cur : nat * Z) : ST (list Z) (option (nat * Z)) :=
  let '(cnt, curr) := cur in
  if curr =? -1 then mret None
  else
    check (Nat.ltb cnt per);;
    kc ← from_opt OutOfBounds (fm_keycodes s !! Z.to_nat curr);
    kc ← from_opt Uninit kc;
    out ← get;
    out ← store_at (i * per + cnt) (wrap_u 8 kc) out;
    put out;;
    next ← from_opt OutOfBounds (fm_next s !! Z.to_nat curr);
    mret (Some (S cnt, next)).

Definition fill_rows (s : fm) (per : nat) : ST (list Z) unit :=
  for_each (λ i,
    head ← from_opt OutOfBounds (fm_heads s !! i);
    while_some (S MAX_KEYCODE) (walk_step s per i) (0%nat, head)) (seq 0 8).

(** A function that does not touch the state of its caller. *)
Definition local {S S' A} (m : ST S A) (s0 : S) : ST S' (A * S) := λ x,
  match m s0 with Done a s => Done (a, s) x | Crash c => Crash c | NoFuel => NoFuel end.

(** [find_modifiers]: the number of key codes per modifier, and the table. *)
Definition find_modifiers {S} (map : xkb_keymap) (min max : Z) : ST S (nat * list Z) :=
  check (forallb (xkb_map_has_mod map) modifier_names);;
  r ← local (for_each (try_key map) (upto min max)) (fm_init map);
  let s := r.2 in
  let per := Z.to_nat (fold_left Z.max (fm_counts s) 0) in
  out ← local (fill_rows s per) (repeat 0 (8 * per));
  mret (per, out.2).

(** ** [set_keymap]

    What [di_get] answers for the four keys of the keymap object. *)
Record keymap_object := KeymapObject {
  ko_layout : option di_string;
  ko_model : option di_string;
  ko_variant : option di_string;
  ko_options : option di_string
}.

(** The keysyms are stored at column [c] of the row of [i]. *)
Definition keysym_at (min per i c : Z) : nat := Z.to_nat ((i - min) * per + c).

(** One level of a key. *)
Definition store_level (map : xkb_keymap) (min per i : Z) (keysyms : list Z) (j : nat) : ST xconnection (list Z) :=
  match xkb_keymap_syms map i j with
  | [] => mret keysyms
  | [sym] =>
      keysyms ← (if Nat.ltb j 2 then store_at (keysym_at min per i (Z.of_nat j)) sym keysyms else mret keysyms);
      store_at (keysym_at min per i (Z.of_nat j + 2)) sym keysyms
  | _ => xlog "Multiple keysyms per level is not supported";; mret keysyms
  end.

(** A loop that carries a value. *)
Fixpoint fold_st {S A C} (f : C → A → ST S C) (c : C) (l : list A) : ST S C :=
  match l with
  | [] => mret c
  | x :: l' => c' ← f c x; fold_st f c' l'
  end.

Definition store_key (map : xkb_keymap) (min per : Z) (keysyms : list Z) (i : Z) : ST xconnection (list Z) :=
  fold_st (store_level map min per i) keysyms (seq 0 (xkb_keymap_num_levels map i)).

(** The loop that sets the modifiers, as long as the server is busy. *)
Definition set_modifiers (per : nat) (keycodes : list Z) (_ : unit) : ST xconnection (option unit) :=
  r ← request (set_modifier_mapping (wrap_u 8 (Z.of_nat per)) keycodes);
  match r with
  | Reply status =>
      if status =? MAPPING_STATUS_FAILURE then
        xlog "Failed to set modifiers, your keymap will be broken.";; mret None
      else if status =? MAPPING_STATUS_SUCCESS then mret None
      else mret (Some tt)
  | _ => xlog "Failed to set modifiers, your keymap will be broken.";; mret None
  end.

(** The range of key codes, and the columns of the table. *)
Definition key_range (map : xkb_keymap) : Z * Z :=
  let max := xkb_keymap_max_keycode map in
  let min := xkb_keymap_min_keycode map in
  (if min <? setup_min_keycode then setup_min_keycode else min,
   if max >? setup_max_keycode then setup_max_keycode else max).

Definition keysym_per_keycode (map : xkb_keymap) (min max : Z) : Z :=
  fold_left Z.max (List.map (λ i, Z.of_nat (xkb_keymap_num_levels map i)) (upto min max)) 0 + 2.

(** [set_keymap]; a keymap that cannot be compiled is a null pointer. *)
Definition set_keymap (fuel : nat) (o : option keymap_object) : ST xconnection unit :=
  let log_invalid := xlog "Invalid keymap object, key layout is not set" in
  match o with
  | None => log_invalid
  | Some o =>
      match ko_layout o with
      | None => log_invalid
      | Some layout =>
          let names := RuleNames (c_str layout) (c_str <$> ko_model o) (c_str <$> ko_variant o) (c_str <$> ko_options o) in
          map ← from_opt NullDeref (xkb_keymap_new_from_names names);
          if negb (xkb_keymap_num_layouts map =? 1) then
            xlog "Using multiple layout at the same time is not currently supported."
          else
            let '(min, max) := key_range map in
            let per := keysym_per_keycode map min max in
            keysyms ← fold_st (store_key map min per) (repeat 0 (Z.to_nat (per * (max - min + 1)))) (upto min max);
            e ← request (change_keyboard_mapping (max - min + 1) min per keysyms);
            (if (e : bool) then xlog "Failed to set keymap." else mret tt);;
            modifiers ← find_modifiers map min max;
            while_some fuel (set_modifiers modifiers.1 modifiers.2) tt
      end
  end.
End keymap.

(** ** The key codes of the modifiers *)

Section modifiers.
Context {B : Xkb}.

(** Pressing a key: the state of the keyboard afterwards, and the modifiers that
    it changed. *)
Definition key_effect (map : xkb_keymap) (st : xkb_state) (i : Z) : xkb_state * list nat :=
  let '(u, st1) := xkb_state_update_key st i true in
  let updates := Z.land u XKB_STATE_MODS in
  let st2 := (xkb_state_update_key st1 i false).2 in
  if updates =? 0 then (st2, [])
  else
    let st3 := if Z.land updates XKB_STATE_MODS_LOCKED =? 0 then st2
               else (xkb_state_update_key (xkb_state_update_key st2 i true).2 i false).2 in
    (if Z.land updates XKB_STATE_MODS_LATCHED =? 0 then st3 else xkb_state_new map,
     List.filter (λ j, is_active st1 j updates) (seq 0 8)).

(** The pairs of a key code and a modifier it changes, the last one first. *)
Fixpoint modifier_keys (map : xkb_keymap) (st : xkb_state) (keys : list Z) (hs : list (Z * nat)) : list (Z * nat) :=
  match keys with
  | [] => hs
  | i :: keys' =>
      let '(st', js) := key_effect map st i in
      modifier_keys map st' keys' (rev (List.map (pair i) js) ++ hs)
  end.

Definition codes (j : nat) (hs : list (Z * nat)) : list Z :=
  List.map fst (List.filter (λ p, Nat.eqb p.2 j) hs).

(** The table of the X server: a row for each modifier, filled up with zeros. *)
Definition modifier_row (hs : list (Z * nat)) (per j : nat) : list Z :=
  List.map (wrap_u 8) (codes j hs) ++ repeat 0 (per - length (codes j hs)).

Definition most_codes (hs : list (Z * nat)) : nat := max_list (List.map (λ j, length (codes j hs)) (seq 0 8)).

Definition modifier_table (hs : list (Z * nat)) : nat * list Z :=
  (most_codes hs, concat (List.map (modifier_row hs (most_codes hs)) (seq 0 8))).

Lemma codes_cons i j k hs : codes k ((i, j) :: hs) = if Nat.eqb j k then i :: codes k hs else codes k hs.
Proof. unfold codes. cbn [List.filter snd]. destruct (Nat.eqb j k); reflexivity. Qed.

Lemma codes_length j hs : (length (codes j hs) ≤ length hs)%nat.
Proof.
  induction hs as [|[i k] hs IH]; [unfold codes; cbn; lia|]. rewrite codes_cons. destruct (Nat.eqb k j); cbn [length]; lia.
Qed.

(** The list that starts at index [h]; all indices are below [t]. *)
Fixpoint chain (t : nat) (next : list Z) (kcs : list (option Z)) (h : Z) (l : list Z) : Prop :=
  match l with
  | [] => h = -1
  | x :: l' =>
      0 ≤ h < Z.of_nat t ∧ kcs !! Z.to_nat h = Some (Some x) ∧
      ∃ h', next !! Z.to_nat h = Some h' ∧ chain t next kcs h' l'
  end.

Lemma chain_store t next kcs h l v c :
  chain t next kcs h l → chain (S t) (<[t := v]> next) (<[t := c]> kcs) h l.
Proof.
  revert h. induction l as [|x l IH]; intros h; cbn [chain]; [auto|]. intros (Hh & Hk & h' & Hn & Hl).
  rewrite !list_lookup_insert_ne by lia. split; [lia|]. split; [exact Hk|]. exists h'. auto.
Qed.

(** The arrays hold the lists of the modifiers [hs]. *)
Record arrays (s : fm) (hs : list (Z * nat)) : Prop := {
  ar_next : length (fm_next s) = MAX_KEYCODE;
  ar_keycodes : length (fm_keycodes s) = MAX_KEYCODE;
  ar_total : fm_total s = length hs;
  ar_bound : (length hs ≤ MAX_KEYCODE)%nat;
  ar_heads : length (fm_heads s) = 8%nat;
  ar_counts : length (fm_counts s) = 8%nat;
  ar_lists : ∀ j, (j < 8)%nat → ∃ h, fm_heads s !! j = Some h ∧
    chain (length hs) (fm_next s) (fm_keycodes s) h (codes j hs) ∧
    fm_counts s !! j = Some (Z.of_nat (length (codes j hs)))
}.

Lemma store_at_ok {S A} i (v : A) l (s : S) : (i < length l)%nat → store_at i v l s = Done (<[i := v]> l) s.
Proof. intros Hi. unfold store_at. rewrite (proj2 (Nat.ltb_lt _ _) Hi). reflexivity. Qed.

Lemma store_at_out {S A} i (v : A) l (s : S) : (length l ≤ i)%nat → store_at i v l s = Crash OutOfBounds.
Proof. intros Hi. unfold store_at. rewrite (proj2 (Nat.ltb_ge _ _) Hi). reflexivity. Qed.

(** A step ends with the arrays for [hs], as long as they are long enough. *)
Definition records (m : ST fm unit) (s : fm) (st : xkb_state) (hs : list (Z * nat)) : Prop :=
  if Nat.leb (length hs) MAX_KEYCODE
  then ∃ s', m s = Done tt s' ∧ arrays s' hs ∧ fm_state s' = st
  else m s = Crash OutOfBounds.

Lemma records_bind m (f : unit → ST fm unit) s st1 hs1 st2 hs2 :
  records m s st1 hs1 → (length hs1 ≤ length hs2)%nat →
  (∀ s1, arrays s1 hs1 → fm_state s1 = st1 → records (f tt) s1 st2 hs2) →
  records (m ≫= f) s st2 hs2.
Proof.
  unfold records. intros Hm Hle Hf. unfold mbind, ST_bind. destruct (Nat.leb_spec (length hs1) MAX_KEYCODE) as [H1|H1].
  - destruct Hm as (s1 & -> & Ha & Hst). apply (Hf s1 Ha Hst).
  - rewrite Hm. destruct (Nat.leb_spec (length hs2) MAX_KEYCODE); [lia|reflexivity].
Qed.

Lemma add_keycode_ok i j s hs :
  arrays s hs → (j < 8)%nat → records (add_keycode i j) s (fm_state s) ((i, j) :: hs).
Proof.
  intros [H1 H2 H3 Hlen H4 H5 H6] Hj. destruct (H6 j Hj) as (h & Hh & Hc & Hn).
  unfold records, add_keycode, get, mbind, ST_bind, from_opt. rewrite Hh, Hn, H3. cbn [mret ST_ret length].
  destruct (Nat.leb_spec (S (length hs)) MAX_KEYCODE) as [Hle|Hle].
  2: rewrite store_at_out by lia; reflexivity.
  rewrite (store_at_ok (length hs)) by lia. rewrite (store_at_ok j) by lia. rewrite (store_at_ok (length hs)) by lia.
  rewrite (store_at_ok j) by lia. eexists. split; [reflexivity|]. split; [|reflexivity].
  constructor; cbn [fm_next fm_keycodes fm_total fm_heads fm_counts length]; rewrite ?length_insert; try assumption; [reflexivity|].
  intros k Hk. destruct (H6 k Hk) as (h' & Hh' & Hc' & Hn'). rewrite codes_cons. destruct (Nat.eqb_spec j k) as [<-|Hjk].
  - exists (Z.of_nat (length hs)). rewrite !list_lookup_insert_eq by lia. split; [reflexivity|]. split.
    + cbn [chain]. rewrite Nat2Z.id. rewrite !list_lookup_insert_eq by lia. split; [lia|]. split; [reflexivity|].
      exists h. split; [reflexivity|]. apply chain_store, Hc.
    + f_equal. cbn [length]. lia.
  - exists h'. rewrite !list_lookup_insert_ne by congruence. split; [exact Hh'|]. split; [apply chain_store, Hc'|exact Hn'].
Qed.

Definition with_state (st : xkb_state) (s : fm) : fm :=
  Fm (fm_next s) (fm_keycodes s) (fm_total s) (fm_heads s) (fm_counts s) st.

Lemma arrays_state s hs st : arrays s hs → arrays (with_state st s) hs.
Proof. intros []. constructor; assumption. Qed.

Lemma press_eq i d s :
  press i d s = Done (xkb_state_update_key (fm_state s) i d).1 (with_state (xkb_state_update_key (fm_state s) i d).2 s).
Proof. unfold press, get, set_state, modify, mbind, ST_bind. destruct (xkb_state_update_key _ _ _). reflexivity. Qed.

Lemma records_to m s s' st hs : m s = Done tt s' → arrays s' hs → fm_state s' = st → records m s st hs.
Proof.
  intros Hm Ha Hs. unfold records. rewrite (proj2 (Nat.leb_le _ _) (ar_bound s' hs Ha)). exists s'. auto.
Qed.

Lemma records_done s st hs : arrays s hs → fm_state s = st → records (mret tt) s st hs.
Proof. apply records_to. reflexivity. Qed.

Lemma records_press i d (f : Z → ST fm unit) s st hs :
  records (f (xkb_state_update_key (fm_state s) i d).1) (with_state (xkb_state_update_key (fm_state s) i d).2 s) st hs →
  records (u ← press i d; f u) s st hs.
Proof. unfold records, mbind, ST_bind. rewrite press_eq. auto. Qed.

Lemma add_keycodes_ok i updates st s js hs :
  arrays s hs → fm_state s = st → (∀ j, j ∈ js → (j < 8)%nat) →
  records (for_each (λ j, s ← get; if is_active (fm_state s) j updates then add_keycode i j else mret tt) js) s st
    (rev (List.map (pair i) (List.filter (λ j, is_active st j updates) js)) ++ hs).
Proof.
  intros Ha Hst Hjs. revert s hs Ha Hst. induction js as [|j js IH]; intros s hs Ha Hst; cbn [for_each List.filter].
  { apply records_done; assumption. }
  assert (∀ k, k ∈ js → (k < 8)%nat) as Hjs' by (intros; apply Hjs; right; assumption).
  specialize (IH Hjs'). destruct (is_active st j updates) eqn:Hact.
  - cbn [List.map rev]. rewrite <- app_assoc. cbn [app].
    apply (records_bind _ _ s st ((i, j) :: hs)).
    + change (records (if is_active (fm_state s) j updates then add_keycode i j else mret tt) s st ((i, j) :: hs)).
      rewrite Hst, Hact. rewrite <- Hst. apply add_keycode_ok; [exact Ha|apply Hjs; left].
    + rewrite length_app. lia.
    + intros s1 Ha1 Hst1. apply IH; assumption.
  - apply (records_bind _ _ s st hs).
    + change (records (if is_active (fm_state s) j updates then add_keycode i j else mret tt) s st hs).
      rewrite Hst, Hact. apply records_done; assumption.
    + rewrite length_app. lia.
    + intros s1 Ha1 Hst1. apply IH; assumption.
Qed.

Lemma try_key_ok map i s hs :
  arrays s hs →
  records (try_key map i) s (key_effect map (fm_state s) i).1
    (rev (List.map (pair i) (key_effect map (fm_state s) i).2) ++ hs).
Proof.
  intros Ha. unfold try_key, key_effect. apply records_press.
  destruct (xkb_state_update_key (fm_state s) i true) as [u st1]. cbn [fst snd].
  apply (arrays_state s hs st1) in Ha. destruct (Z.land u XKB_STATE_MODS =? 0).
  { apply records_press. cbn [List.map rev app fst snd]. apply records_done; [apply arrays_state, Ha|reflexivity]. }
  set (js := List.filter _ (seq 0 8)). cbn [fst snd].
  eapply records_bind; [apply (add_keycodes_ok i (Z.land u XKB_STATE_MODS) st1); [exact Ha|reflexivity|]|reflexivity|].
  { intros j Hj. apply elem_of_seq in Hj. lia. }
  intros s1 Ha1 <-. apply records_press.
  set (st2 := (xkb_state_update_key (fm_state s1) i false).2). apply (arrays_state s1 _ st2) in Ha1. clearbody st2.
  destruct (Z.land (Z.land u XKB_STATE_MODS) XKB_STATE_MODS_LOCKED =? 0).
  - eapply records_bind; [apply (records_done _ st2); [exact Ha1|reflexivity]|reflexivity|]. intros s2 Ha2 <-.
    destruct (Z.land (Z.land u XKB_STATE_MODS) XKB_STATE_MODS_LATCHED =? 0); [apply records_done; [exact Ha2|reflexivity]|].
    apply (records_to _ _ (with_state (xkb_state_new map) s2)); [reflexivity|apply arrays_state, Ha2|reflexivity].
  - eapply records_bind; [apply records_press, records_press, records_done; [do 2 apply arrays_state; exact Ha1|reflexivity]|reflexivity|].
    cbn [fm_state with_state]. intros s2 Ha2 <-.
    destruct (Z.land (Z.land u XKB_STATE_MODS) XKB_STATE_MODS_LATCHED =? 0); [apply records_done; [exact Ha2|reflexivity]|].
    apply (records_to _ _ (with_state (xkb_state_new map) s2)); [reflexivity|apply arrays_state, Ha2|reflexivity].
Qed.

Lemma modifier_keys_length map st keys hs : (length hs ≤ length (modifier_keys map st keys hs))%nat.
Proof.
  revert st hs. induction keys as [|i keys IH]; intros st hs; cbn [modifier_keys]; [lia|].
  destruct (key_effect map st i) as [st' js]. etransitivity; [|apply IH]. rewrite length_app. lia.
Qed.

Lemma try_keys_ok map keys s hs :
  arrays s hs →
  ∃ st, records (for_each (try_key map) keys) s st (modifier_keys map (fm_state s) keys hs).
Proof.
  revert s hs. induction keys as [|i keys IH]; intros s hs Ha; cbn [for_each modifier_keys].
  { exists (fm_state s). apply records_done; [exact Ha|reflexivity]. }
  pose proof (try_key_ok map i s hs Ha) as Hi. destruct (key_effect map (fm_state s) i) as [st1 js]. cbn [fst snd] in Hi.
  set (hs1 := rev _ ++ hs) in *. pose proof (modifier_keys_length map st1 keys hs1) as Hle.
  unfold records in Hi. destruct (Nat.leb_spec (length hs1) MAX_KEYCODE) as [H1|H1].
  - destruct Hi as (s1 & Hs1 & Ha1 & <-). destruct (IH s1 hs1 Ha1) as [st Hk]. exists st.
    unfold records, mbind, ST_bind in *. rewrite Hs1. exact Hk.
  - exists st1. unfold records, mbind, ST_bind. rewrite Hi.
    destruct (Nat.leb_spec (length (modifier_keys map st1 keys hs1)) MAX_KEYCODE); [lia|reflexivity].
Qed.

Lemma arrays_init map : arrays (fm_init map) [].
Proof.
  constructor; unfold fm_init; cbn [fm_next fm_keycodes fm_total fm_heads fm_counts];
    rewrite ?repeat_length; try reflexivity; [unfold MAX_KEYCODE; cbn; lia|].
  intros j Hj. exists (-1). do 8 (destruct j as [|j]; [repeat split|]). lia.
Qed.

(** *** Writing the rows *)

Lemma store_middle {S A} i (v x : A) l1 l2 (s : S) :
  i = length l1 → store_at i v (l1 ++ x :: l2) s = Done (l1 ++ v :: l2) s.
Proof.
  intros ->. rewrite store_at_ok by (rewrite length_app; cbn; lia). f_equal.
  rewrite insert_app_r_alt, Nat.sub_diag by lia. reflexivity.
Qed.

Lemma walk_ok s per i t l h fuel pre done rest :
  chain t (fm_next s) (fm_keycodes s) h l → (length l < fuel)%nat →
  length pre = (i * per)%nat → (length done + length l ≤ per)%nat →
  while_some fuel (walk_step s per i) (length done, h) (pre ++ done ++ repeat 0 (per - length done) ++ rest) =
  Done tt (pre ++ done ++ List.map (wrap_u 8) l ++ repeat 0 (per - length done - length l) ++ rest).
Proof.
  intros Hc Hf Hpre Hper. revert h fuel done Hc Hf Hper.
  induction l as [|x l IH]; intros h fuel done Hc Hf Hper; (destruct fuel as [|fuel]; [cbn in Hf; lia|]); cbn [while_some].
  - cbn [chain] in Hc. subst h. unfold mbind, ST_bind, walk_step. cbn [Z.eqb mret ST_ret List.map length app].
    rewrite Nat.sub_0_r. reflexivity.
  - destruct Hc as (Hh & Hk & h' & Hn & Hc). cbn [length] in *.
    set (w := wrap_u 8 x). assert ((length done + 1 + length l ≤ per)%nat) as Hper' by lia.
    assert (walk_step s per i (length done, h) (pre ++ done ++ repeat 0 (per - length done) ++ rest) =
            Done (Some (S (length done), h')) (pre ++ (done ++ [w]) ++ repeat 0 (per - length (done ++ [w])) ++ rest)) as Hstep.
    { unfold walk_step. rewrite (proj2 (Z.eqb_neq h (-1))) by lia. unfold mbind, ST_bind, check, from_opt, get, put.
      rewrite (proj2 (Nat.ltb_lt _ _)) by lia. rewrite Hk. cbn [mret ST_ret].
      replace (per - length done)%nat with (S (per - length (done ++ [w])))%nat by (rewrite length_app; cbn [length]; lia).
      cbn [repeat app]. rewrite (app_assoc pre done). rewrite store_middle by (rewrite length_app, Hpre; reflexivity).
      rewrite Hn. cbn [mret ST_ret]. rewrite <- !app_assoc. reflexivity. }
    unfold mbind at 1, ST_bind at 1. rewrite Hstep.
    replace (S (length done)) with (length (done ++ [w])) by (rewrite length_app; cbn; lia).
    rewrite (IH h' fuel (done ++ [w])); [|exact Hc|lia|rewrite length_app; cbn [length]; lia].
    rewrite length_app. cbn [length List.map]. fold w. rewrite <- !app_assoc. cbn [app].
    replace (per - (length done + 1) - length l)%nat with (per - length done - S (length l))%nat by lia. reflexivity.
Qed.

Lemma fill_rows_ok s hs per pre js :
  arrays s hs → (∀ j, j ∈ js → (j < 8 ∧ length (codes j hs) ≤ per)%nat) →
  (∀ k j, js !! k = Some j → length pre + k * per = j * per)%nat →
  for_each (λ i,
    head ← from_opt OutOfBounds (fm_heads s !! i);
    while_some (S MAX_KEYCODE) (walk_step s per i) (0%nat, head)) js (pre ++ repeat 0 (length js * per)) =
  Done tt (pre ++ concat (List.map (modifier_row hs per) js)).
Proof.
  intros Ha. revert pre. induction js as [|j js IH]; intros pre Hjs Hpos.
  { cbn [for_each length Nat.mul repeat List.map concat]. reflexivity. }
  cbn [for_each]. destruct (Hjs j) as [Hj Hlen]; [left|].
  destruct (ar_lists s hs Ha j Hj) as (h & Hh & Hc & _).
  assert (length pre = j * per)%nat as Hpre by (specialize (Hpos 0%nat j eq_refl); lia).
  unfold mbind at 1, ST_bind at 1. unfold mbind at 1, ST_bind at 1, from_opt. rewrite Hh. cbn [mret ST_ret length].
  replace (repeat 0 (S (length js) * per)) with (repeat 0 (per - 0) ++ repeat 0 (length js * per))
    by (rewrite <- repeat_app; f_equal; lia).
  pose proof (codes_length j hs) as Hcl. pose proof (ar_bound s hs Ha) as Hb.
  pose proof (walk_ok s per j (length hs) (codes j hs) h (S MAX_KEYCODE) pre [] (repeat 0 (length js * per)) Hc) as Hw.
  cbn [app length] in Hw. rewrite Hw by (unfold MAX_KEYCODE in *; lia).
  assert (pre ++ List.map (wrap_u 8) (codes j hs) ++ repeat 0 (per - 0 - length (codes j hs)) ++ repeat 0 (length js * per) =
          (pre ++ modifier_row hs per j) ++ repeat 0 (length js * per)) as ->
    by (unfold modifier_row; rewrite <- !app_assoc, Nat.sub_0_r; reflexivity).
  rewrite IH.
  - cbn [List.map concat]. rewrite <- app_assoc. reflexivity.
  - intros k Hk. apply Hjs. right. exact Hk.
  - intros k k' Hk. specialize (Hpos (S k) k' Hk). rewrite length_app. unfold modifier_row.
    rewrite length_app, length_map, repeat_length. lia.
Qed.

Lemma fold_max_nat l a :
  fold_left Z.max (List.map Z.of_nat l) (Z.of_nat a) = Z.of_nat (Nat.max a (max_list l)).
Proof.
  revert a. induction l as [|x l IH]; intros a; cbn [List.map fold_left max_list_with]; [f_equal; lia|].
  rewrite <- Nat2Z.inj_max, IH. f_equal. unfold id. lia.
Qed.

Lemma counts_eq s hs : arrays s hs → fm_counts s = List.map Z.of_nat (List.map (λ j, length (codes j hs)) (seq 0 8)).
Proof.
  intros Ha. apply (list_eq_same_length _ _ 8); [rewrite !length_map; reflexivity|apply Ha|].
  intros i x y Hi Hx Hy. destruct (ar_lists s hs Ha i Hi) as (_ & _ & _ & Hc). rewrite List.map_map in Hy.
  rewrite Hc in Hx. apply list_lookup_fmap_Some in Hy as (j & -> & Hj). apply lookup_seq in Hj as [-> _]. cbn in *. congruence.
Qed.

(** What the function computes. *)
Lemma find_modifiers_eq {S} (map : xkb_keymap) (min max : Z) (x : S) :
  forallb (xkb_map_has_mod map) modifier_names = true →
  let hs := modifier_keys map (xkb_state_new map) (upto min max) [] in
  find_modifiers map min max x =
    if Nat.leb (length hs) MAX_KEYCODE then Done (modifier_table hs) x else Crash OutOfBounds.
Proof.
  intros Hmods hs. unfold find_modifiers, check, local, mbind, ST_bind. rewrite Hmods. cbn [mret ST_ret].
  destruct (try_keys_ok map (upto min max) (fm_init map) [] (arrays_init map)) as [st Hr].
  change (fm_state (fm_init map)) with (xkb_state_new map) in Hr. fold hs in Hr. unfold records in Hr.
  destruct (Nat.leb (length hs) MAX_KEYCODE); [|rewrite Hr; reflexivity].
  destruct Hr as (s & -> & Ha & _). cbn [snd].
  assert (Z.to_nat (fold_left Z.max (fm_counts s) 0) = most_codes hs) as ->.
  { rewrite (counts_eq s hs Ha). change 0 with (Z.of_nat 0) at 1. rewrite fold_max_nat, Nat2Z.id. reflexivity. }
  unfold fill_rows. change (repeat 0 (8 * most_codes hs)) with ([] ++ repeat 0 (length (seq 0 8) * most_codes hs)).
  rewrite (fill_rows_ok s hs (most_codes hs) [] (seq 0 8) Ha); [reflexivity| |].
  - intros j Hj%elem_of_seq. split; [lia|]. apply max_list_elem_of_le.
    apply (list_elem_of_fmap_2 (λ j, length (codes j hs))). apply elem_of_seq. lia.
  - intros k j [-> _]%lookup_seq. reflexivity.
Qed.
End modifiers.

(** ** The key symbols *)

Section keysyms.
Context {X : XServer} {XK : XKeyboard X} {B : Xkb}.
Implicit Types (x : xconnection).

(** The symbol of a level, and 0 when there is none or more than one. *)
Definition sym_at (map : xkb_keymap) (i : Z) (j : nat) : Z :=
  match xkb_keymap_syms map i j with [sym] => sym | _ => 0 end.

Definition syms (map : xkb_keymap) (i : Z) (n : nat) : list Z := List.map (sym_at map i) (seq 0 n).

(** The row of a key whose levels have the symbols [l]: the first two of them for
    the first group of the X server, all of them for the second. *)
Definition keysym_row (per : nat) (l : list Z) : list Z :=
  take 2 (l ++ [0; 0]) ++ l ++ repeat 0 (per - 2 - length l).

Definition keysym_table (map : xkb_keymap) (per min max : Z) : list Z :=
  concat (List.map (λ i, keysym_row (Z.to_nat per) (syms map i (xkb_keymap_num_levels map i))) (upto min max)).

Lemma keysym_row_length per l : (length l + 2 ≤ per)%nat → length (keysym_row per l) = per.
Proof.
  intros H. unfold keysym_row. rewrite !length_app, length_take, length_app, repeat_length. cbn [length]. lia.
Qed.

Lemma keysym_row_zero per l : (length l + 3 ≤ per)%nat → keysym_row per (l ++ [0]) = keysym_row per l.
Proof.
  intros H. unfold keysym_row. rewrite <- (app_assoc l [0]), length_app. cbn [length app].
  replace (per - 2 - length l)%nat with (S (per - 2 - (length l + 1)))%nat by lia.
  cbn [repeat]. rewrite <- app_assoc. cbn [app]. f_equal.
  destruct l as [|a [|b l]]; reflexivity.
Qed.

(** The symbol [v] of the next level is stored. *)
Lemma store_sym_ok {S} per (pre l rest : list Z) v (s : S) :
  (length l + 3 ≤ per)%nat →
  (a ← (if Nat.ltb (length l) 2 then store_at (length pre + length l) v (pre ++ keysym_row per l ++ rest)
        else mret (pre ++ keysym_row per l ++ rest));
   store_at (length pre + (length l + 2)) v a) s =
  Done (pre ++ keysym_row per (l ++ [v]) ++ rest) s.
Proof.
  intros H. unfold keysym_row. rewrite length_app. cbn [length].
  replace (per - 2 - length l)%nat with (Datatypes.S (per - 2 - (length l + 1)))%nat by lia.
  cbn [repeat]. set (z := repeat 0 _). clearbody z. unfold mbind, ST_bind.
  destruct l as [|a [|b l]]; cbn [app length take Nat.ltb Nat.leb mret ST_ret].
  - rewrite store_middle by lia.
    replace (pre ++ v :: 0 :: 0 :: z ++ rest) with ((pre ++ [v; 0]) ++ 0 :: z ++ rest) by (rewrite <- app_assoc; reflexivity).
    rewrite store_middle by (rewrite length_app; cbn; lia). rewrite <- app_assoc. reflexivity.
  - replace (pre ++ a :: 0 :: a :: 0 :: z ++ rest) with ((pre ++ [a]) ++ 0 :: a :: 0 :: z ++ rest) by (rewrite <- app_assoc; reflexivity).
    rewrite store_middle by (rewrite length_app; cbn; lia).
    replace ((pre ++ [a]) ++ v :: a :: 0 :: z ++ rest) with ((pre ++ [a; v; a]) ++ 0 :: z ++ rest) by (rewrite <- !app_assoc; reflexivity).
    rewrite store_middle by (rewrite length_app; cbn; lia). rewrite <- !app_assoc. reflexivity.
  - set (q := pre ++ a :: b :: a :: b :: l).
    assert (∀ w, pre ++ (a :: b :: (a :: b :: l) ++ w :: z) ++ rest = q ++ w :: z ++ rest) as Hq
      by (intros w; unfold q; rewrite <- !app_assoc; cbn [app]; rewrite <- !app_assoc; reflexivity).
    rewrite !take_0. cbn [app] in *. rewrite Hq, store_middle by (unfold q; rewrite length_app; cbn [length]; lia).
    rewrite <- Hq, <- (app_assoc l [v]). reflexivity.
Qed.

(** The connection but for the log. *)
Definition same_but_log x x' : Prop :=
  x_byatom x' = x_byatom x ∧ x_byname x' = x_byname x ∧ x_server x' = x_server x ∧ x_logm x' = x_logm x.

Lemma same_but_log_refl x : same_but_log x x.
Proof. repeat split. Qed.
Lemma same_but_log_trans x y z : same_but_log x y → same_but_log y z → same_but_log x z.
Proof. unfold same_but_log. intuition congruence. Qed.

Lemma xlog_ok msg x : x_logm x = true → ∃ x', xlog msg x = Done tt x' ∧ same_but_log x x'.
Proof. intros H. unfold xlog. rewrite H. eexists. split; [reflexivity|]. repeat split. symmetry. exact H. Qed.

(** [m] answers [a] and changes only the log. *)
Definition answers {A} (m : ST xconnection A) (a : A) : Prop :=
  ∀ x, x_logm x = true → ∃ x', m x = Done a x' ∧ same_but_log x x'.

Lemma answers_ret {A} (a : A) : answers (mret a) a.
Proof. intros x _. exists x. split; [reflexivity|apply same_but_log_refl]. Qed.

Lemma answers_pure {A} (m : ST xconnection A) a : (∀ x, m x = Done a x) → answers m a.
Proof. intros H x _. exists x. split; [apply H|apply same_but_log_refl]. Qed.

Lemma answers_bind {A C} (m : ST xconnection A) (f : A → ST xconnection C) a c :
  answers m a → answers (f a) c → answers (m ≫= f) c.
Proof.
  intros Hm Hf x Hx. destruct (Hm x Hx) as (y & Hy & H1). destruct (Hf y) as (z & Hz & H2).
  { destruct H1 as (_ & _ & _ & ->). exact Hx. }
  exists z. unfold mbind, ST_bind. rewrite Hy. split; [exact Hz|exact (same_but_log_trans _ _ _ H1 H2)].
Qed.

Lemma store_level_ok map min per i (pre rest : list Z) j :
  length pre = Z.to_nat ((i - min) * per) → min ≤ i → (j + 3 ≤ Z.to_nat per)%nat →
  answers (store_level map min per i (pre ++ keysym_row (Z.to_nat per) (syms map i j) ++ rest) j)
    (pre ++ keysym_row (Z.to_nat per) (syms map i (S j)) ++ rest).
Proof.
  intros Hpre Hi Hj. unfold store_level.
  assert (length (syms map i j) = j) as Hl by (unfold syms; rewrite length_map, length_seq; reflexivity).
  assert (syms map i (S j) = syms map i j ++ [sym_at map i j]) as Hs by (unfold syms; rewrite seq_S, List.map_app; reflexivity).
  rewrite Hs. unfold sym_at at 1. destruct (xkb_keymap_syms map i j) as [|v [|? ?]].
  - rewrite keysym_row_zero by lia. apply answers_ret.
  - apply answers_pure. intros x.
    assert (keysym_at min per i (Z.of_nat j) = (length pre + j)%nat ∧
            keysym_at min per i (Z.of_nat j + 2) = (length pre + (j + 2))%nat) as [-> ->].
    { unfold keysym_at. rewrite Hpre. split; nia. }
    pose proof (store_sym_ok (Z.to_nat per) pre (syms map i j) rest v x) as H. rewrite Hl in H. apply H, Hj.
  - rewrite keysym_row_zero by lia. eapply answers_bind; [|apply answers_ret].
    intros x Hx. apply xlog_ok, Hx.
Qed.

Lemma store_levels_ok map min per i (pre rest : list Z) k n :
  length pre = Z.to_nat ((i - min) * per) → min ≤ i → (k + n + 2 ≤ Z.to_nat per)%nat →
  answers (fold_st (store_level map min per i) (pre ++ keysym_row (Z.to_nat per) (syms map i k) ++ rest) (seq k n))
    (pre ++ keysym_row (Z.to_nat per) (syms map i (k + n)) ++ rest).
Proof.
  intros Hpre Hi. revert k. induction n as [|n IH]; intros k Hk; cbn [seq fold_st].
  { rewrite Nat.add_0_r. apply answers_ret. }
  eapply answers_bind; [apply store_level_ok; [exact Hpre|exact Hi|lia]|].
  replace (k + S n)%nat with (S k + n)%nat by lia. apply IH. lia.
Qed.

Lemma keysym_row_nil per : (2 ≤ per)%nat → keysym_row per [] = repeat 0 per.
Proof. intros H. unfold keysym_row. cbn [app take length]. replace per with (2 + (per - 2 - 0))%nat at 2 by lia. reflexivity. Qed.

Lemma store_keys_ok map min per (pre : list Z) i n :
  min ≤ i → length pre = Z.to_nat ((i - min) * per) → 2 ≤ per →
  (∀ k, i ≤ k < i + Z.of_nat n → Z.of_nat (xkb_keymap_num_levels map k) + 2 ≤ per) →
  answers (fold_st (store_key map min per) (pre ++ repeat 0 (n * Z.to_nat per)) (seqZ i (Z.of_nat n)))
    (pre ++ concat (List.map (λ i, keysym_row (Z.to_nat per) (syms map i (xkb_keymap_num_levels map i))) (seqZ i (Z.of_nat n)))).
Proof.
  intros Hi Hpre Hper. revert i pre Hi Hpre. induction n as [|n IH]; intros i pre Hi Hpre Hlev.
  { apply answers_ret. }
  rewrite seqZ_cons by lia. cbn [fold_st List.map concat].
  replace (Z.pred (Z.of_nat (S n))) with (Z.of_nat n) by lia.
  assert (Z.of_nat (xkb_keymap_num_levels map i) + 2 ≤ per) as Hli by (apply Hlev; lia).
  set (r := keysym_row (Z.to_nat per) (syms map i (xkb_keymap_num_levels map i))).
  eapply answers_bind with (a := (pre ++ r) ++ repeat 0 (n * Z.to_nat per)).
  - unfold store_key. replace (S n * Z.to_nat per)%nat with (Z.to_nat per + n * Z.to_nat per)%nat by lia.
    rewrite repeat_app, <- (keysym_row_nil (Z.to_nat per)), <- app_assoc by lia.
    change (@nil Z) with (syms map i 0). apply (store_levels_ok map min per i pre _ 0); [exact Hpre|exact Hi|lia].
  - rewrite app_assoc. apply IH; [lia| |intros k Hk; apply Hlev; lia].
    rewrite length_app, Hpre. unfold r. rewrite keysym_row_length; [nia|].
    unfold syms. rewrite length_map, length_seq. lia.
Qed.

Lemma fold_max_le l a : a ≤ fold_left Z.max l a ∧ ∀ z, z ∈ l → z ≤ fold_left Z.max l a.
Proof.
  revert a. induction l as [|y l IH]; intros a; cbn [fold_left]; [split; [lia|intros z Hz; inversion Hz]|].
  destruct (IH (Z.max a y)) as [H1 H2]. split; [lia|]. intros z [->|Hz]%elem_of_cons; [lia|exact (H2 z Hz)].
Qed.

Lemma keysym_per_keycode_ok map min max :
  2 ≤ keysym_per_keycode map min max ∧
  ∀ i, i ∈ upto min max → Z.of_nat (xkb_keymap_num_levels map i) + 2 ≤ keysym_per_keycode map min max.
Proof.
  unfold keysym_per_keycode. set (l := List.map _ _). destruct (fold_max_le l 0) as [H1 H2]. split; [lia|].
  intros i Hi. specialize (H2 (Z.of_nat (xkb_keymap_num_levels map i))). enough (Z.of_nat (xkb_keymap_num_levels map i) ∈ l) by (specialize (H2 H); lia).
  apply (list_elem_of_fmap_2 (λ i, Z.of_nat (xkb_keymap_num_levels map i))), Hi.
Qed.

Lemma seqZ_of_nat lo n : seqZ lo n = seqZ lo (Z.of_nat (Z.to_nat n)).
Proof. destruct (Z_le_gt_dec 0 n); [f_equal; lia|]. rewrite !seqZ_nil by lia. reflexivity. Qed.

Lemma keysyms_ok map min max :
  let per := keysym_per_keycode map min max in
  answers (fold_st (store_key map min per) (repeat 0 (Z.to_nat (per * (max - min + 1)))) (upto min max))
    (keysym_table map per min max).
Proof.
  intros per. destruct (keysym_per_keycode_ok map min max) as [H2 Hlev]. fold per in H2, Hlev.
  unfold keysym_table, upto in *. rewrite seqZ_of_nat in Hlev |- *. set (n := Z.to_nat (max - min + 1)) in *.
  replace (Z.to_nat (per * (max - min + 1))) with (n * Z.to_nat per)%nat by (unfold n; nia).
  apply (store_keys_ok map min per [] min n); [lia|rewrite Z.sub_diag; reflexivity|exact H2|].
  intros k Hk. apply Hlev, elem_of_seqZ, Hk.
Qed.

(** The requests for the modifiers, up to the first answer that is not busy. *)
Fixpoint modifiers_until (fuel : nat) (per : Z) (keycodes : list Z) (sv : xserver) : option xserver :=
  match fuel with
  | O => None
  | S fuel' =>
      let '(r, sv') := set_modifier_mapping per keycodes sv in
      match r with
      | Reply status =>
          if (status =? MAPPING_STATUS_FAILURE) || (status =? MAPPING_STATUS_SUCCESS) then Some sv'
          else modifiers_until fuel' per keycodes sv'
      | _ => Some sv'
      end
  end.

Lemma set_modifiers_ok fuel per kcs x sv' :
  x_logm x = true → modifiers_until fuel (wrap_u 8 (Z.of_nat per)) kcs (x_server x) = Some sv' →
  ∃ x', while_some fuel (set_modifiers per kcs) tt x = Done tt x' ∧ same_but_log (with_server sv' x) x'.
Proof.
  revert x. induction fuel as [|fuel IH]; intros x Hlog; cbn [modifiers_until while_some]; [discriminate|].
  unfold mbind at 1, ST_bind at 1, set_modifiers, request at 1. unfold mbind at 1, ST_bind at 1.
  destruct (set_modifier_mapping _ _ _) as [r sv1].
  assert (∃ x', (xlog "Failed to set modifiers, your keymap will be broken." : ST xconnection unit) (with_server sv1 x) = Done tt x' ∧
            same_but_log (with_server sv1 x) x') as (xl & Hl & Hsame) by (apply xlog_ok, Hlog).
  destruct r as [status| |].
  - destruct (status =? MAPPING_STATUS_FAILURE); cbn [orb].
    { intros [= <-]. unfold mbind, ST_bind. rewrite Hl. exists xl. split; [reflexivity|exact Hsame]. }
    destruct (status =? MAPPING_STATUS_SUCCESS).
    { intros [= <-]. exists (with_server sv1 x). split; [reflexivity|apply same_but_log_refl]. }
    intros Hr. destruct (IH (with_server sv1 x) Hlog Hr) as (x' & Hx' & Hs). exists x'. split; [exact Hx'|exact Hs].
  - intros [= <-]. unfold mbind, ST_bind. rewrite Hl. exists xl. split; [reflexivity|exact Hsame].
  - intros [= <-]. unfold mbind, ST_bind. rewrite Hl. exists xl. split; [reflexivity|exact Hsame].
Qed.

(** The first part of [set_keymap]: the symbols are sent. *)
Lemma set_keymap_upto fuel (o : keymap_object) (layout : di_string) (map : xkb_keymap) x :
  x_logm x = true → ko_layout o = Some layout →
  xkb_keymap_new_from_names (RuleNames (c_str layout) (c_str <$> ko_model o) (c_str <$> ko_variant o) (c_str <$> ko_options o)) = Some map →
  xkb_keymap_num_layouts map = 1 →
  let min := (key_range map).1 in
  let max := (key_range map).2 in
  let per := keysym_per_keycode map min max in
  ∃ x2, set_keymap fuel (Some o) x =
    (modifiers ← find_modifiers map min max; while_some fuel (set_modifiers modifiers.1 modifiers.2) tt) x2 ∧
    same_but_log (with_server (change_keyboard_mapping (max - min + 1) min per (keysym_table map per min max) (x_server x)).2 x) x2.
Proof.
  intros Hlog Hlay Hmap Hone min max per. unfold set_keymap. rewrite Hlay, Hmap.
  unfold from_opt, mbind at 1, ST_bind at 1. cbn [mret ST_ret]. rewrite Hone. cbn [negb Z.eqb Pos.eqb].
  destruct (key_range map) as [mi ma]. cbn [fst snd] in *. subst min max.
  destruct (keysyms_ok map mi ma x Hlog) as (x1 & Hx1 & Hs1). unfold mbind at 1, ST_bind at 1. rewrite Hx1. fold per.
  unfold mbind at 1, ST_bind at 1, request at 1. pose proof Hs1 as (_ & _ & Hsv & Hl1). rewrite Hsv.
  destruct (change_keyboard_mapping _ _ _ _ (x_server x)) as [e sv1]. cbn [snd].
  assert (∃ x2, (if e then xlog "Failed to set keymap." else mret tt) (with_server sv1 x1) = Done tt x2 ∧
            same_but_log (with_server sv1 x1) x2) as (x2 & Hx2 & Hs2).
  { destruct e; [apply xlog_ok; cbn; congruence|]. eexists. split; [reflexivity|apply same_but_log_refl]. }
  unfold mbind at 1, ST_bind at 1. rewrite Hx2. exists x2. split; [reflexivity|].
  destruct Hs1 as (? & ? & _ & ?), Hs2 as (? & ? & ? & ?). repeat split; cbn in *; congruence.
Qed.

(** C15. Setting a keymap with one layout.  The X server is sent, for every key
    code that both sides know, the symbols of its levels, the first two also in
    the first group, then the key codes of the modifiers, again for as long as
    it is busy; the tables of atoms stay as they are.  The local arrays hold 256
    pairs of a key code and a modifier; a keymap with more is stored past their
    ends. *)
Theorem set_keymap_correct (fuel : nat) (o : keymap_object) (layout : di_string) (map : xkb_keymap) x (sv' : xserver) :
  x_logm x = true → ko_layout o = Some layout →
  xkb_keymap_new_from_names (RuleNames (c_str layout) (c_str <$> ko_model o) (c_str <$> ko_variant o) (c_str <$> ko_options o)) = Some map →
  xkb_keymap_num_layouts map = 1 → forallb (xkb_map_has_mod map) modifier_names = true →
  let min := (key_range map).1 in
  let max := (key_range map).2 in
  let per := keysym_per_keycode map min max in
  let hs := modifier_keys map (xkb_state_new map) (upto min max) [] in
  ((length hs ≤ MAX_KEYCODE)%nat →
   modifiers_until fuel (wrap_u 8 (Z.of_nat (modifier_table hs).1)) (modifier_table hs).2
     (change_keyboard_mapping (max - min + 1) min per (keysym_table map per min max) (x_server x)).2 = Some sv' →
   ∃ x', set_keymap fuel (Some o) x = Done tt x' ∧ same_but_log (with_server sv' x) x') ∧
  ((MAX_KEYCODE < length hs)%nat → set_keymap fuel (Some o) x = Crash OutOfBounds).
Proof.
  intros Hlog Hlay Hmap Hone Hmods min max per hs.
  destruct (set_keymap_upto fuel o layout map x Hlog Hlay Hmap Hone) as (x2 & Heq & Hs2). fold min max per in Heq, Hs2.
  rewrite Heq. unfold mbind at 1 2, ST_bind at 1 2. rewrite (find_modifiers_eq map min max x2 Hmods). fold hs.
  split; intros Hlen; [|destruct (Nat.leb_spec (length hs) MAX_KEYCODE); [lia|reflexivity]].
  intros Huntil. rewrite (proj2 (Nat.leb_le _ _) Hlen). pose proof Hs2 as (_ & _ & Hsv & Hl).
  destruct (set_modifiers_ok fuel (modifier_table hs).1 (modifier_table hs).2 x2 sv') as (x3 & Hx3 & Hs3).
  - rewrite Hl. exact Hlog.
  - rewrite Hsv. exact Huntil.
  - exists x3. split; [exact Hx3|]. eapply same_but_log_trans; [|exact Hs3].
    destruct Hs2 as (? & ? & _ & ?). repeat split; assumption.
Qed.
End keysyms.

(** ** An example

    Key 8 is shift, key 9 the letter a with two levels, key 10 has two symbols on
    its only level; the key codes of the keymap go up to 300. *)
#[export] Instance demo_xkb : Xkb := {|
  xkb_keymap := unit;
  xkb_state := list Z;
  xkb_keymap_new_from_names names := if String.eqb (rn_layout names) "us" then Some tt else None;
  xkb_keymap_num_layouts _ := 1;
  xkb_keymap_min_keycode _ := 1;
  xkb_keymap_max_keycode _ := 300;
  xkb_keymap_num_levels _ i := if i =? 9 then 2%nat else if i =? 10 then 1%nat else if i =? 8 then 1%nat else 0%nat;
  xkb_keymap_syms _ i j := if i =? 8 then [65505] else if i =? 9 then [if Nat.eqb j 0 then 97 else 65] else [1; 2];
  xkb_map_has_mod _ _ := true;
  xkb_state_new _ := [];
  xkb_state_update_key st i down :=
    (if i =? 8 then 1 else 0, if down : bool then i :: st else List.filter (λ k, negb (k =? i)) st);
  xkb_state_mod_name_is_active st name _ :=
    if String.eqb name "Shift" && existsb (λ k, k =? 8) st then 1 else 0
|}.

(** A server that is busy once, and keeps what it is sent. *)
#[export] Instance demo_keyboard : XKeyboard demo_xserver := {|
  setup_min_keycode := 8;
  setup_max_keycode := 10;
  change_keyboard_mapping count min per table sv :=
    (false, DemoX (dx_atoms sv) (dx_resource sv) ((count :: min :: per :: table) :: dx_sent sv));
  set_modifier_mapping per table sv :=
    (Reply (if Nat.eqb (length (dx_sent sv)) 1 then MAPPING_STATUS_BUSY else MAPPING_STATUS_SUCCESS),
     DemoX (dx_atoms sv) (dx_resource sv) ((per :: table) :: dx_sent sv))
|}.

Lemma set_keymap_correct_witness :
  match set_keymap (X := demo_xserver) (XK := demo_keyboard) (B := demo_xkb) 5
          (Some (KeymapObject (Some (Some "us"%string)) None None None)) demo_connection with
  | Done _ x =>
      dx_sent (x_server x) =
        [[1; 8; 0; 0; 0; 0; 0; 0; 0]; [1; 8; 0; 0; 0; 0; 0; 0; 0];
         [3; 8; 4;  65505; 0; 65505; 0;  97; 65; 97; 65;  0; 0; 0; 0]]
  | _ => False
  end.
Proof.
  pose (o := KeymapObject (Some (Some "us"%string)) None None None).
  assert (∃ sv', modifiers_until (X := demo_xserver) (XK := demo_keyboard) 5 1 [8; 0; 0; 0; 0; 0; 0; 0]
    (DemoX ["PRIMARY"%string] "" [[3; 8; 4;  65505; 0; 65505; 0;  97; 65; 97; 65;  0; 0; 0; 0]]) = Some sv') as [sv' Hsv]
    by (vm_compute; eauto).
  destruct (proj1 (set_keymap_correct (X := demo_xserver) (XK := demo_keyboard) (B := demo_xkb) 5 o (Some "us"%string) tt
              demo_connection sv' eq_refl eq_refl eq_refl eq_refl eq_refl)) as (x' & Hx' & _ & _ & Hs & _).
  - apply Nat.leb_le. vm_compute. reflexivity.
  - vm_compute in Hsv |- *. exact Hsv.
  - unfold o in Hx'. rewrite Hx', Hs. vm_compute in Hsv. injection Hsv as <-. reflexivity.
Defined.
