(* ===== verification/XInput.v ===== *)
(** * Input devices (plugins/xorg/xinput.c)

    The mask of the events that are selected, the properties of a device, which
    are arrays of words of 8, 16 or 32 bits, and what is reported of devices that
    come and go.  The requests of the XInput extension are a parameter. *)

From Stdlib Require Import SpecFloat.
From S2P Require Import Prelude Text DiTypes Strings Conv Xorg.

Local Open Scope Z_scope.

(** ** The extension of the X server

    A property as it is replied: its type, its format, the bytes that were not
    asked for, and the words that were.  A device: its number, its use and its
    name. *)
Record xi_property := XiProperty { xp_type : Z; xp_format : Z; xp_bytes_after : Z; xp_items : list Z }.
Record xi_device_info := DeviceInfo { di_deviceid : Z; di_use : Z; di_name : string }.

(** [None] is a null reply.  The lists of [list_input_devices] are the numbers of
    the devices with the atoms of their types; [true] is an error. *)
Class XInputServer (X : XServer) := {
  xi_select_events : list Z → xserver → bool * xserver;
  xi_get_property : Z → Z → Z → xserver → option xi_property * xserver;
  xi_change_property : Z → Z → Z → Z → list Z → xserver → bool * xserver;
  xi_query_device : Z → xserver → option (list xi_device_info) * xserver;
  list_input_devices : xserver → option (list (Z * Z)) * xserver
}.

Definition XI_LASTEVENT : Z := 26.
Definition XCB_INPUT_HIERARCHY : Z := 11.
Definition XCB_ATOM_NONE : Z := 0.
Definition XCB_ATOM_ATOM : Z := 4.
Definition XCB_ATOM_CARDINAL : Z := 6.
Definition XCB_ATOM_INTEGER : Z := 19.
Definition XCB_ATOM_STRING : Z := 31.

(** ** Numbers of type float

    Rounding to and widening from binary32, and the bits of a float. *)
Definition float_of_Z (z : Z) : spec_float := binary_normalize 24 128 z 0 false.

Definition narrow (f : double) : spec_float :=
  match f with
  | S754_finite s m e => binary_normalize 24 128 (if s then Zneg m else Zpos m) e s
  | f => f
  end.

Definition widen (f : spec_float) : double :=
  match f with
  | S754_finite s m e => binary_normalize 53 1024 (if s then Zneg m else Zpos m) e s
  | f => f
  end.

Definition sign_bit (s : bool) : Z := if s then 2 ^ 31 else 0.

Definition float_bits (f : spec_float) : Z :=
  match f with
  | S754_zero s => sign_bit s
  | S754_infinity s => sign_bit s + 255 * 2 ^ 23
  | S754_nan => 511 * 2 ^ 22
  | S754_finite s m e =>
      sign_bit s + (if Zpos m <? 2 ^ 23 then Zpos m else (e + 150) * 2 ^ 23 + (Zpos m - 2 ^ 23))
  end.

Definition bits_float (w : Z) : spec_float :=
  let s := 2 ^ 31 <=? w in
  let ex := w / 2 ^ 23 mod 2 ^ 8 in
  let fr := w mod 2 ^ 23 in
  if ex =? 255 then if fr =? 0 then S754_infinity s else S754_nan
  else if ex =? 0 then match fr with Zpos m => S754_finite s m (-149) | _ => S754_zero s end
  else match fr + 2 ^ 23 with Zpos m => S754_finite s m (ex - 150) | _ => S754_nan end.

Section xinput.
Context {X : XServer} {XI : XInputServer X}.

(** [struct di_xorg_xinput]: the bytes of the mask and the number of listeners of
    every event; with it the connection. *)
Record xinput := XInput { xi_mask : list Z; xi_listener_count : list Z; xi_conn : xconnection }.

Definition on_conn {A} (m : ST xconnection A) : ST xinput A := λ s,
  match m (xi_conn s) with
  | Done a x => Done a (XInput (xi_mask s) (xi_listener_count s) x)
  | Crash c => Crash c
  | NoFuel => NoFuel
  end.

(** A message that is logged if there is a log module. *)
Definition log_if (msg : string) : ST xconnection unit :=
  x ← get; if x_logm x then xlog msg else mret tt.

(** ** Events *)

(** [set_mask], [clear_mask], [get_mask] *)
Definition set_mask (a : list Z) (m : Z) : list Z :=
  alter (λ b, Z.lor b (Z.shiftl 1 (Z.land m 7))) (Z.to_nat (Z.shiftr m 3)) a.
Definition clear_mask (a : list Z) (m : Z) : list Z :=
  alter (λ b, Z.land b (Z.lnot (Z.shiftl 1 (Z.land m 7)))) (Z.to_nat (Z.shiftr m 3)) a.
Definition get_mask (a : list Z) (m : Z) : bool :=
  negb (Z.land (default 0 (a !! Z.to_nat (Z.shiftr m 3))) (Z.shiftl 1 (Z.land m 7)) =? 0).

Definition select_mask : ST xinput unit :=
  s ← get;
  on_conn (e ← request (xi_select_events (xi_mask s));
           if e : bool then log_if "select events failed" else mret tt).

(** The element of [listener_count] for an event. *)
Definition count_of (ev : Z) : ST xinput Z :=
  s ← get; if ev <? 0 then fail OutOfBounds else from_opt OutOfBounds (xi_listener_count s !! Z.to_nat ev).
Definition set_count (ev n : Z) : ST xinput unit := modify (λ s,
  XInput (xi_mask s) (<[Z.to_nat ev := n]> (xi_listener_count s)) (xi_conn s)).
Definition set_masks (f : list Z → list Z) : ST xinput unit := modify (λ s,
  XInput (f (xi_mask s)) (xi_listener_count s) (xi_conn s)).

(** [di_xorg_xi_start_listen_for_event], [di_xorg_xi_stop_listen_for_event]: the
    counters have 32 bits. *)
Definition di_xorg_xi_start_listen_for_event (ev : Z) : ST xinput unit :=
  if ev >? XI_LASTEVENT then on_conn (log_if "invalid xi event number")
  else
    n ← count_of ev;
    let n := wrap_u 32 (n + 1) in
    set_count ev n;;
    if n >? 1 then mret tt
    else set_masks (λ a, set_mask a ev);; select_mask.

Definition di_xorg_xi_stop_listen_for_event (ev : Z) : ST xinput unit :=
  if ev >? XI_LASTEVENT then on_conn (log_if "invalid xi event number")
  else
    n ← count_of ev;
    check (n >? 0);;
    let n := wrap_u 32 (n - 1) in
    set_count ev n;;
    if n >? 0 then mret tt
    else set_masks (λ a, clear_mask a ev);; select_mask.

Definition enable_hierarchy_event : ST xinput unit := di_xorg_xi_start_listen_for_event XCB_INPUT_HIERARCHY.
Definition disable_hierarchy_event : ST xinput unit := di_xorg_xi_stop_listen_for_event XCB_INPUT_HIERARCHY.

(** [di_xorg_free_xinput]; [dc] tells whether the pointer to the connection is
    not null. *)
Definition di_xorg_free_xinput (dc : bool) : ST xinput unit :=
  if dc then
    set_masks (λ a, map (λ _, 0) a);;
    s ← get;
    _ ← on_conn (request (xi_select_events (xi_mask s)));
    select_mask
  else mret tt.

(** ** Writing a property

    [di_xorg_intern_atom] where the caller returns on an error; [*e] that was not
    written is read. *)
Definition intern_or {A} (name : di_string) (err : ST xconnection A) (f : Z → ST xconnection A) : ST xconnection A :=
  r ← di_xorg_intern_atom name;
  match r.2 with
  | Unwritten => fail Uninit
  | ErrorPtr => err
  | NullPtr => f r.1
  end.

(** What the conversion of an element leads to. *)
Inductive converted : Type :=
  | Number (i64 : option Z) (f : option spec_float)
  | WrongType
  | Abandon.

(** The first [switch], on the element type; a variable that is not assigned is
    [None]. *)
Definition read_element (prop_type : Z) (t : di_type) (src : value) : ST xconnection converted :=
  match t, src with
  | DI_TYPE_INT, VInt z | DI_TYPE_NINT, VNInt z | DI_TYPE_NUINT, VNUInt z => mret (Number (Some z) (Some (float_of_Z z)))
  | DI_TYPE_UINT, VUInt z => mret (Number (Some (wrap_s 64 z)) (Some (float_of_Z (wrap_s 64 z))))
  | DI_TYPE_FLOAT, VFloat d => mret (Number None (Some (narrow d)))
  | DI_TYPE_STRING, VString s =>
      if prop_type =? XCB_ATOM_ATOM then intern_or s (mret Abandon) (λ a, mret (Number (Some a) None)) else mret WrongType
  | DI_TYPE_STRING_LITERAL, VStringLiteral s =>
      if prop_type =? XCB_ATOM_ATOM then
        intern_or (di_string_borrow s) (mret Abandon) (λ a, mret (Number (Some a) None))
      else mret WrongType
  | (DI_TYPE_ANY | DI_LAST_TYPE), _ => fail CheckFailed
  | (DI_TYPE_INT | DI_TYPE_NINT | DI_TYPE_NUINT | DI_TYPE_UINT | DI_TYPE_FLOAT | DI_TYPE_STRING | DI_TYPE_STRING_LITERAL), _ =>
      fail TypeConfusion
  | _, _ => mret WrongType
  end.

(** The rest of the loop body: the word, [inl] for the wrong type; [None] when
    nothing is written, so that the pointer in [item] stays null. *)
Definition word_of (p : xi_property) (float_atom : Z) (t : di_type) (i64 : option Z) (f : option spec_float)
    : ST xconnection (unit + option Z) :=
  if (xp_type p =? XCB_ATOM_INTEGER) || (xp_type p =? XCB_ATOM_CARDINAL) then
    if bool_decide (t = DI_TYPE_FLOAT) || bool_decide (t = DI_TYPE_STRING) then mret (inl tt)
    else if (xp_format p =? 8) || (xp_format p =? 16) || (xp_format p =? 32) then
      z ← from_opt Uninit i64; mret (inr (Some (wrap_u (xp_format p) z)))
    else mret (inr None)
  else if xp_type p =? float_atom then
    if bool_decide (t = DI_TYPE_STRING) then mret (inl tt)
    else f ← from_opt Uninit f; mret (inr (Some (float_bits f)))
  else if xp_type p =? XCB_ATOM_ATOM then
    if bool_decide (t = DI_TYPE_STRING) then z ← from_opt Uninit i64; mret (inr (Some (wrap_u 32 z)))
    else mret (inl tt)
  else mret (inr None).

(** The words of the elements, or how the loop was left. *)
Inductive loop_exit : Type := Words (ws : list (option Z)) | ToErr | Return.

Fixpoint convert_elements (p : xi_property) (float_atom : Z) (t : di_type) (vs : list value) : ST xconnection loop_exit :=
  match vs with
  | [] => mret (Words [])
  | v :: vs' =>
      c ← read_element (xp_type p) t v;
      match c with
      | WrongType => mret ToErr
      | Abandon => mret Return
      | Number i64 f =>
          w ← word_of p float_atom t i64 f;
          match w with
          | inl _ => mret ToErr
          | inr w =>
              rest ← convert_elements p float_atom t vs';
              mret (match rest with Words ws => Words (w :: ws) | r => r end)
          end
      end
  end.

(** What libxcb sends: the data that the first item points to. *)
Definition item_data (ws : list (option Z)) : ST xconnection (list Z) :=
  match ws with
  | [] => fail OutOfBounds
  | None :: _ => fail NullDeref
  | _ => mret (map (default 0) ws)
  end.

(** A value that is not an array is an array of one element. *)
Definition elements_of (var : value) : di_type * list value :=
  match var with VArray t _ l => (t, l) | v => (type_of v, [v]) end.

(** [di_xorg_xinput_set_prop] for the device [dev]; [dc] tells whether there is a
    connection. *)
Definition di_xorg_xinput_set_prop (dc : bool) (dev : Z) (key : di_string) (var : value) : ST xconnection unit :=
  if negb dc then mret tt else
  let '(t, vs) := elements_of var in
  intern_or key (mret tt) (λ prop_atom,
    r ← di_xorg_intern_atom (Some "FLOAT"%string);
    let float_atom := r.1 in
    prop ← request (xi_get_property dev prop_atom 0);
    p ← from_opt NullDeref prop;
    if xp_type p =? XCB_ATOM_NONE then log_if "setting non-existent property"
    else if ((xp_type p =? float_atom) || (xp_type p =? XCB_ATOM_ATOM)) && negb (xp_format p =? 32) then
      xlog "Xorg return invalid format for float/atom type"
    else
      e ← convert_elements p float_atom t vs;
      match e with
      | ToErr => xlog "Try to set xinput property with wrong type of data"
      | Return => mret tt
      | Words ws =>
          data ← item_data ws;
          e ← request (xi_change_property dev (xp_format p) prop_atom (xp_type p) data);
          if e : bool then xlog "Failed to set property" else mret tt
      end).

(** ** Reading a property *)

(** [di_bottom], an error object with its message, or a value. *)
Inductive prop_result : Type := NoProp | PropError (msg : string) | PropValue (v : value).

(** The elements, by the element type that was chosen. *)
Definition read_word (t : di_type) (w : Z) : ST xconnection value :=
  match t with
  | DI_TYPE_INT => mret (VInt w)
  | DI_TYPE_STRING =>
      a ← di_xorg_get_atom_name w;
      match a with
      | None => mret (VString DI_STRING_INIT)
      | Some _ => b ← di_xorg_get_atom_name w; n ← from_opt NullDeref b; mret (VString (Some n))
      end
  | _ => mret (VFloat (widen (bits_float w)))
  end.

(** The string up to its terminator, which must be in the reply. *)
Fixpoint string_of_words (ws : list Z) : option string :=
  match ws with
  | [] => None
  | w :: ws' => if w =? 0 then Some EmptyString else String (Ascii.ascii_of_nat (Z.to_nat w)) <$> string_of_words ws'
  end.

(** The type of the elements, by the type of the property. *)
Definition elem_type_of (float_atom type : Z) : option di_type :=
  if (type =? XCB_ATOM_INTEGER) || (type =? XCB_ATOM_CARDINAL) then Some DI_TYPE_INT
  else if (type =? XCB_ATOM_ATOM) || (type =? XCB_ATOM_STRING) then Some DI_TYPE_STRING
  else if type =? float_atom then Some DI_TYPE_FLOAT
  else None.

(** [di_xorg_xinput_get_prop] *)
Definition di_xorg_xinput_get_prop (dc : bool) (dev : Z) (name_ : di_string) : ST xconnection prop_result :=
  if negb dc then mret (PropError "Lost X connection") else
  intern_or name_ (mret (PropError "Failed to intern atom")) (λ prop_atom,
    r ← di_xorg_intern_atom (Some "FLOAT"%string);
    let float_atom := r.1 in
    prop ← request (xi_get_property dev prop_atom 0);
    p ← from_opt NullDeref prop;
    if xp_type p =? XCB_ATOM_NONE then mret NoProp
    else
      prop ← request (xi_get_property dev prop_atom (xp_bytes_after p));
      p ← from_opt NullDeref prop;
      if xp_type p =? XCB_ATOM_NONE then mret NoProp
      else
        match elem_type_of float_atom (xp_type p) with
        | None => log_if "Unknown property type";; mret (PropError "Property has unknown type")
        | Some t =>
            if negb ((xp_format p =? 8) || (xp_format p =? 16) || (xp_format p =? 32)) then
              log_if "Xorg returns invalid format";; mret (PropError "Property has invalid format")
            else if ((xp_type p =? float_atom) || (xp_type p =? XCB_ATOM_ATOM)) && negb (xp_format p =? 32) then
              xlog "Xorg return invalid format for float/atom";; mret (PropError "X server is misbehaving")
            else if xp_type p =? XCB_ATOM_STRING then
              check (xp_format p =? 8);;
              s ← from_opt OutOfBounds (string_of_words (xp_items p));
              mret (PropValue (VString (Some s)))
            else
              vs ← collect (read_word t) (xp_items p);
              mret (PropValue (match vs with [v] => v | _ => VArray t false vs end))
        end).

(** ** Devices *)

(** [xcb_input_get_device_info]; with the reply, or without. *)
Definition xcb_input_get_device_info (deviceid : Z) : ST xconnection (option xi_device_info) :=
  r ← request (xi_query_device deviceid);
  mret (r ≫= λ infos, List.find (λ i, di_deviceid i =? deviceid) infos).

Definition di_xorg_xinput_get_device_name (dc : bool) (deviceid : Z) : ST xconnection di_string :=
  if negb dc then mret (di_string_dup "unknown") else
  info ← xcb_input_get_device_info deviceid;
  mret (match info with None => di_string_dup "unknown" | Some i => Some (di_name i) end).

Definition device_use (type : Z) : string :=
  if type =? 2 then "master keyboard"%string else if type =? 4 then "keyboard"%string
  else if type =? 1 then "master pointer"%string else if type =? 3 then "pointer"%string else "unknown"%string.

Definition di_xorg_xinput_get_device_use (dc : bool) (deviceid : Z) : ST xconnection string :=
  if negb dc then mret "unknown"%string else
  info ← xcb_input_get_device_info deviceid;
  mret (match info with
        | None => "unknown"%string
        | Some i => device_use (di_use i)
        end).

(** [di_xorg_xinput_get_device_type]: the iterator is read after the loop, and
    may be past the last device. *)
Definition di_xorg_xinput_get_device_type (dc : bool) (deviceid : Z) : ST xconnection di_string :=
  if negb dc then mret (di_string_dup "unknown") else
  r ← request list_input_devices;
  devices ← from_opt NullDeref r;
  d ← from_opt OutOfBounds (List.find (λ d, d.1 =? deviceid) devices);
  dname ← di_xorg_get_atom_name d.2;
  mret (match dname with None => di_string_dup "unknown" | Some n => di_string_tolower (Some n) end).

(** [di_xorg_get_all_devices]: the numbers of the devices; 0 asks for all. *)
Definition di_xorg_get_all_devices (dc : bool) : ST xconnection (list Z) :=
  if negb dc then mret [] else
  r ← request (xi_query_device 0);
  infos ← from_opt NullDeref r;
  mret (map di_deviceid infos).

(** The signals of one record of a hierarchy event, with the device. *)
Definition hierarchy_signals (deviceid flags : Z) : list (string * Z) :=
  (if Z.land flags 4 =? 0 then [] else [("new-device", deviceid)]) ++
  (if Z.land flags 64 =? 0 then [] else [("device-enabled", deviceid)]) ++
  (if Z.land flags 128 =? 0 then [] else [("device-disabled", deviceid)]).

(** [handle_xinput_event]: what is returned and emitted. *)
Definition handle_xinput_event (opcode response_type extension event_type : Z) (infos : list (Z * Z)) : Z * list (string * Z) :=
  if negb (response_type =? 35) then (1, [])
  else if negb (extension =? opcode) then (1, [])
  else (0, if event_type =? XCB_INPUT_HIERARCHY then concat (map (λ i, hierarchy_signals i.1 i.2) infos) else []).

(** The object as it is created. *)
Definition new_masks (x : xconnection) : xinput := XInput (repeat 0 4) (repeat 0 27) x.

(** [new_xinput]; the opcode and the object, or a null pointer. *)
Definition new_xinput {XE : XExtensions X} : ST xconnection (option (Z * xinput)) :=
  there ← xorg_has_extension "XInputExtension";
  if negb there then mret None
  else
    r ← request (query_extension "XInputExtension");
    match r with
    | None => mret None
    | Some (major_opcode, _) =>
        xi ← new_extension new_masks xi_conn enable_hierarchy_event;
        mret (Some (major_opcode, xi))
    end.
End xinput.

(** ** The mask follows the listeners *)

Lemma land_bit b i : 0 ≤ i → negb (Z.land b (Z.shiftl 1 i) =? 0) = Z.testbit b i.
Proof.
  intros Hi. destruct (Z.testbit b i) eqn:E.
  - apply negb_true_iff, Z.eqb_neq. intros H. apply (f_equal (λ z, Z.testbit z i)) in H.
    rewrite Z.land_spec, E, Z.shiftl_spec, Z.sub_diag, Z.bits_0 in H by lia. discriminate.
  - apply negb_false_iff, Z.eqb_eq, Z.bits_inj'. intros j Hj.
    rewrite Z.land_spec, Z.shiftl_spec, Z.bits_0 by lia. destruct (Z.eq_dec j i) as [->|Hne]; [rewrite E; reflexivity|].
    apply andb_false_iff. right. destruct (Z.lt_ge_cases j i); [apply Z.testbit_neg_r; lia|].
    rewrite Z.bits_above_log2; [reflexivity|lia|cbn; lia].
Qed.

Lemma land7 m : 0 ≤ m → m = 8 * Z.shiftr m 3 + Z.land m 7 ∧ 0 ≤ Z.land m 7 < 8 ∧ 0 ≤ Z.shiftr m 3.
Proof.
  intros Hm. rewrite Z.shiftr_div_pow2 by lia. change 7 with (Z.ones 3). rewrite Z.land_ones by lia.
  pose proof (Z.div_mod m (2 ^ 3)). pose proof (Z.mod_pos_bound m (2 ^ 3)). pose proof (Z.div_pos m (2 ^ 3)). lia.
Qed.

Lemma get_mask_bit a k :
  0 ≤ k → get_mask a k = Z.testbit (default 0 (a !! Z.to_nat (Z.shiftr k 3))) (Z.land k 7).
Proof. intros Hk. unfold get_mask. apply land_bit. destruct (land7 k Hk). lia. Qed.

(** Changing one bit of a mask. *)
Lemma mask_alter a (f : Z → Z → Z) (b : bool) m k :
  length a = 4%nat → 0 ≤ m < 32 → 0 ≤ k < 32 →
  (∀ x i j, 0 ≤ i → 0 ≤ j → Z.testbit (f x i) j = if j =? i then b else Z.testbit x j) →
  get_mask (alter (λ x, f x (Z.land m 7)) (Z.to_nat (Z.shiftr m 3)) a) k = if k =? m then b else get_mask a k.
Proof.
  intros Ha Hm Hk Hf. rewrite !get_mask_bit by lia.
  destruct (land7 m) as (Em & Bm & Cm); [lia|]. destruct (land7 k) as (Ek & Bk & Ck); [lia|].
  destruct (Z.eq_dec (Z.shiftr k 3) (Z.shiftr m 3)) as [E|E].
  - rewrite E, list_lookup_alter. destruct (lookup_lt_is_Some_2 a (Z.to_nat (Z.shiftr m 3))) as [x ->]; [lia|].
    simpl. rewrite decide_True by reflexivity. cbn [default option_map from_option id]. rewrite Hf by lia.
    destruct (Z.eqb_spec (Z.land k 7) (Z.land m 7)), (Z.eqb_spec k m); try reflexivity; lia.
  - rewrite list_lookup_alter_ne by lia. destruct (Z.eqb_spec k m); [congruence|reflexivity].
Qed.

Lemma set_mask_spec a m k :
  length a = 4%nat → 0 ≤ m < 32 → 0 ≤ k < 32 → get_mask (set_mask a m) k = if k =? m then true else get_mask a k.
Proof.
  intros Ha Hm Hk. unfold set_mask. apply (mask_alter a (λ x i, Z.lor x (Z.shiftl 1 i))); try assumption.
  intros x i j Hi Hj. rewrite Z.lor_spec, Z.shiftl_spec by lia. destruct (Z.eqb_spec j i) as [->|Hne].
  - rewrite Z.sub_diag. apply orb_true_r.
  - replace (Z.testbit 1 (j - i)) with false; [apply orb_false_r|].
    destruct (Z.lt_ge_cases j i); [symmetry; apply Z.testbit_neg_r; lia|].
    rewrite Z.bits_above_log2; [reflexivity|lia|cbn; lia].
Qed.

Lemma clear_mask_spec a m k :
  length a = 4%nat → 0 ≤ m < 32 → 0 ≤ k < 32 → get_mask (clear_mask a m) k = if k =? m then false else get_mask a k.
Proof.
  intros Ha Hm Hk. unfold clear_mask. apply (mask_alter a (λ x i, Z.land x (Z.lnot (Z.shiftl 1 i)))); try assumption.
  intros x i j Hi Hj. rewrite Z.land_spec, Z.lnot_spec, Z.shiftl_spec by lia. destruct (Z.eqb_spec j i) as [->|Hne].
  - rewrite Z.sub_diag. apply andb_false_r.
  - replace (Z.testbit 1 (j - i)) with false; [apply andb_true_r|].
    destruct (Z.lt_ge_cases j i); [symmetry; apply Z.testbit_neg_r; lia|].
    rewrite Z.bits_above_log2; [reflexivity|lia|cbn; lia].
Qed.

Section listening.
Context {X : XServer} {XI : XInputServer X}.

(** A listener comes ([true]) or goes; how many there are of every event. *)
Definition listen_step (c : Z → Z) (op : bool * Z) : Z → Z :=
  λ e, if e =? op.2 then c e + (if op.1 : bool then 1 else -1) else c e.

(** Only listeners that came go, and fewer than 2^32 of an event come. *)
Fixpoint balanced (c : Z → Z) (ops : list (bool * Z)) : Prop :=
  match ops with
  | [] => True
  | op :: ops' =>
      0 ≤ op.2 ≤ XI_LASTEVENT ∧ (if op.1 : bool then c op.2 + 1 < 2 ^ 32 else 0 < c op.2) ∧
      balanced (listen_step c op) ops'
  end.

Definition do_listen (op : bool * Z) : ST xinput unit :=
  if op.1 : bool then di_xorg_xi_start_listen_for_event op.2 else di_xorg_xi_stop_listen_for_event op.2.

(** The counters are [c], and the mask has the events with listeners. *)
Record counts (c : Z → Z) (s : xinput) : Prop := {
  cs_mask_length : length (xi_mask s) = 4%nat;
  cs_range : ∀ e, 0 ≤ c e < 2 ^ 32;
  cs_counts : ∀ e, 0 ≤ e ≤ XI_LASTEVENT → xi_listener_count s !! Z.to_nat e = Some (c e);
  cs_mask : ∀ e, 0 ≤ e ≤ XI_LASTEVENT → get_mask (xi_mask s) e = (0 <? c e)
}.

(** What the server has selected for the client; requests do not fail. *)
Context (selected : xserver → list Z).
Hypothesis select_ok : ∀ m sv, (xi_select_events m sv).1 = false ∧ selected (xi_select_events m sv).2 = m.

Lemma select_mask_ok s :
  ∃ s', select_mask s = Done tt s' ∧ xi_mask s' = xi_mask s ∧ xi_listener_count s' = xi_listener_count s ∧
    selected (x_server (xi_conn s')) = xi_mask s'.
Proof.
  unfold select_mask, get, on_conn, request, mbind, ST_bind. destruct (select_ok (xi_mask s) (x_server (xi_conn s))) as [He Hs].
  destruct (xi_select_events (xi_mask s) (x_server (xi_conn s))) as [e sv]. cbn in *. subst e.
  eexists. split; [reflexivity|]. auto.
Qed.

Lemma listen_ok c s op :
  counts c s → 0 ≤ op.2 ≤ XI_LASTEVENT → (if op.1 : bool then c op.2 + 1 < 2 ^ 32 else 0 < c op.2) →
  ∃ s', do_listen op s = Done tt s' ∧ counts (listen_step c op) s' ∧
    (selected (x_server (xi_conn s)) = xi_mask s ∨ c op.2 = 0 → selected (x_server (xi_conn s')) = xi_mask s').
Proof.
  intros [H1 H2 H3 H4] Hev Hc. destruct op as [up ev]. cbn [fst snd] in *.
  set (n := c ev + (if up then 1 else -1)).
  assert (0 ≤ n < 2 ^ 32) as Hn by (specialize (H2 ev); unfold n; destruct up; lia).
  assert (n = c ev + (if up then 1 else -1)) as En by reflexivity.
  set (m := if up then if n >? 1 then xi_mask s else set_mask (xi_mask s) ev
            else if n >? 0 then xi_mask s else clear_mask (xi_mask s) ev).
  set (s1 := XInput m (<[Z.to_nat ev := n]> (xi_listener_count s)) (xi_conn s)).
  assert (counts (listen_step c (up, ev)) s1) as Hs1.
  { assert (length m = 4%nat) as Hm by (unfold m, set_mask, clear_mask; destruct up; [destruct (n >? 1)|destruct (n >? 0)]; rewrite ?length_alter; exact H1).
    constructor; cbn [xi_mask xi_listener_count s1]; unfold listen_step; cbn [fst snd].
    - exact Hm.
    - intros e. destruct (Z.eqb_spec e ev) as [->|_]; [exact Hn|apply H2].
    - intros e He. destruct (Z.eqb_spec e ev) as [->|Hne].
      + apply list_lookup_insert_eq. apply (lookup_lt_Some _ _ (c ev)), H3, He.
      + rewrite list_lookup_insert_ne by lia. apply H3, He.
    - intros e He. unfold XI_LASTEVENT in *. fold n. specialize (H4 e He). pose proof (H2 ev) as H2'. unfold m.
      destruct up; [destruct (Z.gtb_spec n 1)|destruct (Z.gtb_spec n 0)];
        rewrite ?set_mask_spec, ?clear_mask_spec by lia; destruct (Z.eqb_spec e ev) as [->|Hne]; try exact H4;
        rewrite ?H4; fold n; repeat match goal with |- context [?a <? ?b] => destruct (Z.ltb_spec a b) end; try reflexivity; lia. }
  assert ((if Z.gtb n (if up then 1 else 0) then m = xi_mask s ∧ do_listen (up, ev) s = Done tt s1
           else do_listen (up, ev) s = select_mask s1)) as Hrun.
  { unfold do_listen. cbn [fst snd]. specialize (H3 ev Hev).
    destruct up; unfold di_xorg_xi_start_listen_for_event, di_xorg_xi_stop_listen_for_event, count_of, set_count, set_masks,
      modify, get, from_opt, check, mbind, ST_bind;
      (replace (ev >? XI_LASTEVENT) with false by lia); (replace (ev <? 0) with false by lia); rewrite H3; cbn [mret ST_ret].
    - rewrite wrap_u_small by lia. fold n. unfold s1, m. destruct (n >? 1); [split; reflexivity|reflexivity].
    - replace (c ev >? 0) with true by lia. cbn [mret ST_ret]. rewrite wrap_u_small by lia.
      change (c ev - 1) with n. unfold s1, m. destruct (n >? 0); [split; reflexivity|reflexivity]. }
  destruct (Z.gtb_spec n (if up then 1 else 0)) as [Hgt|Hle].
  - destruct Hrun as [Hm Hrun]. exists s1. split; [exact Hrun|]. split; [exact Hs1|].
    cbn [xi_conn xi_mask s1]. rewrite Hm. intros [Hsel|Hz]; [exact Hsel|]. destruct up; lia.
  - rewrite Hrun. destruct (select_mask_ok s1) as (s2 & E & Em & Ec & Es). exists s2. split; [exact E|].
    split; [|intros _; exact Es]. destruct Hs1 as [G1 G2 G3 G4]. constructor; rewrite ?Em, ?Ec; assumption.
Qed.


(** C20. Events are selected exactly while something listens for them.  Whatever
    listeners come and go, the bit of an event is set in the mask when some
    listener of it is left, and the mask is the one that the server has. *)
Theorem listening_mask (ops : list (bool * Z)) (x : xconnection) :
  balanced (λ _, 0) ops →
  ∃ s, for_each do_listen ops (new_masks x) = Done tt s ∧
    (∀ e, 0 ≤ e ≤ XI_LASTEVENT → get_mask (xi_mask s) e = (0 <? fold_left listen_step ops (λ _, 0) e)) ∧
    (ops ≠ [] → selected (x_server (xi_conn s)) = xi_mask s).
Proof.
  assert (∀ c s, counts c s → balanced c ops → (selected (x_server (xi_conn s)) = xi_mask s ∨ ∀ e, c e = 0) →
    ∃ s', for_each do_listen ops s = Done tt s' ∧ counts (fold_left listen_step ops c) s' ∧
      (ops ≠ [] ∨ selected (x_server (xi_conn s)) = xi_mask s → selected (x_server (xi_conn s')) = xi_mask s')) as H.
  { induction ops as [|op ops IH]; intros c s Hc Hb Hsel; cbn [for_each fold_left].
    { exists s. split; [reflexivity|]. split; [exact Hc|]. intros [[]|Hs]; [reflexivity|exact Hs]. }
    destruct Hb as (Hev & Hop & Hb). destruct (listen_ok c s op Hc Hev Hop) as (s1 & E1 & Hc1 & Hs1).
    assert (selected (x_server (xi_conn s1)) = xi_mask s1) as Hsel1 by (apply Hs1; destruct Hsel; auto).
    destruct (IH _ s1 Hc1 Hb) as (s2 & E2 & Hc2 & Hs2); [left; exact Hsel1|].
    exists s2. unfold mbind, ST_bind. rewrite E1. split; [exact E2|]. split; [exact Hc2|]. intros _. apply Hs2. right. exact Hsel1. }
  intros Hb. destruct (H (λ _, 0) (new_masks x)) as (s & E & Hc & Hs).
  - constructor; cbn [xi_mask xi_listener_count new_masks]; unfold XI_LASTEVENT; [reflexivity|lia| |]; intros e He.
    + apply lookup_repeat_lt. lia.
    + rewrite get_mask_bit by lia. destruct (land7 e) as (E & B & C); [lia|].
      rewrite (lookup_repeat_lt 0 4) by lia. apply Z.testbit_0_l.
  - exact Hb.
  - right. reflexivity.
  - exists s. split; [exact E|]. split; [apply Hc|]. auto.
Qed.
End listening.

(** ** Bits of floats *)

Lemma digits2_pos_bounds p : 2 ^ (Zpos (digits2_pos p) - 1) ≤ Zpos p < 2 ^ Zpos (digits2_pos p).
Proof.
  assert (∀ n, 2 ^ Zpos (Pos.succ n) = 2 * 2 ^ Zpos n ∧ 2 ^ (Zpos (Pos.succ n) - 1) = 2 * 2 ^ (Zpos n - 1)) as Hs.
  { intros n. rewrite Pos2Z.inj_succ. split; [apply Z.pow_succ_r; lia|].
    replace (Z.succ (Zpos n) - 1) with (Z.succ (Zpos n - 1)) by lia. apply Z.pow_succ_r. lia. }
  induction p as [p IH|p IH|]; cbn [digits2_pos]; try (destruct (Hs (digits2_pos p)) as [-> ->]; lia). cbn. lia.
Qed.

Lemma bits_float_bits f : valid_binary 24 128 f = true → bits_float (float_bits f) = f.
Proof.
  destruct f as [s|s| |s m e]; try (destruct s; reflexivity); [reflexivity|].
  cbn [valid_binary]. unfold bounded, canonical_mantissa. intros [Hc He]%andb_prop.
  apply Zeq_bool_eq in Hc. apply Zle_bool_imp_le in He. unfold SpecFloat.fexp, emin in Hc.
  pose proof (digits2_pos_bounds m) as Hm. set (d := Zpos (digits2_pos m)) in *.
  assert (2 ^ d = 2 * 2 ^ (d - 1)) as Hd by (rewrite <- Z.pow_succ_r by (unfold d; lia); f_equal; lia).
  cbn [float_bits]. destruct (Z.ltb_spec (Zpos m) (2 ^ 23)) as [Hsub|Hnorm].
  - assert (e = -149) as ->.
    { destruct (Z_le_gt_dec d 23) as [|Hd24]; [lia|]. exfalso.
      assert (2 ^ 23 ≤ 2 ^ (d - 1)) by (apply Z.pow_le_mono_r; lia). lia. }
    unfold bits_float.
    assert ((sign_bit s + Zpos m) / 2 ^ 23 mod 2 ^ 8 = 0 ∧ (sign_bit s + Zpos m) mod 2 ^ 23 = Zpos m ∧
            (2 ^ 31 <=? sign_bit s + Zpos m) = s) as (-> & -> & ->); [|reflexivity].
    destruct s; cbn [sign_bit]; (split; [|split]);
      first [apply Z.leb_le; lia|apply Z.leb_gt; lia|Z.div_mod_to_equations; lia].
  - assert (d = 24) as Hd24.
    { destruct (Z_le_gt_dec d 23) as [Hle|Hgt].
      - assert (2 ^ d ≤ 2 ^ 23) by (apply Z.pow_le_mono_r; lia). lia.
      - assert (d - 24 + e = e ∨ d ≤ 24) as [|] by lia; [lia|lia]. }
    assert (-149 ≤ e ≤ 104) as He' by lia. rewrite Hd24 in Hm. cbn in Hm.
    assert (2 ^ 23 ≤ Zpos m < 2 ^ 24) as Hm' by (cbn; lia).
    set (w := sign_bit s + ((e + 150) * 2 ^ 23 + (Zpos m - 2 ^ 23))).
    assert (w / 2 ^ 23 mod 2 ^ 8 = e + 150 ∧ w mod 2 ^ 23 = Zpos m - 2 ^ 23 ∧ (2 ^ 31 <=? w) = s) as (Hex & Hfr & Hsg).
    { unfold w. destruct s; cbn [sign_bit]; (split; [|split]);
        first [apply Z.leb_le; lia|apply Z.leb_gt; lia|Z.div_mod_to_equations; lia]. }
    unfold bits_float. rewrite Hex, Hfr, Hsg.
    rewrite (proj2 (Z.eqb_neq _ 255)), (proj2 (Z.eqb_neq _ 0)) by lia.
    replace (Zpos m - 2 ^ 23 + 2 ^ 23) with (Zpos m) by lia. f_equal. lia.
Qed.

(** ** A property that is written is read back

    What is relied on: the server keeps the properties of devices; a reply has as
    many of the words as were asked for. *)
Class XPropertiesOk (X : XServer) (XO : XServerOk X) (XI : XInputServer X) := {
  prop_of : xserver → Z → Z → option (Z * Z * list Z);
  get_property_ok dev a n sv : ∃ p sv',
    xi_get_property dev a n sv = (Some p, sv') ∧ grows sv sv' ∧ prop_of sv' dev a = prop_of sv dev a ∧
    match prop_of sv dev a with
    | None => xp_type p = XCB_ATOM_NONE
    | Some (t, f, ws) =>
        xp_type p = t ∧ xp_format p = f ∧ xp_items p = take (Z.to_nat (n * 32 / f)) ws ∧
        xp_bytes_after p = Z.max 0 (Z.of_nat (length ws) * f / 8 - 4 * n)
    end;
  change_property_ok dev f a t ws sv :
    grows sv (xi_change_property dev f a t ws sv).2 ∧
    ((xi_change_property dev f a t ws sv).1 = false → prop_of (xi_change_property dev f a t ws sv).2 dev a = Some (t, f, ws))
}.

Section properties.
Context {X : XServer} {XO : XServerOk X} {XI : XInputServer X} {XP : XPropertiesOk X XO XI}.
Implicit Types (x : xconnection).

Lemma intern_cached x n a :
  coherent x → x_logm x = true → AtomEntry n a ∈ x_byatom x → di_xorg_intern_atom (Some n) x = Done (a, NullPtr) x.
Proof.
  intros Hx Hlog Hi. unfold di_xorg_intern_atom, get, mbind, ST_bind. rewrite Hlog. cbn [negb default from_option id].
  rewrite (find_name_elem x _ Hx Hi : find_name n _ = _). reflexivity.
Qed.

Lemma name_cached x n a :
  coherent x → AtomEntry n a ∈ x_byatom x → di_xorg_get_atom_name a x = Done (Some n) x.
Proof.
  intros Hx Hi. unfold di_xorg_get_atom_name, get, mbind, ST_bind.
  rewrite (find_atom_elem _ _ (co_atoms x Hx) Hi : find_atom a _ = _). reflexivity.
Qed.

Lemma intern_or_cached {A} x n a (err : ST xconnection A) f :
  coherent x → x_logm x = true → AtomEntry n a ∈ x_byatom x → intern_or (Some n) err f x = f a x.
Proof. intros Hx Hlog Hi. unfold intern_or, mbind, ST_bind. rewrite (intern_cached x n a Hx Hlog Hi). reflexivity. Qed.

(** The number in a value of an integer type, as a signed one of 64 bits. *)
Definition int_value (v : value) : option Z :=
  match v with
  | VInt z | VNInt z | VNUInt z => Some z
  | VUInt z => Some (wrap_s 64 z)
  | _ => None
  end.

(** [stored x fa type format t v w r]: in a property of this type and format, the
    element [v] of type [t] is the word [w], and is read as [r].  Integers lose
    their sign and what does not fit; floats are rounded to 32 bits; strings are
    names of atoms that the connection knows. *)
Inductive stored x (fa type format : Z) (t : di_type) : value → Z → value → Prop :=
  | stored_int v z :
      type = XCB_ATOM_INTEGER ∨ type = XCB_ATOM_CARDINAL → type_of v = t → int_value v = Some z →
      stored x fa type format t v (wrap_u format z) (VInt (wrap_u format z))
  | stored_rounded v z :
      type = fa → type_of v = t → int_value v = Some z → valid_binary 24 128 (float_of_Z z) = true →
      stored x fa type format t v (float_bits (float_of_Z z)) (VFloat (widen (float_of_Z z)))
  | stored_float d :
      type = fa → t = DI_TYPE_FLOAT → valid_binary 24 128 (narrow d) = true →
      stored x fa type format t (VFloat d) (float_bits (narrow d)) (VFloat (widen (narrow d)))
  | stored_atom n a :
      type = XCB_ATOM_ATOM → t = DI_TYPE_STRING → AtomEntry n a ∈ x_byatom x → 0 ≤ a < 2 ^ 32 →
      stored x fa type format t (VString (Some n)) a (VString (Some n)).

(** Formats, and the atoms of the protocol, which "FLOAT" is not among. *)
Definition format_ok (fa type format : Z) : Prop :=
  68 < fa ∧ (format = 8 ∨ format = 16 ∨ format = 32) ∧ (type = fa ∨ type = XCB_ATOM_ATOM → format = 32).

Lemma convert_element_ok x p fa t v w r :
  coherent x → x_logm x = true → format_ok fa (xp_type p) (xp_format p) →
  stored x fa (xp_type p) (xp_format p) t v w r →
  ∃ i64 f, read_element (xp_type p) t v x = Done (Number i64 f) x ∧ word_of p fa t i64 f x = Done (inr (Some w)) x.
Proof.
  intros Hx Hlog (Hfa & Hf & H32). unfold word_of. intros [v' z Ht Hv Hz|v' z Ht Hv Hz Hval|d Ht Hv Hval|n a Ht Hv Hi Ha].
  - assert (∃ f, read_element (xp_type p) t v' x = Done (Number (Some z) f) x) as [f Hr].
    { destruct v'; try discriminate; injection Hz as <-; cbn [type_of] in Hv; subst t; eexists; reflexivity. }
    exists (Some z), f. split; [exact Hr|].
    replace ((xp_type p =? XCB_ATOM_INTEGER) || (xp_type p =? XCB_ATOM_CARDINAL)) with true by (destruct Ht as [-> | ->]; reflexivity).
    rewrite !bool_decide_false by (intros ->; destruct v'; discriminate). cbn [orb].
    replace ((xp_format p =? 8) || (xp_format p =? 16) || (xp_format p =? 32)) with true
      by (destruct Hf as [-> |[-> | ->]]; reflexivity). reflexivity.
  - assert (∃ i, read_element (xp_type p) t v' x = Done (Number i (Some (float_of_Z z))) x) as [i Hr].
    { destruct v'; try discriminate; injection Hz as <-; cbn [type_of] in Hv; subst t; eexists; reflexivity. }
    exists i, (Some (float_of_Z z)). split; [exact Hr|]. rewrite Ht.
    rewrite !(proj2 (Z.eqb_neq _ _)) by (unfold XCB_ATOM_INTEGER, XCB_ATOM_CARDINAL; lia). rewrite Z.eqb_refl. cbn [orb].
    rewrite bool_decide_false by (intros ->; destruct v'; discriminate). reflexivity.
  - subst t. exists None, (Some (narrow d)). split; [reflexivity|]. rewrite Ht.
    rewrite !(proj2 (Z.eqb_neq _ _)) by (unfold XCB_ATOM_INTEGER, XCB_ATOM_CARDINAL; lia). rewrite Z.eqb_refl. reflexivity.
  - subst t. exists (Some a), None. rewrite Ht. unfold read_element. rewrite Z.eqb_refl.
    rewrite (intern_or_cached x n a _ _ Hx Hlog Hi). split; [reflexivity|].
    change ((XCB_ATOM_ATOM =? XCB_ATOM_INTEGER) || (XCB_ATOM_ATOM =? XCB_ATOM_CARDINAL)) with false. cbv iota.
    rewrite (proj2 (Z.eqb_neq XCB_ATOM_ATOM fa)), ?Z.eqb_refl by (unfold XCB_ATOM_ATOM; lia). rewrite bool_decide_true by reflexivity.
    change (Done (inr (Some (wrap_u 32 a))) x = @Done _ (unit + option Z) (inr (Some a)) x). rewrite wrap_u_small by lia. reflexivity.
Qed.

Lemma convert_elements_ok x p fa t vs ws rs :
  coherent x → x_logm x = true → format_ok fa (xp_type p) (xp_format p) →
  Forall3 (stored x fa (xp_type p) (xp_format p) t) vs ws rs →
  convert_elements p fa t vs x = Done (Words (map Some ws)) x.
Proof.
  intros Hx Hlog Hf. induction 1 as [|v w r vs ws rs Hs _ IH]; [reflexivity|]. cbn [convert_elements].
  destruct (convert_element_ok x p fa t v w r Hx Hlog Hf Hs) as (i64 & f & Hr & Hw).
  unfold mbind, ST_bind. rewrite Hr, Hw, IH. reflexivity.
Qed.

Lemma read_words_ok x fa type format t vs ws rs et :
  coherent x → format_ok fa type format → elem_type_of fa type = Some et → type ≠ XCB_ATOM_STRING →
  Forall3 (stored x fa type format t) vs ws rs →
  collect (read_word et) ws x = Done rs x.
Proof.
  intros Hx (Hfa & _ & _) Het Hns. induction 1 as [|v w r vs ws rs Hs _ IH]; [reflexivity|]. cbn [collect].
  assert (read_word et w x = Done r x) as Hr.
  { unfold elem_type_of in Het. destruct Hs as [v' z Ht _ _|v' z Ht _ _ Hval|d Ht _ Hval|n a Ht _ Hi _].
    - replace ((type =? XCB_ATOM_INTEGER) || (type =? XCB_ATOM_CARDINAL)) with true in Het by (destruct Ht as [-> | ->]; reflexivity).
      injection Het as <-. reflexivity.
    - subst type. rewrite !(proj2 (Z.eqb_neq _ _)), Z.eqb_refl in Het
        by (unfold XCB_ATOM_INTEGER, XCB_ATOM_CARDINAL, XCB_ATOM_ATOM, XCB_ATOM_STRING; lia).
      injection Het as <-. cbn [read_word]. rewrite (bits_float_bits _ Hval). reflexivity.
    - subst type. rewrite !(proj2 (Z.eqb_neq _ _)), Z.eqb_refl in Het
        by (unfold XCB_ATOM_INTEGER, XCB_ATOM_CARDINAL, XCB_ATOM_ATOM, XCB_ATOM_STRING; lia).
      injection Het as <-. cbn [read_word]. rewrite (bits_float_bits _ Hval). reflexivity.
    - subst type. injection Het as <-. cbn [read_word]. unfold mbind, ST_bind. rewrite !(name_cached x n a Hx Hi). reflexivity. }
  unfold mbind, ST_bind. rewrite Hr, IH. reflexivity.
Qed.

Lemma stored_type x fa type format t v w r :
  format_ok fa type format → stored x fa type format t v w r →
  type ≠ XCB_ATOM_NONE ∧ type ≠ XCB_ATOM_STRING ∧ ∃ et, elem_type_of fa type = Some et.
Proof.
  intros (Hfa & _ & _) Hs. unfold elem_type_of, XCB_ATOM_NONE, XCB_ATOM_STRING, XCB_ATOM_INTEGER, XCB_ATOM_CARDINAL, XCB_ATOM_ATOM in *.
  assert (type = 19 ∨ type = 6 ∨ type = fa ∨ type = 4) as Ht by (destruct Hs; unfold XCB_ATOM_INTEGER, XCB_ATOM_CARDINAL, XCB_ATOM_ATOM in *; tauto).
  split; [lia|]. split; [lia|]. destruct Ht as [-> |[-> |[-> | ->]]]; try (eexists; reflexivity).
  rewrite !(proj2 (Z.eqb_neq _ _)), Z.eqb_refl by lia. eexists. reflexivity.
Qed.

Lemma set_prop_ok dev key var t vs ws rs a fa type format old x :
  coherent x → x_logm x = true → AtomEntry key a ∈ x_byatom x → AtomEntry "FLOAT" fa ∈ x_byatom x →
  prop_of (x_server x) dev a = Some (type, format, old) → format_ok fa type format →
  elements_of var = (t, vs) → vs ≠ [] → Forall3 (stored x fa type format t) vs ws rs →
  (∀ sv, (xi_change_property dev format a type ws sv).1 = false) →
  ∃ sv, di_xorg_xinput_set_prop true dev (Some key) var x = Done tt (with_server sv x) ∧ grows (x_server x) sv ∧
    prop_of sv dev a = Some (type, format, ws).
Proof.
  intros Hx Hlog Hkey Hfl Hprop Hf Hel Hvs Hst Hnoerr. unfold di_xorg_xinput_set_prop. rewrite Hel. cbn [negb].
  rewrite (intern_or_cached x key a _ _ Hx Hlog Hkey). unfold mbind at 1, ST_bind at 1.
  rewrite (intern_cached x "FLOAT" fa Hx Hlog Hfl). cbn [fst].
  destruct (get_property_ok dev a 0 (x_server x)) as (p & sv1 & Hget & Hg1 & _ & Hp). rewrite Hprop in Hp.
  destruct Hp as (Ht & Hfm & _ & _). unfold mbind at 1, ST_bind at 1, request at 1. rewrite Hget.
  unfold mbind at 1, ST_bind at 1, from_opt at 1. cbn [mret ST_ret]. rewrite Ht, Hfm.
  assert (type ≠ XCB_ATOM_NONE) as Hn.
  { destruct Hst as [|v w r vs' ws' rs' Hs _]; [destruct (Hvs eq_refl)|]. apply (stored_type _ _ _ _ _ _ _ _ Hf Hs). }
  rewrite (proj2 (Z.eqb_neq _ _) Hn).
  assert (((type =? fa) || (type =? XCB_ATOM_ATOM)) && negb (format =? 32) = false) as ->.
  { destruct Hf as (_ & _ & H32). destruct (Z.eqb_spec type fa) as [E|E]; [rewrite (H32 (or_introl E)); reflexivity|].
    destruct (Z.eqb_spec type XCB_ATOM_ATOM) as [E'|E']; [rewrite (H32 (or_intror E')); reflexivity|reflexivity]. }
  set (x1 := with_server sv1 x). assert (coherent x1) as Hx1 by (apply coherent_grows; assumption).
  unfold mbind at 1, ST_bind at 1. rewrite (convert_elements_ok x1 p fa t vs ws rs Hx1 Hlog).
  2: rewrite Ht, Hfm; exact Hf.
  2: { rewrite Ht, Hfm. eapply Forall3_impl; [exact Hst|]. intros v w r Hs. destruct Hs; econstructor; eassumption. }
  assert (item_data (map Some ws) x1 = Done ws x1) as Hd.
  { destruct Hst as [|v w r vs' ws' rs' _ _]; [destruct (Hvs eq_refl)|]. unfold item_data. cbn [map].
    unfold mret, ST_ret. do 2 f_equal. rewrite List.map_map. apply List.map_id. }
  unfold mbind at 1, ST_bind at 1. rewrite Hd. unfold mbind, ST_bind, request.
  destruct (change_property_ok dev format a type ws (x_server x1)) as [Hg2 Hch].
  specialize (Hnoerr (x_server x1)). destruct (xi_change_property dev format a type ws (x_server x1)) as [e sv2].
  cbn [fst snd] in *. subst e. exists sv2. split; [reflexivity|]. split; [|apply Hch; reflexivity].
  intros b n Hb. apply Hg2, Hg1, Hb.
Qed.

Lemma get_prop_ok dev key t vs ws rs a fa type format x :
  coherent x → x_logm x = true → AtomEntry key a ∈ x_byatom x → AtomEntry "FLOAT" fa ∈ x_byatom x →
  prop_of (x_server x) dev a = Some (type, format, ws) → format_ok fa type format →
  vs ≠ [] → Forall3 (stored x fa type format t) vs ws rs →
  ∃ et x', elem_type_of fa type = Some et ∧
    di_xorg_xinput_get_prop true dev (Some key) x =
      Done (PropValue (match rs with [v] => v | _ => VArray et false rs end)) x'.
Proof.
  intros Hx Hlog Hkey Hfl Hprop Hf Hvs Hst.
  assert (type ≠ XCB_ATOM_NONE ∧ type ≠ XCB_ATOM_STRING ∧ ∃ et, elem_type_of fa type = Some et) as (Hn & Hns & et & Het).
  { destruct Hst as [|v w r vs' ws' rs' Hs _]; [destruct (Hvs eq_refl)|]. apply (stored_type _ _ _ _ _ _ _ _ Hf Hs). }
  exists et. unfold di_xorg_xinput_get_prop. cbn [negb].
  rewrite (intern_or_cached x key a _ _ Hx Hlog Hkey). unfold mbind at 1, ST_bind at 1.
  rewrite (intern_cached x "FLOAT" fa Hx Hlog Hfl). cbn [fst].
  destruct (get_property_ok dev a 0 (x_server x)) as (p & sv1 & Hget & Hg1 & Hpr1 & Hp). rewrite Hprop in Hp.
  destruct Hp as (Ht & Hfm & _ & Hba). unfold mbind at 1, ST_bind at 1, request at 1. rewrite Hget.
  unfold mbind at 1, ST_bind at 1, from_opt at 1. cbn [mret ST_ret]. rewrite Ht, (proj2 (Z.eqb_neq _ _) Hn).
  unfold mbind at 1, ST_bind at 1, request at 1. cbn [x_server with_server].
  destruct (get_property_ok dev a (xp_bytes_after p) sv1) as (q & sv2 & Hget2 & Hg2 & _ & Hq). rewrite Hpr1, Hprop in Hq.
  destruct Hq as (Hqt & Hqf & Hqi & _). rewrite Hget2.
  unfold mbind at 1, ST_bind at 1, from_opt at 1. cbn [mret ST_ret]. rewrite Hqt, (proj2 (Z.eqb_neq _ _) Hn), Het, Hqf.
  destruct Hf as (Hfa & Hfv & H32).
  replace ((format =? 8) || (format =? 16) || (format =? 32)) with true by (destruct Hfv as [-> |[-> | ->]]; reflexivity). cbn [negb].
  assert (((type =? fa) || (type =? XCB_ATOM_ATOM)) && negb (format =? 32) = false) as ->.
  { destruct (Z.eqb_spec type fa) as [E|E]; [rewrite (H32 (or_introl E)); reflexivity|].
    destruct (Z.eqb_spec type XCB_ATOM_ATOM) as [E'|E']; [rewrite (H32 (or_intror E')); reflexivity|reflexivity]. }
  rewrite (proj2 (Z.eqb_neq _ _) Hns).
  assert (xp_items q = ws) as Hi.
  { rewrite Hqi, Hba. apply take_ge. destruct Hfv as [-> |[-> | ->]]; Z.div_mod_to_equations; lia. }
  set (x2 := with_server sv2 (with_server sv1 x)).
  assert (coherent x2) as Hx2 by (apply coherent_grows; [apply coherent_grows; assumption|exact Hg2]).
  unfold mbind, ST_bind. rewrite Hi, (read_words_ok x2 fa type format t vs ws rs et Hx2); try assumption.
  - eexists. split; reflexivity.
  - split; [exact Hfa|]. split; [exact Hfv|exact H32].
  - eapply Forall3_impl; [exact Hst|]. intros v w r Hs. destruct Hs; econstructor; eassumption.
Qed.

(** C16. Setting a property of an input device and getting it gives the values
    back: integers as non-negative numbers modulo 2^8, 2^16 or 2^32 by the format
    of the property (so that -1 comes back as 255, 65535 or 4294967295), floats
    rounded to 32 bits, atoms by their names; a single value is not an array. *)
Theorem xi_prop_roundtrip dev key var t vs ws rs a fa type format old x :
  coherent x → x_logm x = true → AtomEntry key a ∈ x_byatom x → AtomEntry "FLOAT" fa ∈ x_byatom x →
  prop_of (x_server x) dev a = Some (type, format, old) → format_ok fa type format →
  elements_of var = (t, vs) → vs ≠ [] → Forall3 (stored x fa type format t) vs ws rs →
  (∀ sv, (xi_change_property dev format a type ws sv).1 = false) →
  ∃ x1 x2 et, di_xorg_xinput_set_prop true dev (Some key) var x = Done tt x1 ∧ elem_type_of fa type = Some et ∧
    di_xorg_xinput_get_prop true dev (Some key) x1 =
      Done (PropValue (match rs with [v] => v | _ => VArray et false rs end)) x2.
Proof.
  intros Hx Hlog Hkey Hfl Hprop Hf Hel Hvs Hst Hnoerr.
  destruct (set_prop_ok dev key var t vs ws rs a fa type format old x) as (sv & Hset & Hg & Hnew); try assumption.
  destruct (get_prop_ok dev key t vs ws rs a fa type format (with_server sv x)) as (et & x2 & Het & Hget); try assumption.
  - apply coherent_grows; assumption.
  - eapply Forall3_impl; [exact Hst|]. intros v w r Hs. destruct Hs; econstructor; eassumption.
  - exists (with_server sv x), x2, et. auto.
Qed.
End properties.

(** ** A server with devices

    What is sent is kept: the mask with the mark -1, a property as its device, its
    atom, its type, its format and its words. *)
Definition sent_mask (sv : demo_x) : list Z :=
  match List.find (λ l, match l with -1 :: _ => true | _ => false end) (dx_sent sv) with Some (_ :: m) => m | _ => [] end.

Definition is_prop (dev a : Z) (l : list Z) : bool :=
  match l with d :: b :: _ :: _ :: _ => (d =? dev) && (b =? a) | _ => false end.

Definition demo_prop (sv : demo_x) (dev a : Z) : option (Z * Z * list Z) :=
  match List.find (is_prop dev a) (dx_sent sv) with Some (_ :: _ :: t :: f :: ws) => Some (t, f, ws) | _ => None end.

Definition demo_send (l : list Z) (sv : demo_x) : demo_x := DemoX (dx_atoms sv) (dx_resource sv) (l :: dx_sent sv).

#[export] Instance demo_xinput : XInputServer demo_xserver := {|
  xi_select_events m sv := (false, demo_send (-1 :: m) sv);
  xi_get_property dev a n sv :=
    (Some (match demo_prop sv dev a with
           | None => XiProperty 0 0 0 []
           | Some (t, f, ws) =>
               XiProperty t f (Z.max 0 (Z.of_nat (length ws) * f / 8 - 4 * n)) (take (Z.to_nat (n * 32 / f)) ws)
           end), sv);
  xi_change_property dev f a t ws sv := (false, demo_send (dev :: a :: t :: f :: ws) sv);
  xi_query_device _ sv := (Some [], sv);
  list_input_devices sv := (Some [], sv)
|}.

#[export] Instance demo_props_ok : XPropertiesOk demo_xserver demo_xserver_ok demo_xinput.
Proof.
  refine {| prop_of := (demo_prop : @xserver demo_xserver → _) |}.
  - intros dev a n sv. eexists _, sv. split; [reflexivity|]. split; [intros ? ? H; exact H|]. split; [reflexivity|].
    destruct (demo_prop sv dev a) as [[[t f] ws]|]; [|reflexivity]. repeat split.
  - intros dev f a t ws sv. split; [intros ? ? H; exact H|]. intros _. cbn. unfold demo_prop, demo_send, is_prop.
    cbn [dx_sent List.find]. rewrite !Z.eqb_refl. reflexivity.
Defined.

(** Two listeners of one event, one of another; one of each is left or none. *)
Lemma listening_mask_witness :
  match for_each do_listen [(true, 11); (true, 11); (true, 3); (false, 11); (false, 3)] (new_masks demo_connection) with
  | Done _ s => get_mask (xi_mask s) 11 = true ∧ get_mask (xi_mask s) 3 = false ∧ sent_mask (x_server (xi_conn s)) = [0; 8; 0; 0]
  | _ => False
  end.
Proof.
  destruct (listening_mask (X := demo_xserver) (XI := demo_xinput) (sent_mask : @xserver demo_xserver → _)
              (λ m sv, conj eq_refl eq_refl) [(true, 11); (true, 11); (true, 3); (false, 11); (false, 3)] demo_connection)
    as (s & E & Hm & Hs).
  - cbn. unfold XI_LASTEVENT. lia.
  - rewrite E. split; [apply (Hm 11); unfold XI_LASTEVENT; lia|]. split; [apply (Hm 3); unfold XI_LASTEVENT; lia|].
    change (@x_server demo_xserver) with (λ x : @xconnection demo_xserver, x_server x). cbv beta.
    etransitivity; [apply Hs; discriminate|]. vm_compute in E. injection E as <-. reflexivity.
Defined.

(** A device with the properties 2, two integers of 8 bits, and 3, a float. *)
Definition demo_device : xconnection :=
  XConnection [AtomEntry "Buttons" 2; AtomEntry "FLOAT" 70] [AtomEntry "Buttons" 2; AtomEntry "FLOAT" 70]
    (DemoX (["PRIMARY"; "Buttons"]%string ++ repeat "x"%string 67 ++ ["FLOAT"%string]) "" [[5; 2; 19; 8; 0; 0]]) true [].

Lemma xi_prop_roundtrip_witness :
  match di_xorg_xinput_set_prop true 5 (Some "Buttons"%string) (VArray DI_TYPE_INT false [VInt (-1); VInt 300; VInt 7]) demo_device with
  | Done _ x1 =>
      match di_xorg_xinput_get_prop true 5 (Some "Buttons"%string) x1 with
      | Done r _ => r = PropValue (VArray DI_TYPE_INT false [VInt 255; VInt 44; VInt 7])
      | _ => False
      end
  | _ => False
  end.
Proof.
  assert (coherent demo_device) as Hc.
  { constructor; [reflexivity|apply (bool_decide_unpack _); vm_compute; reflexivity|].
    intros ae [->|[->|H]%elem_of_cons]%elem_of_cons; [split; [discriminate|reflexivity]..|inversion H]. }
  assert (format_ok 70 19 8) as Hf by (split; [lia|]; split; [lia|]; unfold XCB_ATOM_ATOM; lia).
  assert (∀ z, stored demo_device 70 19 8 DI_TYPE_INT (VInt z) (wrap_u 8 z) (VInt (wrap_u 8 z))) as Hz.
  { intros z. apply (stored_int demo_device 70 19 8 DI_TYPE_INT (VInt z) z); [left; reflexivity|reflexivity..]. }
  pose proof (Forall3_cons _ _ _ _ _ _ _ (Hz (-1)) (Forall3_cons _ _ _ _ _ _ _ (Hz 300)
    (Forall3_cons _ _ _ _ _ _ _ (Hz 7) (Forall3_nil _)))) as Hst.
  assert (AtomEntry "Buttons" 2 ∈ x_byatom demo_device) as H1 by left.
  assert (AtomEntry "FLOAT" 70 ∈ x_byatom demo_device) as H2 by (right; left).
  assert (prop_of (XPropertiesOk := demo_props_ok) (x_server demo_device) 5 2 = Some (19, 8, [0; 0])) as Hp
    by (vm_compute; reflexivity).
  destruct (xi_prop_roundtrip (XO := demo_xserver_ok) (XP := demo_props_ok) 5 "Buttons" (VArray DI_TYPE_INT false [VInt (-1); VInt 300; VInt 7])
    DI_TYPE_INT _ _ _ 2 70 19 8 [0; 0] demo_device Hc eq_refl H1 H2 Hp Hf eq_refl ltac:(discriminate) Hst (λ _, eq_refl))
    as (x1 & x2 & et & E1 & Het & E2).
  rewrite E1, E2. injection Het as <-. reflexivity.
Defined.
