(* ===== verification/Randr.v ===== *)
(** * Screens (plugins/xorg/randr.c)

    Outputs, views (which RandR calls CRTCs) and modes: how they are read from the
    server, how a view is configured, and what the events of the extension change.
    The requests of RandR are a parameter. *)

From S2P Require Import Prelude.
From S2P Require Import Text.
From S2P Require Import DiTypes.
From S2P Require Import Strings.
From S2P Require Import Conv.
From S2P Require Import Xorg.
From S2P Require Import XInput.

Local Open Scope Z_scope.

(** ** The extension of the X server *)

Record crtc_info := CrtcInfo {
  ci_status : Z;
  ci_timestamp : Z;
  ci_x : Z;
  ci_y : Z;
  ci_width : Z;
  ci_height : Z;
  ci_rotation : Z;
  ci_outputs : list Z
}.

Record output_reply := OutputReply {
  oi_status : Z;
  oi_crtc : Z;
  oi_connection : Z;
  oi_mm_width : Z;
  oi_mm_height : Z;
  oi_subpixel_order : Z;
  oi_name : string
}.

(** The data of a property as words of its format. *)
Record output_property := OutputProperty { or_type : Z; or_format : Z; or_items : list Z }.

Record mode_info := ModeInfo { mi_id : Z; mi_width : Z; mi_height : Z }.
Record screen_resources := ScreenResources { sr_config_timestamp : Z; sr_outputs : list Z; sr_modes : list mode_info }.

(** What is to be set in a CRTC: position, mode and rotation. *)
Record crtc_config := CrtcConfig { cc_x : Z; cc_y : Z; cc_mode : Z; cc_rotation : Z }.

(** [None] is a null reply; [true] is an error.  The requests about a screen are
    for the default one. *)
Class RandrServer (X : XServer) := {
  rr_get_crtc_info : Z → Z → xserver → option crtc_info * xserver;
  rr_set_crtc_config : Z → Z → Z → crtc_config → list Z → xserver → option Z * xserver;
  rr_get_output_info : Z → Z → xserver → option output_reply * xserver;
  rr_get_output_property : Z → Z → xserver → option output_property * xserver;
  rr_change_output_property : Z → Z → Z → xserver → bool * xserver;
  rr_query_output_property : Z → Z → xserver → option (list Z) * xserver;
  rr_get_screen_resources_current : xserver → option screen_resources * xserver;
  rr_select_events : Z → xserver → bool * xserver
}.

Definition XCB_RANDR_ROTATION_ROTATE_0 : Z := 1.
Definition XCB_RANDR_ROTATION_ROTATE_90 : Z := 2.
Definition XCB_RANDR_ROTATION_ROTATE_180 : Z := 4.
Definition XCB_RANDR_ROTATION_ROTATE_270 : Z := 8.
Definition XCB_RANDR_ROTATION_REFLECT_X : Z := 16.
Definition XCB_RANDR_ROTATION_REFLECT_Y : Z := 32.
Definition XCB_RANDR_SET_CONFIG_INVALID_TIME : Z := 2.
Definition XCB_RANDR_NOTIFY_CRTC_CHANGE : Z := 0.
Definition XCB_RANDR_NOTIFY_OUTPUT_CHANGE : Z := 1.

(** The objects of the extension, with the members that are fields of theirs;
    [EmptyObject] has no members but those of every object. *)
Inductive robject : Type :=
  | EmptyObject
  | OutputInfo (connection mm_width mm_height subpixel_order : Z) (name : string)
  | ViewConfig (x y width height rotation reflection : Z)
  | Output (oid : Z)
  | View (cid : Z)
  | Mode (id width height : Z).

(** [struct di_array] of objects; the empty array has the element type [ANY]. *)
Definition robjects : Type := di_type * list robject.
Definition no_objects : robjects := (DI_TYPE_ANY, []).

(** The rotation of a view, as a number and as bits of a reply. *)
Definition rotation_of (rot : Z) : Z :=
  if negb (Z.land rot XCB_RANDR_ROTATION_ROTATE_0 =? 0) then 0
  else if negb (Z.land rot XCB_RANDR_ROTATION_ROTATE_90 =? 0) then 1
  else if negb (Z.land rot XCB_RANDR_ROTATION_ROTATE_180 =? 0) then 2
  else if negb (Z.land rot XCB_RANDR_ROTATION_ROTATE_270 =? 0) then 3
  else 0.

Definition reflection_of (rot : Z) : Z :=
  if negb (Z.land rot XCB_RANDR_ROTATION_REFLECT_X =? 0) then
    if negb (Z.land rot XCB_RANDR_ROTATION_REFLECT_Y =? 0) then 3 else 1
  else if negb (Z.land rot XCB_RANDR_ROTATION_REFLECT_Y =? 0) then 2
  else 0.

(** The [switch] and the two conditions of [set_view_config]; [None] where it
    returns. *)
Definition rr_rot (rotation reflection : Z) : option Z :=
  base ← (if rotation =? 0 then Some XCB_RANDR_ROTATION_ROTATE_0
          else if rotation =? 1 then Some XCB_RANDR_ROTATION_ROTATE_90
          else if rotation =? 2 then Some XCB_RANDR_ROTATION_ROTATE_180
          else if rotation =? 3 then Some XCB_RANDR_ROTATION_ROTATE_270
          else None);
  let rr_rot := if Z.land reflection 1 =? 0 then base else Z.lor base XCB_RANDR_ROTATION_REFLECT_X in
  Some (if Z.land reflection 2 =? 0 then rr_rot else Z.lor rr_rot XCB_RANDR_ROTATION_REFLECT_Y).

(** [di_gets] of an integer: what the member is, converted to the type of the
    variable; [None] where it returns. *)
Definition get_number (cfg : string → option value) (prop : string) (t : di_type) : option Z :=
  v ← cfg prop;
  if bool_decide (type_of v = t) then snd <$> int_field v
  else
    _ ← int_field v;
    match integer_conversion v t with inr w => snd <$> int_field w | inl _ => None end.

Definition in_int16 (z : Z) : bool := negb ((z <? - 2 ^ 15) || (z >? 2 ^ 15 - 1)).

(** The first part of [set_view_config]: what is asked for, if it can be. *)
Definition read_config (cfg : string → option value) : option crtc_config :=
  x ← get_number cfg "x" DI_TYPE_NINT;
  y ← get_number cfg "y" DI_TYPE_NINT;
  mode ← get_number cfg "mode" DI_TYPE_NUINT;
  rotation ← get_number cfg "rotation" DI_TYPE_NINT;
  reflection ← get_number cfg "reflection" DI_TYPE_NINT;
  if negb (in_int16 x) then None
  else if negb (in_int16 y) then None
  else rot ← rr_rot rotation reflection; Some (CrtcConfig x y mode rot).

Section randr.
Context {X : XServer} {XE : XExtensions X} {RR : RandrServer X}.

(** [struct di_xorg_randr]; [rr_dc] tells whether [dc] is not null. *)
Record randr := Randr {
  rr_dc : bool;
  rr_opcode : Z;
  rr_evbase : Z;
  rr_cts : Z;
  rr_conn : xconnection
}.

Definition on_dc {A} (m : ST xconnection A) : ST randr A := λ s,
  match m (rr_conn s) with
  | Done a x => Done a (Randr (rr_dc s) (rr_opcode s) (rr_evbase s) (rr_cts s) x)
  | Crash c => Crash c
  | NoFuel => NoFuel
  end.

Definition rr_request {A} (f : xserver → A * xserver) : ST randr A := on_dc (request f).

Definition set_cts (cts : Z) : ST randr unit :=
  modify (λ s, Randr (rr_dc s) (rr_opcode s) (rr_evbase s) cts (rr_conn s)).

(** What is returned when there is no connection. *)
Definition with_dc {A} (none : A) (m : ST randr A) : ST randr A :=
  s ← get; if rr_dc s then m else mret none.

(** ** Objects *)

(** [make_object_for_output], [make_object_for_view], [make_object_for_modes] *)
Definition make_object_for_output (oid : Z) : ST randr robject :=
  s ← get; check (rr_dc s);; mret (Output oid).
Definition make_object_for_view (cid : Z) : ST randr robject :=
  s ← get; check (rr_dc s);; mret (View cid).
Definition make_object_for_modes (m : mode_info) : robject := Mode (mi_id m) (mi_width m) (mi_height m).

(** [get_output_info]: the name is copied up to a NUL byte. *)
Definition get_output_info (oid : Z) : ST randr robject :=
  with_dc EmptyObject
    (s ← get;
     r ← rr_request (rr_get_output_info oid (rr_cts s));
     mret (match r with
           | None => EmptyObject
           | Some r =>
               if negb (oi_status r =? 0) then EmptyObject
               else OutputInfo (wrap_s 32 (oi_connection r)) (wrap_u 32 (oi_mm_width r)) (wrap_u 32 (oi_mm_height r))
                      (wrap_s 32 (oi_subpixel_order r)) (till_nul (oi_name r))
           end)).

Definition get_output_view (oid : Z) : ST randr robject :=
  with_dc EmptyObject
    (s ← get;
     r ← rr_request (rr_get_output_info oid (rr_cts s));
     match r with
     | None => mret EmptyObject
     | Some r =>
         if negb (oi_status r =? 0) || (oi_crtc r =? 0) then mret EmptyObject
         else make_object_for_view (oi_crtc r)
     end).

(** [get_view_config]: the fields of an object are zero before they are set. *)
Definition get_view_config (cid : Z) : ST randr robject :=
  with_dc EmptyObject
    (s ← get;
     cr ← rr_request (rr_get_crtc_info cid (rr_cts s));
     mret (match cr with
           | None => EmptyObject
           | Some cr =>
               if negb (ci_status cr =? 0) then EmptyObject
               else ViewConfig (ci_x cr) (ci_y cr) (ci_width cr) (ci_height cr)
                      (rotation_of (ci_rotation cr)) (reflection_of (ci_rotation cr))
           end)).

(** One round from the label [retry]: [Some] goes back to it. *)
Definition try_config (cid : Z) (c : crtc_config) : ST randr (option unit) :=
  s ← get;
  cr ← rr_request (rr_get_crtc_info cid (rr_cts s));
  match cr with
  | None => mret None
  | Some cr =>
      if negb (ci_status cr =? 0) then mret None
      else
        scr ← rr_request (rr_set_crtc_config cid (ci_timestamp cr) (rr_cts s) c (ci_outputs cr));
        mret (match scr with
              | None => None
              | Some status => if status =? XCB_RANDR_SET_CONFIG_INVALID_TIME then Some tt else None
              end)
  end.

(** [set_view_config] with the members of [cfg]. *)
Definition set_view_config (fuel : nat) (cid : Z) (cfg : string → option value) : ST randr unit :=
  with_dc tt
    (match read_config cfg with
     | None => mret tt
     | Some c => while_some fuel (λ _, try_config cid c) tt
     end).

(** [di_xorg_intern_atom] of the name of the property. *)
Definition backlight_atom {A} (err : ST randr A) (f : Z → ST randr A) : ST randr A :=
  r ← on_dc (di_xorg_intern_atom (Some "Backlight"%string));
  match r.2 with
  | Unwritten => fail Uninit
  | ErrorPtr => err
  | NullPtr => f r.1
  end.

Definition get_output_backlight (oid : Z) : ST randr Z :=
  with_dc 0
    (backlight_atom (mret (-1)) (λ bklatom,
       r ← rr_request (rr_get_output_property oid bklatom);
       mret (match r with
             | None => -1
             | Some r =>
                 if negb (or_type r =? XCB_ATOM_INTEGER) || negb (or_format r =? 32) then -1
                 else match or_items r with [w] => wrap_s 32 w | _ => -1 end
             end))).

(** [set_output_backlight]; the log module may be missing. *)
Definition set_output_backlight (oid bkl : Z) : ST randr unit :=
  with_dc tt
    (backlight_atom (mret tt) (λ bklatom,
       e ← rr_request (rr_change_output_property oid bklatom (wrap_u 32 bkl));
       if e : bool then on_dc (log_if "Failed to set backlight") else mret tt)).

Definition get_output_max_backlight (oid : Z) : ST randr Z :=
  with_dc 0
    (backlight_atom (mret (-1)) (λ bklatom,
       r ← rr_request (rr_query_output_property oid bklatom);
       mret (match r with Some [_; vv1] => wrap_s 32 vv1 | _ => -1 end))).

(** [get_view_outputs]: the reply is not compared with null. *)
Definition get_view_outputs (cid : Z) : ST randr robjects :=
  with_dc no_objects
    (s ← get;
     r ← rr_request (rr_get_crtc_info cid (rr_cts s));
     r ← from_opt NullDeref r;
     l ← collect make_object_for_output (ci_outputs r);
     mret (DI_TYPE_OBJECT, l)).

Definition rr_outputs : ST randr robjects :=
  with_dc no_objects
    (sr ← rr_request rr_get_screen_resources_current;
     match sr with
     | None => mret no_objects
     | Some sr => l ← collect make_object_for_output (sr_outputs sr); mret (DI_TYPE_OBJECT, l)
     end).

Definition rr_modes : ST randr robjects :=
  with_dc no_objects
    (sr ← rr_request rr_get_screen_resources_current;
     mret (match sr with
           | None => no_objects
           | Some sr => (DI_TYPE_OBJECT, map make_object_for_modes (sr_modes sr))
           end)).

(** ** Events *)

(** The fields of an event that are read: the time of the configuration in a
    change of the screen or of an output, and what changed. *)
Record randr_event := RandrEvent { ev_response_type : Z; ev_subcode : Z; ev_id : Z; ev_config_timestamp : Z }.

(** [handle_randr_event]: what is returned, and emitted with what [cts] is at that
    time. *)
Definition handle_randr_event (ev : randr_event) : ST randr (Z * list (string * robject * Z)) :=
  s ← get;
  if ev_response_type ev =? rr_evbase s then
    set_cts (ev_config_timestamp ev);; mret (0, [])
  else if ev_response_type ev =? rr_evbase s + 1 then
    if ev_subcode ev =? XCB_RANDR_NOTIFY_OUTPUT_CHANGE then
      o ← make_object_for_output (ev_id ev);
      set_cts (ev_config_timestamp ev);;
      mret (0, [("output-change"%string, o, rr_cts s)])
    else if ev_subcode ev =? XCB_RANDR_NOTIFY_CRTC_CHANGE then
      o ← make_object_for_view (ev_id ev);
      mret (0, [("view-change"%string, o, rr_cts s)])
    else mret (0, [])
  else mret (1, []).

(** [rr_select_input]; nothing is logged without the log module. *)
Definition rr_select_input (mask : Z) : ST randr unit :=
  with_dc tt
    (e ← rr_request (rr_select_events mask);
     if e : bool then on_dc (log_if "randr select input failed") else mret tt).

Definition free_randr : ST randr unit := rr_select_input 0.

(** [new_randr] for a connection; [None] is a null pointer. *)
Definition new_randr : ST xconnection (option randr) :=
  there ← xorg_has_extension "RANDR";
  if negb there then mret None
  else
    r ← request (query_extension "RANDR");
    match r with
    | None => mret None
    | Some (major_opcode, first_event) =>
        sr ← request rr_get_screen_resources_current;
        match sr with
        | None => mret None
        | Some sr =>
            rr ← new_extension (Randr true major_opcode first_event (sr_config_timestamp sr)) rr_conn (rr_select_input 7);
            mret (Some rr)
        end
    end.
End randr.

(** ** Rotation and reflection as bits *)

Lemma land_bounds z : 0 ≤ Z.land z 3 < 4.
Proof. change 3 with (Z.ones 2). rewrite Z.land_ones by lia. apply Z.mod_pos_bound. lia. Qed.

Lemma rr_rot_bits rotation reflection :
  0 ≤ rotation < 4 →
  ∃ rot, rr_rot rotation reflection = Some rot ∧ rotation_of rot = rotation ∧ reflection_of rot = Z.land reflection 3.
Proof.
  intros Hr. pose proof (land_bounds reflection) as Hk. unfold rr_rot.
  change (Z.land reflection 1) with (Z.land reflection (Z.land 3 1)).
  change (Z.land reflection 2) with (Z.land reflection (Z.land 3 2)).
  rewrite !Z.land_assoc. set (k := Z.land reflection 3) in *. clearbody k.
  assert (k = 0 ∨ k = 1 ∨ k = 2 ∨ k = 3) as [-> |[-> |[-> | ->]]] by lia;
    (assert (rotation = 0 ∨ rotation = 1 ∨ rotation = 2 ∨ rotation = 3) as [-> |[-> |[-> | ->]]] by lia);
    eexists; (split; [reflexivity|]); split; reflexivity.
Qed.

Lemma read_config_some cfg x y mode rotation reflection :
  get_number cfg "x" DI_TYPE_NINT = Some x → get_number cfg "y" DI_TYPE_NINT = Some y →
  get_number cfg "mode" DI_TYPE_NUINT = Some mode →
  get_number cfg "rotation" DI_TYPE_NINT = Some rotation → get_number cfg "reflection" DI_TYPE_NINT = Some reflection →
  - 2 ^ 15 ≤ x < 2 ^ 15 → - 2 ^ 15 ≤ y < 2 ^ 15 → 0 ≤ rotation < 4 →
  ∃ c, read_config cfg = Some c ∧ cc_x c = x ∧ cc_y c = y ∧ cc_mode c = mode ∧
    rr_rot rotation reflection = Some (cc_rotation c).
Proof.
  intros Hx Hy Hm Hrot Href Rx Ry Rr. unfold read_config. rewrite Hx, Hy, Hm, Hrot, Href. cbn [mbind option_bind].
  assert (in_int16 x = true) as -> by (unfold in_int16; lia). assert (in_int16 y = true) as -> by (unfold in_int16; lia).
  destruct (rr_rot_bits rotation reflection Rr) as (rot & -> & _ & _). eexists. split; [reflexivity|]. auto.
Qed.

(** The members of a configuration as it is reported: the types of the fields are
    those of [struct di_xorg_view_config]. *)
Definition members_of (o : robject) (prop : string) : option value :=
  match o with
  | ViewConfig x y width height rotation reflection =>
      if String.eqb prop "x" then Some (VInt x) else if String.eqb prop "y" then Some (VInt y)
      else if String.eqb prop "width" then Some (VUInt width) else if String.eqb prop "height" then Some (VUInt height)
      else if String.eqb prop "rotation" then Some (VUInt rotation)
      else if String.eqb prop "reflection" then Some (VUInt reflection)
      else None
  | _ => None
  end.

(** ** A configuration that is set is the one that is reported

    What is relied on.  [can_set sv cid cts c]: the CRTC is there under the
    configuration of time [cts], and can be configured as [c].  [configured]: so it
    is.  [races] counts the times that other clients will still get in between:
    the time of the reply is then out of date, and so the request is refused. *)
Class RandrOk (X : XServer) (RR : RandrServer X) := {
  can_set : xserver → Z → Z → crtc_config → Prop;
  configured : xserver → Z → Z → crtc_config → Prop;
  races : xserver → nat;
  get_crtc_info_ok sv cid cts c :
    can_set sv cid cts c →
    ∃ i sv', rr_get_crtc_info cid cts sv = (Some i, sv') ∧ ci_status i = 0 ∧ can_set sv' cid cts c ∧ races sv' = races sv;
  set_crtc_config_ok sv cid t cts c outputs :
    can_set sv cid cts c →
    ∃ status sv', rr_set_crtc_config cid t cts c outputs sv = (Some status, sv') ∧
      (status = XCB_RANDR_SET_CONFIG_INVALID_TIME ∧ can_set sv' cid cts c ∧ (races sv' < races sv)%nat ∨
       status ≠ XCB_RANDR_SET_CONFIG_INVALID_TIME ∧ configured sv' cid cts c);
  get_configured_ok sv cid cts c :
    configured sv cid cts c →
    ∃ i sv', rr_get_crtc_info cid cts sv = (Some i, sv') ∧ ci_status i = 0 ∧
      ci_x i = cc_x c ∧ ci_y i = cc_y c ∧ ci_rotation i = cc_rotation c
}.

Section config.
Context {X : XServer} {RR : RandrServer X} {RO : RandrOk X RR}.
Implicit Types (s : randr).

(** The server that [s] is connected to. *)
Definition server_of s : xserver := x_server (rr_conn s).

(** A step of the loop keeps the object, and either it is the last one or another
    client has got in between. *)
Lemma try_config_ok cid c s :
  can_set (server_of s) cid (rr_cts s) c →
  ∃ r s', try_config cid c s = Done r s' ∧ rr_dc s' = rr_dc s ∧ rr_cts s' = rr_cts s ∧
    match r with
    | Some _ => can_set (server_of s') cid (rr_cts s') c ∧ (races (server_of s') < races (server_of s))%nat
    | None => configured (server_of s') cid (rr_cts s') c
    end.
Proof.
  intros Hc. destruct (get_crtc_info_ok _ _ _ _ Hc) as (i & sv & Hget & Hst & Hc1 & Hr).
  unfold try_config, get, rr_request, on_dc, request, mbind, ST_bind. unfold server_of in *. rewrite Hget, Hst. cbn.
  destruct (set_crtc_config_ok sv cid (ci_timestamp i) (rr_cts s) c (ci_outputs i) Hc1)
    as (status & sv' & -> & [(-> & Hc2 & Hlt)|(Hne & Hdone)]).
  - eexists _, _. split; [reflexivity|]. split; [reflexivity|]. split; [reflexivity|]. split; [exact Hc2|]. cbn. lia.
  - rewrite (proj2 (Z.eqb_neq _ _) Hne). eexists _, _. split; [reflexivity|]. auto.
Qed.

Lemma retry_ok cid c n s :
  (races (server_of s) ≤ n)%nat → can_set (server_of s) cid (rr_cts s) c →
  ∃ s', (∀ fuel, (n < fuel)%nat → while_some fuel (λ _, try_config cid c) tt s = Done tt s') ∧ rr_dc s' = rr_dc s ∧
    configured (server_of s') cid (rr_cts s') c.
Proof.
  revert s. induction n as [|n IH]; intros s Hn Hc;
    destruct (try_config_ok cid c s Hc) as (r & s1 & E & Hdc & Hcts & Hr).
  - destruct r as [[]|]; [destruct Hr; lia|]. exists s1. split; [|auto]. intros [|fuel] Hf; [lia|].
    cbn [while_some]. unfold mbind, ST_bind. rewrite E. reflexivity.
  - destruct r as [[]|].
    + destruct Hr as [Hc1 Hlt]. destruct (IH s1) as (s2 & E2 & Hdc2 & Hc2); [lia|exact Hc1|].
      exists s2. split; [|split; [congruence|exact Hc2]]. intros [|fuel] Hf; [lia|].
      cbn [while_some]. unfold mbind, ST_bind. rewrite E. apply E2. lia.
    + exists s1. split; [|auto]. intros [|fuel] Hf; [lia|].
      cbn [while_some]. unfold mbind, ST_bind. rewrite E. reflexivity.
Qed.

(** The rotation of [struct di_xorg_view_config] is never converted. *)
Lemma uint_to_nint cfg prop z : cfg prop = Some (VUInt z) → get_number cfg prop DI_TYPE_NINT = None.
Proof.
  intros H. unfold get_number. rewrite H. cbn [mbind option_bind type_of int_field].
  unfold integer_conversion. cbn [type_of]. rewrite !bool_decide_false by discriminate.
  unfold convert_switch, convert_case, c_gt, c_lt. cbn [int_field fst snd common_type INT_MAX INT_MIN conv_to].
  assert (0 ≤ wrap_u 64 z < 2 ^ 64) as Hz by (apply Z.mod_pos_bound; lia).
  change (wrap_u 64 (2 ^ 31 - 1)) with (2 ^ 31 - 1). change (wrap_u 64 (- 2 ^ 31)) with (2 ^ 64 - 2 ^ 31).
  destruct (Z.ltb_spec (2 ^ 31 - 1) (wrap_u 64 z)); [reflexivity|]. rewrite (proj2 (Z.ltb_lt _ _)) by lia. reflexivity.
Qed.

Lemma reported_refused x y w h r f m :
  read_config (λ p, if String.eqb p "mode" then m else members_of (ViewConfig x y w h r f) p) = None.
Proof.
  unfold read_config. rewrite (uint_to_nint _ "rotation" r) by reflexivity.
  destruct (get_number _ "x" _), (get_number _ "y" _), (get_number _ "mode" _); reflexivity.
Qed.

(** C17. What is set in a view is what it reports.  However often other clients get
    in between, setting a position of 16 bits, a mode, one of the four rotations and
    a reflection comes to an end; the view then reports the position, the rotation
    and the reflection, of which the two lowest bits count.  But a configuration as
    a view reports it is ignored when it is set, even with a mode added: its rotation
    is an unsigned number of 64 bits, which is never converted to [int]. *)
Theorem view_config_roundtrip (cid : Z) (cfg : string → option value) (x y mode rotation reflection : Z) (s : randr) :
  rr_dc s = true →
  get_number cfg "x" DI_TYPE_NINT = Some x → get_number cfg "y" DI_TYPE_NINT = Some y →
  get_number cfg "mode" DI_TYPE_NUINT = Some mode →
  get_number cfg "rotation" DI_TYPE_NINT = Some rotation → get_number cfg "reflection" DI_TYPE_NINT = Some reflection →
  - 2 ^ 15 ≤ x < 2 ^ 15 → - 2 ^ 15 ≤ y < 2 ^ 15 → 0 ≤ rotation < 4 →
  (∀ c, read_config cfg = Some c → can_set (server_of s) cid (rr_cts s) c) →
  ∃ s1 s2 width height,
    (∀ fuel, (races (server_of s) < fuel)%nat → set_view_config fuel cid cfg s = Done tt s1) ∧
    get_view_config cid s1 = Done (ViewConfig x y width height rotation (Z.land reflection 3)) s2 ∧
    ∀ fuel mode', set_view_config fuel cid
      (λ p, if String.eqb p "mode" then mode' else members_of (ViewConfig x y width height rotation (Z.land reflection 3)) p)
      s2 = Done tt s2.
Proof.
  intros Hdc Hx Hy Hm Hrot Href Rx Ry Rr Hcan.
  destruct (read_config_some cfg x y mode rotation reflection Hx Hy Hm Hrot Href Rx Ry Rr) as (c & Hc & <- & <- & _ & Hbits).
  destruct (rr_rot_bits rotation reflection Rr) as (rot & Erot & <- & <-). rewrite Hbits in Erot. injection Erot as <-.
  destruct (retry_ok cid c _ s (le_n _) (Hcan c Hc)) as (s1 & Hrun & Hdc1 & Hconf).
  destruct (get_configured_ok _ _ _ _ Hconf) as (i & sv & Hget & Hst & <- & <- & <-).
  exists s1. eexists _, (ci_width i), (ci_height i). split; [|split].
  - intros fuel Hfuel. unfold set_view_config, with_dc, get, mbind, ST_bind. rewrite Hdc, Hc. apply Hrun, Hfuel.
  - unfold get_view_config, with_dc, get, rr_request, on_dc, request, mbind, ST_bind. rewrite Hdc1, Hdc.
    unfold server_of in Hget. rewrite Hget, Hst. reflexivity.
  - intros fuel mode'. unfold set_view_config, with_dc, get, mbind, ST_bind. rewrite reported_refused. cbn [rr_dc].
    rewrite Hdc1, Hdc. reflexivity.
Qed.
End config.

(** ** A server with one screen

    What is sent is kept: a configuration as the mark -3, its CRTC and its numbers.
    A list with the mark -2 is another client that will get in between. *)
Definition config_numbers (cid : Z) (c : crtc_config) : list Z := [-3; cid; cc_x c; cc_y c; cc_mode c; cc_rotation c].

Fixpoint demo_races (l : list (list Z)) : nat :=
  match l with
  | [-2] :: l' => Datatypes.S (demo_races l')
  | _ => O
  end.

Definition demo_crtc (sv : demo_x) : crtc_info :=
  match dx_sent sv with
  | [-3; _; x; y; _; rot] :: _ => CrtcInfo 0 7 x y 1920 1080 rot [66]
  | _ => CrtcInfo 0 7 0 0 1920 1080 XCB_RANDR_ROTATION_ROTATE_0 [66]
  end.

Definition demo_set_config (cid : Z) (c : crtc_config) (sv : demo_x) : option Z * demo_x :=
  match dx_sent sv with
  | [-2] :: l => (Some XCB_RANDR_SET_CONFIG_INVALID_TIME, DemoX (dx_atoms sv) (dx_resource sv) l)
  | _ => (Some 0, demo_send (config_numbers cid c) sv)
  end.

#[export] Instance demo_randr : RandrServer demo_xserver := {|
  rr_get_crtc_info _ _ sv := (Some (demo_crtc sv), sv);
  rr_set_crtc_config cid _ _ c _ sv := demo_set_config cid c sv;
  rr_get_output_info _ _ sv := (Some (OutputReply 0 63 0 520 290 0 "DP-1"), sv);
  rr_get_output_property _ _ sv := (None, sv);
  rr_change_output_property o a w sv := (false, demo_send [-4; o; a; w] sv);
  rr_query_output_property _ _ sv := (None, sv);
  rr_get_screen_resources_current sv := (Some (ScreenResources 5 [66] [ModeInfo 70 1920 1080]), sv);
  rr_select_events mask sv := (false, demo_send [-5; mask] sv)
|}.

#[export] Instance demo_randr_ok : RandrOk demo_xserver demo_randr.
Proof.
  refine {| can_set := λ (_ : @xserver demo_xserver) _ _ _, True;
            configured := λ (sv : @xserver demo_xserver) cid _ c, ∃ l, dx_sent sv = config_numbers cid c :: l;
            races := λ (sv : @xserver demo_xserver), demo_races (dx_sent sv) |}.
  - intros sv cid cts c _. exists (demo_crtc sv), sv. split; [reflexivity|]. split; [|auto].
    unfold demo_crtc. repeat case_match; reflexivity.
  - intros sv cid t cts c outputs _. cbn. unfold demo_set_config.
    assert ((∃ l, dx_sent sv = [-2] :: l) ∨ demo_set_config cid c sv = (Some 0, demo_send (config_numbers cid c) sv)) as [[l E]|E].
    { unfold demo_set_config. repeat case_match; subst; eauto. }
    + rewrite E. eexists _, _. split; [reflexivity|]. left. cbn [dx_sent demo_races]. auto.
    + unfold demo_set_config in E. rewrite E. eexists _, _. split; [reflexivity|]. right.
      split; [discriminate|]. eexists. reflexivity.
  - intros sv cid cts c [l E]. exists (demo_crtc sv), sv. split; [reflexivity|]. unfold demo_crtc. rewrite E. auto.
Defined.

(** A view is moved and turned, and mirrored in both directions, while another
    client configures it twice. *)
Definition demo_screen : randr :=
  Randr true 140 89 5 (XConnection [] [] (DemoX [] "" [[-2]; [-2]]) true []).

Definition demo_config (p : string) : option value :=
  if String.eqb p "x" then Some (VInt (-1920)) else if String.eqb p "y" then Some (VInt 0)
  else if String.eqb p "mode" then Some (VInt 70) else if String.eqb p "rotation" then Some (VInt 1)
  else if String.eqb p "reflection" then Some (VInt 7) else None.

Lemma view_config_roundtrip_witness :
  match set_view_config 3 63 demo_config demo_screen with
  | Done _ s => match get_view_config 63 s with Done (ViewConfig x y w h r f) _ => (x, y, r, f) = (-1920, 0, 1, 3) | _ => False end
  | _ => False
  end.
Proof.
  destruct (view_config_roundtrip (RO := demo_randr_ok) 63 demo_config (-1920) 0 70 1 7 demo_screen) as (s1 & s2 & w & h & E1 & E2 & _);
    [vm_compute; reflexivity..|split; vm_compute; congruence|split; vm_compute; congruence|lia|intros; exact I|].
  rewrite E1 by (vm_compute; lia). rewrite E2. reflexivity.
Defined.
