(* ===== verification/LuaApi.v ===== *)
(** * The C interface of Lua

    The functions of the Lua library that plugins/lua/lua.c calls, as a parameter,
    with what the reference manual says of them: a stack of values, tables by
    reference with their raw contents, metatables, and blocks of userdata.  The
    garbage collector does not run during a call; what it does are steps of their
    own. *)

From S2P Require Import Prelude.
From S2P Require Import DiTypes.

Local Open Scope Z_scope.

(** Tables, functions and full userdata are references. *)
Inductive lua_value : Type :=
  | LNil
  | LBoolean (b : bool)
  | LInteger (z : Z)
  | LNumber (f : double)
  | LString (s : string)
  | LTable (t : nat)
  | LFunction (f : nat)
  | LUserdata (u : nat)
  | LLightUserdata (p : Z)
  | LThread (t : nat).

#[export] Instance lua_value_eq_dec : EqDecision lua_value.
Proof. solve_decision. Defined.

Inductive lua_tag : Type :=
  | LUA_TNIL | LUA_TBOOLEAN | LUA_TLIGHTUSERDATA | LUA_TNUMBER | LUA_TSTRING | LUA_TTABLE
  | LUA_TFUNCTION | LUA_TUSERDATA | LUA_TTHREAD.

#[export] Instance lua_tag_eq_dec : EqDecision lua_tag.
Proof. solve_decision. Defined.

Definition tag_of (x : lua_value) : lua_tag :=
  match x with
  | LNil => LUA_TNIL
  | LBoolean _ => LUA_TBOOLEAN
  | LInteger _ | LNumber _ => LUA_TNUMBER
  | LString _ => LUA_TSTRING
  | LTable _ => LUA_TTABLE
  | LFunction _ => LUA_TFUNCTION
  | LUserdata _ => LUA_TUSERDATA
  | LLightUserdata _ => LUA_TLIGHTUSERDATA
  | LThread _ => LUA_TTHREAD
  end.

(** The registry, a table, has an index of its own. *)
Definition LUA_REGISTRYINDEX : Z := -1001000.

(** ** The calls

    - [lua_at]: the value at an index, nil where there is none; [lua_type] and the
      functions [lua_to*] read it;
    - [lua_push]: the functions [lua_push*] for a value;
    - [lua_rawget], [lua_rawset], [lua_rawgeti], [lua_rawseti], [lua_next],
      [luaL_ref], [luaL_unref]: for the table at an index;
    - [lua_newuserdata]: a block with a pointer in it; [lua_block] is what the
      block at an index holds;
    - [lua_clear_weak]: not a call, but what the collector does with the values of
      weak tables when it finds a value dead. *)
Class LuaApi := {
  lua_State : Type;
  lua_gettop : lua_State → Z;
  lua_at : Z → lua_State → lua_value;
  lua_block : Z → lua_State → Z;
  lua_push : lua_value → lua_State → lua_State;
  lua_pop : nat → lua_State → lua_State;
  lua_remove : Z → lua_State → lua_State;
  lua_insert : Z → lua_State → lua_State;
  lua_newtable : lua_State → lua_State;
  lua_newuserdata : Z → lua_State → lua_State;
  lua_newfunction : string → nat → lua_State → lua_State;
  lua_rawget : Z → lua_State → lua_State;
  lua_rawset : Z → lua_State → lua_State;
  lua_rawgeti : Z → Z → lua_State → lua_State;
  lua_rawseti : Z → Z → lua_State → lua_State;
  lua_next : Z → lua_State → bool * lua_State;
  lua_getmetatable : Z → lua_State → bool * lua_State;
  lua_setmetatable : Z → lua_State → lua_State;
  luaL_ref : Z → lua_State → Z * lua_State;
  luaL_unref : Z → Z → lua_State → lua_State;
  lua_clear_weak : lua_value → lua_State → lua_State
}.

(** ** What the manual says

    The state as far as a program can see it: the stack with its top first, the
    contents of tables in the order in which they are traversed now, metatables, and
    blocks.  Everything that is created has a new number. *)
Record lua_view := View {
  lv_stack : list lua_value;
  lv_tables : nat → list (lua_value * lua_value);
  lv_meta : lua_value → option nat;
  lv_blocks : nat → Z;
  lv_next : nat
}.

(** The number of the registry. *)
Definition REGISTRY : nat := 0.

Definition at_index {A} (i : Z) (l : list A) : option A :=
  if 0 <? i then (if i <=? Z.of_nat (length l) then l !! (length l - Z.to_nat i)%nat else None)
  else if i <? 0 then l !! (Z.to_nat (- i) - 1)%nat else None.

Definition v_at (i : Z) (v : lua_view) : lua_value :=
  if i =? LUA_REGISTRYINDEX then LTable REGISTRY else default LNil (at_index i (lv_stack v)).

(** The raw value of a key, and the contents with a key set. *)
Fixpoint raw_lookup (k : lua_value) (l : list (lua_value * lua_value)) : lua_value :=
  match l with
  | [] => LNil
  | (k', x) :: l' => if decide (k' = k) then x else raw_lookup k l'
  end.

Fixpoint raw_update (k x : lua_value) (l : list (lua_value * lua_value)) : list (lua_value * lua_value) :=
  match l with
  | [] => if decide (x = LNil) then [] else [(k, x)]
  | (k', y) :: l' =>
      if decide (k' = k) then (if decide (x = LNil) then l' else (k, x) :: l') else (k', y) :: raw_update k x l'
  end.

(** The entry after that of a key; the first one after nil. *)
Fixpoint entry_after (k : lua_value) (l : list (lua_value * lua_value)) : option (lua_value * lua_value) :=
  match l with
  | [] => None
  | (k', _) :: l' => if decide (k' = k) then head l' else entry_after k l'
  end.
Definition next_entry (k : lua_value) (l : list (lua_value * lua_value)) : option (lua_value * lua_value) :=
  if decide (k = LNil) then head l else entry_after k l.

Definition with_stack (st : list lua_value) (v : lua_view) : lua_view :=
  View st (lv_tables v) (lv_meta v) (lv_blocks v) (lv_next v).
Definition with_table (t : nat) (l : list (lua_value * lua_value)) (v : lua_view) : lua_view :=
  View (lv_stack v) (λ t', if Nat.eqb t' t then l else lv_tables v t') (lv_meta v) (lv_blocks v) (lv_next v).

Definition v_push (x : lua_value) (v : lua_view) : lua_view := with_stack (x :: lv_stack v) v.
Definition v_pop (n : nat) (v : lua_view) : lua_view := with_stack (drop n (lv_stack v)) v.
Definition v_top (v : lua_view) : lua_value := default LNil (head (lv_stack v)).

(** The contents of the table at an index. *)
Definition v_contents (i : Z) (v : lua_view) : list (lua_value * lua_value) :=
  match v_at i v with LTable t => lv_tables v t | _ => [] end.

(** Something new: a table, a function or a block. *)
Definition v_new (make : nat → lua_value) (block : Z) (v : lua_view) : lua_view :=
  View (make (lv_next v) :: lv_stack v)
    (λ t, if Nat.eqb t (lv_next v) then [] else lv_tables v t)
    (λ x, if decide (x = make (lv_next v)) then None else lv_meta v x)
    (λ u, if Nat.eqb u (lv_next v) then block else lv_blocks v u) (Datatypes.S (lv_next v)).

(** [v'] is [v] with a key of the table at an index set, and [n] values taken off;
    the order of a traversal may change. *)
Definition v_sets (i : Z) (n : nat) (k x : lua_value) (v v' : lua_view) : Prop :=
  ∃ t l, v_at i v = LTable t ∧ l ≡ₚ raw_update k x (lv_tables v t) ∧ v' = v_pop n (with_table t l v).

Definition v_setmetatable (i : Z) (v : lua_view) : lua_view :=
  match v_top v with
  | LTable m =>
      let x := v_at i v in
      View (drop 1 (lv_stack v)) (lv_tables v) (λ y, if decide (y = x) then Some m else lv_meta v y) (lv_blocks v) (lv_next v)
  | _ => v
  end.

Definition v_next (i : Z) (v : lua_view) : bool * lua_view :=
  match next_entry (v_top v) (v_contents i v) with
  | Some (k, x) => (true, with_stack (x :: k :: drop 1 (lv_stack v)) v)
  | None => (false, v_pop 1 v)
  end.

(** The tables with the mode ["v"] lose the entries of a value. *)
Definition weak_values (v : lua_view) (t : nat) : bool :=
  match lv_meta v (LTable t) with
  | Some m => bool_decide (raw_lookup (LString "__mode") (lv_tables v m) = LString "v")
  | None => false
  end.
Definition v_clear_weak (x : lua_value) (v : lua_view) : lua_view :=
  View (lv_stack v)
    (λ t, if weak_values v t then filter (λ e, e.2 ≠ x) (lv_tables v t) else lv_tables v t)
    (lv_meta v) (lv_blocks v) (lv_next v).

Definition is_table (x : lua_value) : Prop := ∃ t, x = LTable t.

(** The laws; those about tables are for an index that has a table. *)
Class LuaApiOk (A : LuaApi) := {
  view : lua_State → lua_view;
  view_gettop s : lua_gettop s = Z.of_nat (length (lv_stack (view s)));
  view_at i s : lua_at i s = v_at i (view s);
  view_block i u s : v_at i (view s) = LUserdata u → lua_block i s = lv_blocks (view s) u;
  view_push x s : view (lua_push x s) = v_push x (view s);
  view_pop n s : (n ≤ length (lv_stack (view s)))%nat → view (lua_pop n s) = v_pop n (view s);
  view_remove st x y s : lv_stack (view s) = y :: x :: st → view (lua_remove (-2) s) = with_stack (y :: st) (view s);
  view_remove_bottom st x s : lv_stack (view s) = st ++ [x] → view (lua_remove 1 s) = with_stack st (view s);
  view_insert st x y s : lv_stack (view s) = y :: x :: st → view (lua_insert (-2) s) = with_stack (x :: y :: st) (view s);
  view_newtable s : view (lua_newtable s) = v_new LTable 0 (view s);
  view_newuserdata p s : view (lua_newuserdata p s) = v_new LUserdata p (view s);
  view_newfunction f n s : (n ≤ length (lv_stack (view s)))%nat → view (lua_newfunction f n s) = v_new LFunction 0 (v_pop n (view s));
  view_rawget i s :
    is_table (v_at i (view s)) → lv_stack (view s) ≠ [] →
    view (lua_rawget i s) = v_push (raw_lookup (v_top (view s)) (v_contents i (view s))) (v_pop 1 (view s));
  view_rawset i k x st s :
    is_table (v_at i (view s)) → lv_stack (view s) = x :: k :: st → v_sets i 2 k x (view s) (view (lua_rawset i s));
  view_rawgeti i n s :
    is_table (v_at i (view s)) → view (lua_rawgeti i n s) = v_push (raw_lookup (LInteger n) (v_contents i (view s))) (view s);
  view_rawseti i n x st s :
    is_table (v_at i (view s)) → lv_stack (view s) = x :: st → v_sets i 1 (LInteger n) x (view s) (view (lua_rawseti i n s));
  view_next i s :
    is_table (v_at i (view s)) → lv_stack (view s) ≠ [] →
    (lua_next i s).1 = (v_next i (view s)).1 ∧ view (lua_next i s).2 = (v_next i (view s)).2;
  view_getmetatable i s :
    match lv_meta (view s) (v_at i (view s)) with
    | Some m => (lua_getmetatable i s).1 = true ∧ view (lua_getmetatable i s).2 = v_push (LTable m) (view s)
    | None => (lua_getmetatable i s).1 = false ∧ view (lua_getmetatable i s).2 = view s
    end;
  view_setmetatable i s : is_table (v_top (view s)) → view (lua_setmetatable i s) = v_setmetatable i (view s);
  view_ref i t x st s :
    v_at i (view s) = LTable t → lv_stack (view s) = x :: st → x ≠ LNil →
    let r := (luaL_ref i s).1 in
    0 < r ∧ raw_lookup (LInteger r) (lv_tables (view s) t) = LNil ∧
    v_sets i 1 (LInteger r) x (view s) (view (luaL_ref i s).2);
  view_unref i r s :
    is_table (v_at i (view s)) → v_sets i 0 (LInteger r) LNil (view s) (view (luaL_unref i r s));
  view_clear_weak x s : view (lua_clear_weak x s) = v_clear_weak x (view s)
}.

(** ** Contents of tables

    A key is there once, and neither it nor its value is nil. *)
Definition contents : Type := list (lua_value * lua_value).

Record table_wf (l : contents) : Prop := {
  tw_keys : NoDup l.*1;
  tw_nil : LNil ∉ l.*1;
  tw_values : LNil ∉ l.*2
}.

Lemma raw_lookup_elem l k x : NoDup l.*1 → (k, x) ∈ l → raw_lookup k l = x.
Proof.
  induction l as [|[k' y] l IH]; [intros _ H; inversion H|]. cbn [raw_lookup]. rewrite fmap_cons, NoDup_cons.
  intros [Hn Hd] [[= -> ->]|Hi]%elem_of_cons; [rewrite decide_True by reflexivity; reflexivity|].
  rewrite decide_False; [exact (IH Hd Hi)|]. intros ->. apply Hn. apply (list_elem_of_fmap_2 fst) in Hi. exact Hi.
Qed.

Lemma raw_lookup_none l k : k ∉ l.*1 → raw_lookup k l = LNil.
Proof.
  induction l as [|[k' y] l IH]; [reflexivity|]. cbn [raw_lookup]. rewrite fmap_cons, not_elem_of_cons.
  intros [Hne Hn]. rewrite decide_False by (intros ->; exact (Hne eq_refl)). exact (IH Hn).
Qed.

Lemma raw_lookup_found l k : table_wf l → raw_lookup k l ≠ LNil ↔ k ∈ l.*1.
Proof.
  intros [Hd _ Hv]. split; [intros H; destruct (decide (k ∈ l.*1)) as [Hk|Hk]; [exact Hk|]; destruct (H (raw_lookup_none l k Hk))|].
  intros Hk. apply list_elem_of_fmap in Hk as ([k' x] & -> & Hi). cbn [fst]. rewrite (raw_lookup_elem l k' x Hd Hi).
  intros ->. apply Hv. apply (list_elem_of_fmap_2 snd) in Hi. exact Hi.
Qed.

Lemma raw_update_new l k x : k ∉ l.*1 → x ≠ LNil → raw_update k x l = l ++ [(k, x)].
Proof.
  intros Hk Hx. induction l as [|[k' y] l IH]; cbn [raw_update]; [rewrite decide_False by exact Hx; reflexivity|].
  rewrite fmap_cons in Hk. apply not_elem_of_cons in Hk as [Hne Hk]. rewrite decide_False by (intros ->; exact (Hne eq_refl)).
  rewrite (IH Hk). reflexivity.
Qed.

Lemma raw_update_delete l l' k x : NoDup l.*1 → k ∉ l'.*1 → l ≡ₚ (k, x) :: l' → raw_update k LNil l ≡ₚ l'.
Proof.
  intros Hd Hk Hp. assert ((k, x) ∈ l) as Hi by (rewrite Hp; left).
  assert (∀ l0 : contents, NoDup l0.*1 → (k, x) ∈ l0 → (k, x) :: raw_update k LNil l0 ≡ₚ l0) as H.
  { induction l0 as [|[k' y] l0 IH]; [intros _ Hn; inversion Hn|]. cbn [raw_update]. rewrite fmap_cons, NoDup_cons.
    intros [Hn0 Hd0] [[= -> ->]|Hi0]%elem_of_cons; [rewrite !decide_True by reflexivity; reflexivity|].
    rewrite decide_False.
    - rewrite Permutation_swap. f_equiv. exact (IH Hd0 Hi0).
    - intros ->. apply Hn0. apply (list_elem_of_fmap_2 fst) in Hi0. exact Hi0. }
  apply (Permutation_cons_inv (a := (k, x))). rewrite (H l Hd Hi). exact Hp.
Qed.

Lemma table_wf_perm l l' : l ≡ₚ l' → table_wf l → table_wf l'.
Proof. intros Hp [H1 H2 H3]. constructor; rewrite <- Hp; assumption. Qed.

Lemma table_wf_add l k x : table_wf l → k ∉ l.*1 → k ≠ LNil → x ≠ LNil → table_wf (l ++ [(k, x)]).
Proof.
  intros [H1 H2 H3] Hk Hn Hx. constructor; rewrite ?fmap_app.
  - apply NoDup_app. split; [exact H1|]. split; [|apply NoDup_singleton].
    intros y Hy ->%list_elem_of_singleton. exact (Hk Hy).
  - intros [H|H]%elem_of_app; [exact (H2 H)|]. apply list_elem_of_singleton in H. cbn in H. congruence.
  - intros [H|H]%elem_of_app; [exact (H3 H)|]. apply list_elem_of_singleton in H. cbn in H. congruence.
Qed.

(** ** A Lua library

    It works on what can be seen; a reference has the next number that is free. *)
Fixpoint max_key (l : list (lua_value * lua_value)) : Z :=
  match l with
  | [] => 0
  | (LInteger k, _) :: l' => Z.max k (max_key l')
  | _ :: l' => max_key l'
  end.

Definition demo_set (i : Z) (n : nat) (k x : lua_value) (v : lua_view) : lua_view :=
  match v_at i v with
  | LTable t => v_pop n (with_table t (raw_update k x (lv_tables v t)) v)
  | _ => v
  end.

#[export] Instance demo_lua : LuaApi := {|
  lua_State := lua_view;
  lua_gettop v := Z.of_nat (length (lv_stack v));
  lua_at := v_at;
  lua_block i v := match v_at i v with LUserdata u => lv_blocks v u | _ => 0 end;
  lua_push := v_push;
  lua_pop := v_pop;
  lua_remove i v :=
    if i =? 1 then with_stack (take (length (lv_stack v) - 1) (lv_stack v)) v
    else match lv_stack v with y :: _ :: st => with_stack (y :: st) v | _ => v end;
  lua_insert i v := match lv_stack v with y :: x :: st => with_stack (x :: y :: st) v | _ => v end;
  lua_newtable := v_new LTable 0;
  lua_newuserdata := v_new LUserdata;
  lua_newfunction _ n v := v_new LFunction 0 (v_pop n v);
  lua_rawget i v := v_push (raw_lookup (v_top v) (v_contents i v)) (v_pop 1 v);
  lua_rawset i v := match lv_stack v with x :: k :: _ => demo_set i 2 k x v | _ => v end;
  lua_rawgeti i n v := v_push (raw_lookup (LInteger n) (v_contents i v)) v;
  lua_rawseti i n v := demo_set i 1 (LInteger n) (v_top v) v;
  lua_next := v_next;
  lua_getmetatable i v :=
    match lv_meta v (v_at i v) with Some m => (true, v_push (LTable m) v) | None => (false, v) end;
  lua_setmetatable := v_setmetatable;
  luaL_ref i v := let r := max_key (v_contents i v) + 1 in (r, demo_set i 1 (LInteger r) (v_top v) v);
  luaL_unref i r := demo_set i 0 (LInteger r) LNil;
  lua_clear_weak := v_clear_weak
|}.

Lemma max_key_bound l : 0 ≤ max_key l ∧ ∀ k, max_key l < k → raw_lookup (LInteger k) l = LNil.
Proof.
  induction l as [|[k x] l [H0 IH]]; cbn [max_key raw_lookup]; [split; [lia|reflexivity]|].
  destruct k as [|b|z|f|n|t|f|u|p|t]; (split; [first [exact H0|lia]|]); intros k' Hk; rewrite decide_False by (intros [=]; lia);
    apply IH; lia.
Qed.

Lemma demo_set_sets i n k x v : is_table (v_at i v) → v_sets i n k x v (demo_set i n k x v).
Proof. intros [t E]. unfold v_sets, demo_set. rewrite E. exists t, (raw_update k x (lv_tables v t)). auto. Qed.

#[export] Instance demo_lua_ok : LuaApiOk demo_lua.
Proof.
  refine {| view := λ v : @lua_State demo_lua, v |}; cbn.
  - reflexivity.
  - reflexivity.
  - intros i u v ->. reflexivity.
  - reflexivity.
  - reflexivity.
  - intros st x y v ->. reflexivity.
  - intros st x v ->. rewrite length_app, Nat.add_sub, take_app_length. reflexivity.
  - intros st x y v ->. reflexivity.
  - reflexivity.
  - reflexivity.
  - reflexivity.
  - reflexivity.
  - intros i k x st v H ->. apply demo_set_sets, H.
  - reflexivity.
  - intros i n x st v H E. unfold v_top. rewrite E. apply demo_set_sets, H.
  - auto.
  - intros i v. destruct (lv_meta v (v_at i v)); auto.
  - reflexivity.
  - intros i t x st v Ht E _. unfold v_contents, v_top. rewrite Ht, E.
    destruct (max_key_bound (lv_tables v t)) as [H0 H1]. split; [lia|]. split; [apply H1; lia|].
    apply demo_set_sets. exists t. exact Ht.
  - intros i r v H. apply demo_set_sets, H.
  - reflexivity.
Defined.
