(* ===== verification/Lua.v ===== *)
(** * Values and objects between Lua and deai (plugins/lua/lua.c)

    Lua values become deai values ([di_lua_type_to_di]), deai values are pushed onto
    the stack of Lua ([di_lua_pushvariant]), and an object that is pushed has one
    proxy ([di_lua_pushobject], [di_lua_gc]).  Of the deai objects this file knows
    the references that are held on behalf of Lua, and those that stand for Lua
    values; scripts, calls and members are not in it. *)

From S2P Require Import Prelude.
From S2P Require Import DiTypes.
From S2P Require Import Conv.
From S2P Require Import Strings.
From S2P Require Import LuaApi.

Local Open Scope Z_scope.

(** ** The state

    - [d_next]: the number of the next object;
    - [d_lua_refs]: the objects of [struct di_lua_ref] with their [tref];
    - [d_strong]: the strong references that were taken, one entry each;
    - [d_map]: [object_to_lua_ref], the entries with their [ref];
    - [d_members]: the members ["___di_object_%d"] of the state object, by number. *)
Record deai := Deai {
  d_next : loc;
  d_lua_refs : list (loc * Z);
  d_strong : list loc;
  d_map : list (loc * Z);
  d_members : list (Z * loc)
}.

(** The element that [f] finds is taken out. *)
Fixpoint take_out {A} (f : A → bool) (l : list A) : option (A * list A) :=
  match l with
  | [] => None
  | x :: l' => if f x then Some (x, l') else r ← take_out f l'; Some (r.1, x :: r.2)
  end.

Section lua.
Context {API : LuaApi}.

Record dl := Dl { dl_L : lua_State; dl_deai : deai }.

Definition with_L (L : lua_State) (s : dl) : dl := Dl L (dl_deai s).
Definition with_deai (d : deai) (s : dl) : dl := Dl (dl_L s) d.

(** ** Calls of the Lua library

    A call with an index that has no table, or with too few values on the stack, is
    not defined. *)
Definition api (f : lua_State → lua_State) : ST dl unit := modify (λ s, with_L (f (dl_L s)) s).
Definition api_result {A} (f : lua_State → A * lua_State) : ST dl A := λ s,
  let '(a, L) := f (dl_L s) in Done a (with_L L s).

Definition value_at (i : Z) : ST dl lua_value := s ← get; mret (lua_at i (dl_L s)).
Definition gettop : ST dl Z := s ← get; mret (lua_gettop (dl_L s)).
Definition needs (n : nat) : ST dl unit :=
  top ← gettop; if Z.of_nat n <=? top then mret tt else fail OutOfBounds.
Definition needs_table (i : Z) : ST dl unit :=
  x ← value_at i; match x with LTable _ => mret tt | _ => fail TypeConfusion end.

Definition push (x : lua_value) : ST dl unit := api (lua_push x).
Definition pop (n : nat) : ST dl unit := needs n;; api (lua_pop n).
Definition rawget (i : Z) : ST dl unit := needs 1;; needs_table i;; api (lua_rawget i).
Definition rawset (i : Z) : ST dl unit := needs 2;; needs_table i;; api (lua_rawset i).
Definition rawgeti (i n : Z) : ST dl unit := needs_table i;; api (lua_rawgeti i n).
Definition rawseti (i n : Z) : ST dl unit := needs 1;; needs_table i;; api (lua_rawseti i n).
Definition next (i : Z) : ST dl bool := needs 1;; needs_table i;; api_result (lua_next i).
Definition unref (r : Z) : ST dl unit := api (luaL_unref LUA_REGISTRYINDEX r).

(** ** Objects *)

Definition get_deai : ST dl deai := s ← get; mret (dl_deai s).
Definition put_deai (d : deai) : ST dl unit := modify (with_deai d).

(** [di_ref_object], and [di_unref_object] of a reference that was taken.  A
    [di_lua_ref] to which nothing refers any more is gone: [lua_ref_dtor]. *)
Definition ref_object (o : loc) : ST dl unit :=
  d ← get_deai; put_deai (Deai (d_next d) (d_lua_refs d) (o :: d_strong d) (d_map d) (d_members d)).

Definition unref_object (o : loc) : ST dl unit :=
  d ← get_deai;
  r ← from_opt RefUnderflow (take_out (Nat.eqb o) (d_strong d));
  put_deai (Deai (d_next d) (d_lua_refs d) r.2 (d_map d) (d_members d));;
  match take_out (λ e, Nat.eqb o e.1) (d_lua_refs d) with
  | Some (e, refs) =>
      if existsb (Nat.eqb o) r.2 then mret tt
      else put_deai (Deai (d_next d) refs r.2 (d_map d) (d_members d));; unref e.2
  | None => mret tt
  end.

(** [lua_type_to_di_object]: the value on the top of the stack is referred to,
    whatever the index of the value that is converted. *)
Definition lua_type_to_di_object : ST dl value :=
  needs 1;;
  tref ← api_result (luaL_ref LUA_REGISTRYINDEX);
  d ← get_deai;
  put_deai (Deai (Datatypes.S (d_next d)) ((d_next d, tref) :: d_lua_refs d) (d_next d :: d_strong d) (d_map d) (d_members d));;
  push (LInteger tref);;
  rawget LUA_REGISTRYINDEX;;
  mret (VObject (d_next d)).

(** [di_free_value] of a value that was converted. *)
Definition free_value (v : value) : ST dl unit :=
  match v with
  | VObject o => unref_object o
  | VArray DI_TYPE_OBJECT _ l => for_each (λ v, match v with VObject o => unref_object o | _ => mret tt end) l
  | _ => mret tt
  end.

(** ** From Lua to deai *)

(** [di_lua_isproxy]: two values are popped on every path. *)
Definition di_lua_isproxy (index : Z) : ST dl bool :=
  x ← value_at index;
  ret ← (match tag_of x with
         | LUA_TUSERDATA | LUA_TLIGHTUSERDATA =>
             has ← api_result (lua_getmetatable index);
             if has : bool then
               push (LString "__is_deai_proxy");;
               rawget (-2);;
               y ← value_at (-1);
               mret (negb (bool_decide (tag_of y = LUA_TNIL)))
             else mret false
         | _ => mret false
         end);
  pop 2;;
  mret ret.

Section table.
(** The conversion of the value at an index, for the elements of a table. *)
Context (convert : Z → ST dl value).

(** The type of the element on the top of the stack, which is converted and freed;
    it and [n - 1] others are popped. *)
Definition element_type (n : nat) : ST dl di_type :=
  v ← convert (-1); free_value v;; pop n;; mret (type_of v).

Definition LUA_INT_MAX : Z := 2 ^ 31 - 1.

(** What the element type becomes; [None] when the types differ. *)
Definition join_type (elemt t : di_type) : option di_type :=
  if bool_decide (t = elemt) then Some elemt
  else if bool_decide (t = DI_TYPE_FLOAT) && bool_decide (elemt = DI_TYPE_INT) then Some DI_TYPE_FLOAT
  else if negb (bool_decide (t = DI_TYPE_INT)) || negb (bool_decide (elemt = DI_TYPE_FLOAT)) then None
  else Some elemt.

(** The [while] loop: the counter and the element type at its end, or none. *)
Fixpoint check_elements (k : nat) (index i : Z) (elemt : di_type) : ST dl (option (Z * di_type)) :=
  match k with
  | O => out_of_fuel
  | Datatypes.S k' =>
      more ← next index;
      if negb (more : bool) then mret (Some (i, elemt))
      else
        rawgeti index i;;
        t ← element_type 2;
        match join_type elemt t with
        | None => pop 1;; mret None
        | Some elemt => if i + 1 =? LUA_INT_MAX then pop 1;; mret (Some (i + 1, elemt)) else check_elements k' index (i + 1) elemt
        end
  end.

(** [di_lua_checkarray]: the number of elements and their type. *)
Definition di_lua_checkarray (k : nat) (index : Z) : ST dl (option (Z * di_type)) :=
  push LNil;;
  more ← next index;
  if negb (more : bool) then mret (Some (0, DI_TYPE_ANY))
  else
    rawgeti index 1;;
    elemt ← element_type 2;
    check (negb (bool_decide (elemt = DI_TYPE_UINT)));;
    if bool_decide (elemt = DI_TYPE_NIL) then pop 1;; mret None
    else
      r ← check_elements k index 2 elemt;
      mret (match r with None => None | Some (i, elemt) => Some (i - 1, elemt) end).

(** [di_lua_table_to_array] *)
Definition di_lua_table_to_array (index nelem : Z) (elemt : di_type) : ST dl value :=
  sz ← from_opt CheckFailed (di_sizeof_type elemt);
  check (negb (sz =? 0) || (nelem =? 0));;
  l ← collect (λ i,
    rawgeti index i;;
    v ← convert (-1);
    pop 1;;
    if bool_decide (type_of v = elemt) then mret v
    else
      check (bool_decide (type_of v = DI_TYPE_INT) && bool_decide (elemt = DI_TYPE_FLOAT));;
      match v with VInt z => mret (VFloat (double_of_Z z)) | _ => fail TypeConfusion end) (seqZ 1 nelem);
  mret (VArray elemt false l).
End table.

Definition ENOTSUP : Z := -95.

(** [di_lua_type_to_di]: the result and the value, whose type is [*t]; without
    [want] ([ret] is null) only the type of the value counts.  [depth] bounds the
    nesting of tables, [k] the number of elements. *)
Fixpoint di_lua_type_to_di (depth k : nat) (want : bool) (i : Z) : ST dl (Z * value) :=
  match depth with
  | O => out_of_fuel
  | Datatypes.S depth' =>
      let convert j := r ← di_lua_type_to_di depth' k true j; mret r.2 in
      let object := if want then o ← lua_type_to_di_object; mret (0, o) else mret (0, VObject 0%nat) in
      x ← value_at i;
      match x with
      | LBoolean b => mret (0, VBool b)
      | LInteger z => mret (0, VInt z)
      | LNumber f => mret (0, VFloat f)
      | LString s => mret (0, VString (Some s))
      | LUserdata _ =>
          p ← di_lua_isproxy i;
          if negb (p : bool) then mret (ENOTSUP, VNil)
          else if want then
            s ← get;
            let o := Z.to_nat (lua_block i (dl_L s)) in
            ref_object o;; mret (0, VObject o)
          else mret (0, VObject 0%nat)
      | LTable _ =>
          has_metatable ← api_result (lua_getmetatable i);
          (if has_metatable : bool then pop 1 else mret tt);;
          a ← di_lua_checkarray convert k i;
          match a with
          | Some (nelem, elemt) =>
              if (has_metatable : bool) then object
              else if nelem =? 0 then check (bool_decide (elemt = DI_TYPE_ANY));; mret (0, VNil)
              else if want then v ← di_lua_table_to_array convert i nelem elemt; mret (0, v)
              else mret (0, VArray elemt false [])
          | None => object
          end
      | LFunction _ => object
      | LNil => mret (0, VNil)
      | LLightUserdata _ | LThread _ => mret (ENOTSUP, VNil)
      end
  end.

(** [di_lua_type_to_di_variant] *)
Definition di_lua_type_to_di_variant (depth k : nat) (i : Z) : ST dl (Z + value) :=
  r ← di_lua_type_to_di depth k false i;
  if negb (r.1 =? 0) then mret (inl r.1)
  else v ← di_lua_type_to_di depth k true i; mret (inr v.2).

(** ** Proxies of objects *)

(** [luaL_setfuncs] of a table of methods, by their keys. *)
Definition setfuncs (reg : list string) : ST dl unit :=
  for_each (λ name, push (LString name);; api (lua_newfunction name 0);; rawset (-3)) reg.

Definition di_lua_object_methods : list string := ["__index"; "__newindex"; "__gc"]%string.
Definition di_lua_weak_object_methods : list string := ["__index"; "__gc"]%string.

(** [di_lua_create_metatable_for_object] *)
Definition di_lua_create_metatable_for_object (reg : list string) (callable : bool) : ST dl unit :=
  (if callable then needs 2;; api (lua_newfunction "di_lua_method_handler" 2) else mret tt);;
  api lua_newtable;;
  setfuncs reg;;
  push (LString "__is_deai_proxy");;
  push (LBoolean true);;
  rawset (-3);;
  (if callable then
     needs 2;; api (lua_insert (-2));;
     push (LString "__call");;
     needs 2;; api (lua_insert (-2));;
     rawset (-3)
   else mret tt);;
  needs_table (-1);;
  api (lua_setmetatable (-2)).

(** [di_lua_pushproxy] *)
Definition di_lua_pushproxy (name : option string) (o : Z) (reg : list string) (callable : bool) : ST dl unit :=
  api (lua_newuserdata o);;
  (if callable then
     push (LLightUserdata o);; push (LString (default "(anonymous)"%string name))
   else mret tt);;
  di_lua_create_metatable_for_object reg callable.

(** [luaL_weakref] *)
Definition luaL_weakref (index : Z) : ST dl Z :=
  api lua_newtable;;
  api lua_newtable;;
  push (LString "__mode");;
  push (LString "v");;
  rawset (-3);;
  needs_table (-1);;
  api (lua_setmetatable (-2));;
  x ← value_at (-2);
  push x;;
  rawseti (-2) 1;;
  needs 2;;
  api (lua_remove (-2));;
  api_result (luaL_ref index).

(** [luaL_weakref_get] *)
Definition luaL_weakref_get (index r : Z) : ST dl bool :=
  rawgeti index r;;
  x ← value_at (-1);
  check (bool_decide (tag_of x = LUA_TTABLE));;
  rawgeti (-1) 1;;
  needs 2;;
  api (lua_remove (-2));;
  x ← value_at (-1);
  mret (negb (bool_decide (tag_of x = LUA_TNIL))).

(** The entry of an object in [object_to_lua_ref]. *)
Definition find_object (o : loc) : ST dl (option (loc * Z)) :=
  d ← get_deai; mret (fst <$> take_out (λ e, Nat.eqb o e.1) (d_map d)).

(** [di_lua_forget_object]: the member holds the reference to the object. *)
Definition di_lua_forget_object (e : loc * Z) : ST dl unit :=
  d ← get_deai;
  m ← from_opt HashCorrupt (take_out (λ e', Nat.eqb e.1 e'.1 && (e.2 =? e'.2)) (d_map d));
  ms ← from_opt CheckFailed (take_out (λ m, m.1 =? e.2) (d_members d));
  put_deai (Deai (d_next d) (d_lua_refs d) (d_strong d) m.2 ms.2);;
  unref_object ms.1.2;;
  unref e.2.

(** [di_lua_pushobject]: the reference to [obj] is consumed. *)
Definition di_lua_pushobject (name : option string) (obj : loc) : ST dl unit :=
  e ← find_object obj;
  alive ← (match e with
           | None => mret false
           | Some e =>
               alive ← luaL_weakref_get LUA_REGISTRYINDEX e.2;
               if alive : bool then unref_object obj;; mret true
               else di_lua_forget_object e;; mret false
           end);
  if alive : bool then mret tt
  else
    di_lua_pushproxy name (Z.of_nat obj) di_lua_object_methods true;;
    x ← value_at (-1);
    push x;;
    r ← luaL_weakref LUA_REGISTRYINDEX;
    d ← get_deai;
    check (bool_decide (r ∉ (d_members d).*1));;
    put_deai (Deai (d_next d) (d_lua_refs d) (d_strong d) (d_map d ++ [(obj, r)]) ((r, obj) :: d_members d)).

(** [di_lua_checkproxy]; [None] is an error that is raised in Lua. *)
Definition di_lua_checkproxy (index : Z) : ST dl (option Z) :=
  p ← di_lua_isproxy index;
  if p : bool then s ← get; mret (Some (lua_block index (dl_L s))) else mret None.

(** [di_lua_gc], with the proxy at index 1. *)
Definition di_lua_gc : ST dl bool :=
  o ← di_lua_checkproxy 1;
  match o with
  | None => mret false
  | Some p =>
      e ← find_object (Z.to_nat p);
      match e with Some e => di_lua_forget_object e | None => mret tt end;;
      mret true
  end.

(** ** From deai to Lua *)

(** The elements of an array or a tuple, into the table on the top. *)
Section elements.
Variable push_variant : value → ST dl Z.
Fixpoint push_elements (i : Z) (l : list value) : ST dl unit :=
  match l with
  | [] => mret tt
  | v :: l' => _ ← push_variant v; rawseti (-2) (i + 1);; push_elements (i + 1) l'
  end.
End elements.

(** [di_lua_pushvariant], whose result is the number of values it says it pushed.
    A weak reference is copied for its proxy. *)
Fixpoint di_lua_pushvariant (name : option string) (v : value) : ST dl Z :=
  match v with
  | VNUInt z | VUInt z | VNInt z | VInt z => push (LInteger (wrap_s 64 z));; mret 1
  | VFloat f => push (LNumber f);; mret 1
  | VPointer p => (if p =? 0 then push LNil else push (LLightUserdata p));; mret 1
  | VObject o => ref_object o;; di_lua_pushobject name o;; mret 1
  | VWeak w => di_lua_pushproxy name (Z.of_nat w) di_lua_weak_object_methods false;; mret 1
  | VString None => push LNil;; mret 1
  | VString (Some s) => push (LString s);; mret 1
  | VStringLiteral s => push (LString (till_nul s));; mret 1
  | VArray t _ l =>
      if bool_decide (t = DI_TYPE_ANY) then push LNil;; mret 1
      else
        api lua_newtable;;
        push_elements (di_lua_pushvariant None) 0 l;;
        mret 1
  | VTuple l =>
      api lua_newtable;;
      push_elements (di_lua_pushvariant None) 0 l;;
      mret 1
  | VVariant v => di_lua_pushvariant None v
  | VBool b => push (LBoolean b);; mret 1
  | VNil => push LNil;; mret 0
  | VBottom => fail CheckFailed
  end.
End lua.
