(* ===== verification/LuaConv.v ===== *)
(** * What the conversions between Lua and deai do

    A logic for code that calls the Lua library, in terms of what can be seen of
    the state of Lua, and the properties of the conversions of Lua.v. *)

From S2P Require Import Prelude.
From S2P Require Import DiTypes.
From S2P Require Import Conv.
From S2P Require Import Strings.
From S2P Require Import LuaApi.
From S2P Require Import Lua.

Local Open Scope Z_scope.

(** ** Runs

    [runs v d m Q]: from a state that is seen as [v], with the objects [d], the run
    of [m] ends with a result and a state of [Q]. *)
Section runs.
Context {API : LuaApi} {OK : LuaApiOk API}.

Definition runs {A} (v : lua_view) (d : deai) (m : ST dl A) (Q : A → lua_view → deai → Prop) : Prop :=
  ∀ s, view (dl_L s) = v → dl_deai s = d → ∃ a s', m s = Done a s' ∧ Q a (view (dl_L s')) (dl_deai s').

(** The result, the view and the objects are these. *)
Definition exactly {A} (a : A) (v : lua_view) (d : deai) : A → lua_view → deai → Prop :=
  λ a' v' d', a' = a ∧ v' = v ∧ d' = d.

Lemma runs_ret {A} (a : A) v d (Q : A → lua_view → deai → Prop) : Q a v d → runs v d (mret a) Q.
Proof. intros H s <- <-. exists a, s. auto. Qed.

Lemma runs_bind {A B} v d (m : ST dl A) (f : A → ST dl B) R Q :
  runs v d m R → (∀ a v' d', R a v' d' → runs v' d' (f a) Q) → runs v d (m ≫= f) Q.
Proof.
  intros Hm Hf s Hv Hd. destruct (Hm s Hv Hd) as (a & s' & E & HR).
  destruct (Hf a _ _ HR s' eq_refl eq_refl) as (b & s'' & E' & HQ).
  exists b, s''. split; [|exact HQ]. unfold mbind, ST_bind. rewrite E. exact E'.
Qed.

Lemma runs_step {A B} v d (m : ST dl A) (f : A → ST dl B) a v' d' Q :
  runs v d m (exactly a v' d') → runs v' d' (f a) Q → runs v d (m ≫= f) Q.
Proof. intros Hm Hf. apply (runs_bind _ _ _ _ _ _ Hm). intros ? ? ? (-> & -> & ->). exact Hf. Qed.

Lemma runs_conseq {A} v d (m : ST dl A) (R Q : A → lua_view → deai → Prop) :
  runs v d m R → (∀ a v' d', R a v' d' → Q a v' d') → runs v d m Q.
Proof.
  intros Hm H s Hv Hd. destruct (Hm s Hv Hd) as (a & s' & E & HR). exists a, s'. auto.
Qed.

Lemma runs_done {A} v d (m : ST dl A) a v' d' : runs v d m (exactly a v' d') → ∀ Q : A → lua_view → deai → Prop, Q a v' d' → runs v d m Q.
Proof. intros H Q HQ. apply (runs_conseq _ _ _ _ _ H). intros ? ? ? (-> & -> & ->). exact HQ. Qed.

(** *** The calls *)

Lemma runs_api f v v' d : (∀ L, view L = v → view (f L) = v') → runs v d (api f) (exactly tt v' d).
Proof. intros H s Hv Hd. eexists tt, _. split; [reflexivity|]. split; [reflexivity|]. split; [exact (H _ Hv)|exact Hd]. Qed.

Lemma runs_api_result {A} (f : lua_State → A * lua_State) a v v' d :
  (∀ L, view L = v → (f L).1 = a ∧ view (f L).2 = v') → runs v d (api_result f) (exactly a v' d).
Proof.
  intros H s Hv Hd. unfold api_result. destruct (H (dl_L s) Hv) as [Ha Hw]. destruct (f (dl_L s)) as [b L]. cbn in *.
  eexists b, _. split; [reflexivity|]. split; [exact Ha|]. split; [exact Hw|exact Hd].
Qed.

Lemma runs_value_at i v d : runs v d (value_at i) (exactly (v_at i v) v d).
Proof. intros s <- <-. eexists _, s. split; [reflexivity|]. split; [apply view_at|]. auto. Qed.

Lemma runs_gettop v d : runs v d gettop (exactly (Z.of_nat (length (lv_stack v))) v d).
Proof. intros s <- <-. eexists _, s. split; [reflexivity|]. split; [apply view_gettop|]. auto. Qed.

Lemma runs_needs n v d : (n ≤ length (lv_stack v))%nat → runs v d (needs n) (exactly tt v d).
Proof.
  intros Hn. unfold needs. apply (runs_step _ _ _ _ _ _ _ _ (runs_gettop v d)).
  destruct (Z.leb_spec (Z.of_nat n) (Z.of_nat (length (lv_stack v)))); [|lia]. apply runs_ret. split; auto.
Qed.

Lemma runs_needs_table i t v d : v_at i v = LTable t → runs v d (needs_table i) (exactly tt v d).
Proof.
  intros H. unfold needs_table. apply (runs_step _ _ _ _ _ _ _ _ (runs_value_at i v d)). rewrite H.
  apply runs_ret. split; auto.
Qed.

Lemma runs_push x v d : runs v d (push x) (exactly tt (v_push x v) d).
Proof. apply runs_api. intros L <-. apply view_push. Qed.

Lemma runs_pop n v d : (n ≤ length (lv_stack v))%nat → runs v d (pop n) (exactly tt (v_pop n v) d).
Proof.
  intros Hn. unfold pop. apply (runs_step _ _ _ _ _ _ _ _ (runs_needs n v d Hn)).
  apply runs_api. intros L <-. apply view_pop, Hn.
Qed.

Lemma runs_rawget i t v d :
  v_at i v = LTable t → lv_stack v ≠ [] →
  runs v d (rawget i) (exactly tt (v_push (raw_lookup (v_top v) (lv_tables v t)) (v_pop 1 v)) d).
Proof.
  intros Ht Hs. unfold rawget.
  apply (runs_step _ _ _ _ tt v d); [apply runs_needs; destruct (lv_stack v); [destruct (Hs eq_refl)|cbn; lia]|].
  apply (runs_step _ _ _ _ _ _ _ _ (runs_needs_table i t v d Ht)). apply runs_api. intros L <-.
  rewrite view_rawget; [|exists t; exact Ht|exact Hs]. unfold v_contents. rewrite Ht. reflexivity.
Qed.

Lemma runs_rawgeti i n t v d :
  v_at i v = LTable t → runs v d (rawgeti i n) (exactly tt (v_push (raw_lookup (LInteger n) (lv_tables v t)) v) d).
Proof.
  intros Ht. unfold rawgeti. apply (runs_step _ _ _ _ _ _ _ _ (runs_needs_table i t v d Ht)). apply runs_api. intros L <-.
  rewrite view_rawgeti; [|exists t; exact Ht]. unfold v_contents. rewrite Ht. reflexivity.
Qed.

Lemma runs_next i t v d :
  v_at i v = LTable t → lv_stack v ≠ [] →
  runs v d (next i)
    (match next_entry (v_top v) (lv_tables v t) with
     | Some (k, x) => exactly true (with_stack (x :: k :: drop 1 (lv_stack v)) v) d
     | None => exactly false (v_pop 1 v) d
     end).
Proof.
  intros Ht Hs. unfold next.
  apply (runs_step _ _ _ _ tt v d); [apply runs_needs; destruct (lv_stack v); [destruct (Hs eq_refl)|cbn; lia]|].
  apply (runs_step _ _ _ _ _ _ _ _ (runs_needs_table i t v d Ht)).
  assert (∀ L, view L = v → (lua_next i L).1 = (v_next i v).1 ∧ view (lua_next i L).2 = (v_next i v).2) as H.
  { intros L <-. apply view_next; [exists t; exact Ht|exact Hs]. }
  unfold v_next, v_contents in H. rewrite Ht in H.
  destruct (next_entry (v_top v) (lv_tables v t)) as [[k x]|]; apply runs_api_result, H.
Qed.

Lemma runs_getmetatable i v d :
  runs v d (api_result (lua_getmetatable i))
    (match lv_meta v (v_at i v) with Some m => exactly true (v_push (LTable m) v) d | None => exactly false v d end).
Proof.
  destruct (lv_meta v (v_at i v)) as [m|] eqn:E; apply runs_api_result; intros L <-;
    pose proof (view_getmetatable i L) as H; rewrite E in H; exact H.
Qed.

Lemma runs_get_deai v d : runs v d get_deai (exactly d v d).
Proof. intros s <- <-. eexists _, s. split; [reflexivity|]. split; auto. Qed.

Lemma runs_put_deai d' v d : runs v d (put_deai d') (exactly tt v d').
Proof. intros s <- <-. eexists tt, _. split; [reflexivity|]. split; auto. Qed.

(** [crashes v d m c]: the run goes wrong. *)
Definition crashes {A} (v : lua_view) (d : deai) (m : ST dl A) (c : crash) : Prop :=
  ∀ s, view (dl_L s) = v → dl_deai s = d → m s = Crash c.

Lemma crashes_first {A B} v d (m : ST dl A) (f : A → ST dl B) c : crashes v d m c → crashes v d (m ≫= f) c.
Proof. intros H s Hv Hd. unfold mbind, ST_bind. rewrite (H s Hv Hd). reflexivity. Qed.

Lemma crashes_then {A B} v d (m : ST dl A) (f : A → ST dl B) R c :
  runs v d m R → (∀ a v' d', R a v' d' → crashes v' d' (f a) c) → crashes v d (m ≫= f) c.
Proof.
  intros Hm Hf s Hv Hd. destruct (Hm s Hv Hd) as (a & s' & E & HR).
  unfold mbind, ST_bind. rewrite E. exact (Hf _ _ _ HR s' eq_refl eq_refl).
Qed.

Lemma crashes_step {A B} v d (m : ST dl A) (f : A → ST dl B) a v' d' c :
  runs v d m (exactly a v' d') → crashes v' d' (f a) c → crashes v d (m ≫= f) c.
Proof. intros Hm Hf. apply (crashes_then _ _ _ _ _ _ Hm). intros ? ? ? (-> & -> & ->). exact Hf. Qed.

Lemma crashes_needs_table i v d : ¬ is_table (v_at i v) → crashes v d (needs_table i) TypeConfusion.
Proof.
  intros H. unfold needs_table. apply (crashes_step _ _ _ _ _ _ _ _ (runs_value_at i v d)).
  destruct (v_at i v) as [| | | | |t| | | |]; try (intros ? _ _; reflexivity). destruct H. exists t. reflexivity.
Qed.
End runs.

(** ** What stays the same

    A conversion may leave the registry in another order, and use up numbers of
    objects. *)
Record similar (v v' : lua_view) : Prop := {
  si_stack : lv_stack v' = lv_stack v;
  si_tables t : t ≠ REGISTRY → lv_tables v' t = lv_tables v t;
  si_registry : lv_tables v' REGISTRY ≡ₚ lv_tables v REGISTRY;
  si_meta x : lv_meta v' x = lv_meta v x;
  si_blocks u : lv_blocks v' u = lv_blocks v u
}.

Record similar_deai (d d' : deai) : Prop := {
  sd_next : (d_next d ≤ d_next d')%nat;
  sd_rest : d' = Deai (d_next d') (d_lua_refs d) (d_strong d) (d_map d) (d_members d)
}.

(** An object that stands for a Lua value has a reference, and numbers of objects
    that are to come are not in use. *)
Record deai_ok (d : deai) : Prop := {
  do_refs e : e ∈ d_lua_refs d → e.1 ∈ d_strong d;
  do_next o : o ∈ d_strong d → (o < d_next d)%nat
}.

Definition world_ok (v : lua_view) (d : deai) : Prop := table_wf (lv_tables v REGISTRY) ∧ deai_ok d.

#[export] Instance similar_preorder : PreOrder similar.
Proof.
  split; [constructor; reflexivity|]. intros u v w [A1 A2 A3 A4 A5] [B1 B2 B3 B4 B5].
  constructor; intros; [congruence|rewrite B2, A2 by assumption; reflexivity|rewrite B3, A3; reflexivity|
    rewrite B4, A4; reflexivity|rewrite B5, A5; reflexivity].
Qed.

#[export] Instance similar_deai_preorder : PreOrder similar_deai.
Proof.
  split; [intros []; constructor; reflexivity|]. intros a b c [A1 A2] [B1 B2]. constructor; [lia|].
  rewrite B2, A2. reflexivity.
Qed.

Lemma similar_stack st v v' : similar v v' → similar (with_stack st v) (with_stack st v').
Proof. intros [H1 H2 H3 H4 H5]. constructor; assumption || reflexivity. Qed.

Lemma similar_world v d v' d' : similar v v' → similar_deai d d' → world_ok v d → world_ok v' d'.
Proof.
  intros [_ _ H3 _ _] [Hn Hr] [Hw [Hd1 Hd2]]. split; [apply (table_wf_perm _ _ (symmetry H3)), Hw|].
  rewrite Hr. constructor; cbn; [exact Hd1|]. intros o Ho%Hd2. lia.
Qed.

Lemma raw_lookup_perm l l' k : NoDup l.*1 → l ≡ₚ l' → raw_lookup k l' = raw_lookup k l.
Proof.
  intros Hd Hp. destruct (decide (k ∈ l.*1)) as [Hk|Hk].
  - apply list_elem_of_fmap in Hk as ([k' x] & -> & Hi). cbn [fst]. rewrite (raw_lookup_elem l k' x Hd Hi).
    apply raw_lookup_elem; rewrite <- Hp; assumption.
  - rewrite (raw_lookup_none l k Hk). apply raw_lookup_none. rewrite <- Hp. exact Hk.
Qed.

(** ** Types of elements

    The type to which a value becomes; a value that becomes nothing counts as nil.
    [None] where the conversion is not defined: a table, or userdata without a
    metatable, which [di_lua_isproxy] takes two values for. *)
Definition is_proxy (v : lua_view) (m : nat) : bool :=
  negb (bool_decide (raw_lookup (LString "__is_deai_proxy") (lv_tables v m) = LNil)).

Definition elem_type (v : lua_view) (x : lua_value) : option di_type :=
  match x with
  | LNil | LLightUserdata _ | LThread _ => Some DI_TYPE_NIL
  | LBoolean _ => Some DI_TYPE_BOOL
  | LInteger _ => Some DI_TYPE_INT
  | LNumber _ => Some DI_TYPE_FLOAT
  | LString _ => Some DI_TYPE_STRING
  | LFunction _ => Some DI_TYPE_OBJECT
  | LUserdata _ => m ← lv_meta v x; Some (if is_proxy v m then DI_TYPE_OBJECT else DI_TYPE_NIL)
  | LTable _ => None
  end.

Lemma elem_type_similar v v' x :
  table_wf (lv_tables v REGISTRY) → similar v v' → elem_type v' x = elem_type v x.
Proof.
  intros [Hw _ _] [_ H2 H3 H4 _]. destruct x; try reflexivity. cbn [elem_type]. rewrite H4.
  destruct (lv_meta v _) as [m|]; [|reflexivity]. cbn. unfold is_proxy.
  destruct (decide (m = REGISTRY)) as [->|Hm]; [rewrite (raw_lookup_perm _ _ _ Hw (symmetry H3))|rewrite H2 by exact Hm]; reflexivity.
Qed.

Section conversions.
Context {API : LuaApi} {OK : LuaApiOk API}.

(** *** References to Lua values *)

Lemma runs_ref x st v d :
  lv_stack v = x :: st → x ≠ LNil →
  runs v d (api_result (luaL_ref LUA_REGISTRYINDEX)) (λ r v' d', d' = d ∧
    raw_lookup (LInteger r) (lv_tables v REGISTRY) = LNil ∧
    ∃ l, l ≡ₚ raw_update (LInteger r) x (lv_tables v REGISTRY) ∧ v' = v_pop 1 (with_table REGISTRY l v)).
Proof.
  intros Hst Hx s Hv Hd. unfold api_result.
  destruct (view_ref LUA_REGISTRYINDEX REGISTRY x st (dl_L s)) as (_ & Hr & t & l & Ht & Hl & Hv'); [reflexivity|congruence|exact Hx|].
  destruct (luaL_ref LUA_REGISTRYINDEX (dl_L s)) as [r L]. cbn in *. injection Ht as <-. subst v.
  eexists r, _. split; [reflexivity|]. split; [exact Hd|]. split; [exact Hr|]. exists l. auto.
Qed.

Lemma runs_unref r v d :
  runs v d (unref r) (λ _ v' d', d' = d ∧
    ∃ l, l ≡ₚ raw_update (LInteger r) LNil (lv_tables v REGISTRY) ∧ v' = v_pop 0 (with_table REGISTRY l v)).
Proof.
  intros s Hv Hd. eexists tt, _. split; [reflexivity|]. split; [exact Hd|].
  destruct (view_unref LUA_REGISTRYINDEX r (dl_L s)) as (t & l & Ht & Hl & Hv'); [eexists; reflexivity|].
  injection Ht as <-. subst v. exists l. auto.
Qed.

(** An object for a value: what is in the registry, and the objects. *)
Definition object_for (x : lua_value) (v : lua_view) (d : deai) (o : value) (v' : lua_view) (d' : deai) : Prop :=
  o = VObject (d_next d) ∧ ∃ r l,
    LInteger r ∉ (lv_tables v REGISTRY).*1 ∧ l ≡ₚ (LInteger r, x) :: lv_tables v REGISTRY ∧
    v' = with_table REGISTRY l v ∧
    d' = Deai (Datatypes.S (d_next d)) ((d_next d, r) :: d_lua_refs d) (d_next d :: d_strong d) (d_map d) (d_members d).

Lemma runs_to_object x st v d :
  world_ok v d → lv_stack v = x :: st → x ≠ LNil → runs v d lua_type_to_di_object (object_for x v d).
Proof.
  intros [Hw Hd] Hst Hx. unfold lua_type_to_di_object.
  apply (runs_step _ _ _ _ tt v d); [apply runs_needs; rewrite Hst; cbn; lia|].
  eapply runs_bind; [exact (runs_ref x st v d Hst Hx)|]. intros r v1 d1 (-> & Hr & l & Hl & ->).
  assert (LInteger r ∉ (lv_tables v REGISTRY).*1) as Hnew.
  { intros H%(raw_lookup_found _ _ Hw). exact (H Hr). }
  rewrite (raw_update_new _ _ _ Hnew Hx), <- Permutation_cons_append in Hl.
  apply (runs_step _ _ _ _ _ _ _ _ (runs_get_deai _ d)).
  apply (runs_step _ _ _ _ _ _ _ _ (runs_put_deai _ _ d)).
  apply (runs_step _ _ _ _ _ _ _ _ (runs_push (LInteger r) _ _)).
  eapply runs_step; [apply (runs_rawget LUA_REGISTRYINDEX REGISTRY); [reflexivity|discriminate]|].
  apply runs_ret. split; [reflexivity|]. exists r, l. split; [exact Hnew|]. split; [exact Hl|]. split; [|reflexivity].
  assert (raw_lookup (LInteger r) l = x) as Hrl.
  { apply raw_lookup_elem; [|rewrite Hl; left]. rewrite Hl. cbn. apply NoDup_cons. split; [exact Hnew|apply Hw]. }
  destruct v as [stk tbl mt bl nx]. cbn in *. subst. cbn. reflexivity.
Qed.
(** It is freed again. *)
Lemma runs_free_new r x l v d :
  world_ok v d → LInteger r ∉ (lv_tables v REGISTRY).*1 → l ≡ₚ (LInteger r, x) :: lv_tables v REGISTRY →
  runs (with_table REGISTRY l v)
    (Deai (Datatypes.S (d_next d)) ((d_next d, r) :: d_lua_refs d) (d_next d :: d_strong d) (d_map d) (d_members d))
    (unref_object (d_next d)) (λ _ v' d', similar v v' ∧ similar_deai d d').
Proof.
  intros [Hw [_ Hd]] Hr Hl. unfold unref_object. apply (runs_step _ _ _ _ _ _ _ _ (runs_get_deai _ _)).
  cbn [d_strong d_lua_refs d_next d_map d_members take_out fst]. rewrite Nat.eqb_refl.
  apply (runs_step _ _ _ _ (d_next d, d_strong d) _ _ _ (runs_ret _ _ _ _ (conj eq_refl (conj eq_refl eq_refl)))).
  apply (runs_step _ _ _ _ _ _ _ _ (runs_put_deai _ _ _)). cbn [snd].
  assert (existsb (Nat.eqb (d_next d)) (d_strong d) = false) as ->.
  { apply not_true_is_false. intros (o & Ho & Heq%Nat.eqb_eq)%existsb_exists. apply list_elem_of_In in Ho. specialize (Hd _ Ho). lia. }
  apply (runs_step _ _ _ _ _ _ _ _ (runs_put_deai _ _ _)).
  eapply runs_conseq; [apply runs_unref|]. intros ? v' d' (-> & l' & Hl' & ->). cbn in Hl'.
  split; [|constructor; [cbn; lia|reflexivity]]. constructor; cbn; try reflexivity.
  - intros t Ht. rewrite !(proj2 (Nat.eqb_neq _ _) Ht). reflexivity.
  - rewrite Hl'. apply (raw_update_delete _ _ _ x); [|exact Hr|exact Hl]. rewrite Hl. cbn.
    apply NoDup_cons. split; [exact Hr|apply Hw].
Qed.

Lemma runs_unref_held o v d :
  deai_ok d →
  runs v (Deai (d_next d) (d_lua_refs d) (o :: d_strong d) (d_map d) (d_members d)) (unref_object o) (exactly tt v d).
Proof.
  intros [Hd _]. unfold unref_object. apply (runs_step _ _ _ _ _ _ _ _ (runs_get_deai _ _)).
  cbn [d_strong d_lua_refs d_next d_map d_members take_out]. rewrite Nat.eqb_refl.
  apply (runs_step _ _ _ _ (o, d_strong d) _ _ _ (runs_ret _ _ _ _ (conj eq_refl (conj eq_refl eq_refl)))).
  apply (runs_step _ _ _ _ _ _ _ _ (runs_put_deai _ _ _)). cbn [snd].
  replace (Deai (d_next d) (d_lua_refs d) (d_strong d) (d_map d) (d_members d)) with d by (destruct d; reflexivity).
  destruct (take_out (λ e, Nat.eqb o e.1) (d_lua_refs d)) as [[e refs]|] eqn:E; [|apply runs_ret; split; auto].
  assert (e ∈ d_lua_refs d ∧ e.1 = o) as [He <-].
  { clear Hd. revert refs E. induction (d_lua_refs d) as [|f l IH]; [discriminate|]. cbn [take_out]. intros refs.
    destruct (Nat.eqb_spec o f.1) as [->|_]; [intros [= -> ->]; split; [left|reflexivity]|].
    destruct (take_out _ l) as [r|]; [|discriminate]. intros [= <- <-]. destruct (IH r.2) as [H1 H2]; [destruct r; reflexivity|].
    split; [right; exact H1|exact H2]. }
  assert (existsb (Nat.eqb e.1) (d_strong d) = true) as ->; [|apply runs_ret; split; auto].
  apply existsb_exists. exists e.1. split; [apply list_elem_of_In, Hd, He|apply Nat.eqb_refl].
Qed.

(** *** Elements *)

(** [di_lua_isproxy] of userdata with a metatable. *)
Lemma runs_isproxy i u m v d :
  v_at i v = LUserdata u → lv_meta v (LUserdata u) = Some m →
  runs v d (di_lua_isproxy i) (exactly (is_proxy v m) v d).
Proof.
  intros Hu Hm. unfold di_lua_isproxy. apply (runs_step _ _ _ _ _ _ _ _ (runs_value_at i v d)). rewrite Hu.
  cbn [tag_of]. eapply runs_bind with (R := exactly (is_proxy v m)
    (with_stack (raw_lookup (LString "__is_deai_proxy") (lv_tables v m) :: LTable m :: lv_stack v) v) d).
  - eapply runs_bind; [apply runs_getmetatable|]. rewrite Hu, Hm. intros ? ? ? (-> & -> & ->).
    apply (runs_step _ _ _ _ _ _ _ _ (runs_push _ _ _)).
    eapply runs_step; [apply (runs_rawget (-2) m); [reflexivity|discriminate]|].
    apply (runs_step _ _ _ _ _ _ _ _ (runs_value_at (-1) _ _)). apply runs_ret. split; [|split; reflexivity].
    unfold is_proxy. f_equal. apply bool_decide_ext. cbn. destruct (raw_lookup _ _); split; intros; first [reflexivity|discriminate].
  - intros ? ? ? (-> & -> & ->). eapply runs_step; [apply runs_pop; cbn; lia|]. apply runs_ret.
    split; [reflexivity|]. split; [|reflexivity]. destruct v. reflexivity.
Qed.

Lemma with_stack_id v st : lv_stack v = st → with_stack st v = v.
Proof. destruct v. cbn. intros ->. reflexivity. Qed.

(** The conversion of an element. *)
Definition convert_to (depth k : nat) (j : Z) : ST dl value := r ← di_lua_type_to_di depth k true j; mret r.2.

(** What a value becomes that is neither an object nor a table. *)
Definition scalar_value (x : lua_value) : option value :=
  match x with
  | LNil => Some VNil
  | LBoolean b => Some (VBool b)
  | LInteger z => Some (VInt z)
  | LNumber f => Some (VFloat f)
  | LString s => Some (VString (Some s))
  | _ => None
  end.

Lemma runs_scalar depth k want i x y v d :
  v_at i v = x → scalar_value x = Some y →
  runs v d (di_lua_type_to_di (Datatypes.S depth) k want i) (exactly (0, y) v d).
Proof.
  intros Hx Hy. cbn [di_lua_type_to_di]. apply (runs_step _ _ _ _ _ _ _ _ (runs_value_at i v d)). rewrite Hx.
  destruct x; try discriminate; injection Hy as <-; apply runs_ret; split; auto.
Qed.

(** Values that are not objects need not be freed. *)
Lemma runs_free_scalar x y v d : scalar_value x = Some y → runs v d (free_value y) (exactly tt v d).
Proof. destruct x; try discriminate; intros [= <-]; apply runs_ret; split; auto. Qed.

(** A function on the top becomes an object, a proxy its object. *)
Lemma runs_function depth k f st v d :
  world_ok v d → lv_stack v = LFunction f :: st →
  runs v d (convert_to (Datatypes.S depth) k (-1)) (object_for (LFunction f) v d).
Proof.
  intros Hw Hst. unfold convert_to. apply runs_bind with (R := λ r, object_for (LFunction f) v d r.2).
  - cbn [di_lua_type_to_di]. apply (runs_step _ _ _ _ _ _ _ _ (runs_value_at (-1) v d)).
    assert (v_at (-1) v = LFunction f) as -> by (unfold v_at; cbn; rewrite Hst; reflexivity).
    eapply runs_bind; [exact (runs_to_object _ st v d Hw Hst ltac:(discriminate))|]. intros o v' d' H. apply runs_ret. exact H.
  - intros r v' d' H. apply runs_ret. exact H.
Qed.

Lemma runs_userdata depth k u m st v d :
  lv_stack v = LUserdata u :: st → lv_meta v (LUserdata u) = Some m →
  runs v d (convert_to (Datatypes.S depth) k (-1))
    (if is_proxy v m then
       let o := Z.to_nat (lv_blocks v u) in
       exactly (VObject o) v (Deai (d_next d) (d_lua_refs d) (o :: d_strong d) (d_map d) (d_members d))
     else exactly VNil v d).
Proof.
  intros Hst Hm. unfold convert_to. assert (v_at (-1) v = LUserdata u) as Hx by (unfold v_at; cbn; rewrite Hst; reflexivity).
  set (Q := if is_proxy v m then _ else _). apply runs_bind with (R := λ r, Q r.2).
  - cbn [di_lua_type_to_di]. apply (runs_step _ _ _ _ _ _ _ _ (runs_value_at (-1) v d)). rewrite Hx.
    apply (runs_step _ _ _ _ _ _ _ _ (runs_isproxy (-1) u m v d Hx Hm)). subst Q.
    destruct (is_proxy v m); cbn [negb]; [|apply runs_ret; split; auto]. cbv zeta.
    eapply runs_bind with (R := λ s v' d', lua_block (-1) (dl_L s) = lv_blocks v u ∧ v' = v ∧ d' = d).
    + intros s <- <-. eexists s, s. split; [reflexivity|]. split; [apply view_block, Hx|]. auto.
    + intros s v' d' (-> & -> & ->). eapply runs_step; [|apply runs_ret; split; [reflexivity|]; split; reflexivity].
      unfold ref_object. apply (runs_step _ _ _ _ _ _ _ _ (runs_get_deai _ _)). apply runs_put_deai.
  - intros r v' d' H. apply runs_ret. exact H.
Qed.

(** The conversion of the value on the top, after which the result is freed. *)
Lemma runs_convert_free depth k x st v d t :
  world_ok v d → lv_stack v = x :: st → elem_type v x = Some t →
  runs v d (v0 ← convert_to (Datatypes.S depth) k (-1); free_value v0;; mret (type_of v0))
    (λ t' v' d', t' = t ∧ similar v v' ∧ similar_deai d d').
Proof.
  intros Hw Hst Ht. assert (v_at (-1) v = x) as Hx by (unfold v_at; cbn; rewrite Hst; reflexivity).
  assert (∀ y, scalar_value x = Some y → type_of y = t →
    runs v d (v0 ← convert_to (Datatypes.S depth) k (-1); free_value v0;; mret (type_of v0))
      (λ t' v' d', t' = t ∧ similar v v' ∧ similar_deai d d')) as Hscalar.
  { intros y Hy Hty. unfold convert_to. eapply runs_step.
    - eapply runs_step; [exact (runs_scalar depth k true (-1) x y v d Hx Hy)|]. apply runs_ret. split; auto.
    - apply (runs_step _ _ _ _ _ _ _ _ (runs_free_scalar x y v d Hy)). apply runs_ret.
      split; [exact Hty|]. split; reflexivity. }
  assert (runs v d (convert_to (Datatypes.S depth) k (-1)) (exactly VNil v d) → t = DI_TYPE_NIL →
    runs v d (v0 ← convert_to (Datatypes.S depth) k (-1); free_value v0;; mret (type_of v0))
      (λ t' v' d', t' = t ∧ similar v v' ∧ similar_deai d d')) as Hnil.
  { intros H ->. apply (runs_step _ _ _ _ _ _ _ _ H). apply (runs_step _ _ _ _ tt v d); [apply runs_ret; split; auto|].
    apply runs_ret. split; [reflexivity|]. split; reflexivity. }
  assert (tag_of x = LUA_TLIGHTUSERDATA ∨ tag_of x = LUA_TTHREAD → runs v d (convert_to (Datatypes.S depth) k (-1)) (exactly VNil v d)) as Hother.
  { intros Hx'. unfold convert_to. eapply runs_step with (a := (ENOTSUP, VNil)); [|apply runs_ret; split; auto].
    cbn [di_lua_type_to_di]. apply (runs_step _ _ _ _ _ _ _ _ (runs_value_at (-1) v d)). rewrite Hx.
    destruct x; destruct Hx'; try discriminate; apply runs_ret; split; auto. }
  destruct x as [|b|z|f|n|m|f|u|p|m]; try (apply (Hscalar _ eq_refl)); cbn [elem_type] in Ht; try (injection Ht as <-; reflexivity).
  - discriminate.
  - injection Ht as <-. eapply runs_bind; [exact (runs_function depth k f st v d Hw Hst)|].
    intros o v' d' (-> & r & l & Hr & Hl & -> & ->). eapply runs_bind; [exact (runs_free_new r _ l v d Hw Hr Hl)|].
    intros ? v' d' [Hs Hd]. apply runs_ret. auto.
  - destruct (lv_meta v (LUserdata u)) as [m|] eqn:Hm; [|discriminate]. injection Ht as Ht.
    pose proof (runs_userdata depth k u m st v d Hst Hm) as H. destruct (is_proxy v m); [|exact (Hnil H (eq_sym Ht))].
    subst t. apply (runs_step _ _ _ _ _ _ _ _ H). eapply runs_step; [apply runs_unref_held, Hw|]. apply runs_ret.
    split; [reflexivity|]. split; reflexivity.
  - injection Ht as <-. apply Hnil; [apply Hother; left; reflexivity|reflexivity].
  - injection Ht as <-. apply Hnil; [apply Hother; right; reflexivity|reflexivity].
Qed.

Lemma runs_element depth k x y st v d t :
  world_ok v d → elem_type v x = Some t →
  runs (with_stack (x :: y :: st) v) d (element_type (convert_to (Datatypes.S depth) k) 2)
    (λ t' v' d', t' = t ∧ similar (with_stack st v) v' ∧ similar_deai d d').
Proof.
  intros Hw Ht. set (w := with_stack (x :: y :: st) v).
  pose proof (runs_convert_free depth k x (y :: st) w d t Hw eq_refl Ht) as H.
  unfold element_type. intros s Hv Hd. destruct (H s Hv Hd) as (t' & s' & E & -> & Hs & Hd').
  unfold mbind, ST_bind in E |- *.
  destruct (convert_to (Datatypes.S depth) k (-1) s) as [v0 s0| |]; try discriminate.
  destruct (free_value v0 s0) as [[] s1| |]; try discriminate. injection E as Ety ->.
  assert (2 ≤ length (lv_stack (view (dl_L s'))))%nat as Hlen by (rewrite (si_stack _ _ Hs); cbn; lia).
  destruct (runs_pop 2 _ _ Hlen s' eq_refl eq_refl) as ([] & s2 & E2 & _ & Ev & Ed). rewrite E2. eexists _, s2.
  split; [reflexivity|]. split; [exact Ety|]. rewrite Ev, Ed. split; [|exact Hd'].
  replace (v_pop 2 (view (dl_L s'))) with (with_stack st (view (dl_L s'))) by (unfold v_pop; rewrite (si_stack _ _ Hs); reflexivity).
  exact (similar_stack st _ _ Hs).
Qed.

(** *** Arrays

    The entries of a table that are after a key. *)
Lemma next_entry_first l : table_wf l → next_entry LNil l = head l.
Proof. intros _. reflexivity. Qed.

Lemma next_entry_after pre k x post :
  table_wf (pre ++ (k, x) :: post) → next_entry k (pre ++ (k, x) :: post) = head post.
Proof.
  intros [Hd Hn _]. unfold next_entry. rewrite fmap_app in Hd, Hn. apply NoDup_app in Hd as (_ & Hpre & _).
  rewrite decide_False.
  - assert (k ∉ pre.*1) as Hk by (intros H; apply (Hpre k H); left). clear Hpre Hn.
    induction pre as [|[k' y] pre IH]; cbn [entry_after app]; [rewrite decide_True by reflexivity; reflexivity|].
    rewrite fmap_cons, not_elem_of_cons in Hk. destruct Hk as [Hne Hk].
    rewrite decide_False by (intros ->; exact (Hne eq_refl)). exact (IH Hk).
  - intros ->. apply Hn, elem_of_app. right. left.
Qed.

(** The types are joined from the left. *)
Fixpoint joins (elemt : di_type) (ts : list di_type) : option di_type :=
  match ts with
  | [] => Some elemt
  | t :: ts' => match join_type elemt t with Some elemt' => joins elemt' ts' | None => None end
  end.

(** The element at an index of a table, and its type. *)
Definition element (l : contents) (n : Z) : lua_value := raw_lookup (LInteger n) l.
Definition type_at (v : lua_view) (l : contents) (n : Z) : di_type := default DI_TYPE_NIL (elem_type v (element l n)).

(** Every value in the table has a type. *)
Definition typed_table (v : lua_view) (l : contents) : Prop := ∀ x, x ∈ l.*2 → is_Some (elem_type v x).

Lemma type_at_ok v l n : typed_table v l → elem_type v (element l n) = Some (type_at v l n).
Proof.
  intros Hl. unfold type_at, element. destruct (elem_type v (raw_lookup (LInteger n) l)) as [t|] eqn:E; [reflexivity|].
  exfalso. assert (raw_lookup (LInteger n) l = LNil ∨ raw_lookup (LInteger n) l ∈ l.*2) as [H|H].
  { clear Hl E. induction l as [|[k x] l IH]; [left; reflexivity|]. cbn [raw_lookup]. case_decide; [right; left|].
    destruct IH as [IH|IH]; [left; exact IH|right; right; exact IH]. }
  - rewrite H in E. discriminate.
  - destruct (Hl _ H) as [t Ht]. congruence.
Qed.

(** The index of a table that is at the bottom of what is pushed on it. *)
Lemma v_at_pos i xs v : 0 < i ≤ Z.of_nat (length (lv_stack v)) → v_at i (with_stack (xs ++ lv_stack v) v) = v_at i v.
Proof.
  intros Hi. unfold v_at, at_index, LUA_REGISTRYINDEX. cbn [lv_stack with_stack].
  rewrite (proj2 (Z.eqb_neq i _)), (proj2 (Z.ltb_lt 0 i)) by lia. rewrite length_app, !(proj2 (Z.leb_le _ _)) by lia.
  rewrite lookup_app_r by lia. do 2 f_equal. lia.
Qed.

Lemma v_at_similar i v v' : similar v v' → v_at i v' = v_at i v.
Proof. intros H. unfold v_at. rewrite (si_stack _ _ H). reflexivity. Qed.

Lemma similar_pop xs v w : similar (with_stack (xs ++ lv_stack v) v) w → similar v (with_stack (lv_stack v) w).
Proof. intros [H1 H2 H3 H4 H5]. constructor; assumption || reflexivity. Qed.

Lemma v_pop_app xs n v w :
  similar (with_stack (xs ++ lv_stack v) v) w → length xs = n → v_pop n w = with_stack (lv_stack v) w.
Proof. intros Hs <-. unfold v_pop. rewrite (si_stack _ _ Hs). cbn. rewrite drop_app_length. reflexivity. Qed.

(** The loop, from an entry of the table. *)
Lemma runs_check_elements depth k (fuel : nat) i t v d pre key x post n elemt v' d' :
  world_ok v d → 0 < i ≤ Z.of_nat (length (lv_stack v)) → v_at i v = LTable t → t ≠ REGISTRY →
  table_wf (lv_tables v t) → typed_table v (lv_tables v t) → lv_tables v t = pre ++ (key, x) :: post →
  (length post < fuel)%nat → n + Z.of_nat (length post) < LUA_INT_MAX →
  similar (with_stack (key :: lv_stack v) v) v' → similar_deai d d' →
  runs v' d' (check_elements (convert_to (Datatypes.S depth) k) fuel i n elemt)
    (λ r v'' d'', similar v v'' ∧ similar_deai d d'' ∧
      r = (λ e, (n + Z.of_nat (length post), e)) <$> joins elemt (map (type_at v (lv_tables v t)) (seqZ n (Z.of_nat (length post))))).
Proof.
  intros Hw Hi Hat Ht Hwf Hty. revert pre key x post n elemt v' d'.
  induction fuel as [|fuel IH]; intros pre key x post n elemt v' d' Hl Hf Hmax Hs Hd; [lia|]. cbn [check_elements].
  assert (∀ w xs, similar (with_stack (xs ++ lv_stack v) v) w → v_at i w = LTable t ∧ lv_tables w t = lv_tables v t) as Hpos.
  { intros w xs Hw'. rewrite (v_at_similar i _ _ Hw'), v_at_pos by exact Hi. split; [exact Hat|]. apply (si_tables _ _ Hw' t Ht). }
  destruct (Hpos v' [key] Hs) as [Hat' Htab'].
  eapply runs_bind; [apply (runs_next i t); [exact Hat'|rewrite (si_stack _ _ Hs); discriminate]|].
  assert (v_top v' = key) as -> by (unfold v_top; rewrite (si_stack _ _ Hs); reflexivity). rewrite Htab'.
  assert (next_entry key (lv_tables v t) = head post) as -> by (rewrite Hl in Hwf |- *; exact (next_entry_after _ _ _ _ Hwf)).
  rewrite (si_stack _ _ Hs). cbn [lv_stack with_stack drop].
  destruct post as [|[key2 x2] post]; intros more w e (-> & -> & ->); cbn [negb].
  - apply runs_ret. cbn [length Z.of_nat]. rewrite Z.add_0_r. split; [|split; [exact Hd|reflexivity]].
    rewrite (v_pop_app [key] 1 v v' Hs eq_refl). exact (similar_pop [key] v v' Hs).
  - set (w2 := with_stack (x2 :: key2 :: lv_stack v) v').
    assert (similar (with_stack ([x2; key2] ++ lv_stack v) v) w2) as Hw2 by (exact (similar_stack _ _ _ Hs)).
    destruct (Hpos w2 [x2; key2] Hw2) as [Hat2 Htab2].
    refine (runs_step w2 d' _ _ tt _ d' _ (runs_rawgeti i n t w2 d' Hat2) _). rewrite Htab2.
    eapply runs_bind.
    { apply (runs_element depth k (element (lv_tables v t) n) x2 (key2 :: lv_stack v) v' d' (type_at v (lv_tables v t) n)).
      - exact (similar_world _ _ _ _ Hs Hd Hw).
      - rewrite (elem_type_similar _ _ _ (proj1 Hw : table_wf (lv_tables (with_stack _ v) REGISTRY)) Hs).
        apply (type_at_ok v), Hty. }
    intros t' v3 d3 (-> & Hs3 & Hd3).
    assert (similar (with_stack (key2 :: lv_stack v) v) v3) as Hs4.
    { etransitivity; [|exact Hs3]. exact (similar_stack (key2 :: lv_stack v) _ _ Hs). }
    assert (similar_deai d d3) as Hd4 by (etransitivity; eassumption).
    cbn [length] in Hf, Hmax |- *. rewrite Nat2Z.inj_succ in Hmax |- *. rewrite seqZ_cons by lia. cbn [map joins].
    replace (Z.pred (Z.succ (Z.of_nat (length post)))) with (Z.of_nat (length post)) by lia.
    destruct (join_type elemt (type_at v (lv_tables v t) n)) as [e|].
    + rewrite (proj2 (Z.eqb_neq _ _)) by lia.
      replace (n + Z.succ (Z.of_nat (length post))) with (n + 1 + Z.of_nat (length post)) by lia.
      replace (Z.succ n) with (n + 1) by lia.
      apply (IH (pre ++ [(key, x)]) key2 x2); try assumption; [rewrite <- app_assoc; exact Hl|lia|lia].
    + eapply runs_step; [apply runs_pop; rewrite (si_stack _ _ Hs4); cbn; lia|]. apply runs_ret.
      split; [|split; [exact Hd4|reflexivity]]. rewrite (v_pop_app [key2] 1 v v3 Hs4 eq_refl). exact (similar_pop [key2] v v3 Hs4).
Qed.

(** [di_lua_checkarray] as a function of the contents. *)
Definition checked (v : lua_view) (l : contents) : option (Z * di_type) :=
  match map (type_at v l) (seqZ 1 (Z.of_nat (length l))) with
  | [] => Some (0, DI_TYPE_ANY)
  | t :: ts => if bool_decide (t = DI_TYPE_NIL) then None else (λ e, (Z.of_nat (length l), e)) <$> joins t ts
  end.

Lemma elem_type_values v x t : elem_type v x = Some t → t ≠ DI_TYPE_UINT ∧ t ≠ DI_TYPE_ANY.
Proof.
  destruct x; cbn; intros H; try (injection H as <-; split; discriminate); [discriminate|].
  destruct (lv_meta v _) as [m|]; [|discriminate]. cbn in H. injection H as <-. destruct (is_proxy v m); split; discriminate.
Qed.

Lemma runs_checkarray depth k (fuel : nat) i t v d :
  world_ok v d → 0 < i ≤ Z.of_nat (length (lv_stack v)) → v_at i v = LTable t → t ≠ REGISTRY →
  table_wf (lv_tables v t) → typed_table v (lv_tables v t) →
  (length (lv_tables v t) ≤ fuel)%nat → Z.of_nat (length (lv_tables v t)) + 1 < LUA_INT_MAX →
  runs v d (di_lua_checkarray (convert_to (Datatypes.S depth) k) fuel i)
    (λ r v' d', similar v v' ∧ similar_deai d d' ∧ r = checked v (lv_tables v t)).
Proof.
  intros Hw Hi Hat Ht Hwf Hty Hf Hmax. unfold di_lua_checkarray.
  apply (runs_step _ _ _ _ _ _ _ _ (runs_push LNil v d)).
  assert (∀ xs, v_at i (with_stack (xs ++ lv_stack v) v) = LTable t) as Hpos by (intros xs; rewrite v_at_pos; assumption).
  eapply runs_bind; [apply (runs_next i t); [exact (Hpos [LNil])|discriminate]|].
  change (next_entry (v_top (v_push LNil v)) (lv_tables (v_push LNil v) t)) with (head (lv_tables v t)).
  destruct (head (lv_tables v t)) as [[key x]|] eqn:Eh; intros more w e (-> & -> & ->); cbn [negb].
  2: { apply runs_ret. split; [exact (similar_pop [LNil] v _ (reflexivity _))|]. split; [reflexivity|].
       unfold checked. destruct (lv_tables v t); [reflexivity|discriminate]. }
  assert (∃ post, lv_tables v t = (key, x) :: post) as [post El].
  { destruct (lv_tables v t) as [|e post]; [discriminate|]. injection Eh as ->. exists post. reflexivity. }
  assert (length (lv_tables v t) = Datatypes.S (length post)) as Hlen by (rewrite El; reflexivity).
  refine (runs_step _ d _ _ tt _ d _ (runs_rawgeti i 1 t _ d (Hpos [x; key])) _).
  change (lv_tables (with_stack ([x; key] ++ lv_stack v) v) t) with (lv_tables v t).
  eapply runs_bind.
  { apply (runs_element depth k (element (lv_tables v t) 1) x (key :: lv_stack v) v d (type_at v (lv_tables v t) 1) Hw).
    apply type_at_ok, Hty. }
  intros t' v3 d3 (-> & Hs3 & Hd3). unfold checked. rewrite Hlen, Nat2Z.inj_succ, seqZ_cons by lia. cbn [map].
  destruct (elem_type_values v _ _ (type_at_ok v (lv_tables v t) 1 Hty)) as [Hu _].
  rewrite (bool_decide_false (type_at v (lv_tables v t) 1 = DI_TYPE_UINT)) by exact Hu.
  apply (runs_step _ _ _ _ tt v3 d3); [apply runs_ret; split; auto|].
  destruct (bool_decide (type_at v (lv_tables v t) 1 = DI_TYPE_NIL)).
  - eapply runs_step; [apply runs_pop; rewrite (si_stack _ _ Hs3); cbn; lia|]. apply runs_ret.
    rewrite (v_pop_app [key] 1 v v3 Hs3 eq_refl). split; [exact (similar_pop [key] v v3 Hs3)|]. split; [exact Hd3|reflexivity].
  - rewrite Hlen in Hf, Hmax. rewrite Nat2Z.inj_succ in Hmax.
    replace (Z.pred (Z.succ (Z.of_nat (length post)))) with (Z.of_nat (length post)) by lia.
    eapply runs_bind; [apply (runs_check_elements depth k fuel i t v d [] key x post 2 _ v3 d3); first [assumption|lia]|].
    intros r v4 d4 (Hs4 & Hd4 & ->). apply runs_ret. split; [exact Hs4|]. split; [exact Hd4|].
    change (Z.succ 1) with 2. destruct (joins _ _) as [e|]; [|reflexivity]. cbn. do 3 f_equal. lia.
Qed.

(** *** What is an array

    The keys are 1 to the number of entries. *)
Definition is_array (l : contents) : Prop := l.*1 ≡ₚ map LInteger (seqZ 1 (Z.of_nat (length l))).

Definition numeric (t : di_type) : bool := bool_decide (t = DI_TYPE_INT) || bool_decide (t = DI_TYPE_FLOAT).

(** The type of all, or of floats when integers are among them. *)
Definition common_type (ts : list di_type) : option di_type :=
  match ts with
  | [] => Some DI_TYPE_ANY
  | t :: ts' =>
      if forallb (λ t', bool_decide (t' = t)) ts' then Some t
      else if forallb numeric ts then Some DI_TYPE_FLOAT
      else None
  end.

(** The types of the values, none of which may be nil. *)
Definition value_types (v : lua_view) (l : contents) : list di_type := map (λ x, default DI_TYPE_NIL (elem_type v x)) l.*2.

Definition array_type (v : lua_view) (l : contents) : option di_type :=
  if bool_decide (is_array l) && bool_decide (DI_TYPE_NIL ∉ value_types v l) then common_type (value_types v l) else None.

Lemma joins_common t ts : t ≠ DI_TYPE_NIL → joins t ts = common_type (t :: ts).
Proof.
  revert t. induction ts as [|t' ts IH]; intros t Hn; [reflexivity|]. cbn [joins]. unfold join_type.
  cbn [common_type forallb]. destruct (decide (t' = t)) as [->|Hne].
  { rewrite !bool_decide_true by reflexivity. rewrite (IH t Hn). cbn [common_type forallb andb].
    destruct (numeric t); reflexivity. }
  rewrite (bool_decide_false (t' = t)) by exact Hne. cbn [andb].
  destruct (decide (t' = DI_TYPE_FLOAT ∧ t = DI_TYPE_INT ∨ t' = DI_TYPE_INT ∧ t = DI_TYPE_FLOAT)) as [H|H].
  - assert (numeric t = true ∧ numeric t' = true) as [-> ->] by (destruct H as [[-> ->]|[-> ->]]; split; reflexivity).
    transitivity (joins DI_TYPE_FLOAT ts); [destruct H as [[-> ->]|[-> ->]]; reflexivity|].
    rewrite (IH DI_TYPE_FLOAT) by discriminate. cbn [common_type forallb andb].
    destruct (forallb (λ t', bool_decide (t' = DI_TYPE_FLOAT)) ts) eqn:E; [|reflexivity].
    assert (forallb numeric ts = true) as ->; [|reflexivity]. rewrite forallb_forall in E |- *.
    intros x Hx%E%bool_decide_eq_true_1. subst x. reflexivity.
  - assert ((numeric t && (numeric t' && forallb numeric ts)) = false) as ->.
    { apply not_true_is_false. intros [H1 [H2 _]%andb_prop]%andb_prop. apply H. unfold numeric in H1, H2.
      apply orb_prop in H1, H2. destruct H1 as [H1|H1], H2 as [H2|H2]; apply bool_decide_eq_true_1 in H1, H2; subst; auto; destruct (Hne eq_refl). }
    repeat case_bool_decide; cbn; try reflexivity; exfalso; apply H; auto.
Qed.

(** The types from 1 on, as they are compared. *)
Lemma checked_types v l :
  let ts := map (type_at v l) (seqZ 1 (Z.of_nat (length l))) in
  checked v l = if bool_decide (DI_TYPE_NIL ∈ ts) then None else (λ e, (Z.of_nat (length l), e)) <$> common_type ts.
Proof.
  intros ts. unfold checked. fold ts. assert (length ts = length l) as Hlen.
  { unfold ts. rewrite length_map, length_seqZ. lia. }
  destruct ts as [|t ts']; [destruct l; [reflexivity|discriminate]|]. clear Hlen.
  destruct (decide (t = DI_TYPE_NIL)) as [->|Hn]; [rewrite !bool_decide_true by (try left; reflexivity); reflexivity|].
  rewrite (bool_decide_false (t = DI_TYPE_NIL)) by exact Hn. rewrite (joins_common t ts' Hn).
  case_bool_decide as Hin; [|reflexivity]. apply elem_of_cons in Hin as [Hin|Hin]; [congruence|].
  cbn [common_type]. apply list_elem_of_In in Hin.
  destruct (forallb (λ t', bool_decide (t' = t)) ts') eqn:E1.
  { rewrite forallb_forall in E1. apply E1, bool_decide_eq_true_1 in Hin. congruence. }
  destruct (forallb numeric (t :: ts')) eqn:E2; [|reflexivity]. cbn [forallb] in E2. apply andb_prop in E2 as [_ E2].
  rewrite forallb_forall in E2. apply E2 in Hin. discriminate.
Qed.

Lemma common_type_perm ts ts' : ts ≡ₚ ts' → common_type ts = common_type ts'.
Proof.
  intros Hp. destruct ts as [|t ts]; [apply Permutation_nil_l in Hp; subst; reflexivity|].
  destruct ts' as [|t' ts']; [symmetry in Hp; apply Permutation_nil_l in Hp; discriminate|].
  assert (∀ f : di_type → bool, forallb f (t :: ts) = forallb f (t' :: ts')) as Hall.
  { intros f. apply eq_bool_prop_intro. rewrite !Is_true_true, !forallb_forall.
    split; intros H x Hx; apply H; apply list_elem_of_In; apply list_elem_of_In in Hx; [rewrite Hp|rewrite <- Hp]; exact Hx. }
  cbn [common_type]. rewrite (Hall numeric).
  assert (∀ (u : di_type) us, forallb (λ x, bool_decide (x = u)) us = forallb (λ x, bool_decide (x = u)) (u :: us)) as Hhd
    by (intros; cbn; rewrite bool_decide_true by reflexivity; reflexivity).
  rewrite (Hhd t ts), (Hhd t' ts'), Hall.
  assert (∀ u : di_type, u ∈ t' :: ts' → forallb (λ x, bool_decide (x = u)) (t' :: ts') = true → u = t') as Heq.
  { intros u _ H. rewrite forallb_forall in H. specialize (H t' (or_introl eq_refl)). apply bool_decide_eq_true_1 in H. congruence. }
  assert (t ∈ t' :: ts') as Ht by (rewrite <- Hp; left).
  destruct (forallb (λ x, bool_decide (x = t)) (t' :: ts')) eqn:E1.
  - rewrite (Heq t Ht E1) in E1 |- *. rewrite E1. reflexivity.
  - destruct (forallb (λ x, bool_decide (x = t')) (t' :: ts')) eqn:E2; [|reflexivity].
    exfalso. pose proof (proj1 (forallb_forall _ _) E2 t) as H. apply list_elem_of_In in Ht.
    apply H, bool_decide_eq_true_1 in Ht. subst t. congruence.
Qed.

(** Entries that are all there are the keys. *)
Lemma array_of_elements l :
  table_wf l → (∀ n, 1 ≤ n ≤ Z.of_nat (length l) → element l n ≠ LNil) → is_array l.
Proof.
  intros Hwf H. unfold is_array. symmetry. apply submseteq_length_Permutation.
  - apply NoDup_submseteq.
    + apply NoDup_fmap_2; [intros ? ? [=]; assumption|]. apply NoDup_seqZ.
    + intros k Hk. apply list_elem_of_fmap in Hk as (n & -> & Hn%elem_of_seqZ). apply (raw_lookup_found _ _ Hwf), H. lia.
  - rewrite length_fmap, length_map, length_seqZ. lia.
Qed.

Lemma array_values l :
  table_wf l → is_array l → map (element l) (seqZ 1 (Z.of_nat (length l))) ≡ₚ l.*2.
Proof.
  intros Hwf Ha. assert (l.*2 = map (λ k, raw_lookup k l) l.*1) as ->.
  { rewrite List.map_map. apply map_ext_in. intros [k x] Hi. cbn [fst snd]. symmetry.
    apply raw_lookup_elem; [apply Hwf|apply list_elem_of_In, Hi]. }
  unfold is_array in Ha. rewrite Ha, List.map_map. reflexivity.
Qed.

Lemma checked_array v l :
  table_wf l → typed_table v l → checked v l = (λ e, (Z.of_nat (length l), e)) <$> array_type v l.
Proof.
  intros Hwf Hty. rewrite checked_types. unfold array_type. set (ts := map (type_at v l) _).
  destruct (decide (is_array l)) as [Ha|Ha].
  - rewrite (bool_decide_true (is_array l)) by exact Ha. cbn [andb].
    assert (ts ≡ₚ value_types v l) as Hts.
    { unfold value_types. rewrite <- (array_values l Hwf Ha), List.map_map. reflexivity. }
    rewrite (common_type_perm _ _ Hts). assert (DI_TYPE_NIL ∈ ts ↔ DI_TYPE_NIL ∈ value_types v l) as Hiff by (rewrite Hts; reflexivity).
    repeat case_bool_decide; try reflexivity; tauto.
  - rewrite (bool_decide_false (is_array l)) by exact Ha. cbn [andb].
    rewrite bool_decide_true; [reflexivity|]. destruct (decide (DI_TYPE_NIL ∈ ts)) as [H|H]; [exact H|].
    destruct Ha. apply (array_of_elements l Hwf). intros n Hn E. apply H. unfold ts.
    apply list_elem_of_In, in_map_iff. exists n. split; [unfold type_at; rewrite E; reflexivity|].
    apply list_elem_of_In, elem_of_seqZ. lia.
Qed.
End conversions.

(** ** What is an array *)
Section array.
Context {API : LuaApi} {OK : LuaApiOk API}.

End array.

(** A table on the stack, with an integer and a number, traversed from the second. *)
Definition demo_table : lua_view :=
  View [LTable 1]
    (λ t, if Nat.eqb t 1 then [(LInteger 2, LNumber (double_of_Z 3)); (LInteger 1, LInteger 7)] else [])
    (λ _, None) (λ _, 0) 2.
Definition demo_deai : deai := Deai 0 [] [] [] [].

Lemma demo_world : world_ok demo_table demo_deai.
Proof.
  split; constructor; cbn; first [apply NoDup_nil_2|apply not_elem_of_nil|intros ? H; inversion H].
Qed.

Lemma demo_table_wf : table_wf (lv_tables demo_table 1).
Proof. constructor; cbn; [apply (bool_decide_unpack _); vm_compute; exact I|..]; set_solver. Qed.


(** ** Through Lua and back

    What a value becomes that is pushed and converted again. *)
Definition widened (x : value) : option value :=
  match x with
  | VBool b => Some (VBool b)
  | VNUInt z | VUInt z | VNInt z | VInt z => Some (VInt (wrap_s 64 z))
  | VFloat f => Some (VFloat f)
  | VString (Some s) => Some (VString (Some s))
  | VStringLiteral s => Some (VString (Some (till_nul s)))
  | _ => None
  end.

Definition as_type (t : di_type) (x : value) : value :=
  match t, x with
  | DI_TYPE_FLOAT, VInt z => VFloat (double_of_Z z)
  | _, x => x
  end.

(** The elements of an array or a tuple. *)
Definition elements_through (l : list value) : option value :=
  match l with
  | [] => Some VNil
  | _ =>
      ys ← mapM widened l;
      t ← common_type (map type_of ys);
      Some (VArray t false (map (as_type t) ys))
  end.

Fixpoint through_lua (x : value) : option value :=
  match x with
  | VNil | VString None => Some VNil
  | VPointer p => if p =? 0 then Some VNil else None
  | VArray t _ l => if bool_decide (t = DI_TYPE_ANY) then Some VNil else elements_through l
  | VTuple l => elements_through l
  | VVariant x => through_lua x
  | x => widened x
  end.

(** The number of elements. *)
Fixpoint elements_count (x : value) : nat :=
  match x with VArray _ _ l | VTuple l => length l | VVariant x => elements_count x | _ => 0 end.

Section through.
Context {API : LuaApi} {OK : LuaApiOk API}.

(** What is pushed for a value that is neither an array nor a tuple. *)
Lemma runs_push_simple name x y v d :
  widened x = Some y →
  ∃ lx, scalar_value lx = Some y ∧ runs v d (di_lua_pushvariant name x) (exactly 1 (v_push lx v) d).
Proof.
  assert (∀ lx, runs v d (push lx;; mret 1) (exactly 1 (v_push lx v) d)) as H.
  { intros lx. apply (runs_step _ _ _ _ _ _ _ _ (runs_push lx v d)). apply runs_ret. split; auto. }
  destruct x as [| | | | | | | | | |[s|]| | | | |]; try discriminate; intros [= <-]; eexists; (split; [|apply H]); reflexivity.
Qed.

Lemma runs_rawseti i n x st t v d :
  v_at i v = LTable t → lv_stack v = x :: st →
  runs v d (rawseti i n) (λ _ v' d', d' = d ∧
    ∃ l, l ≡ₚ raw_update (LInteger n) x (lv_tables v t) ∧ v' = v_pop 1 (with_table t l v)).
Proof.
  intros Ht Hst. unfold rawseti. apply (runs_step _ _ _ _ tt v d); [apply runs_needs; rewrite Hst; cbn; lia|].
  apply (runs_step _ _ _ _ _ _ _ _ (runs_needs_table i t v d Ht)).
  intros s Hv Hd. eexists tt, _. split; [reflexivity|]. split; [exact Hd|].
  destruct (view_rawseti i n x st (dl_L s)) as (t' & l & Ht' & Hl & Hv'); [subst v; exists t; exact Ht|congruence|].
  subst v. rewrite Ht in Ht'. injection Ht' as <-. exists l. auto.
Qed.

(** The entries of an array. *)
Definition entries (n : Z) (l : list lua_value) : contents := zip (map LInteger (seqZ n (Z.of_nat (length l)))) l.

Lemma entries_cons n x l : entries n (x :: l) = (LInteger n, x) :: entries (n + 1) l.
Proof. unfold entries. cbn [length]. rewrite Nat2Z.inj_succ, seqZ_cons by lia. rewrite Z.pred_succ. reflexivity. Qed.

Lemma entries_keys n l : (entries n l).*1 = map LInteger (seqZ n (Z.of_nat (length l))).
Proof. unfold entries. apply fst_zip. rewrite length_map, length_seqZ. lia. Qed.

Lemma entries_values n l : (entries n l).*2 = l.
Proof. unfold entries. apply snd_zip. rewrite length_map, length_seqZ. lia. Qed.

Lemma entries_wf n l : LNil ∉ l → table_wf (entries n l).
Proof.
  intros Hl. constructor; rewrite ?entries_keys, ?entries_values; [|intros (z & [=] & _)%list_elem_of_fmap|exact Hl].
  apply NoDup_fmap_2; [intros ? ? [=]; assumption|]. apply NoDup_seqZ.
Qed.

Lemma element_entries n l k x :
  LNil ∉ l → l !! k = Some x → element (entries n l) (n + Z.of_nat k) = x.
Proof.
  intros Hl Hx. apply lookup_lt_Some in Hx as Hk.
  apply raw_lookup_elem; [apply entries_wf, Hl|]. apply (list_elem_of_lookup_2 _ k). unfold entries.
  apply lookup_zip_Some. split; [|exact Hx]. apply list_lookup_fmap_Some. exists (n + Z.of_nat k). split; [reflexivity|].
  apply lookup_seqZ. lia.
Qed.

Lemma entries_snoc n l x : entries n (l ++ [x]) = entries n l ++ [(LInteger (n + Z.of_nat (length l)), x)].
Proof.
  revert n. induction l as [|y l IH]; intros n; cbn [app].
  - rewrite entries_cons. cbn. rewrite Z.add_0_r. reflexivity.
  - rewrite !entries_cons, IH. cbn [length app]. rewrite Nat2Z.inj_succ.
    replace (n + 1 + Z.of_nat (length l)) with (n + Z.succ (Z.of_nat (length l))) by lia. reflexivity.
Qed.

Lemma entries_array l : is_array (entries 1 l).
Proof.
  unfold is_array. rewrite entries_keys. unfold entries. rewrite length_zip, length_map, length_seqZ.
  replace (Nat.min _ _) with (length l) by lia. reflexivity.
Qed.

(** Only the contents of a table have changed. *)
Record only_table (t : nat) (v v' : lua_view) : Prop := {
  ot_stack : lv_stack v' = lv_stack v;
  ot_tables t' : t' ≠ t → lv_tables v' t' = lv_tables v t';
  ot_meta x : lv_meta v' x = lv_meta v x;
  ot_blocks u : lv_blocks v' u = lv_blocks v u
}.

Lemma only_table_trans t u v w : only_table t u v → only_table t v w → only_table t u w.
Proof.
  intros [A1 A2 A3 A4] [B1 B2 B3 B4]. constructor; intros; [congruence|rewrite B2, A2 by assumption; reflexivity|
    rewrite B3, A3; reflexivity|rewrite B4, A4; reflexivity].
Qed.

(** The elements are put into the table on the top. *)
Lemma runs_push_elements xs ys t st done v d :
  lv_stack v = LTable t :: st → LNil ∉ done → lv_tables v t ≡ₚ entries 1 done → Forall2 (λ x y, widened x = Some y) xs ys →
  runs v d (push_elements (di_lua_pushvariant None) (Z.of_nat (length done)) xs) (λ _ v' d', d' = d ∧ only_table t v v' ∧
    ∃ lxs, Forall2 (λ lx y, scalar_value lx = Some y) lxs ys ∧ LNil ∉ lxs ∧ lv_tables v' t ≡ₚ entries 1 (done ++ lxs)).
Proof.
  intros Hst Hdone Htab Hxs. revert done v Hst Hdone Htab.
  induction Hxs as [|x y xs ys Hx _ IH]; intros done v Hst Hdone Htab; cbn [push_elements].
  { apply runs_ret. split; [reflexivity|]. split; [constructor; reflexivity|]. exists []. rewrite app_nil_r.
    split; [constructor|]. split; [apply not_elem_of_nil|exact Htab]. }
  destruct (runs_push_simple None x y v d Hx) as (lx & Hlx & Hpush).
  apply (runs_step _ _ _ _ _ _ _ _ Hpush).
  eapply runs_bind; [apply (runs_rawseti (-2) _ lx (lv_stack v) t); [unfold v_at; cbn; rewrite Hst; reflexivity|reflexivity]|].
  intros ? v1 d1 (-> & l & Hl & ->). change (lv_tables (v_push lx v) t) with (lv_tables v t) in Hl.
  assert (lx ≠ LNil) as Hn by (intros ->; injection Hlx as <-; destruct x as [| | | | | | | | | |[]| | | | |]; discriminate).
  set (v1 := v_pop 1 (with_table t l (v_push lx v))).
  assert (LNil ∉ done ++ [lx]) as Hdone1.
  { intros [H|H]%elem_of_app; [exact (Hdone H)|]. apply list_elem_of_singleton in H. congruence. }
  assert (lv_tables v1 t ≡ₚ entries 1 (done ++ [lx])) as Htab1.
  { cbn. rewrite Nat.eqb_refl, Hl, entries_snoc, <- Htab. rewrite raw_update_new; [|rewrite Htab, entries_keys|exact Hn].
    - replace (Z.of_nat (length done) + 1) with (1 + Z.of_nat (length done)) by lia. reflexivity.
    - intros (z & [= Hz] & Hin%elem_of_seqZ)%list_elem_of_fmap. lia. }
  specialize (IH (done ++ [lx]) v1 Hst Hdone1 Htab1).
  replace (Z.of_nat (length done) + 1) with (Z.of_nat (length (done ++ [lx]))) by (rewrite length_app; cbn; lia).
  eapply runs_conseq; [exact IH|].
  intros ? v' d' (-> & Hot & lxs & Hlxs & Hnil & Hl'). split; [reflexivity|]. split.
  - apply (only_table_trans t v v1 v'); [|exact Hot]. constructor; try reflexivity.
    intros t' Ht'. cbn. rewrite (proj2 (Nat.eqb_neq _ _) Ht'). reflexivity.
  - exists (lx :: lxs). split; [constructor; assumption|]. split; [|rewrite <- app_assoc in Hl'; exact Hl'].
    intros [H|H]%elem_of_cons; [exact (Hn (eq_sym H))|exact (Hnil H)].
Qed.

(** *** The conversion of a table of scalars *)
Lemma common_type_elem ts t t' :
  common_type ts = Some t → t' ∈ ts → t' = t ∨ t' = DI_TYPE_INT ∧ t = DI_TYPE_FLOAT.
Proof.
  destruct ts as [|u ts]; [intros _ H; inversion H|]. cbn [common_type].
  destruct (forallb (λ x, bool_decide (x = u)) ts) eqn:E1.
  - intros [= ->] [->|Hin]%elem_of_cons; [left; reflexivity|]. left. rewrite forallb_forall in E1.
    apply list_elem_of_In in Hin. apply E1, bool_decide_eq_true_1 in Hin. exact Hin.
  - destruct (forallb numeric (u :: ts)) eqn:E2; [|discriminate]. intros [= <-] Hin.
    rewrite forallb_forall in E2. apply list_elem_of_In in Hin. apply E2 in Hin. unfold numeric in Hin.
    apply orb_prop in Hin as [H|H]; apply bool_decide_eq_true_1 in H; auto.
Qed.

Lemma scalar_type v lx y : scalar_value lx = Some y → lx ≠ LNil → elem_type v lx = Some (type_of y) ∧ type_of y ≠ DI_TYPE_NIL.
Proof. destruct lx; try discriminate; intros [= <-] Hn; (split; [reflexivity|]); try discriminate. destruct (Hn eq_refl). Qed.

Lemma scalar_has_size t y lx : scalar_value lx = Some y → lx ≠ LNil → type_of y = t ∨ t = DI_TYPE_FLOAT →
  ∃ sz, di_sizeof_type t = Some sz ∧ sz ≠ 0.
Proof.
  destruct lx; try discriminate; intros [= <-] Hn [<-| ->]; try (destruct (Hn eq_refl)); (eexists; split; [reflexivity|discriminate]).
Qed.

(** Tables with these elements, in any order. *)
Record holds (v : lua_view) (t : nat) (lxs : list lua_value) (ys : list value) : Prop := {
  ho_contents : lv_tables v t ≡ₚ entries 1 lxs;
  ho_nil : LNil ∉ lxs;
  ho_values : Forall2 (λ lx y, scalar_value lx = Some y) lxs ys
}.

Lemma holds_types v t lxs ys : holds v t lxs ys → value_types v (lv_tables v t) ≡ₚ map type_of ys.
Proof.
  intros [Hc Hn Hv]. unfold value_types. rewrite Hc, entries_values. clear Hc.
  induction Hv as [|lx y lxs ys Hy _ IH]; [reflexivity|]. apply not_elem_of_cons in Hn as [Hne Hn]. cbn [map].
  destruct (scalar_type v lx y Hy (not_eq_sym Hne)) as [-> _]. cbn [default]. rewrite (IH Hn). reflexivity.
Qed.

Lemma holds_no_nil v t lxs ys : holds v t lxs ys → DI_TYPE_NIL ∉ map type_of ys.
Proof.
  intros [_ Hn Hv]. induction Hv as [|lx y lxs ys Hy _ IH]; [apply not_elem_of_nil|].
  apply not_elem_of_cons in Hn as [Hne Hn]. cbn [map]. apply not_elem_of_cons. split; [|exact (IH Hn)].
  destruct (scalar_type v lx y Hy (not_eq_sym Hne)) as [_ H]. congruence.
Qed.

Lemma holds_wf v t lxs ys : holds v t lxs ys → table_wf (lv_tables v t).
Proof. intros [Hc Hn _]. apply (table_wf_perm _ _ (symmetry Hc)), entries_wf, Hn. Qed.

Lemma holds_length v t lxs ys : holds v t lxs ys → length (lv_tables v t) = length ys.
Proof.
  intros [Hc _ Hv]. rewrite Hc. unfold entries. rewrite length_zip, length_map, length_seqZ.
  rewrite <- (Forall2_length _ _ _ Hv). lia.
Qed.

Lemma holds_typed v t lxs ys : holds v t lxs ys → typed_table v (lv_tables v t).
Proof.
  intros [Hc Hn Hv] x Hx. rewrite Hc, entries_values in Hx. clear Hc.
  induction Hv as [|lx y lxs ys Hy _ IH]; [inversion Hx|]. apply not_elem_of_cons in Hn as [Hne Hn].
  apply elem_of_cons in Hx as [->|Hx]; [|exact (IH Hn Hx)]. destruct (scalar_type v lx y Hy (not_eq_sym Hne)) as [-> _]. eauto.
Qed.

Lemma holds_array_type v t lxs ys : holds v t lxs ys → array_type v (lv_tables v t) = common_type (map type_of ys).
Proof.
  intros H. unfold array_type. rewrite !bool_decide_true.
  - apply common_type_perm, (holds_types v t lxs ys H).
  - rewrite (holds_types v t lxs ys H). exact (holds_no_nil v t lxs ys H).
  - unfold is_array. rewrite (ho_contents _ _ _ _ H). exact (entries_array lxs).
Qed.

Lemma holds_element v t lxs ys k lx :
  holds v t lxs ys → lxs !! k = Some lx → element (lv_tables v t) (1 + Z.of_nat k) = lx.
Proof.
  intros H Hk. unfold element. rewrite (raw_lookup_perm (entries 1 lxs) _ _ (tw_keys _ (entries_wf 1 lxs (ho_nil _ _ _ _ H)))
    (symmetry (ho_contents _ _ _ _ H))). apply element_entries; [apply H|exact Hk].
Qed.

Lemma holds_similar v v' t lxs ys : similar v v' → t ≠ REGISTRY → holds v t lxs ys → holds v' t lxs ys.
Proof. intros Hs Ht [H1 H2 H3]. constructor; [rewrite (si_tables _ _ Hs t Ht)|..]; assumption. Qed.

Lemma v_pop_push x v : v_pop 1 (v_push x v) = v.
Proof. destruct v. reflexivity. Qed.

(** [di_lua_table_to_array] *)
Lemma runs_table_to_array depth k i t lxs ys T v d :
  0 < i ≤ Z.of_nat (length (lv_stack v)) → v_at i v = LTable t → holds v t lxs ys → ys ≠ [] →
  common_type (map type_of ys) = Some T →
  runs v d (di_lua_table_to_array (convert_to (Datatypes.S depth) k) i (Z.of_nat (length ys)) T)
    (exactly (VArray T false (map (as_type T) ys)) v d).
Proof.
  intros Hi Hat Hh Hne HT. unfold di_lua_table_to_array.
  assert (∃ sz, di_sizeof_type T = Some sz ∧ sz ≠ 0) as (sz & -> & Hsz).
  { destruct Hh as [_ Hn Hv]. destruct Hv as [|lx y lxs ys Hy _]; [destruct (Hne eq_refl)|]. apply not_elem_of_cons in Hn as [Hn _].
    apply (scalar_has_size T y lx Hy (not_eq_sym Hn)). destruct (common_type_elem _ _ (type_of y) HT) as [H|[_ H]]; [left|auto|auto]. }
  apply (runs_step _ _ _ _ sz v d); [apply runs_ret; split; auto|]. rewrite (proj2 (Z.eqb_neq _ _) Hsz). cbn [negb orb].
  apply (runs_step _ _ _ _ tt v d); [apply runs_ret; split; auto|].
  eapply runs_step; [|apply runs_ret; split; [reflexivity|split; reflexivity]].
  assert (∀ zs j, (∀ n y, zs !! n = Some y → ys !! (j + n)%nat = Some y) →
    runs v d (collect (λ i0, rawgeti i i0;; v0 ← convert_to (Datatypes.S depth) k (-1); pop 1;;
      if bool_decide (type_of v0 = T) then mret v0
      else check (bool_decide (type_of v0 = DI_TYPE_INT) && bool_decide (T = DI_TYPE_FLOAT));;
        match v0 with VInt z => mret (VFloat (double_of_Z z)) | _ => fail TypeConfusion end)
      (seqZ (1 + Z.of_nat j) (Z.of_nat (length zs)))) (exactly (map (as_type T) zs) v d)) as H.
  { induction zs as [|y zs IH]; intros j Hzs; [apply runs_ret; split; auto|].
    cbn [length]. rewrite Nat2Z.inj_succ, seqZ_cons, Z.pred_succ by lia. cbn [collect map].
    assert (ys !! j = Some y) as Hy by (rewrite <- (Nat.add_0_r j); apply Hzs; reflexivity).
    destruct (Forall2_lookup_r _ _ _ _ _ (ho_values _ _ _ _ Hh) Hy) as (lx & Hlx & Hs).
    eapply runs_step; [|eapply runs_step; [|apply runs_ret; split; [reflexivity|split; reflexivity]]].
    - refine (runs_step v d _ _ tt _ d _ (runs_rawgeti i _ t v d Hat) _).
      assert (raw_lookup (LInteger (1 + Z.of_nat j)) (lv_tables v t) = lx) as -> by exact (holds_element v t lxs ys j lx Hh Hlx).
      unfold convert_to. eapply runs_step.
      { eapply runs_step; [exact (runs_scalar depth k true (-1) lx y (v_push lx v) d eq_refl Hs)|]. apply runs_ret. split; [reflexivity|split; reflexivity]. }
      cbn [snd]. eapply runs_step; [apply runs_pop; cbn; lia|]. rewrite v_pop_push.
      destruct (common_type_elem _ _ (type_of y) HT) as [Hty|[Hty HF]].
      { apply list_elem_of_In, in_map, list_elem_of_In, (list_elem_of_lookup_2 _ j), Hy. }
      + rewrite bool_decide_true by exact Hty. apply runs_ret. split; [|split; reflexivity].
        destruct y; cbn in Hty; subst T; reflexivity.
      + rewrite HF. rewrite Hty. cbn. destruct y; try discriminate. apply (runs_step _ _ _ _ tt v d); [apply runs_ret; split; auto|].
        apply runs_ret. split; [reflexivity|split; reflexivity].
    - replace (Z.succ (1 + Z.of_nat j)) with (1 + Z.of_nat (Datatypes.S j)) by lia. apply IH.
      intros n z Hz. rewrite Nat.add_succ_comm. apply Hzs. exact Hz. }
  exact (H ys 0%nat (λ n y Hy, Hy)).
Qed.

(** The result for a table of scalars; without [want] its elements do not count. *)
Definition table_value (want : bool) (ys : list value) (T : di_type) : value :=
  match ys with [] => VNil | _ => VArray T false (if want then map (as_type T) ys else []) end.

Lemma runs_convert_table depth k want i t lxs ys T v d :
  world_ok v d → 0 < i ≤ Z.of_nat (length (lv_stack v)) → v_at i v = LTable t → t ≠ REGISTRY →
  lv_meta v (LTable t) = None → holds v t lxs ys → common_type (map type_of ys) = Some T →
  (length ys ≤ k)%nat → Z.of_nat (length ys) + 1 < LUA_INT_MAX →
  runs v d (di_lua_type_to_di (Datatypes.S (Datatypes.S depth)) k want i) (λ r v' d',
    r = (0, table_value want ys T) ∧ similar v v' ∧ similar_deai d d').
Proof.
  intros Hw Hi Hat Ht Hmeta Hh HT Hk Hmax. cbn [di_lua_type_to_di].
  apply (runs_step _ _ _ _ _ _ _ _ (runs_value_at i v d)). rewrite Hat.
  eapply runs_bind; [apply runs_getmetatable|]. rewrite Hat, Hmeta. intros has ? ? (-> & -> & ->).
  apply (runs_step _ _ _ _ tt v d); [apply runs_ret; split; auto|].
  change (λ j : Z, r ← di_lua_type_to_di (Datatypes.S depth) k true j; mret r.2) with (convert_to (Datatypes.S depth) k).
  pose proof (holds_length v t lxs ys Hh) as Hlen.
  eapply runs_bind; [apply (runs_checkarray depth k k i t v d Hw Hi Hat Ht (holds_wf _ _ _ _ Hh) (holds_typed _ _ _ _ Hh)); lia|].
  intros a v1 d1 (Hs & Hd & ->).
  rewrite (checked_array v _ (holds_wf _ _ _ _ Hh) (holds_typed _ _ _ _ Hh)), (holds_array_type v t lxs ys Hh), HT, Hlen.
  cbn [fmap option_fmap option_map]. destruct ys as [|y ys'] eqn:Ey.
  - injection HT as <-. cbn [length Z.of_nat Z.eqb]. apply (runs_step _ _ _ _ tt v1 d1); [apply runs_ret; split; auto|].
    apply runs_ret. auto.
  - rewrite <- Ey in *. rewrite (proj2 (Z.eqb_neq _ _)) by (rewrite Ey; cbn [length]; lia).
    assert (table_value want ys T = VArray T false (if want then map (as_type T) ys else [])) as -> by (rewrite Ey; reflexivity).
    destruct want; [|apply runs_ret; auto].
    eapply runs_step.
    + apply (runs_table_to_array depth k i t lxs ys T v1 d1);
        [rewrite (si_stack _ _ Hs); exact Hi|rewrite (v_at_similar _ _ _ Hs); exact Hat|exact (holds_similar _ _ _ _ _ Hs Ht Hh)|
         rewrite Ey; discriminate|exact HT].
    + apply runs_ret. auto.
Qed.

(** The index of the top. *)
Lemma v_at_gettop x st v : lv_stack v = x :: st → v_at (Z.of_nat (length (lv_stack v))) v = x.
Proof.
  intros H. unfold v_at, at_index, LUA_REGISTRYINDEX. rewrite H. cbn [length].
  rewrite (proj2 (Z.eqb_neq _ _)), (proj2 (Z.ltb_lt _ _)), (proj2 (Z.leb_le _ _)), Nat2Z.id, Nat.sub_diag by lia. reflexivity.
Qed.

(** A value is pushed: what is on the top becomes [y] when it is converted. *)
Definition converts_to (depth k : nat) (y : value) (v : lua_view) (d : deai) : Prop :=
  runs v d (di_lua_type_to_di_variant depth k (Z.of_nat (length (lv_stack v)))) (λ r v' d',
    r = inr y ∧ similar v v' ∧ similar_deai d d').

Lemma scalar_converts depth k lx y v d :
  scalar_value lx = Some y → converts_to (Datatypes.S depth) k y (v_push lx v) d.
Proof.
  intros Hy. unfold converts_to, di_lua_type_to_di_variant.
  pose proof (v_at_gettop lx (lv_stack v) (v_push lx v) eq_refl) as Hat.
  apply (runs_step _ _ _ _ _ _ _ _ (runs_scalar depth k false _ lx y _ d Hat Hy)). cbn [fst Z.eqb negb].
  apply (runs_step _ _ _ _ _ _ _ _ (runs_scalar depth k true _ lx y _ d Hat Hy)). apply runs_ret.
  split; [reflexivity|]. split; reflexivity.
Qed.

Lemma table_converts depth k t lxs ys T st v d :
  world_ok v d → lv_stack v = LTable t :: st → t ≠ REGISTRY → lv_meta v (LTable t) = None →
  holds v t lxs ys → common_type (map type_of ys) = Some T →
  (length ys ≤ k)%nat → Z.of_nat (length ys) + 1 < LUA_INT_MAX →
  converts_to (Datatypes.S (Datatypes.S depth)) k (table_value true ys T) v d.
Proof.
  intros Hw Hst Ht Hmeta Hh HT Hk Hmax. unfold converts_to, di_lua_type_to_di_variant. set (i := Z.of_nat (length (lv_stack v))).
  assert (0 < i ≤ Z.of_nat (length (lv_stack v))) as Hi by (unfold i; rewrite Hst; cbn [length]; lia).
  pose proof (v_at_gettop _ _ v Hst : v_at i v = LTable t) as Hat.
  eapply runs_bind; [exact (runs_convert_table depth k false i t lxs ys T v d Hw Hi Hat Ht Hmeta Hh HT Hk Hmax)|].
  intros r v1 d1 (-> & Hs & Hd). cbn [fst Z.eqb negb].
  eapply runs_bind.
  - apply (runs_convert_table depth k true i t lxs ys T v1 d1); try assumption.
    + exact (similar_world _ _ _ _ Hs Hd Hw).
    + rewrite (si_stack _ _ Hs). exact Hi.
    + rewrite (v_at_similar _ _ _ Hs). exact Hat.
    + rewrite (si_meta _ _ Hs). exact Hmeta.
    + exact (holds_similar _ _ _ _ _ Hs Ht Hh).
  - intros r v2 d2 (-> & Hs2 & Hd2). apply runs_ret. split; [reflexivity|]. split; etransitivity; eassumption.
Qed.

(** The table that is made for the elements [xs]. *)
Lemma push_table xs ys v d :
  world_ok v d → (0 < lv_next v)%nat → Forall2 (λ x y, widened x = Some y) xs ys →
  runs v d (api lua_newtable;; push_elements (di_lua_pushvariant None) 0 xs;; mret 1) (λ r v' d', r = 1 ∧ d' = d ∧
    ∃ t lxs, lv_stack v' = LTable t :: lv_stack v ∧ t ≠ REGISTRY ∧ lv_meta v' (LTable t) = None ∧ world_ok v' d ∧
      holds v' t lxs ys).
Proof.
  intros [Hreg Hd] Hnext Hxs. set (t := lv_next v). assert (t ≠ REGISTRY) as Ht by (unfold t, REGISTRY; lia).
  apply (runs_step _ _ _ _ tt (v_new LTable 0 v) d); [apply runs_api; intros L <-; apply view_newtable|].
  eapply runs_bind.
  - apply (runs_push_elements xs ys t (lv_stack v) [] (v_new LTable 0 v) d); [reflexivity|apply not_elem_of_nil| |exact Hxs].
    cbn. rewrite Nat.eqb_refl. reflexivity.
  - intros ? v' d' (-> & [Hst Htab Hmeta _] & lxs & Hlxs & Hnil & Hl). apply runs_ret. split; [reflexivity|]. split; [reflexivity|].
    exists t, lxs. split; [exact Hst|]. split; [exact Ht|]. split.
    { rewrite Hmeta. cbn. rewrite decide_True by reflexivity. reflexivity. }
    split; [|constructor; assumption]. split; [|exact Hd].
    rewrite Htab by (intros H; exact (Ht (eq_sym H))). cbn [v_new lv_tables].
    rewrite (proj2 (Nat.eqb_neq _ _)); [exact Hreg|]. intros H. exact (Ht (eq_sym H)).
Qed.

(** The top is what was pushed, and becomes [y]. *)
Definition comes_back (depth k : nat) (y : value) (v : lua_view) (d : deai) (push : ST dl Z) : Prop :=
  runs v d (_ ← push; i ← gettop; di_lua_type_to_di_variant depth k i) (λ r v' d',
    r = inr y ∧ (∃ lx, lv_stack v' = lx :: lv_stack v) ∧ similar_deai d d').

Lemma scalar_back depth k r lx y v d :
  scalar_value lx = Some y → comes_back (Datatypes.S depth) k y v d (push lx;; mret r).
Proof.
  intros Hy. unfold comes_back. eapply runs_step.
  { apply (runs_step _ _ _ _ _ _ _ _ (runs_push lx v d)). apply runs_ret. split; [reflexivity|]. split; reflexivity. }
  apply (runs_step _ _ _ _ _ _ _ _ (runs_gettop (v_push lx v) d)).
  eapply runs_conseq; [exact (scalar_converts depth k lx y v d Hy)|].
  intros x v' d' (-> & Hs & Hd). split; [reflexivity|]. split; [|exact Hd]. exists lx. rewrite (si_stack _ _ Hs). reflexivity.
Qed.

Lemma elements_back depth k l y v d :
  world_ok v d → (0 < lv_next v)%nat → elements_through l = Some y → (length l ≤ k)%nat → Z.of_nat (length l) + 1 < LUA_INT_MAX →
  comes_back (Datatypes.S (Datatypes.S depth)) k y v d (api lua_newtable;; push_elements (di_lua_pushvariant None) 0 l;; mret 1).
Proof.
  intros Hw Hnext Hy Hk Hmax.
  assert (∃ ys T, Forall2 (λ x y, widened x = Some y) l ys ∧ common_type (map type_of ys) = Some T ∧ y = table_value true ys T)
    as (ys & T & Hys & HT & ->).
  { destruct l as [|x l]; [injection Hy as <-; exists [], DI_TYPE_ANY; split; [constructor|split; reflexivity]|].
    unfold elements_through in Hy. apply bind_Some in Hy as (ys & Hys & (T & HT & [= <-])%bind_Some). exists ys, T.
    apply mapM_Some in Hys. split; [exact Hys|]. split; [exact HT|]. inversion Hys. reflexivity. }
  pose proof (Forall2_length _ _ _ Hys) as Hlen. unfold comes_back.
  eapply runs_bind; [exact (push_table l ys v d Hw Hnext Hys)|].
  intros r v1 d1 (-> & -> & t & lxs & Hst & Ht & Hmeta & Hw1 & Hh).
  apply (runs_step _ _ _ _ _ _ _ _ (runs_gettop v1 d)).
  eapply runs_conseq; [apply (table_converts depth k t lxs ys T (lv_stack v) v1 d Hw1 Hst Ht Hmeta Hh HT); lia|].
  intros x v2 d2 (-> & Hs & Hd). split; [reflexivity|]. split; [|exact Hd]. exists (LTable t). rewrite (si_stack _ _ Hs). exact Hst.
Qed.
End through.

Section back.
Context {API : LuaApi} {OK : LuaApiOk API}.

End back.


(** ** Where the conversions go wrong *)
Section wrong.
Context {API : LuaApi} {OK : LuaApiOk API}.

(** A table that is converted at index -1, as the result of a function, the
    element of a table or the value of a member is, is not read at all:
    [di_lua_checkarray] first pushes nil, and then takes the nil at -1 for the
    table. *)
Theorem table_at_top_crashes (depth k : nat) want t st v d :
  lv_stack v = LTable t :: st → crashes v d (di_lua_type_to_di (Datatypes.S depth) k want (-1)) TypeConfusion.
Proof.
  intros Hst. cbn [di_lua_type_to_di]. apply (crashes_step _ _ _ _ _ _ _ _ (runs_value_at (-1) v d)).
  assert (v_at (-1) v = LTable t) as Hat by (unfold v_at; cbn; rewrite Hst; reflexivity). rewrite Hat.
  eapply crashes_then with (R := λ has v' d', v' = (if has : bool then v_push (v_top v') v else v) ∧ d' = d).
  { eapply runs_conseq; [apply runs_getmetatable|]. rewrite Hat.
    destruct (lv_meta v (LTable t)); intros ? ? ? (-> & -> & ->); auto. }
  intros has v' d' [-> ->]. eapply crashes_step with (a := tt) (v' := v) (d' := d).
  { destruct has; [|apply runs_ret; split; auto]. eapply runs_conseq; [apply runs_pop; cbn; lia|].
    intros [] ? ? (_ & -> & ->). rewrite v_pop_push. split; auto. }
  apply crashes_first. unfold di_lua_checkarray. apply (crashes_step _ _ _ _ _ _ _ _ (runs_push LNil v d)).
  apply crashes_first. unfold next. eapply crashes_step; [apply runs_needs; cbn; lia|].
  apply crashes_first, crashes_needs_table. intros [t' [=]].
Qed.

(** A function that is converted at an index becomes an object for the value on
    the top of the stack, which is another one unless the function is the last
    argument. *)
Theorem function_refers_to_top (depth k : nat) i f x st v d :
  world_ok v d → v_at i v = LFunction f → lv_stack v = x :: st → x ≠ LNil →
  runs v d (di_lua_type_to_di (Datatypes.S depth) k true i) (λ r v' d', ∃ o tref,
    r = (0, VObject o) ∧ (o, tref) ∈ d_lua_refs d' ∧ raw_lookup (LInteger tref) (lv_tables v' REGISTRY) = x).
Proof.
  intros Hw Hat Hst Hx. cbn [di_lua_type_to_di]. apply (runs_step _ _ _ _ _ _ _ _ (runs_value_at i v d)). rewrite Hat.
  eapply runs_bind; [exact (runs_to_object x st v d Hw Hst Hx)|]. intros o v' d' (-> & r & l & Hr & Hl & -> & ->).
  apply runs_ret. exists (d_next d), r. split; [reflexivity|]. split; [left|]. cbn.
  apply raw_lookup_elem; rewrite Hl; [apply NoDup_cons; split; [exact Hr|apply Hw]|left].
Qed.
End wrong.

(** A table in a table, which is on the top when its turn comes. *)
Lemma table_at_top_crashes_witness :
  crashes demo_table demo_deai (di_lua_type_to_di 1 0 true (-1)) TypeConfusion.
Proof. exact (table_at_top_crashes 0 0 true 1 [] demo_table demo_deai eq_refl). Defined.

(** A function is the first argument, and a number the second. *)
Lemma function_refers_to_top_witness :
  let v := View [LInteger 5; LFunction 1] (λ _, []) (λ _, None) (λ _, 0) 2 in
  runs v demo_deai (di_lua_type_to_di 1 0 true 1) (λ r v' d', ∃ o tref,
    r = (0, VObject o) ∧ (o, tref) ∈ d_lua_refs d' ∧ raw_lookup (LInteger tref) (lv_tables v' REGISTRY) = LInteger 5).
Proof.
  intros v.
  exact (function_refers_to_top 0 0 1 1 (LInteger 5) [LFunction 1] v demo_deai demo_world eq_refl eq_refl ltac:(discriminate)).
Defined.
