(* ===== verification/LuaProxy.v ===== *)
(** * Proxies of objects in Lua (plugins/lua/lua.c)

    An object that is pushed has one proxy, found again by a weak reference, and one
    reference, which the state object holds as a member until the proxy is collected
    ([di_lua_pushobject], [di_lua_gc]).  What holds of this at all times, what comes
    back from a proxy, and what happens when a proxy was collected and its [__gc]
    was not called yet. *)

From S2P Require Import Prelude.
From S2P Require Import DiTypes.
From S2P Require Import Conv.
From S2P Require Import Strings.
From S2P Require Import LuaApi.
From S2P Require Import Lua.
From S2P Require Import LuaConv.

Local Open Scope Z_scope.

(** ** What stays

    Nothing with a number below [n] changes. *)
Definition below (n : nat) (x : lua_value) : Prop :=
  match x with LTable t | LUserdata t => (t < n)%nat | _ => False end.

Record keeps (n : nat) (v v' : lua_view) : Prop := {
  ke_next : (lv_next v ≤ lv_next v')%nat;
  ke_tables t : (t < n)%nat → lv_tables v' t = lv_tables v t;
  ke_meta x : below n x → lv_meta v' x = lv_meta v x;
  ke_blocks u : (u < n)%nat → lv_blocks v' u = lv_blocks v u
}.

#[export] Instance keeps_preorder n : PreOrder (keeps n).
Proof.
  split; [constructor; reflexivity|]. intros u v w [A1 A2 A3 A4] [B1 B2 B3 B4].
  constructor; intros; [lia|rewrite B2, A2 by assumption; reflexivity|rewrite B3, A3 by assumption; reflexivity|
    rewrite B4, A4 by assumption; reflexivity].
Qed.

Lemma keeps_less n m v v' : (m ≤ n)%nat → keeps n v v' → keeps m v v'.
Proof.
  intros Hm [H1 H2 H3 H4]. constructor; intros; [exact H1|apply H2; lia|apply H3|apply H4; lia].
  destruct x; cbn in *; try tauto; lia.
Qed.

Lemma keeps_stack n st v w : keeps n v w → keeps n v (with_stack st w).
Proof. intros H. transitivity w; [exact H|constructor; reflexivity]. Qed.

Lemma keeps_table n t l v w : (n ≤ t)%nat → keeps n v w → keeps n v (with_table t l w).
Proof.
  intros Ht H. transitivity w; [exact H|]. constructor; try reflexivity. intros t' Hlt. cbn.
  rewrite (proj2 (Nat.eqb_neq t' t)) by lia. reflexivity.
Qed.

Lemma keeps_new n make b v w :
  (n ≤ lv_next w)%nat → (make = LTable ∨ make = LUserdata ∨ make = LFunction) → keeps n v w → keeps n v (v_new make b w).
Proof.
  intros Hn Hm H. transitivity w; [exact H|].
  constructor; cbn; [lia|intros t Ht; rewrite (proj2 (Nat.eqb_neq _ _)) by lia; reflexivity| |
    intros t Ht; rewrite (proj2 (Nat.eqb_neq _ _)) by lia; reflexivity].
  intros x Hx. rewrite decide_False; [reflexivity|]. intros ->. destruct Hm as [->|[->| ->]]; cbn in Hx; lia.
Qed.

Lemma keeps_setmetatable n i v w : ¬ below n (v_at i w) → keeps n v w → keeps n v (v_setmetatable i w).
Proof.
  intros Hx H. transitivity w; [exact H|]. unfold v_setmetatable. destruct (v_top w); try reflexivity.
  constructor; try reflexivity. intros x Hb. cbn. rewrite decide_False by congruence. reflexivity.
Qed.

Lemma v_at_top x st v : lv_stack v = x :: st → v_at (-1) v = x.
Proof. intros H. unfold v_at. cbn. rewrite H. reflexivity. Qed.

Lemma v_at_second x y st v : lv_stack v = y :: x :: st → v_at (-2) v = x.
Proof. intros H. unfold v_at. cbn. rewrite H. reflexivity. Qed.

Lemma v_at_third x y z st v : lv_stack v = z :: y :: x :: st → v_at (-3) v = x.
Proof. intros H. unfold v_at. cbn. rewrite H. reflexivity. Qed.

(** ** Calls that make something *)
Section calls.
Context {API : LuaApi} {OK : LuaApiOk API}.

Lemma runs_newtable v d : runs v d (api lua_newtable) (exactly tt (v_new LTable 0 v) d).
Proof. apply runs_api. intros L <-. apply view_newtable. Qed.

Lemma runs_newuserdata p v d : runs v d (api (lua_newuserdata p)) (exactly tt (v_new LUserdata p v) d).
Proof. apply runs_api. intros L <-. apply view_newuserdata. Qed.

Lemma runs_newfunction f n v d :
  (n ≤ length (lv_stack v))%nat → runs v d (api (lua_newfunction f n)) (exactly tt (v_new LFunction 0 (v_pop n v)) d).
Proof. intros Hn. apply runs_api. intros L <-. apply view_newfunction, Hn. Qed.

Lemma runs_remove x y st v d : lv_stack v = y :: x :: st → runs v d (api (lua_remove (-2))) (exactly tt (with_stack (y :: st) v) d).
Proof. intros H. apply runs_api. intros L <-. exact (view_remove st x y L H). Qed.

Lemma runs_insert x y st v d : lv_stack v = y :: x :: st → runs v d (api (lua_insert (-2))) (exactly tt (with_stack (x :: y :: st) v) d).
Proof. intros H. apply runs_api. intros L <-. exact (view_insert st x y L H). Qed.

Lemma runs_setmetatable i m st v d :
  lv_stack v = LTable m :: st → runs v d (api (lua_setmetatable i)) (exactly tt (v_setmetatable i v) d).
Proof.
  intros H. apply runs_api. intros L <-. apply view_setmetatable. unfold v_top. rewrite H. eexists. reflexivity.
Qed.

(** A key is set in the table at an index. *)
Lemma runs_rawset i k x t st v d :
  v_at i v = LTable t → lv_stack v = x :: k :: st →
  runs v d (rawset i) (λ _ v' d', d' = d ∧
    ∃ l, l ≡ₚ raw_update k x (lv_tables v t) ∧ v' = with_stack st (with_table t l v)).
Proof.
  intros Hat Hst. unfold rawset. apply (runs_step _ _ _ _ tt v d); [apply runs_needs; rewrite Hst; cbn; lia|].
  apply (runs_step _ _ _ _ _ _ _ _ (runs_needs_table i t v d Hat)).
  intros s Hv Hd. eexists tt, _. split; [reflexivity|]. split; [exact Hd|]. subst v.
  destruct (view_rawset i k x st (dl_L s)) as (t' & l & Ht' & Hl & Hv'); [exists t; exact Hat|exact Hst|].
  rewrite Hat in Ht'. injection Ht' as <-. exists l. split; [exact Hl|].
  cbn [with_L dl_L]. rewrite Hv'. unfold v_pop, with_stack. cbn. rewrite Hst. reflexivity.
Qed.

(** A key that is not there. *)
Lemma runs_rawset_new k x t st v d :
  lv_stack v = x :: k :: LTable t :: st → k ∉ (lv_tables v t).*1 → x ≠ LNil →
  runs v d (rawset (-3)) (λ _ v' d', d' = d ∧
    ∃ l, l ≡ₚ (k, x) :: lv_tables v t ∧ v' = with_stack (LTable t :: st) (with_table t l v)).
Proof.
  intros Hst Hk Hx. eapply runs_conseq; [exact (runs_rawset (-3) k x t _ v d (v_at_third _ _ _ _ _ Hst) Hst)|]. intros ? v' d' (-> & l & Hl & ->).
  split; [reflexivity|]. exists l. rewrite (raw_update_new _ _ _ Hk Hx), <- Permutation_cons_append in Hl. auto.
Qed.

(** The values of a table with these keys. *)
Definition keyed (ks : list string) (l : contents) : Prop := l.*1 ≡ₚ map LString ks ∧ LNil ∉ l.*2.

(** [luaL_setfuncs] *)
Lemma runs_setfuncs reg n t st ks v d :
  lv_stack v = LTable t :: st → (n ≤ t)%nat → (n ≤ lv_next v)%nat → (t < lv_next v)%nat → NoDup (reg ++ ks) → keyed ks (lv_tables v t) →
  runs v d (setfuncs reg) (λ _ v' d', d' = d ∧ keeps n v v' ∧ lv_stack v' = lv_stack v ∧ keyed (reg ++ ks) (lv_tables v' t)).
Proof.
  intros Hst Hnt Hn Ht Hnd Hk. unfold setfuncs. revert ks v Hst Hn Ht Hnd Hk.
  induction reg as [|name reg IH]; intros ks v Hst Hn Ht Hnd [Hk Hv]; cbn [for_each].
  { apply runs_ret. split; [reflexivity|]. split; [reflexivity|]. split; [reflexivity|]. split; assumption. }
  apply NoDup_cons in Hnd as [Hname Hnd].
  eapply runs_bind with (R := λ _ v' d', d' = d ∧ keeps n v v' ∧ lv_stack v' = lv_stack v ∧ keyed (name :: ks) (lv_tables v' t)).
  - apply (runs_step _ _ _ _ _ _ _ _ (runs_push _ _ _)).
    eapply runs_step; [apply (runs_newfunction name 0); cbn; lia|].
    set (v1 := v_new LFunction 0 (v_pop 0 (v_push (LString name) v))).
    assert (keeps n v v1) as Hk1.
    { apply keeps_new; [exact Hn|auto|]. do 2 apply keeps_stack. reflexivity. }
    assert (lv_tables v1 t = lv_tables v t) as Ht1 by (cbn; rewrite (proj2 (Nat.eqb_neq _ _)) by lia; reflexivity).
    eapply runs_conseq; [apply (runs_rawset_new (LString name) (LFunction (lv_next v)) t st); [cbn; rewrite Hst; reflexivity| |discriminate]|].
    { rewrite Ht1, Hk. intros (? & [= <-] & Hin)%list_elem_of_fmap. apply Hname, elem_of_app. right. exact Hin. }
    intros ? v2 d2 (-> & l & Hl & ->). split; [reflexivity|]. split.
    { apply keeps_stack, keeps_table; assumption. }
    split; [symmetry; exact Hst|]. cbn [with_stack with_table lv_tables]. rewrite Nat.eqb_refl, Ht1 in *.
    split; [rewrite Hl; cbn; rewrite Hk; reflexivity|]. rewrite Hl. cbn. intros [H|H]%elem_of_cons; [discriminate|exact (Hv H)].
  - intros ? v1 d1 (-> & Hke & Hst1 & Hk1). pose proof (ke_next _ _ _ Hke).
    eapply runs_conseq; [apply (IH (name :: ks) v1); [congruence|lia|lia| |exact Hk1]|].
    { rewrite <- Permutation_middle. apply NoDup_cons. split; assumption. }
    intros ? v2 d2 (-> & Hke2 & Hst2 & Hk2). split; [reflexivity|]. split; [transitivity v1; assumption|].
    split; [congruence|]. destruct Hk2 as [H1 H2]. split; [|exact H2]. rewrite H1, <- Permutation_middle. reflexivity.
Qed.
End calls.

(** ** A proxy

    Userdata with a metatable that says so, and the pointer. *)
Definition proxy (v : lua_view) (u : nat) : Prop :=
  ∃ m, lv_meta v (LUserdata u) = Some m ∧ (0 < m < lv_next v)%nat ∧
    raw_lookup (LString "__is_deai_proxy") (lv_tables v m) = LBoolean true.

Section pushproxy.
Context {API : LuaApi} {OK : LuaApiOk API}.

Definition proxy_keys (reg : list string) (callable : bool) : list string :=
  (if callable then ["__call"] else []) ++ "__is_deai_proxy" :: reg.

(** The metatable is [m]: with these methods. *)
Definition metatable (reg : list string) (callable : bool) (v : lua_view) (m : nat) : Prop :=
  keyed (proxy_keys reg callable) (lv_tables v m) ∧ (LString "__is_deai_proxy", LBoolean true) ∈ lv_tables v m.

Lemma runs_methods reg n v d (rest : ST dl unit) Q :
  (n ≤ lv_next v)%nat → NoDup ("__is_deai_proxy"%string :: reg) →
  (∀ v', keeps n v v' → lv_stack v' = LTable (lv_next v) :: lv_stack v → (lv_next v < lv_next v')%nat →
    metatable reg false v' (lv_next v) → runs v' d rest Q) →
  runs v d (api lua_newtable;; setfuncs reg;; push (LString "__is_deai_proxy");; push (LBoolean true);; rawset (-3);; rest) Q.
Proof.
  intros Hn Hnd Hrest. apply NoDup_cons in Hnd as [Hi Hnd].
  apply (runs_step _ _ _ _ _ _ _ _ (runs_newtable v d)). set (v1 := v_new LTable 0 v). set (m := lv_next v).
  eapply runs_bind; [apply (runs_setfuncs reg n m (lv_stack v) [] v1); cbn; try lia; try reflexivity|].
  { rewrite app_nil_r. exact Hnd. }
  { rewrite Nat.eqb_refl. split; [reflexivity|apply not_elem_of_nil]. }
  intros ? v2 d2 (-> & Hke & Hst & Hk & Hnil). rewrite app_nil_r in Hk.
  apply (runs_step _ _ _ _ _ _ _ _ (runs_push _ v2 d)). apply (runs_step _ _ _ _ _ _ _ _ (runs_push _ _ d)).
  eapply runs_bind; [apply (runs_rawset_new (LString "__is_deai_proxy") (LBoolean true) m (lv_stack v)); [cbn; rewrite Hst; reflexivity| |discriminate]|].
  { cbn. rewrite Hk. intros (? & [= <-] & Hin)%list_elem_of_fmap. exact (Hi Hin). }
  intros ? v3 d3 (-> & l & Hl & ->). cbn in Hl. pose proof (ke_next _ _ _ Hke) as Hnext. apply Hrest.
  - apply keeps_stack, keeps_table; [exact Hn|]. do 2 apply keeps_stack. transitivity v1; [|exact Hke].
    apply keeps_new; [exact Hn|auto|reflexivity].
  - reflexivity.
  - cbn in *. lia.
  - unfold metatable, keyed. cbn. fold m. rewrite Nat.eqb_refl. rewrite Hl. cbn. split; [split; [rewrite Hk; reflexivity|]|left].
    intros [H|H]%elem_of_cons; [discriminate|exact (Hnil H)].
Qed.

Lemma runs_pushproxy name o reg callable v d :
  (0 < lv_next v)%nat → NoDup (proxy_keys reg callable) →
  runs v d (di_lua_pushproxy name o reg callable) (λ _ v' d', d' = d ∧ keeps (lv_next v) v v' ∧
    lv_stack v' = LUserdata (lv_next v) :: lv_stack v ∧ lv_blocks v' (lv_next v) = o ∧
    (∃ m, lv_meta v' (LUserdata (lv_next v)) = Some m ∧ metatable reg callable v' m) ∧
    proxy v' (lv_next v) ∧ (lv_next v < lv_next v')%nat).
Proof.
  intros Hpos Hnd. set (u := lv_next v). unfold di_lua_pushproxy, di_lua_create_metatable_for_object.
  apply (runs_step _ _ _ _ _ _ _ _ (runs_newuserdata o v d)). set (v1 := v_new LUserdata o v).
  assert (NoDup ("__is_deai_proxy"%string :: reg)) as Hnd' by (destruct callable; [apply NoDup_cons in Hnd as [_ Hnd]|]; exact Hnd).
  (* the metatable [m] is set *)
  assert (∀ v2 m, keeps (Datatypes.S u) v1 v2 → lv_stack v2 = LTable m :: LUserdata u :: lv_stack v → (u < m < lv_next v2)%nat →
    metatable reg callable v2 m →
    runs v2 d (needs_table (-1);; api (lua_setmetatable (-2))) (λ _ v' d', d' = d ∧ keeps u v v' ∧
      lv_stack v' = LUserdata u :: lv_stack v ∧ lv_blocks v' u = o ∧
      (∃ m, lv_meta v' (LUserdata u) = Some m ∧ metatable reg callable v' m) ∧ proxy v' u ∧ (u < lv_next v')%nat)) as Hset.
  { intros v2 m Hke Hst Hm Hmeta. apply (runs_step _ _ _ _ _ _ _ _ (runs_needs_table _ m v2 d (v_at_top _ _ _ Hst))).
    eapply runs_done; [exact (runs_setmetatable (-2) m _ v2 d Hst)|].
    pose proof (v_at_second _ _ _ _ Hst) as Hat. split; [reflexivity|]. split.
    { apply keeps_setmetatable; [rewrite Hat; cbn; lia|]. transitivity v1; [|apply (keeps_less (Datatypes.S u)); [lia|exact Hke]].
      apply keeps_new; [apply le_n|auto|reflexivity]. }
    assert (v_setmetatable (-2) v2 = View (LUserdata u :: lv_stack v) (lv_tables v2)
      (λ y, if decide (y = LUserdata u) then Some m else lv_meta v2 y) (lv_blocks v2) (lv_next v2)) as ->.
    { unfold v_setmetatable, v_top. rewrite Hst, Hat. reflexivity. }
    cbn. rewrite decide_True by reflexivity. split; [reflexivity|]. split.
    { rewrite (ke_blocks _ _ _ Hke) by lia. cbn. rewrite Nat.eqb_refl. reflexivity. }
    split; [exists m; split; [reflexivity|exact Hmeta]|]. split; [|lia].
    exists m. cbn. rewrite decide_True by reflexivity. split; [reflexivity|]. split; [lia|].
    destruct Hmeta as [[Hk _] Hin]. apply raw_lookup_elem; [|exact Hin]. rewrite Hk.
    apply NoDup_fmap_2; [intros ? ? [=]; assumption|exact Hnd]. }
  destruct callable.
  - eapply runs_step; [eapply runs_step; [apply runs_push|apply runs_push]|].
    eapply runs_step; [eapply runs_step; [apply runs_needs; cbn; lia|apply (runs_newfunction "di_lua_method_handler" 2); cbn; lia]|].
    set (v2 := v_new LFunction 0 (v_pop 2 _)). set (f := lv_next v1).
    assert (keeps (Datatypes.S u) v1 v2) as Hk2.
    { apply keeps_new; [cbn; lia|auto|]. do 3 apply keeps_stack. reflexivity. }
    assert (lv_stack v2 = LFunction f :: LUserdata u :: lv_stack v) as Hst2 by reflexivity.
    assert (u < lv_next v2)%nat as Hlt2 by (cbn; lia). clearbody v2 f.
    apply (runs_methods reg (Datatypes.S u)); [exact Hlt2|exact Hnd'|]. intros v3 Hk3 Hst3 Hlt3 [[Hkeys Hnil] Hin].
    rewrite Hst2 in Hst3. set (m := lv_next v2) in *. eapply runs_bind.
    + eapply runs_step; [apply runs_needs; rewrite Hst3; cbn; lia|]. eapply runs_step; [exact (runs_insert _ _ _ v3 d Hst3)|].
      eapply runs_step; [apply runs_push|]. eapply runs_step; [apply runs_needs; cbn; lia|].
      eapply runs_step; [eapply runs_insert; reflexivity|].
      apply (runs_rawset_new (LString "__call") (LFunction f) m (LUserdata u :: lv_stack v)); [reflexivity| |discriminate].
      cbn. rewrite Hkeys. intros (? & [= <-] & H)%list_elem_of_fmap. apply NoDup_cons in Hnd as [Hnd _]. exact (Hnd H).
    + intros ? v4 d4 (-> & l & Hl & ->). cbn in Hl. apply (Hset _ m); [|reflexivity|cbn in *; lia|].
      * apply keeps_stack, keeps_table; [cbn; lia|]. do 3 apply keeps_stack. transitivity v2; assumption.
      * unfold metatable, keyed. cbn. rewrite Nat.eqb_refl. split; [split|]; rewrite Hl; cbn.
        -- rewrite Hkeys. reflexivity.
        -- intros [H|H]%elem_of_cons; [discriminate|exact (Hnil H)].
        -- right. exact Hin.
  - eapply runs_step; [apply runs_ret; split; [reflexivity|split; reflexivity]|].
    eapply runs_step; [apply runs_ret; split; [reflexivity|split; reflexivity]|].
    apply (runs_methods reg (Datatypes.S u)); [cbn; lia|exact Hnd'|]. intros v3 Hk3 Hst3 Hlt3 Hmeta.
    eapply runs_step; [apply runs_ret; split; [reflexivity|split; reflexivity]|].
    apply (Hset v3 (lv_next v1)); [exact Hk3|exact Hst3|cbn in *; lia|exact Hmeta].
Qed.
End pushproxy.

(** ** Weak references

    The table [t] has weak values. *)
Definition weak (v : lua_view) (t : nat) : Prop :=
  ∃ m, lv_meta v (LTable t) = Some m ∧ (t < m < lv_next v)%nat ∧
    raw_lookup (LString "__mode") (lv_tables v m) = LString "v".

Section weak.
Context {API : LuaApi} {OK : LuaApiOk API}.

(** A table with a weak value is in the registry, as number [r]. *)
Lemma runs_weakref x st v d :
  table_wf (lv_tables v REGISTRY) → (0 < lv_next v)%nat → lv_stack v = x :: st → x ≠ LNil →
  runs v d (luaL_weakref LUA_REGISTRYINDEX) (λ r v' d', d' = d ∧ LInteger r ∉ (lv_tables v REGISTRY).*1 ∧
    ∃ w l, keeps (lv_next v) v w ∧ lv_stack w = st ∧ (lv_next v < lv_next w)%nat ∧
      lv_tables w (lv_next v) = [(LInteger 1, x)] ∧ weak w (lv_next v) ∧
      l ≡ₚ (LInteger r, LTable (lv_next v)) :: lv_tables v REGISTRY ∧ v' = with_table REGISTRY l w).
Proof.
  intros Hwf Hpos Hst Hx. set (t := lv_next v). set (m := Datatypes.S t). unfold luaL_weakref.
  apply (runs_step _ _ _ _ _ _ _ _ (runs_newtable v d)). eapply runs_step; [apply runs_newtable|].
  eapply runs_step; [apply runs_push|]. eapply runs_step; [apply runs_push|].
  eapply runs_bind; [apply (runs_rawset_new (LString "__mode") (LString "v") m (LTable t :: lv_stack v)); [reflexivity| |discriminate]|].
  { cbn. rewrite Nat.eqb_refl. apply not_elem_of_nil. }
  intros ? v1 d1 (-> & l1 & Hl1 & ->). cbn in Hl1. rewrite Nat.eqb_refl in Hl1. apply Permutation_singleton_r in Hl1 as ->.
  eapply runs_step; [apply (runs_needs_table (-1) m); reflexivity|].
  eapply runs_step; [eapply (runs_setmetatable (-2) m); reflexivity|].
  match goal with |- runs ?v2 _ _ _ => set (w := v2) end.
  assert (keeps t v w) as Hke.
  { apply keeps_setmetatable; [erewrite v_at_second by reflexivity; cbn; lia|]. apply keeps_stack, keeps_table; [lia|]. do 2 apply keeps_stack.
    apply keeps_new; [cbn; lia|auto|]. apply keeps_new; [apply le_n|auto|reflexivity]. }
  assert (lv_stack w = LTable t :: x :: st) as Hst1 by (cbn; rewrite Hst; reflexivity).
  assert (lv_tables w t = [] ∧ weak w t ∧ (t < lv_next w)%nat) as (Ht & Hweak & Hlt).
  { cbn. rewrite (proj2 (Nat.eqb_neq t m)), Nat.eqb_refl by (unfold m; lia). split; [destruct (Nat.eqb _ _); reflexivity|]. split; [|unfold m, t; lia].
    exists m. cbn. rewrite decide_True by reflexivity. rewrite Nat.eqb_refl. cbn.
    rewrite decide_True by reflexivity. split; [reflexivity|]. split; [unfold m, t; lia|reflexivity]. }
  clearbody w. clear m. assert (0 < t)%nat as Ht0 by exact Hpos. clearbody t.
  eapply runs_step; [apply (runs_value_at (-2))|]. rewrite (v_at_second _ _ _ _ Hst1).
  eapply runs_step; [apply runs_push|].
  eapply runs_bind; [apply (runs_rawseti (-2) 1 x (lv_stack w) t); [apply (v_at_second (LTable t) x (x :: st)); cbn; rewrite Hst1; reflexivity|reflexivity]|].
  intros ? v1 d1 (-> & l1 & Hl1 & ->). cbn in Hl1. rewrite Ht in Hl1. cbn in Hl1. rewrite decide_False in Hl1 by exact Hx.
  apply Permutation_singleton_r in Hl1 as ->.
  eapply runs_step; [apply runs_needs; cbn; rewrite Hst1; cbn; lia|].
  eapply runs_step; [apply (runs_remove x (LTable t) st); cbn; exact Hst1|].
  eapply runs_conseq; [eapply (runs_ref (LTable t) st); [reflexivity|discriminate]|].
  intros r v' d' (-> & Hr & l & Hl & ->). cbn -[Nat.eqb REGISTRY] in Hr, Hl. rewrite (proj2 (Nat.eqb_neq REGISTRY t)) in Hr, Hl by (unfold REGISTRY; lia).
  assert (lv_tables w REGISTRY = lv_tables v REGISTRY) as Hw0 by exact (ke_tables _ _ _ Hke REGISTRY Ht0). rewrite Hw0 in Hr, Hl.
  assert (LInteger r ∉ (lv_tables v REGISTRY).*1) as Hnew by (intros H%(raw_lookup_found _ _ Hwf); exact (H Hr)).
  split; [reflexivity|]. split; [exact Hnew|].
  exists (with_stack st (with_table t [(LInteger 1, x)] w)), l. split; [apply keeps_stack, keeps_table; [lia|exact Hke]|].
  split; [reflexivity|]. split; [exact Hlt|]. split; [cbn; rewrite Nat.eqb_refl; reflexivity|]. split; [|split; [|reflexivity]].
  - destruct Hweak as (m & Hm & Hmt & Hmode). exists m. split; [exact Hm|]. split; [exact Hmt|]. cbn.
    rewrite (proj2 (Nat.eqb_neq m t)) by lia. exact Hmode.
  - rewrite Hl, raw_update_new, <- Permutation_cons_append by (assumption || discriminate). reflexivity.
Qed.
End weak.

(** ** Contents of tables

    A key that is set. *)
Lemma raw_update_filter l k : NoDup l.*1 → raw_update k LNil l = filter (λ e, e.1 ≠ k) l.
Proof.
  induction l as [|[k' x] l IH]; [reflexivity|]. rewrite fmap_cons, NoDup_cons. intros [Hn Hd]. cbn [raw_update].
  destruct (decide (k' = k)) as [->|Hne].
  - rewrite decide_True by reflexivity. rewrite filter_cons_False by (cbn; tauto).
    clear IH Hd. cbn in Hn. induction l as [|[k' y] l IH]; [reflexivity|]. rewrite fmap_cons, not_elem_of_cons in Hn.
    destruct Hn as [Hne Hn]. cbn in Hne. rewrite filter_cons_True by (cbn; congruence). f_equal. exact (IH Hn).
  - rewrite filter_cons_True by exact Hne. rewrite (IH Hd). reflexivity.
Qed.

Lemma table_wf_sublist l l' : l' `sublist_of` l → table_wf l → table_wf l'.
Proof.
  intros Hs [H1 H2 H3]. constructor.
  - exact (sublist_NoDup _ _ H1 (fmap_sublist fst _ _ Hs)).
  - intros H. apply H2. exact (elem_of_sublist _ _ _ H (fmap_sublist fst _ _ Hs)).
  - intros H. apply H3. exact (elem_of_sublist _ _ _ H (fmap_sublist snd _ _ Hs)).
Qed.

Lemma raw_lookup_update l k k' x : NoDup l.*1 → k ≠ k' → raw_lookup k (raw_update k' x l) = raw_lookup k l.
Proof.
  induction l as [|[j y] l IH]; cbn [raw_update]; intros Hd Hne.
  - destruct (decide (x = LNil)); [reflexivity|]. cbn. rewrite decide_False by congruence. reflexivity.
  - rewrite fmap_cons, NoDup_cons in Hd. destruct Hd as [_ Hd]. destruct (decide (j = k')) as [->|Hj].
    + destruct (decide (x = LNil)); cbn [raw_lookup]; rewrite ?(decide_False (P := k' = k)) by congruence; reflexivity.
    + cbn [raw_lookup]. destruct (decide (j = k)); [reflexivity|]. exact (IH Hd Hne).
Qed.

Lemma raw_update_keys l k x : x ≠ LNil → k ∈ l.*1 → (raw_update k x l).*1 = l.*1.
Proof.
  intros Hx. induction l as [|[j y] l IH]; [intros H; inversion H|]. cbn [raw_update]. rewrite fmap_cons.
  destruct (decide (j = k)) as [->|Hj]; [rewrite decide_False by exact Hx; reflexivity|].
  intros [H|H]%elem_of_cons; [cbn in H; congruence|]. rewrite fmap_cons, (IH H). reflexivity.
Qed.

Lemma raw_update_no_nil l k x : x ≠ LNil → LNil ∉ l.*2 → LNil ∉ (raw_update k x l).*2.
Proof.
  intros Hx. induction l as [|[j y] l IH]; cbn [raw_update].
  - intros _. rewrite decide_False by exact Hx. intros H%list_elem_of_singleton. cbn in H. congruence.
  - rewrite fmap_cons, not_elem_of_cons. intros [H1 H2]. cbn in H1. destruct (decide (j = k)).
    + rewrite decide_False by exact Hx. rewrite fmap_cons, not_elem_of_cons. split; [cbn; congruence|exact H2].
    + rewrite fmap_cons, not_elem_of_cons. split; [exact H1|exact (IH H2)].
Qed.

Lemma table_wf_update l k x : table_wf l → k ≠ LNil → table_wf (raw_update k x l).
Proof.
  intros Hwf Hk. destruct (decide (x = LNil)) as [->|Hx].
  { rewrite raw_update_filter by apply Hwf. exact (table_wf_sublist _ _ (sublist_filter _ _) Hwf). }
  destruct (decide (k ∈ l.*1)) as [Hin|Hin]; [|rewrite raw_update_new by assumption; apply table_wf_add; assumption].
  constructor; [rewrite raw_update_keys by assumption; apply Hwf..|apply raw_update_no_nil; [exact Hx|apply Hwf]].
Qed.

(** An integer key is set: those that are strings stay. *)
Lemma strings_stay l l' n x :
  table_wf l → l' ≡ₚ raw_update (LInteger n) x l → ∀ s, raw_lookup (LString s) l' = raw_lookup (LString s) l.
Proof.
  intros Hwf Hl s. rewrite (raw_lookup_perm (raw_update (LInteger n) x l) l'); [|apply table_wf_update; [exact Hwf|discriminate]|symmetry; exact Hl].
  apply raw_lookup_update; [apply Hwf|discriminate].
Qed.

Lemma strings_stay_new l l' n x :
  table_wf l → LInteger n ∉ l.*1 → x ≠ LNil → l' ≡ₚ (LInteger n, x) :: l → ∀ s, raw_lookup (LString s) l' = raw_lookup (LString s) l.
Proof.
  intros Hwf Hn Hx Hl. apply (strings_stay l l' n x Hwf). rewrite (raw_update_new _ _ _ Hn Hx), Hl. apply Permutation_cons_append.
Qed.

(** ** What is tracked

    Tables other than the registry, metatables and blocks stay. *)
Record stays (v v' : lua_view) : Prop := {
  mo_next : (lv_next v ≤ lv_next v')%nat;
  mo_tables t : (0 < t < lv_next v)%nat → lv_tables v' t = lv_tables v t;
  mo_meta x : below (lv_next v) x → lv_meta v' x = lv_meta v x;
  mo_blocks u : (u < lv_next v)%nat → lv_blocks v' u = lv_blocks v u
}.

#[export] Instance stays_preorder : PreOrder stays.
Proof.
  split; [constructor; reflexivity|]. intros u v w [A1 A2 A3 A4] [B1 B2 B3 B4].
  constructor; intros; [lia|rewrite B2, A2 by lia; reflexivity| |rewrite B4, A4 by lia; reflexivity].
  rewrite B3, A3; [reflexivity|assumption|]. destruct x; cbn in *; try tauto; lia.
Qed.

Lemma stays_registry l v w : stays v w → stays v (with_table REGISTRY l w).
Proof.
  intros H. transitivity w; [exact H|]. constructor; try reflexivity. intros t Ht. cbn -[Nat.eqb].
  rewrite (proj2 (Nat.eqb_neq t REGISTRY)) by (unfold REGISTRY; lia). reflexivity.
Qed.

Lemma stays_stack st v w : stays v w → stays v (with_stack st w).
Proof. intros H. transitivity w; [exact H|constructor; reflexivity]. Qed.

(** So do the strings of the registry. *)
Record moves (v v' : lua_view) : Prop := {
  mo_stays :> stays v v';
  mo_strings s : raw_lookup (LString s) (lv_tables v' REGISTRY) = raw_lookup (LString s) (lv_tables v REGISTRY)
}.

Lemma keeps_moves v v' : (0 < lv_next v)%nat → keeps (lv_next v) v v' → moves v v'.
Proof.
  intros Hpos [H1 H2 H3 H4]. constructor; [|intros s; rewrite H2 by exact Hpos; reflexivity].
  constructor; [exact H1|intros t Ht; apply H2; lia|exact H3|exact H4].
Qed.

#[export] Instance moves_preorder : PreOrder moves.
Proof.
  split; [constructor; reflexivity|]. intros u v w [A1 A2] [B1 B2].
  constructor; [transitivity v; assumption|intros s; rewrite B2; apply A2].
Qed.

Lemma moves_registry l v w :
  (∀ s, raw_lookup (LString s) l = raw_lookup (LString s) (lv_tables w REGISTRY)) → moves v w → moves v (with_table REGISTRY l w).
Proof. intros Hs [H1 H2]. constructor; [apply stays_registry, H1|]. intros s. rewrite <- H2, <- Hs. reflexivity. Qed.

Lemma moves_stack st v w : moves v w → moves v (with_stack st w).
Proof. intros [H1 H2]. constructor; [apply stays_stack, H1|exact H2]. Qed.

(** The weak table of an object: its proxy, or nothing once that is [dead]. *)
Definition cell (dead : bool) (v : lua_view) (o : loc) (l : contents) : Prop :=
  dead = true ∧ l = [] ∨ ∃ u, l = [(LInteger 1, LUserdata u)] ∧ (u < lv_next v)%nat ∧ lv_blocks v u = Z.of_nat o ∧ proxy v u.

Lemma proxy_moves v v' u : stays v v' → (u < lv_next v)%nat → proxy v u → proxy v' u.
Proof.
  intros [H1 H2 H3 _] Hu (m & Hm & Hlt & Hp). exists m. rewrite H3 by exact Hu. split; [exact Hm|]. split; [lia|].
  rewrite H2 by lia. exact Hp.
Qed.

Lemma cell_moves dead v v' o l : stays v v' → cell dead v o l → cell dead v' o l.
Proof.
  intros Hm [H|(u & -> & Hu & Hb & Hp)]; [left; exact H|]. right. exists u. split; [reflexivity|].
  split; [pose proof (mo_next _ _ Hm); lia|]. split; [rewrite (mo_blocks _ _ Hm) by exact Hu; exact Hb|].
  exact (proxy_moves v v' u Hm Hu Hp).
Qed.

Lemma weak_moves v v' t : stays v v' → (t < lv_next v)%nat → weak v t → weak v' t.
Proof.
  intros [H1 H2 H3 _] Ht (m & Hm & Hlt & Hw). exists m. rewrite H3 by exact Ht. split; [exact Hm|]. split; [lia|].
  rewrite H2 by lia. exact Hw.
Qed.

(** Every object of the map has a weak table in the registry, a member of the state
    object and a reference of its own; the numbers of references to Lua values are
    all different.  Only with [dead] may proxies have died. *)
Record tracked (dead : bool) (v : lua_view) (d : deai) : Prop := {
  tr_world : world_ok v d;
  tr_next : (0 < lv_next v)%nat;
  tr_meta : lv_meta v (LTable REGISTRY) = None;
  tr_objects : NoDup (d_map d).*1;
  tr_refs : NoDup ((d_lua_refs d).*2 ++ (d_map d).*2);
  tr_lua e : e ∈ d_lua_refs d → LInteger e.2 ∈ (lv_tables v REGISTRY).*1;
  tr_lua_objects : NoDup (d_lua_refs d).*1;
  tr_entries e : e ∈ d_map d → ∃ t, (LInteger e.2, LTable t) ∈ lv_tables v REGISTRY ∧
    (0 < t < lv_next v)%nat ∧ weak v t ∧ cell dead v e.1 (lv_tables v t);
  tr_members : d_members d ≡ₚ map (λ e, (e.2, e.1)) (d_map d);
  tr_strong : (d_map d).*1 ⊆+ d_strong d
}.

#[global] Arguments tr_world {dead} v d.
#[global] Arguments tr_next {dead} v d.
#[global] Arguments tr_meta {dead} v d.
#[global] Arguments tr_objects {dead} v d.
#[global] Arguments tr_refs {dead} v d.
#[global] Arguments tr_lua {dead} v d.
#[global] Arguments tr_lua_objects {dead} v d.
#[global] Arguments tr_entries {dead} v d.
#[global] Arguments tr_members {dead} v d.
#[global] Arguments tr_strong {dead} v d.

(** The references that are in use. *)
Definition refs_of (d : deai) : list Z := (d_lua_refs d).*2 ++ (d_map d).*2.

Section moving.
Context {dead : bool}.

(** The state of Lua moves, and the registry keeps what is in use. *)
Lemma tracked_moves v v' d :
  tracked dead v d → stays v v' → table_wf (lv_tables v' REGISTRY) →
  (∀ r x, r ∈ refs_of d → (LInteger r, x) ∈ lv_tables v REGISTRY → (LInteger r, x) ∈ lv_tables v' REGISTRY) →
  tracked dead v' d.
Proof.
  intros [[H1 H1'] H2 H2' H3 H4 H5 H6 H7 H8 H9] Hm Hwf Hin. unfold refs_of in Hin.
  assert (∀ e, e ∈ d_lua_refs d → e.2 ∈ (d_lua_refs d).*2 ++ (d_map d).*2) as Hl.
  { intros e He. apply elem_of_app. left. exact (list_elem_of_fmap_2 snd _ _ He). }
  assert (∀ e, e ∈ d_map d → e.2 ∈ (d_lua_refs d).*2 ++ (d_map d).*2) as Hr.
  { intros e He. apply elem_of_app. right. exact (list_elem_of_fmap_2 snd _ _ He). }
  constructor; try assumption; [split; assumption|pose proof (mo_next _ _ Hm); lia|rewrite (mo_meta _ _ Hm); [exact H2'|exact H2]| |].
  - intros e He. specialize (H5 e He). apply list_elem_of_fmap in H5 as ([k x] & Hk & Hx). cbn in Hk. subst k.
    exact (list_elem_of_fmap_2 fst _ _ (Hin _ _ (Hl e He) Hx)).
  - intros e He. destruct (H7 e He) as (t & Ht & Hlt & Hw & Hc). exists t. split; [exact (Hin _ _ (Hr e He) Ht)|].
    split; [pose proof (mo_next _ _ Hm); lia|]. split; [exact (weak_moves _ _ _ Hm (proj2 Hlt) Hw)|]. rewrite (mo_tables _ _ Hm) by exact Hlt. exact (cell_moves _ _ _ _ _ Hm Hc).
Qed.

End moving.

Lemma take_out_some {A} (f : A → bool) l x l' : take_out f l = Some (x, l') → f x = true ∧ l ≡ₚ x :: l'.
Proof.
  revert l'. induction l as [|y l IH]; [discriminate|]. intros l'. cbn [take_out].
  destruct (f y) eqn:E; [intros [= <- <-]; auto|].
  destruct (take_out f l) as [[z r]|]; [|discriminate]. intros [= <- <-]. destruct (IH r eq_refl) as [H1 H2].
  split; [exact H1|]. cbn [fst snd]. rewrite H2. apply perm_swap.
Qed.

Lemma take_out_none {A} (f : A → bool) l x : take_out f l = None → x ∈ l → f x = false.
Proof.
  induction l as [|y l IH]; [intros _ H; inversion H|]. cbn [take_out].
  destruct (f y) eqn:E; [discriminate|]. destruct (take_out f l) as [r|]; [discriminate|].
  intros _ [->|Hx]%elem_of_cons; [exact E|exact (IH eq_refl Hx)].
Qed.

Lemma take_out_elem {A} (f : A → bool) l x : x ∈ l → f x = true → ∃ r, take_out f l = Some r.
Proof.
  intros Hx Hf. destruct (take_out f l) as [r|] eqn:E; [eauto|]. rewrite (take_out_none f l x E Hx) in Hf. discriminate.
Qed.

(** *** Registry *)
Section tracked.
Context {API : LuaApi} {OK : LuaApiOk API} {dead : bool}.

(** A reference that is not in use is dropped. *)
Lemma runs_unref_tracked r v d :
  tracked dead v d → r ∉ refs_of d →
  runs v d (unref r) (λ _ v' d', d' = d ∧ tracked dead v' d ∧ moves v v' ∧ lv_stack v' = lv_stack v).
Proof.
  intros Ht Hr. eapply runs_conseq; [apply runs_unref|]. intros ? v' d' (-> & l & Hl & ->).
  pose proof (proj1 (tr_world _ _ Ht)) as Hwf.
  assert (moves v (v_pop 0 (with_table REGISTRY l v))) as Hm.
  { apply moves_stack, moves_registry; [exact (strings_stay _ _ _ _ Hwf Hl)|reflexivity]. }
  split; [reflexivity|]. split; [|split; [exact Hm|reflexivity]].
  rewrite (raw_update_filter _ _ (tw_keys _ Hwf)) in Hl. apply (tracked_moves v); [exact Ht|exact Hm|..]; cbn.
  - apply (table_wf_perm _ _ (symmetry Hl)), (table_wf_sublist _ _ (sublist_filter _ _) Hwf).
  - intros r' x Hr' Hx. rewrite Hl. apply list_elem_of_filter. split; [|exact Hx]. cbn. intros [= ->]. exact (Hr Hr').
Qed.

(** A reference to an object is dropped, beyond that of the map; when it was the last
    one, the object may have stood for a Lua value. *)
Lemma runs_unref_object o v d :
  tracked dead v d → o :: (d_map d).*1 ⊆+ d_strong d →
  runs v d (unref_object o) (λ _ v' d', tracked dead v' d' ∧ moves v v' ∧ lv_stack v' = lv_stack v ∧
    d_map d' = d_map d ∧ d_members d' = d_members d ∧ d_strong d ≡ₚ o :: d_strong d' ∧ d_next d' = d_next d ∧
    (o ∈ d_strong d' → v' = v ∧ d_lua_refs d' = d_lua_refs d) ∧ (∀ r, r ∈ refs_of d' → r ∈ refs_of d)).
Proof.
  intros Ht Hs. unfold unref_object. apply (runs_step _ _ _ _ _ _ _ _ (runs_get_deai v d)).
  destruct (take_out_elem (Nat.eqb o) (d_strong d) o) as [[o' st] E];
    [apply (elem_of_submseteq _ _ _ (list_elem_of_here _ _) Hs)|apply Nat.eqb_refl|].
  rewrite E. apply take_out_some in E as [->%Nat.eqb_eq Hst].
  apply (runs_step _ _ _ _ (o', st) v d); [apply runs_ret; split; auto|]. cbn [snd].
  apply (runs_step _ _ _ _ _ _ _ _ (runs_put_deai _ v d)).
  assert ((d_map d).*1 ⊆+ st) as Hmap by (rewrite Hst in Hs; apply (submseteq_app_inv_l _ _ [o']) in Hs; exact Hs).
  destruct Ht as [[H1 [H1a H1b]] H2 H2' H3 H4 H5 H6 H7 H8 H9].
  assert (∀ o, o ∈ st → (o < d_next d)%nat) as Hnext by (intros o Ho; apply H1b; rewrite Hst; right; exact Ho).
  destruct (take_out _ (d_lua_refs d)) as [[e refs]|] eqn:Er.
  - apply take_out_some in Er as [->%Nat.eqb_eq Hrefs]. destruct (existsb (Nat.eqb e.1) st) eqn:Ex.
    + apply runs_ret. split; [|repeat split; (reflexivity || assumption || auto)].
      constructor; try assumption. split; [exact H1|]. constructor; cbn; [|exact Hnext]. intros f Hf. specialize (H1a f Hf).
      rewrite Hst in H1a. apply elem_of_cons in H1a as [->|Hin]; [|exact Hin].
      apply existsb_exists in Ex as (y & Hy & ->%Nat.eqb_eq). apply list_elem_of_In, Hy.
    + apply (runs_step _ _ _ _ _ _ _ _ (runs_put_deai _ v _)).
      assert (NoDup (e.1 :: refs.*1)) as [Hn1 Hn2]%NoDup_cons by (rewrite Hrefs in H6; exact H6).
      assert (NoDup (e.2 :: (refs.*2 ++ (d_map d).*2))) as [Hn3 Hn4]%NoDup_cons by (rewrite Hrefs in H4; exact H4).
      eapply runs_conseq; [apply (runs_unref_tracked e.2); [|exact Hn3]|].
      * constructor; try assumption; cbn.
        -- split; [exact H1|]. constructor; cbn; [|exact Hnext]. intros f Hf. specialize (H1a f). rewrite Hrefs, Hst in H1a.
           specialize (H1a (list_elem_of_further _ _ _ Hf)). apply elem_of_cons in H1a as [Heq|Hin]; [|exact Hin].
           destruct Hn1. rewrite <- Heq. exact (list_elem_of_fmap_2 fst _ _ Hf).
        -- intros f Hf. apply H5. rewrite Hrefs. right. exact Hf.
      * intros ? v' d' (-> & Ht' & Hm & Hstk). split; [exact Ht'|]. split; [exact Hm|]. split; [exact Hstk|].
        split; [reflexivity|]. split; [reflexivity|]. split; [exact Hst|]. split; [reflexivity|]. cbn. split.
        -- intros Hin. assert (existsb (Nat.eqb e.1) st = true); [|congruence].
           apply existsb_exists. exists e.1. split; [apply list_elem_of_In, Hin|apply Nat.eqb_refl].
        -- intros r Hr. unfold refs_of in *. cbn in Hr. rewrite Hrefs. right. exact Hr.
  - apply runs_ret. split; [|repeat split; (reflexivity || assumption || auto)].
    constructor; try assumption. split; [exact H1|]. constructor; cbn; [|exact Hnext]. intros f Hf. pose proof (H1a f Hf) as Hin.
    rewrite Hst in Hin. apply elem_of_cons in Hin as [Heq|Hin]; [|exact Hin].
    pose proof (take_out_none _ _ _ Er Hf) as Hf'. cbn in Hf'. rewrite Heq, Nat.eqb_refl in Hf'. discriminate.
Qed.

(** [di_lua_forget_object] of an entry: its member, its reference and its weak table
    go. *)
Lemma runs_forget e v d :
  tracked dead v d → e ∈ d_map d →
  runs v d (di_lua_forget_object e) (λ _ v' d', tracked dead v' d' ∧ moves v v' ∧ lv_stack v' = lv_stack v ∧
    d_map d ≡ₚ e :: d_map d' ∧ d_strong d ≡ₚ e.1 :: d_strong d' ∧ d_next d' = d_next d).
Proof.
  intros Ht He. unfold di_lua_forget_object. apply (runs_step _ _ _ _ _ _ _ _ (runs_get_deai v d)).
  destruct (take_out_elem (λ e', Nat.eqb e.1 e'.1 && (e.2 =? e'.2)) (d_map d) e He) as [[e' mp] E].
  { rewrite Nat.eqb_refl, Z.eqb_refl. reflexivity. }
  rewrite E. apply take_out_some in E as [[H1%Nat.eqb_eq H2%Z.eqb_eq]%andb_prop Hmp].
  assert (e' = e) as -> by (destruct e, e'; cbn in *; congruence). clear H1 H2.
  apply (runs_step _ _ _ _ (e, mp) v d); [apply runs_ret; split; auto|].
  pose proof (tr_members _ _ Ht) as Hmem. rewrite Hmp in Hmem. cbn [map] in Hmem.
  destruct (take_out_elem (λ m, m.1 =? e.2) (d_members d) (e.2, e.1)) as [[m ms] Em]; [rewrite Hmem; left|apply Z.eqb_refl|].
  rewrite Em. apply take_out_some in Em as [Hm%Z.eqb_eq Hms].
  apply (runs_step _ _ _ _ (m, ms) v d); [apply runs_ret; split; auto|]. cbn [fst snd].
  apply (runs_step _ _ _ _ _ _ _ _ (runs_put_deai _ v d)).
  pose proof (tr_refs _ _ Ht) as Hrefs. rewrite Hmp in Hrefs. cbn in Hrefs. rewrite <- Permutation_middle, NoDup_cons in Hrefs.
  destruct Hrefs as [Hr Hrefs]. pose proof (tr_objects _ _ Ht) as Hobj. rewrite Hmp in Hobj. cbn in Hobj.
  apply NoDup_cons in Hobj as [Ho Hobj].
  assert (m = (e.2, e.1)) as ->.
  { assert (m ∈ (e.2, e.1) :: map (λ e, (e.2, e.1)) mp) as Hin by (rewrite <- Hmem, Hms; left).
    apply elem_of_cons in Hin as [->|Hin]; [reflexivity|]. apply list_elem_of_fmap in Hin as (f & -> & Hf).
    destruct Hr. cbn in Hm. rewrite <- Hm. apply elem_of_app. right. exact (list_elem_of_fmap_2 snd _ _ Hf). }
  eapply runs_bind; [apply (runs_unref_object e.1)|].
  - destruct Ht as [T1 T2 T2' T3 T4 T5 T6 T7 T8 T9]. constructor; try assumption; cbn.
    + destruct T1 as [? [? ?]]. split; [|constructor]; assumption.
    + intros f Hf. apply T7. rewrite Hmp. right. exact Hf.
    + rewrite Hms in Hmem. exact (Permutation_cons_inv Hmem).
    + rewrite Hmp in T9. cbn in T9. etransitivity; [|exact T9]. apply submseteq_cons. reflexivity.
  - pose proof (tr_strong _ _ Ht) as Hs. rewrite Hmp in Hs. exact Hs.
  - cbn [d_map d_members d_strong d_next]. intros ? v1 d1 (Ht1 & Hm1 & Hst1 & Hmap1 & _ & Hs1 & Hn1 & _ & Hrefs1).
    eapply runs_conseq; [apply (runs_unref_tracked e.2 v1 d1 Ht1); intros H%Hrefs1; exact (Hr H)|].
    intros ? v2 d2 (-> & Ht2 & Hm2 & Hst2). split; [exact Ht2|]. split; [transitivity v1; assumption|]. split; [congruence|].
    rewrite Hmap1, Hmp. auto.
Qed.

(** [luaL_weakref_get] *)
Lemma runs_weakref_get r t v d :
  table_wf (lv_tables v REGISTRY) → (LInteger r, LTable t) ∈ lv_tables v REGISTRY →
  let y := raw_lookup (LInteger 1) (lv_tables v t) in
  runs v d (luaL_weakref_get LUA_REGISTRYINDEX r) (exactly (negb (bool_decide (y = LNil))) (v_push y v) d).
Proof.
  intros Hwf Hr y. apply (raw_lookup_elem _ _ _ (tw_keys _ Hwf)) in Hr. unfold luaL_weakref_get.
  eapply runs_step; [apply (runs_rawgeti LUA_REGISTRYINDEX r REGISTRY); reflexivity|]. rewrite Hr.
  eapply runs_step; [apply runs_value_at|]. rewrite (v_at_top (LTable t) (lv_stack v)) by reflexivity.
  eapply runs_step; [apply runs_ret; split; [reflexivity|split; reflexivity]|].
  eapply runs_step; [apply (runs_rawgeti (-1) 1 t); reflexivity|]. eapply runs_step; [apply runs_needs; cbn; lia|].
  eapply runs_step; [eapply runs_remove; reflexivity|]. eapply runs_step; [apply runs_value_at|].
  erewrite v_at_top by reflexivity. apply runs_ret. split; [|split; reflexivity].
  change (lv_tables (v_push (LTable t) v) t) with (lv_tables v t). fold y. f_equal. apply bool_decide_ext.
  destruct y; cbn; split; intros; first [reflexivity|discriminate].
Qed.

(** The entry of an object. *)
Lemma runs_find o v d :
  runs v d (find_object o) (λ r v' d', v' = v ∧ d' = d ∧
    match r with Some e => e ∈ d_map d ∧ e.1 = o | None => o ∉ (d_map d).*1 end).
Proof.
  unfold find_object. apply (runs_step _ _ _ _ _ _ _ _ (runs_get_deai v d)). apply runs_ret.
  split; [reflexivity|]. split; [reflexivity|]. destruct (take_out _ (d_map d)) as [[e mp]|] eqn:E; cbn.
  - apply take_out_some in E as [->%Nat.eqb_eq Hp]. split; [rewrite Hp; left|reflexivity].
  - intros (e & -> & He)%list_elem_of_fmap. pose proof (take_out_none _ _ _ E He) as H. cbn in H.
    rewrite Nat.eqb_refl in H. discriminate.
Qed.
End tracked.

(** ** An object is pushed *)

(** The proxy of an object, with a weak table in which it is found. *)
Definition proxy_of (v : lua_view) (d : deai) (o : loc) (u : nat) : Prop :=
  (u < lv_next v)%nat ∧ lv_blocks v u = Z.of_nat o ∧ proxy v u ∧
  ∃ r t, (o, r) ∈ d_map d ∧ (LInteger r, LTable t) ∈ lv_tables v REGISTRY ∧ lv_tables v t = [(LInteger 1, LUserdata u)].

(** The entry of an object: its proxy is dead. *)
Definition stale (v : lua_view) (d : deai) (o : loc) : Prop :=
  ∃ r t, (o, r) ∈ d_map d ∧ (LInteger r, LTable t) ∈ lv_tables v REGISTRY ∧ lv_tables v t = [].

Lemma entry_cases {dead} v d o :
  tracked dead v d → o ∉ (d_map d).*1 ∨ (∃ u, proxy_of v d o u) ∨ stale v d o.
Proof.
  intros Ht. destruct (decide (o ∈ (d_map d).*1)) as [Hin|Hin]; [right|left; exact Hin].
  apply list_elem_of_fmap in Hin as ([o' r] & -> & He). destruct (tr_entries _ _ Ht _ He) as (t & Hr & Hlt & _ & [[_ Hc]|(u & Hc & Hu)]).
  - right. exists r, t. auto.
  - left. exists u. destruct Hu as (Hu & Hb & Hp). repeat split; try assumption. exists r, t. auto.
Qed.

Section pushobject.
Context {API : LuaApi} {OK : LuaApiOk API} {dead : bool}.

(** A new proxy and its entry. *)
Lemma runs_new_proxy name o v d :
  tracked dead v d → o ∉ (d_map d).*1 → o :: (d_map d).*1 ⊆+ d_strong d →
  runs v d
    (di_lua_pushproxy name (Z.of_nat o) di_lua_object_methods true;;
     x ← value_at (-1);
     push x;;
     r ← luaL_weakref LUA_REGISTRYINDEX;
     d ← get_deai;
     check (bool_decide (r ∉ (d_members d).*1));;
     put_deai (Deai (d_next d) (d_lua_refs d) (d_strong d) (d_map d ++ [(o, r)]) ((r, o) :: d_members d)))
    (λ _ v' d', tracked dead v' d' ∧ moves v v' ∧ d_strong d' = d_strong d ∧ d_lua_refs d' = d_lua_refs d ∧ d_next d' = d_next d ∧
      (∃ r, d_map d' = d_map d ++ [(o, r)]) ∧
      ∃ u, (lv_next v ≤ u)%nat ∧ lv_stack v' = LUserdata u :: lv_stack v ∧ proxy_of v' d' o u).
Proof.
  intros Ht Ho Hs. pose proof (tr_next _ _ Ht) as Hpos. set (u := lv_next v).
  eapply runs_bind; [apply (runs_pushproxy name _ di_lua_object_methods true v d Hpos)|].
  { apply (bool_decide_unpack _). vm_compute. exact I. }
  intros ? v1 d1 (-> & Hk1 & Hst1 & Hb1 & _ & Hp1 & Hlt1).
  eapply runs_step; [apply runs_value_at|]. rewrite (v_at_top _ _ _ Hst1). eapply runs_step; [apply runs_push|].
  assert (lv_tables v1 REGISTRY = lv_tables v REGISTRY) as Hr1 by exact (ke_tables _ _ _ Hk1 REGISTRY Hpos).
  pose proof (proj1 (tr_world _ _ Ht)) as Hwf.
  eapply runs_bind; [apply (runs_weakref (LUserdata u) (lv_stack v1)); [cbn; rewrite Hr1; exact Hwf|cbn; lia|reflexivity|discriminate]|].
  intros r v2 d2 (-> & Hnew & w & l & Hkw & Hstw & Hltw & Htw & Hweak & Hl & ->). cbn in Hnew, Hkw, Hltw, Htw, Hl, Hweak.
  rewrite Hr1 in Hnew, Hl. set (t := lv_next v1) in *.
  assert (keeps t v1 w) as Hk2 by (transitivity (v_push (LUserdata u) v1); [apply keeps_stack; reflexivity|exact Hkw]). clear Hkw.
  assert (∀ r', r' ∈ refs_of d → LInteger r' ∈ (lv_tables v REGISTRY).*1) as Hused.
  { intros r' [Hin|Hin]%elem_of_app; apply list_elem_of_fmap in Hin as (e & -> & He); [exact (tr_lua _ _ Ht e He)|].
    destruct (tr_entries _ _ Ht e He) as (t' & Hin & _). exact (list_elem_of_fmap_2 fst _ _ Hin). }
  assert (r ∉ refs_of d) as Hrnew by (intros Hin%Hused; exact (Hnew Hin)).
  assert (r ∉ (d_members d).*1) as Hrmem.
  { rewrite (tr_members _ _ Ht). intros (m & -> & Hin)%list_elem_of_fmap. apply list_elem_of_fmap in Hin as (e & -> & He).
    apply Hrnew, elem_of_app. right. exact (list_elem_of_fmap_2 snd _ _ He). }
  apply (runs_step _ _ _ _ _ _ _ _ (runs_get_deai _ d)).
  apply (runs_step _ _ _ _ tt (with_table REGISTRY l w) d); [rewrite bool_decide_true by exact Hrmem; apply runs_ret; split; auto|].
  eapply runs_done; [apply runs_put_deai|].
  set (v' := with_table REGISTRY l w).
  assert (lv_tables w REGISTRY = lv_tables v REGISTRY) as Hrw by (rewrite (ke_tables _ _ _ Hk2) by (unfold t, REGISTRY; lia); exact Hr1).
  assert (moves v1 v') as Hm1.
  { apply moves_registry; [|apply keeps_moves; [unfold t in *; lia|exact Hk2]]. rewrite Hrw.
    apply (strings_stay_new _ _ r (LTable t) Hwf Hnew); [discriminate|exact Hl]. }
  assert (moves v v') as Hm.
  { transitivity v1; [exact (keeps_moves _ _ Hpos Hk1)|exact Hm1]. }
  assert (lv_tables v' REGISTRY = l) as Hreg by (cbn; reflexivity).
  assert (lv_tables v' t = [(LInteger 1, LUserdata u)]) as Hcell.
  { cbn -[Nat.eqb]. rewrite (proj2 (Nat.eqb_neq t REGISTRY)) by (unfold t, REGISTRY; lia). exact Htw. }
  assert (lv_blocks v' u = Z.of_nat o) as Hb by (rewrite (mo_blocks _ _ Hm1) by exact Hlt1; exact Hb1).
  assert (proxy v' u) as Hp by exact (proxy_moves _ _ _ Hm1 Hlt1 Hp1).
  assert (tracked dead v' d) as Ht'.
  { apply (tracked_moves v); [exact Ht|exact Hm|..]; rewrite Hreg.
    - apply (table_wf_perm ((lv_tables v REGISTRY) ++ [(LInteger r, LTable t)])); [rewrite Hl; symmetry; apply Permutation_cons_append|].
      apply table_wf_add; (assumption || discriminate).
    - intros r' x _ Hx. rewrite Hl. right. exact Hx. }
  assert (u < lv_next v')%nat as Hu by (pose proof (mo_next _ _ Hm1); lia).
  split; [|split; [exact Hm|]].
  - destruct Ht' as [[T1 [T1a T1b]] T2 T2' T3 T4 T5 T6 T7 T8 T9]. constructor; try assumption; cbn [d_map d_lua_refs d_members d_strong].
    + split; [exact T1|constructor; assumption].
    + rewrite fmap_app. apply NoDup_app. split; [exact T3|]. split; [|apply NoDup_singleton].
      intros x Hx ->%list_elem_of_singleton. exact (Ho Hx).
    + rewrite fmap_app, app_assoc. apply NoDup_app. split; [exact T4|]. split; [|apply NoDup_singleton].
      intros x Hx ->%list_elem_of_singleton. exact (Hrnew Hx).
    + intros e [He|He]%elem_of_app; [exact (T7 e He)|]. apply list_elem_of_singleton in He as ->. exists t.
      split; [rewrite Hreg, Hl; left|]. split; [unfold t; cbn; lia|]. split; [|right; exists u; cbn [fst]; auto].
      apply (weak_moves w); [apply stays_registry; reflexivity|lia|exact Hweak].
    + rewrite map_app. cbn. rewrite <- Permutation_cons_append, T8. reflexivity.
    + rewrite fmap_app. cbn. rewrite <- Permutation_cons_append. exact Hs.
  - cbn [d_strong d_lua_refs d_next d_map]. do 3 (split; [reflexivity|]). split; [exists r; reflexivity|].
    exists u. split; [apply le_n|]. split; [cbn; rewrite Hstw, Hst1; reflexivity|]. split; [exact Hu|]. split; [exact Hb|]. split; [exact Hp|].
    exists r, t. cbn [d_map]. split; [apply elem_of_app; right; left|]. split; [rewrite Hreg, Hl; left|exact Hcell].
Qed.

(** What is on the stack, and the references, after a push that consumes one. *)
Definition pushed (o : loc) (v : lua_view) (d : deai) (u : nat) (v' : lua_view) (d' : deai) : Prop :=
  o ∉ (d_map d).*1 ∧ (lv_next v ≤ u)%nat ∧ lv_stack v' = LUserdata u :: lv_stack v ∧ d_strong d' = d_strong d ∨
  proxy_of v d o u ∧ lv_stack v' = LUserdata u :: lv_stack v ∧ d_strong d ≡ₚ o :: d_strong d' ∧ d_map d' = d_map d ∨
  stale v d o ∧ (lv_next v ≤ u)%nat ∧ lv_stack v' = LUserdata u :: LNil :: lv_stack v ∧ d_strong d ≡ₚ o :: d_strong d'.

Lemma runs_pushobject name o v d :
  tracked dead v d → o :: (d_map d).*1 ⊆+ d_strong d →
  runs v d (di_lua_pushobject name o) (λ _ v' d', tracked dead v' d' ∧ moves v v' ∧ d_next d' = d_next d ∧
    ∃ u, proxy_of v' d' o u ∧ pushed o v d u v' d').
Proof.
  intros Ht Hs. unfold di_lua_pushobject. eapply runs_bind; [apply runs_find|].
  intros [e|] v0 d0 (-> & -> & He).
  - destruct He as [He Heo]. destruct (tr_entries _ _ Ht e He) as (t & Hr & Hlt & _ & Hc).
    destruct e as [o' r]. cbn in Heo, Hr, Hc. subst o'. pose proof (proj1 (tr_world _ _ Ht)) as Hwf.
    destruct Hc as [[_ Hc]|(u & Hc & Hu & Hb & Hp)].
    + (* the weak reference is dead *)
      eapply runs_bind with (R := λ alive v' d', alive = false ∧ tracked dead v' d' ∧ moves v v' ∧ lv_stack v' = LNil :: lv_stack v ∧
        d_map d ≡ₚ (o, r) :: d_map d' ∧ d_strong d ≡ₚ o :: d_strong d' ∧ d_next d' = d_next d).
      { eapply runs_step; [apply (runs_weakref_get r t v d Hwf Hr)|]. rewrite Hc. cbn [raw_lookup].
        rewrite bool_decide_true by reflexivity. cbn [negb].
        eapply runs_bind; [apply (runs_forget (dead := dead) (o, r) (v_push LNil v) d); [|exact He]|].
        - apply (tracked_moves v); [exact Ht|apply moves_stack; reflexivity|exact Hwf|auto].
        - intros ? v' d' (H1 & H2 & H3 & H4 & H5 & H6). apply runs_ret. split; [reflexivity|]. split; [exact H1|].
          split; [transitivity (v_push LNil v); [apply moves_stack; reflexivity|exact H2]|]. auto. }
      intros ? v1 d1 (-> & Ht1 & Hm1 & Hst1 & Hmp & Hs1 & Hn1). pose proof (tr_objects _ _ Ht) as Hobj.
      rewrite Hmp in Hobj. apply NoDup_cons in Hobj as [Ho _].
      eapply runs_conseq; [apply (runs_new_proxy name o v1 d1 Ht1 Ho)|].
      { rewrite Hmp, Hs1 in Hs. apply (submseteq_app_inv_l _ _ [o]). exact Hs. }
      intros ? v' d' (Ht' & Hm' & Hs' & _ & Hn' & _ & u & Hge & Hst' & Hpo). split; [exact Ht'|]. split; [transitivity v1; assumption|].
      split; [congruence|]. exists u. split; [exact Hpo|]. right. right. split; [exists r, t; auto|].
      split; [pose proof (mo_next _ _ Hm1); lia|]. rewrite Hst', Hst1, Hs'. auto.
    + (* the proxy is alive *)
      assert (o ∈ (d_map d).*1) as Hin by exact (list_elem_of_fmap_2 fst _ _ He).
      eapply runs_bind with (R := λ alive v' d', alive = true ∧ tracked dead v' d' ∧ v' = v_push (LUserdata u) v ∧
        d_map d' = d_map d ∧ d_strong d ≡ₚ o :: d_strong d' ∧ d_next d' = d_next d).
      { eapply runs_step; [apply (runs_weakref_get r t v d Hwf Hr)|]. rewrite Hc. cbn [raw_lookup].
        rewrite decide_True by reflexivity. rewrite bool_decide_false by discriminate. cbn [negb].
        eapply runs_bind; [apply (runs_unref_object (dead := dead) o (v_push (LUserdata u) v) d); [|exact Hs]|].
        - apply (tracked_moves v); [exact Ht|apply moves_stack; reflexivity|exact Hwf|auto].
        - intros ? v' d' (H1 & H2 & _ & H4 & _ & H6 & H7 & H8 & _). apply runs_ret. split; [reflexivity|]. split; [exact H1|].
          split; [|auto]. apply H8. apply (elem_of_submseteq (d_map d').*1); [rewrite H4; exact Hin|exact (tr_strong _ _ H1)]. }
      intros ? v1 d1 (-> & Ht1 & -> & Hmp & Hs1 & Hn1). apply runs_ret. split; [exact Ht1|]. split; [apply moves_stack; reflexivity|].
      split; [exact Hn1|]. assert (proxy_of v d o u) as Hpo by (repeat split; try assumption; exists r, t; auto).
      exists u. split; [|right; left; auto]. destruct Hpo as (H1 & H2 & H3 & H4). split; [exact H1|]. split; [exact H2|]. split; [exact H3|].
      rewrite Hmp. exact H4.
  - (* there is no entry *)
    apply (runs_step _ _ _ _ false v d); [apply runs_ret; split; auto|].
    eapply runs_conseq; [exact (runs_new_proxy name o v d Ht He Hs)|].
    intros ? v' d' (Ht' & Hm' & Hs' & _ & Hn' & _ & u & Hge & Hst' & Hpo). split; [exact Ht'|]. split; [exact Hm'|].
    split; [exact Hn'|]. exists u. split; [exact Hpo|]. left. auto.
Qed.

(** [ref_object] *)
Lemma runs_ref_object o v d :
  tracked dead v d → o ∈ d_strong d →
  runs v d (ref_object o) (λ _ v' d', v' = v ∧ tracked dead v d' ∧
    d' = Deai (d_next d) (d_lua_refs d) (o :: d_strong d) (d_map d) (d_members d)).
Proof.
  intros Ht Ho. unfold ref_object. apply (runs_step _ _ _ _ _ _ _ _ (runs_get_deai v d)).
  eapply runs_done; [apply runs_put_deai|]. split; [reflexivity|]. split; [|reflexivity].
  destruct Ht as [[T1 [T1a T1b]] T2 T2' T3 T4 T5 T6 T7 T8 T9]. constructor; try assumption; cbn.
  - split; [exact T1|]. constructor; cbn; [intros e He; right; exact (T1a e He)|].
    intros x [->|Hx]%elem_of_cons; apply T1b; assumption.
  - apply submseteq_cons. exact T9.
Qed.

(** [di_lua_pushvariant] of an object with a reference. *)
Lemma runs_push_object name o v d :
  tracked dead v d → o ∈ d_strong d →
  runs v d (di_lua_pushvariant name (VObject o)) (λ r v' d', r = 1 ∧ tracked dead v' d' ∧ moves v v' ∧ d_next d' = d_next d ∧
    ∃ u, proxy_of v' d' o u ∧
      pushed o v (Deai (d_next d) (d_lua_refs d) (o :: d_strong d) (d_map d) (d_members d)) u v' d').
Proof.
  intros Ht Ho. cbn [di_lua_pushvariant]. eapply runs_bind; [exact (runs_ref_object o v d Ht Ho)|].
  intros ? v1 d1 (-> & Ht1 & ->). eapply runs_bind; [apply (runs_pushobject name o v _ Ht1)|].
  - cbn. apply submseteq_skip. exact (tr_strong _ _ Ht).
  - intros ? v2 d2 H. apply runs_ret. split; [reflexivity|exact H].
Qed.

(** *** Finalizers *)

(** [di_lua_checkproxy] of a proxy. *)
Lemma runs_checkproxy i u v d :
  v_at i v = LUserdata u → proxy v u → runs v d (di_lua_checkproxy i) (exactly (Some (lv_blocks v u)) v d).
Proof.
  intros Hat (m & Hm & _ & Hp). unfold di_lua_checkproxy. eapply runs_step; [exact (runs_isproxy i u m v d Hat Hm)|].
  unfold is_proxy. rewrite Hp. rewrite bool_decide_false by discriminate. cbn [negb].
  intros s Hv Hd. eexists _, s. split; [reflexivity|]. unfold exactly.
  rewrite (view_block i u (dl_L s)); [rewrite Hv; auto|rewrite Hv; exact Hat].
Qed.

(** [di_lua_gc] forgets the entry of the object, whatever proxy it is of. *)
Lemma runs_gc u o v d :
  tracked dead v d → v_at 1 v = LUserdata u → proxy v u → lv_blocks v u = Z.of_nat o →
  runs v d di_lua_gc (λ r v' d', r = true ∧ tracked dead v' d' ∧ moves v v' ∧ lv_stack v' = lv_stack v ∧ o ∉ (d_map d').*1 ∧
    d_next d' = d_next d ∧
    (o ∉ (d_map d).*1 ∧ d_strong d' = d_strong d ∨ o ∈ (d_map d).*1 ∧ d_strong d ≡ₚ o :: d_strong d')).
Proof.
  intros Ht Hat Hp Hb. unfold di_lua_gc. eapply runs_step; [exact (runs_checkproxy 1 u v d Hat Hp)|].
  cbn [fst]. rewrite Hb, Nat2Z.id. eapply runs_bind; [apply runs_find|]. intros [e|] v0 d0 (-> & -> & He).
  - destruct He as [He <-]. eapply runs_bind; [exact (runs_forget e v d Ht He)|].
    intros ? v' d' (H1 & H2 & H3 & H4 & H5 & H6). apply runs_ret. split; [reflexivity|]. split; [exact H1|]. split; [exact H2|].
    split; [exact H3|]. pose proof (tr_objects _ _ Ht) as Hobj. rewrite H4 in Hobj. apply NoDup_cons in Hobj as [Hobj _].
    split; [exact Hobj|]. split; [exact H6|]. right. split; [exact (list_elem_of_fmap_2 fst _ _ He)|exact H5].
  - apply (runs_step _ _ _ _ tt v d); [apply runs_ret; split; auto|]. apply runs_ret.
    split; [reflexivity|]. split; [exact Ht|]. split; [reflexivity|]. split; [reflexivity|]. split; [exact He|]. auto.
Qed.
End pushobject.

(** ** The collector

    A dead proxy is taken out of the weak tables. *)
Lemma raw_lookup_filter (x : lua_value) k l :
  raw_lookup k l ≠ x → raw_lookup k (filter (λ e : lua_value * lua_value, e.2 ≠ x) l) = raw_lookup k l.
Proof.
  induction l as [|[k' y] l IH]; [reflexivity|]. cbn [raw_lookup]. destruct (decide (k' = k)) as [->|Hne].
  - intros Hy. rewrite filter_cons_True by exact Hy. cbn [raw_lookup]. rewrite decide_True by reflexivity. reflexivity.
  - intros H. destruct (decide (y = x)) as [->|Hy].
    + rewrite filter_cons_False by (cbn; tauto). exact (IH H).
    + rewrite filter_cons_True by exact Hy. cbn [raw_lookup]. rewrite decide_False by exact Hne. exact (IH H).
Qed.

Lemma lookup_clear_weak x k t v :
  raw_lookup k (lv_tables v t) ≠ x → raw_lookup k (lv_tables (v_clear_weak x v) t) = raw_lookup k (lv_tables v t).
Proof. intros H. cbn. destruct (weak_values v t); [exact (raw_lookup_filter x k _ H)|reflexivity]. Qed.

Lemma proxy_clear_weak u u' v : proxy v u' → proxy (v_clear_weak (LUserdata u) v) u'.
Proof.
  intros (m & Hm & Hlt & Hp). exists m. split; [exact Hm|]. split; [exact Hlt|].
  rewrite lookup_clear_weak by (rewrite Hp; discriminate). exact Hp.
Qed.

Lemma weak_clear_weak u t v : weak v t → weak (v_clear_weak (LUserdata u) v) t.
Proof.
  intros (m & Hm & Hlt & Hp). exists m. split; [exact Hm|]. split; [exact Hlt|].
  rewrite lookup_clear_weak by (rewrite Hp; discriminate). exact Hp.
Qed.

Lemma weak_is_weak v t : weak v t → weak_values v t = true.
Proof. intros (m & Hm & _ & Hw). unfold weak_values. rewrite Hm, Hw. apply bool_decide_true. reflexivity. Qed.

(** What is tracked stays tracked when a proxy dies. *)
Lemma tracked_clear_weak {dead} u v d : tracked dead v d → tracked true (v_clear_weak (LUserdata u) v) d.
Proof.
  intros [T1 T2 T2' T3 T4 T5 T6 T7 T8 T9].
  assert (lv_tables (v_clear_weak (LUserdata u) v) REGISTRY = lv_tables v REGISTRY) as Hreg.
  { cbn. unfold weak_values. rewrite T2'. reflexivity. }
  constructor; rewrite ?Hreg; try assumption; [unfold world_ok; rewrite Hreg; exact T1|].
  intros e He. destruct (T7 e He) as (t & Hr & Hlt & Hw & Hc). exists t. split; [exact Hr|]. split; [exact Hlt|].
  split; [exact (weak_clear_weak u t v Hw)|]. cbn. rewrite (weak_is_weak v t Hw).
  destruct Hc as [[_ ->]|(u' & -> & Hu & Hb & Hp)]; [left; split; reflexivity|]. destruct (decide (u' = u)) as [->|Hne].
  - left. rewrite filter_cons_False by (cbn; tauto). split; reflexivity.
  - right. exists u'. rewrite filter_cons_True by (cbn; congruence). split; [reflexivity|]. split; [exact Hu|].
    split; [exact Hb|exact (proxy_clear_weak u u' v Hp)].
Qed.

(** The proxy of an object dies: its entry is stale. *)
Lemma clear_weak_stale {dead} v d o u : tracked dead v d → proxy_of v d o u → stale (v_clear_weak (LUserdata u) v) d o.
Proof.
  intros Ht (Hu & Hb & Hp & r & t & He & Hr & Hc). exists r, t. split; [exact He|].
  pose proof (tr_meta _ _ Ht) as Hmeta. split; [cbn; unfold weak_values; rewrite Hmeta; exact Hr|].
  destruct (tr_entries _ _ Ht _ He) as (t' & Hr' & _ & Hw & _). cbn in Hr'.
  pose proof (tw_keys _ (proj1 (tr_world _ _ Ht))) as Hnd.
  pose proof (raw_lookup_elem _ _ _ Hnd Hr) as E. rewrite (raw_lookup_elem _ _ _ Hnd Hr') in E. injection E as ->.
  cbn. rewrite (weak_is_weak v t Hw), Hc, filter_cons_False by (cbn; tauto). reflexivity.
Qed.

(** The bottom of the stack. *)
Lemma v_at_bottom v v' xs : lv_stack v ≠ [] → lv_stack v' = xs ++ lv_stack v → v_at 1 v' = v_at 1 v.
Proof.
  intros Hne Hst. unfold v_at, at_index, LUA_REGISTRYINDEX. cbn. rewrite Hst.
  assert (1 ≤ length (lv_stack v))%nat as Hlen by (destruct (lv_stack v); [destruct (Hne eq_refl)|cbn; lia]).
  rewrite !(proj2 (Z.leb_le _ _)) by (rewrite ?length_app; lia). change (Pos.to_nat 1) with 1%nat.
  rewrite lookup_app_r by (rewrite length_app; lia). f_equal. f_equal. rewrite length_app. lia.
Qed.

(** An object has one entry. *)
Lemma entry_unique {dead} v d o r t r' t' :
  tracked dead v d → (o, r) ∈ d_map d → (LInteger r, LTable t) ∈ lv_tables v REGISTRY →
  (o, r') ∈ d_map d → (LInteger r', LTable t') ∈ lv_tables v REGISTRY → t' = t.
Proof.
  intros Ht He Hr He' Hr'. pose proof (tw_keys _ (proj1 (tr_world _ _ Ht))) as Hnd.
  assert (r' = r) as ->.
  { pose proof (tr_objects _ _ Ht) as Hobj. apply list_elem_of_lookup in He as [i Hi], He' as [j Hj].
    assert (i = j) as ->; [|congruence]. apply (NoDup_lookup _ _ _ o Hobj); rewrite list_lookup_fmap, ?Hi, ?Hj; reflexivity. }
  pose proof (raw_lookup_elem _ _ _ Hnd Hr) as E. rewrite (raw_lookup_elem _ _ _ Hnd Hr') in E. congruence.
Qed.

Lemma proxy_of_unique {dead} v d o u u' : tracked dead v d → proxy_of v d o u → proxy_of v d o u' → u' = u.
Proof.
  intros Ht (_ & _ & _ & r & t & He & Hr & Hc) (_ & _ & _ & r' & t' & He' & Hr' & Hc').
  rewrite (entry_unique v d o r t r' t' Ht He Hr He' Hr') in Hc'. congruence.
Qed.

Lemma proxy_of_not_stale {dead} v d o u : tracked dead v d → proxy_of v d o u → ¬ stale v d o.
Proof.
  intros Ht (_ & _ & _ & r & t & He & Hr & Hc) (r' & t' & He' & Hr' & Hc').
  rewrite (entry_unique v d o r t r' t' Ht He Hr He' Hr') in Hc'. congruence.
Qed.

Lemma proxy_of_entry v d o u : proxy_of v d o u → o ∈ (d_map d).*1.
Proof. intros (_ & _ & _ & r & t & He & _). exact (list_elem_of_fmap_2 fst _ _ He). Qed.

(** ** Properties *)
Section properties.
Context {API : LuaApi} {OK : LuaApiOk API}.

(** What happens to proxies: an object is pushed, a proxy dies, or its [__gc] is
    called, with the proxy at index 1. *)
Inductive proxy_op := Push (name : option string) (o : loc) | Collect (u : nat) | Finalize.

Definition op_ok (op : proxy_op) (v : lua_view) (d : deai) : Prop :=
  match op with
  | Push _ o => o ∈ d_strong d
  | Collect _ => True
  | Finalize => ∃ u o, v_at 1 v = LUserdata u ∧ proxy v u ∧ lv_blocks v u = Z.of_nat o
  end.

Definition perform (op : proxy_op) : ST dl unit :=
  match op with
  | Push name o => _ ← di_lua_pushvariant name (VObject o); mret tt
  | Collect u => api (lua_clear_weak (LUserdata u))
  | Finalize => _ ← di_lua_gc; mret tt
  end.

Lemma runs_collect u v d : runs v d (api (lua_clear_weak (LUserdata u))) (exactly tt (v_clear_weak (LUserdata u) v) d).
Proof. apply runs_api. intros L <-. apply view_clear_weak. Qed.

Lemma runs_void {A} v d (m : ST dl A) Q :
  runs v d m Q → runs v d (_ ← m; mret tt) (λ _ v' d', ∃ a, Q a v' d').
Proof. intros H. eapply runs_bind; [exact H|]. intros a v' d' Ha. apply runs_ret. eauto. Qed.


(** A proxy is converted. *)
Lemma runs_convert_proxy depth k want i u o v d :
  v_at i v = LUserdata u → proxy v u → lv_blocks v u = Z.of_nat o →
  runs v d (di_lua_type_to_di (Datatypes.S depth) k want i)
    (if want then exactly (0, VObject o) v (Deai (d_next d) (d_lua_refs d) (o :: d_strong d) (d_map d) (d_members d))
     else exactly (0, VObject 0%nat) v d).
Proof.
  intros Hx (m & Hm & _ & Hp) Hb. cbn [di_lua_type_to_di]. eapply runs_step; [apply runs_value_at|]. rewrite Hx.
  eapply runs_step; [exact (runs_isproxy i u m v d Hx Hm)|]. unfold is_proxy. rewrite Hp, bool_decide_false by discriminate.
  cbn [negb]. destruct want; [|apply runs_ret; split; auto].
  eapply runs_bind with (R := λ s v' d', Z.to_nat (lua_block i (dl_L s)) = o ∧ v' = v ∧ d' = d).
  - intros s <- <-. eexists s, s. split; [reflexivity|]. split; [|auto]. rewrite (view_block i u _ Hx), Hb. apply Nat2Z.id.
  - intros s v' d' (Ho & -> & ->). cbv zeta. rewrite Ho. eapply runs_step; [|apply runs_ret; split; [reflexivity|split; reflexivity]].
    unfold ref_object. eapply runs_step; [apply runs_get_deai|]. apply runs_put_deai.
Qed.

Lemma runs_variant_proxy depth k i u o v d :
  v_at i v = LUserdata u → proxy v u → lv_blocks v u = Z.of_nat o →
  runs v d (di_lua_type_to_di_variant (Datatypes.S depth) k i)
    (exactly (inr (VObject o)) v (Deai (d_next d) (d_lua_refs d) (o :: d_strong d) (d_map d) (d_members d))).
Proof.
  intros Hat Hp Hb. unfold di_lua_type_to_di_variant.
  eapply runs_step; [exact (runs_convert_proxy depth k false _ u o v d Hat Hp Hb)|]. cbn [fst Z.eqb negb].
  eapply runs_step; [exact (runs_convert_proxy depth k true _ u o v d Hat Hp Hb)|]. apply runs_ret.
  split; [reflexivity|split; reflexivity].
Qed.

(** C23. An object has one proxy: pushed twice, it is the same value twice, which is
    userdata for that object; converted, it is the object again, with one reference
    more than before, or two when the object had no proxy yet, as the state keeps
    one for it. *)
Theorem object_roundtrip (depth k : nat) name name' o v d :
  tracked true v d → o ∈ d_strong d → ¬ stale v d o →
  runs v d (_ ← di_lua_pushvariant name (VObject o); _ ← di_lua_pushvariant name' (VObject o); i ← gettop;
            di_lua_type_to_di_variant (Datatypes.S depth) k i) (λ r v' d',
    r = inr (VObject o) ∧
    (∃ u, lv_stack v' = LUserdata u :: LUserdata u :: lv_stack v ∧ lv_blocks v' u = Z.of_nat o ∧ proxy v' u) ∧
    d_strong d' ≡ₚ o :: (if decide (o ∈ (d_map d).*1) then d_strong d else o :: d_strong d)).
Proof.
  intros Ht Ho Hstale. eapply runs_bind; [exact (runs_push_object name o v d Ht Ho)|].
  intros ? v1 d1 (-> & Ht1 & Hm1 & _ & u & Hpo1 & Hcase).
  assert (lv_stack v1 = LUserdata u :: lv_stack v ∧
    d_strong d1 ≡ₚ (if decide (o ∈ (d_map d).*1) then d_strong d else o :: d_strong d)) as [Hst1 Hs1].
  { destruct Hcase as [(Hn & _ & Hst & Hs)|[(Hpo & Hst & Hs & _)|(Hs & _)]]; cbn in *; [| |destruct (Hstale Hs)].
    - rewrite decide_False by exact Hn. rewrite Hs. auto.
    - rewrite decide_True by exact (proxy_of_entry _ _ _ _ Hpo). apply Permutation_cons_inv in Hs. split; [exact Hst|symmetry; exact Hs]. }
  assert (o ∈ d_strong d1) as Ho1.
  { apply (elem_of_submseteq (d_map d1).*1); [exact (proxy_of_entry _ _ _ _ Hpo1)|exact (tr_strong _ _ Ht1)]. }
  eapply runs_bind; [exact (runs_push_object name' o v1 d1 Ht1 Ho1)|].
  intros ? v2 d2 (-> & Ht2 & Hm2 & _ & u' & Hpo2 & Hcase2).
  destruct Hcase2 as [(Hn & _)|[(Hpo & Hst & Hs & _)|(Hs & _)]]; cbn in *;
    [destruct (Hn (proxy_of_entry _ _ _ _ Hpo1))| |destruct (proxy_of_not_stale _ _ _ _ Ht1 Hpo1 Hs)].
  rewrite (proxy_of_unique v1 d1 o u u' Ht1 Hpo1 Hpo) in *. clear Hpo. apply Permutation_cons_inv in Hs. rewrite Hst1 in Hst.
  destruct Hpo2 as (_ & Hb & Hp & _).
  apply (runs_step _ _ _ _ _ _ _ _ (runs_gettop v2 d2)).
  pose proof (v_at_gettop _ _ v2 Hst) as Hat.
  eapply runs_done; [exact (runs_variant_proxy depth k _ u o v2 d2 Hat Hp Hb)|].
  split; [reflexivity|]. split; [exists u; auto|]. cbn [d_strong]. rewrite <- Hs1, Hs. reflexivity.
Qed.

(** When the proxy of an object has died and its [__gc] was not called yet, the
    nil for the dead proxy stays on the stack below the new one: one value more than
    was asked for. *)
Theorem stale_push_leaves_nil name o v d :
  tracked true v d → o ∈ d_strong d → stale v d o →
  runs v d (di_lua_pushvariant name (VObject o)) (λ r v' d',
    r = 1 ∧ tracked true v' d' ∧ ∃ u, lv_stack v' = LUserdata u :: LNil :: lv_stack v ∧ proxy_of v' d' o u).
Proof.
  intros Ht Ho Hstale. eapply runs_conseq; [exact (runs_push_object name o v d Ht Ho)|].
  intros ? v1 d1 (-> & Ht1 & Hm1 & _ & u & Hpo1 & Hcase). split; [reflexivity|]. split; [exact Ht1|]. exists u.
  split; [|exact Hpo1]. destruct Hcase as [(Hn & _)|[(Hpo & _)|(_ & _ & Hst & _)]]; [| |exact Hst].
  - destruct Hstale as (r & t & He & _). destruct Hn. exact (list_elem_of_fmap_2 fst _ _ He).
  - destruct (proxy_of_not_stale v d o u Ht Hpo Hstale).
Qed.

(** An object is pushed again after its proxy [u] died and before [__gc] of [u] is
    called.  That call then forgets the entry of the new proxy: the reference that
    the state held for the object is gone, and no entry and no weak table are left,
    while the new proxy is on the stack and points to the object. *)
Theorem late_finalizer_drops_reference name o u v d :
  tracked true v d → o ∈ d_strong d → lv_stack v ≠ [] → v_at 1 v = LUserdata u → proxy_of v d o u →
  runs v d (perform (Collect u);; perform (Push name o);; perform Finalize) (λ _ v' d',
    d_strong d ≡ₚ o :: d_strong d' ∧ o ∉ (d_map d').*1 ∧
    ∃ u' st, lv_stack v' = LUserdata u' :: st ∧ u' ≠ u ∧ proxy v' u' ∧ lv_blocks v' u' = Z.of_nat o).
Proof.
  intros Ht Ho Hne Hat Hpo. cbn [perform]. eapply runs_step; [apply runs_collect|].
  pose proof (clear_weak_stale v d o u Ht Hpo) as Hstale. pose proof (tracked_clear_weak u v d Ht) as Ht0.
  destruct Hpo as (Hu & Hb & Hp & _). apply (proxy_clear_weak u) in Hp.
  change (lv_blocks v u) with (lv_blocks (v_clear_weak (LUserdata u) v) u) in Hb.
  change (lv_stack v) with (lv_stack (v_clear_weak (LUserdata u) v)) in Hne.
  change (v_at 1 v) with (v_at 1 (v_clear_weak (LUserdata u) v)) in Hat.
  change (lv_next v) with (lv_next (v_clear_weak (LUserdata u) v)) in Hu.
  set (v0 := v_clear_weak (LUserdata u) v) in *. clearbody v0.
  eapply runs_bind.
  { apply (runs_void v0 d _ _ (runs_push_object name o v0 d Ht0 Ho)). }
  intros ? v1 d1 (? & _ & Ht1 & Hm1 & _ & u' & Hpo1 & Hcase).
  assert ((lv_next v0 ≤ u')%nat ∧ lv_stack v1 = [LUserdata u'; LNil] ++ lv_stack v0 ∧ d_strong d ≡ₚ d_strong d1) as (Hnew & Hst & Hs).
  { destruct Hcase as [(Hn & _)|[(Hpo & _)|(_ & H1 & H2 & H3)]].
    - destruct Hstale as (r & t & He & _). destruct Hn. exact (list_elem_of_fmap_2 fst _ _ He).
    - destruct (proxy_of_not_stale v0 d o u' Ht0 Hpo Hstale).
    - cbn in H3. apply Permutation_cons_inv in H3. auto. }
  assert (o ∈ (d_map d1).*1) as Hin by exact (proxy_of_entry _ _ _ _ Hpo1).
  destruct Hpo1 as (Hu' & Hb' & Hp' & _).
  assert (v_at 1 v1 = LUserdata u) as Hat1 by (rewrite (v_at_bottom v0 v1 _ Hne Hst); exact Hat).
  assert (lv_blocks v1 u = Z.of_nat o) as Hb1 by (rewrite (mo_blocks _ _ Hm1) by exact Hu; exact Hb).
  eapply runs_bind; [exact (runs_gc u o v1 d1 Ht1 Hat1 (proxy_moves _ _ _ Hm1 Hu Hp) Hb1)|].
  intros ? v2 d2 (_ & _ & Hm2 & Hst2 & Hout & _ & Hcase2). apply runs_ret.
  destruct Hcase2 as [[Hn _]|[_ Hs2]]; [destruct (Hn Hin)|]. split; [rewrite Hs, Hs2; reflexivity|]. split; [exact Hout|].
  exists u', (LNil :: lv_stack v0). split; [rewrite Hst2, Hst; reflexivity|]. split; [lia|].
  split; [exact (proxy_moves _ _ _ Hm2 Hu' Hp')|]. rewrite (mo_blocks _ _ Hm2) by exact Hu'. exact Hb'.
Qed.
(** In an array or a tuple it is worse: what is stored into is then the nil,
    and not the table that is being filled. *)
Theorem stale_element_crashes name o v d :
  tracked true v d → o ∈ d_strong d → stale v d o → crashes v d (di_lua_pushvariant name (VTuple [VObject o])) TypeConfusion.
Proof.
  intros Ht Ho (r & t & He & Hr & Hc). destruct (tr_entries _ _ Ht _ He) as (t' & Hr' & Hlt & _). cbn in Hr'.
  pose proof (tw_keys _ (proj1 (tr_world _ _ Ht))) as Hnd.
  pose proof (raw_lookup_elem _ _ _ Hnd Hr) as E. rewrite (raw_lookup_elem _ _ _ Hnd Hr') in E. injection E as ->.
  pose proof (tr_next _ _ Ht) as Hpos. apply (crashes_step _ _ _ _ _ _ _ _ (runs_newtable v d)).
  assert (keeps (lv_next v) v (v_new LTable 0 v)) as Hk by (apply keeps_new; [apply le_n|auto|reflexivity]).
  set (v1 := v_new LTable 0 v) in *. clearbody v1.
  assert (lv_tables v1 REGISTRY = lv_tables v REGISTRY) as Hreg by exact (ke_tables _ _ _ Hk REGISTRY Hpos).
  apply crashes_first. eapply crashes_then; [apply (runs_push_object (dead := true) None o v1 d); [|exact Ho]|].
  { apply (tracked_moves v); rewrite ?Hreg; [exact Ht|exact (keeps_moves _ _ Hpos Hk)|apply Ht|auto]. }
  intros ? v2 d2 (_ & _ & _ & _ & u & _ & Hcase). cbn in Hcase.
  assert (stale v1 d o) as Hstale.
  { exists r, t. rewrite Hreg, (ke_tables _ _ _ Hk) by apply Hlt. auto. }
  assert (∃ st, lv_stack v2 = LUserdata u :: LNil :: st) as [st Hst].
  { destruct Hcase as [(Hn & _)|[((_ & _ & _ & r2 & t2 & He2 & Hr2 & Hc2) & _)|(_ & _ & Hst & _)]]; [| |eauto].
    - destruct Hn. exact (list_elem_of_fmap_2 fst _ _ He).
    - rewrite Hreg in Hr2. pose proof (entry_unique v d o r t r2 t2 Ht He Hr He2 Hr2) as ->.
      rewrite (ke_tables _ _ _ Hk), Hc in Hc2 by apply Hlt. discriminate. }
  apply crashes_first. unfold rawseti. eapply crashes_step; [apply runs_needs; rewrite Hst; cbn; lia|].
  apply crashes_first, crashes_needs_table. rewrite (v_at_second _ _ _ _ Hst). intros [x [=]].
Qed.
End properties.

(** ** Witnesses

    An object with one reference, before and after it was pushed. *)
Definition demo_start : @dl demo_lua := Dl (View [] (λ _, []) (λ _, None) (λ _, 0) 1) (Deai 1 [] [0%nat] [] []).
Definition demo_pushed : @dl demo_lua :=
  match di_lua_pushvariant None (VObject 0) demo_start with Done _ s => s | _ => demo_start end.

Lemma demo_start_tracked : tracked true (dl_L demo_start) (dl_deai demo_start).
Proof.
  constructor; cbn; try constructor; try constructor; cbn; try apply NoDup_nil_2; try apply not_elem_of_nil; try reflexivity;
    try (intros ? H; apply elem_of_nil in H as []).
  - intros o ->%list_elem_of_singleton. lia.
Qed.

Lemma demo_pushed_proxy :
  let v := dl_L demo_pushed in let d := dl_deai demo_pushed in tracked true v d ∧ proxy_of v d 0 1.
Proof.
  destruct (runs_push_object (OK := demo_lua_ok) None 0 (dl_L demo_start) (dl_deai demo_start) demo_start_tracked
    (list_elem_of_here _ _) demo_start eq_refl eq_refl) as (r & s & E & _ & Ht & _ & _ & u & Hp & Hcase).
  unfold demo_pushed. rewrite E. split; [exact Ht|]. enough (u = 1%nat) as -> by exact Hp.
  assert (lv_stack (dl_L s) = [LUserdata 1]) as Hst.
  { assert (dl_L s = dl_L demo_pushed) as -> by (unfold demo_pushed; rewrite E; reflexivity). vm_compute. reflexivity. }
  destruct Hcase as [(_ & _ & H & _)|[(_ & H & _)|(_ & _ & H & _)]]; cbn in H; congruence.
Qed.

Lemma demo_not_stale : ¬ stale (dl_L demo_start) (dl_deai demo_start) 0.
Proof. intros (r & t & H & _). exact (not_elem_of_nil _ H). Qed.

Lemma demo_in_strong : 0%nat ∈ d_strong (dl_deai demo_pushed).
Proof. apply (bool_decide_unpack _). vm_compute. exact I. Qed.


Lemma object_roundtrip_witness :
  runs (dl_L demo_start) (dl_deai demo_start)
    (_ ← di_lua_pushvariant None (VObject 0); _ ← di_lua_pushvariant None (VObject 0); i ← gettop;
     di_lua_type_to_di_variant 1 0 i) (λ r v' d',
    r = inr (VObject 0) ∧
    (∃ u, lv_stack v' = [LUserdata u; LUserdata u] ∧ lv_blocks v' u = 0 ∧ proxy v' u) ∧ d_strong d' ≡ₚ [0; 0; 0]%nat).
Proof.
  exact (object_roundtrip 0 0 None None 0 _ _ demo_start_tracked (list_elem_of_here _ _) demo_not_stale).
Defined.

Lemma stale_push_leaves_nil_witness :
  runs (v_clear_weak (LUserdata 1) (dl_L demo_pushed)) (dl_deai demo_pushed) (di_lua_pushvariant None (VObject 0)) (λ r v' d',
    r = 1 ∧ tracked true v' d' ∧ ∃ u, lv_stack v' = [LUserdata u; LNil; LUserdata 1] ∧ proxy_of v' d' 0 u).
Proof.
  destruct demo_pushed_proxy as [Ht Hp].
  exact (stale_push_leaves_nil None 0 _ _ (tracked_clear_weak 1 _ _ Ht) demo_in_strong (clear_weak_stale _ _ 0 1 Ht Hp)).
Defined.

(** The reference that the state held is dropped while the second proxy is there. *)
Lemma late_finalizer_drops_reference_witness :
  runs (dl_L demo_pushed) (dl_deai demo_pushed) (perform (Collect 1);; perform (Push None 0);; perform Finalize) (λ _ v' d',
    [0; 0]%nat ≡ₚ 0%nat :: d_strong d' ∧ 0%nat ∉ (d_map d').*1 ∧
    ∃ u' st, lv_stack v' = LUserdata u' :: st ∧ u' ≠ 1%nat ∧ proxy v' u' ∧ lv_blocks v' u' = 0).
Proof.
  destruct demo_pushed_proxy as [Ht Hp]. change [0; 0]%nat with (d_strong (dl_deai demo_pushed)).
  exact (late_finalizer_drops_reference None 0 1 _ _ Ht demo_in_strong ltac:(discriminate) eq_refl Hp).
Defined.

Lemma stale_element_crashes_witness :
  crashes (v_clear_weak (LUserdata 1) (dl_L demo_pushed)) (dl_deai demo_pushed)
    (di_lua_pushvariant None (VTuple [VObject 0])) TypeConfusion.
Proof.
  destruct demo_pushed_proxy as [Ht Hp].
  exact (stale_element_crashes None 0 _ _ (tracked_clear_weak 1 _ _ Ht) demo_in_strong (clear_weak_stale _ _ 0 1 Ht Hp)).
Defined.
