(* ===== verification/LuaCall.v ===== *)
(** * Calls between Lua and deai (plugins/lua/lua.c)

    A Lua function called as an object ([call_lua_function]), objects called from Lua
    ([di_lua_method_handler_impl]), the members of objects and of Lua values
    ([di_lua_meta_index], [di_lua_meta_newindex], [di_lua_di_getter]), signals and
    weak references. *)

From S2P Require Import Prelude.
From S2P Require Import DiTypes.
From S2P Require Import Conv.
From S2P Require Import Strings.
From S2P Require Import LuaApi.
From S2P Require Import Lua.
From S2P Require Import LuaConv.
From S2P Require Import LuaProxy.

Local Open Scope Z_scope.

(** ** What is called

    The object system, whose functions have their results: a code and, when it is 0,
    a value that belongs to the caller.  [script_of] is the member
    ["___di_lua_script"] of a reference to a Lua value.  Of Lua, what runs scripts:
    [lua_pcall] with one result, [lua_gettable], and the conversions to strings
    [luaL_tolstring], which pushes the string, and [luaL_checklstring], which is
    [None] for an error. *)
Class LuaCalls {API : LuaApi} := {
  di_is_object_callable : loc → ST dl bool;
  di_call_objectt : loc → list value → ST dl (Z * value);
  di_getx : loc → string → ST dl (Z * value);
  di_setx : loc → string → value → ST dl Z;
  di_remove_member : loc → string → ST dl Z;
  di_emitn : loc → string → list value → ST dl Z;
  di_upgrade_weak_ref : loc → ST dl (option loc);
  di_new_error : string → ST dl loc;
  script_of : loc → ST dl Z;
  lua_pcall : nat → Z → ST dl Z;
  lua_gettable : Z → ST dl unit;
  luaL_tolstring : Z → ST dl string;
  luaL_checklstring : Z → ST dl (option string)
}.

Definition DI_LUA_REGISTRY_SCRIPT_OBJECT_KEY : string := "__deai.di_lua.script_object".


Section calls.
Context {API : LuaApi} {CALLS : LuaCalls}.

(** ** The current script

    [di_lua_get_env], and [di_lua_xchg_env], whose result is the script before. *)
Definition touserdata (i : Z) : ST dl Z :=
  x ← value_at i;
  match x with
  | LLightUserdata p => mret p
  | LUserdata _ => s ← get; mret (lua_block i (dl_L s))
  | _ => mret 0
  end.

Definition di_lua_get_env : ST dl Z :=
  push (LString DI_LUA_REGISTRY_SCRIPT_OBJECT_KEY);;
  rawget LUA_REGISTRYINDEX;;
  p ← touserdata (-1);
  pop 1;;
  mret p.

Definition di_lua_xchg_env (s : Z) : ST dl Z :=
  tmp ← di_lua_get_env;
  push (LString DI_LUA_REGISTRY_SCRIPT_OBJECT_KEY);;
  push (LLightUserdata s);;
  rawset LUA_REGISTRYINDEX;;
  mret tmp.

(** [di_free_value] *)
Fixpoint release (v : value) : ST dl unit :=
  match v with
  | VObject o => unref_object o
  | VArray _ _ l | VTuple l => for_each release l
  | VVariant v => release v
  | _ => mret tt
  end.

(** ** Lua functions and values as objects *)

(** [t->tref] *)
Definition tref_of (o : loc) : ST dl Z :=
  d ← get_deai;
  e ← from_opt UseAfterFree (take_out (λ e, Nat.eqb o e.1) (d_lua_refs d));
  mret e.1.2.

(** [call_lua_function]; the answer is always 0. *)
Definition call_lua_function (depth k : nat) (ref : loc) (t : list value) : ST dl (Z * value) :=
  script ← script_of ref;
  tref ← tref_of ref;
  api (lua_newfunction "di_lua_errfunc" 0);;
  script ← di_lua_xchg_env script;
  rawgeti LUA_REGISTRYINDEX tref;;
  for_each (λ v, _ ← di_lua_pushvariant None v; mret tt) t;;
  rc ← lua_pcall (length t) (- Z.of_nat (length t) - 2);
  ret ← (if negb (rc =? 0) then
           err ← luaL_tolstring (-1);
           pop 1;;
           o ← di_new_error err;
           mret (VObject o)
         else r ← di_lua_type_to_di depth k true (-1); mret r.2);
  pop 2;;
  _ ← di_lua_xchg_env script;
  mret (0, ret).

(** [di_lua_di_getter], for its two arguments; on an error it returns at once.  The
    value that is read, or none for nil. *)
Definition di_lua_di_getter (depth k : nat) (tu : list value) : ST dl (Z * option value) :=
  match tu with
  | [VObject t; key] =>
      match key with
      | VString (Some key) | VStringLiteral key =>
          script ← script_of t;
          tref ← tref_of t;
          script ← di_lua_xchg_env script;
          rawgeti LUA_REGISTRYINDEX tref;;
          push (LString key);;
          lua_gettable (-2);;
          r ← di_lua_type_to_di depth k true (-1);
          if negb (r.1 =? 0) then mret (r.1, None)
          else
            _ ← di_lua_xchg_env script;
            mret (0, match r.2 with VNil => None | v => Some v end)
      | _ => mret (EINVAL, None)
      end
  | [_; _] => fail CheckFailed
  | _ => mret (EINVAL, None)
  end.

(** ** Functions that Lua calls

    The result is the number of values, or [None] where an error is raised, after
    which nothing of the function is done any more. *)

(** The arguments at these indices, up to the first that cannot be converted. *)
Fixpoint convert_args (depth k : nat) (l : list Z) : ST dl (list value * bool) :=
  match l with
  | [] => mret ([], true)
  | i :: l' =>
      r ← di_lua_type_to_di_variant depth k i;
      match r with
      | inl _ => mret ([], false)
      | inr v => r ← convert_args depth k l'; mret (v :: r.1, r.2)
      end
  end.

(** [di_lua_method_handler_impl] *)
Definition di_lua_method_handler_impl (depth k : nat) (m : loc) : ST dl (option Z) :=
  callable ← di_is_object_callable m;
  if negb (callable : bool) then mret None
  else
    nargs ← gettop;
    args ← convert_args depth k (seqZ 2 (nargs - 1));
    if negb args.2 then mret None
    else
      r ← di_call_objectt m args.1;
      if r.1 =? 0 then
        nret ← di_lua_pushvariant None r.2;
        release r.2;;
        for_each release args.1;;
        mret (Some nret)
      else mret None.

(** [di_lua_emit_signal] *)
Definition di_lua_emit_signal (depth k : nat) : ST dl (option Z) :=
  o ← di_lua_checkproxy 1;
  match o with
  | None => mret None
  | Some o =>
      signame ← luaL_checklstring 2;
      match signame with
      | None => mret None
      | Some signame =>
          top ← gettop;
          args ← convert_args depth k (seqZ 3 (top - 2));
          rc ← (if negb args.2 then mret ENOTSUP
                else
                  ref_object (Z.to_nat o);;
                  rc ← di_emitn (Z.to_nat o) signame args.1;
                  unref_object (Z.to_nat o);;
                  mret rc);
          for_each release args.1;;
          mret (if rc =? 0 then Some 0 else None)
      end
  end.

(** [di_lua_upgrade_weak_ref] *)
Definition di_lua_upgrade_weak_ref : ST dl (option Z) :=
  weak ← di_lua_checkproxy 1;
  match weak with
  | None => mret None
  | Some weak =>
      strong ← di_upgrade_weak_ref (Z.to_nat weak);
      match strong with
      | None => mret (Some 0)
      | Some strong => di_lua_pushobject None strong;; mret (Some 1)
      end
  end.

(** [di_lua_weak_ref] *)
Definition di_lua_weak_ref : ST dl (option Z) :=
  strong ← di_lua_checkproxy 1;
  match strong with
  | None => mret None
  | Some strong => nret ← di_lua_pushvariant None (VWeak (Z.to_nat strong)); mret (Some nret)
  end.

(** A function with [n] upvalues is pushed: [lua_pushcclosure]. *)
Definition pushcclosure (f : string) (n : nat) : ST dl unit := needs n;; api (lua_newfunction f n).

(** [di_lua_meta_index_for_weak_object] and [di_lua_meta_index_for_listen_handle] *)
Definition meta_index_one (method f : string) : ST dl (option Z) :=
  top ← gettop;
  if negb (top =? 2) then mret None
  else
    key ← luaL_checklstring 2;
    match key with
    | None => mret None
    | Some key => if bool_decide (key = method) then pushcclosure f 0;; mret (Some 1) else mret (Some 0)
    end.
Definition di_lua_meta_index_for_weak_object : ST dl (option Z) := meta_index_one "upgrade" "di_lua_upgrade_weak_ref".
Definition di_lua_meta_index_for_listen_handle : ST dl (option Z) := meta_index_one "stop" "di_lua_stop_listener".

(** [di_lua_meta_index] *)
Definition di_lua_meta_index : ST dl (option Z) :=
  top ← gettop;
  if negb (top =? 2) then mret None
  else
    key ← luaL_checklstring 2;
    match key with
    | None => mret None
    | Some key =>
        ud ← di_lua_checkproxy 1;
        match ud with
        | None => mret None
        | Some ud =>
            if bool_decide (key = "on"%string) then
              push (LBoolean false);; pushcclosure "di_lua_add_listener" 1;; mret (Some 1)
            else if bool_decide (key = "once"%string) then
              push (LBoolean true);; pushcclosure "di_lua_add_listener" 1;; mret (Some 1)
            else if bool_decide (key = "emit"%string) then pushcclosure "di_lua_emit_signal" 0;; mret (Some 1)
            else if bool_decide (key = "weakref"%string) then pushcclosure "di_lua_weak_ref" 0;; mret (Some 1)
            else
              r ← di_getx (Z.to_nat ud) key;
              if negb (r.1 =? 0) then push LNil;; mret (Some 1)
              else
                rc ← di_lua_pushvariant (Some key) r.2;
                release r.2;;
                mret (Some rc)
        end
    end.

(** [di_lua_meta_newindex] *)
Definition di_lua_meta_newindex (depth k : nat) : ST dl (option Z) :=
  top ← gettop;
  if negb (top =? 3) then mret None
  else
    ud ← di_lua_checkproxy 1;
    match ud with
    | None => mret None
    | Some ud =>
        key ← luaL_checklstring 2;
        match key with
        | None => mret None
        | Some key =>
            v ← di_lua_type_to_di depth k true 3;
            if negb (v.1 =? 0) then mret None
            else
              ret ← (match v.2 with
                     | VNil => di_remove_member (Z.to_nat ud) key
                     | val => ret ← di_setx (Z.to_nat ud) key val; release val;; mret ret
                     end);
              mret (if (ret =? EINVAL) || (ret =? ENOENT) then None else Some 0)
        end
    end.
End calls.

(** ** What a push does *)

(** A table without a metatable is filled with integer keys. *)
Lemma tracked_set {dead} v d t n x l :
  tracked dead v d → (0 < t < lv_next v)%nat → lv_meta v (LTable t) = None → table_wf (lv_tables v t) →
  l ≡ₚ raw_update (LInteger n) x (lv_tables v t) → tracked dead (with_table t l v) d.
Proof.
  intros [T1 T2 T2' T3 T4 T5 T6 T7 T8 T9] Ht Hmeta Hwf Hl.
  assert (∀ m k, (∀ z, k ≠ LInteger z) → raw_lookup k (lv_tables (with_table t l v) m) = raw_lookup k (lv_tables v m)) as Hlook.
  { intros m k Hk. cbn. destruct (Nat.eqb_spec m t) as [->|_]; [|reflexivity].
    rewrite (raw_lookup_perm (raw_update (LInteger n) x (lv_tables v t)) l);
      [apply raw_lookup_update; [apply Hwf|apply Hk]|apply table_wf_update; [exact Hwf|discriminate]|symmetry; exact Hl]. }
  assert (∀ u, proxy v u → proxy (with_table t l v) u) as Hproxy.
  { intros u (m & Hm & Hlt & Hp). exists m. split; [exact Hm|]. split; [exact Hlt|]. rewrite Hlook by discriminate. exact Hp. }
  assert (lv_tables (with_table t l v) REGISTRY = lv_tables v REGISTRY) as Hreg.
  { cbn -[Nat.eqb]. rewrite (proj2 (Nat.eqb_neq REGISTRY t)) by (unfold REGISTRY; lia). reflexivity. }
  constructor; rewrite ?Hreg; try assumption; [unfold world_ok; rewrite Hreg; exact T1|].
  intros e He. destruct (T7 e He) as (t' & Hr & Hlt & Hw & Hc). exists t'. split; [exact Hr|]. split; [exact Hlt|].
  assert (t' ≠ t) as Hne by (destruct Hw as (m & Hm & _); congruence). split.
  - destruct Hw as (m & Hm & Hlt' & Hp). exists m. split; [exact Hm|]. split; [exact Hlt'|]. rewrite Hlook by discriminate. exact Hp.
  - cbn. rewrite (proj2 (Nat.eqb_neq t' t) Hne). destruct Hc as [H|(u & H1 & H2 & H3 & H4)]; [left; exact H|right].
    exists u. split; [exact H1|]. split; [exact H2|]. split; [exact H3|exact (Hproxy u H4)].
Qed.

(** The objects in a value have references. *)
Fixpoint pushable (d : deai) (x : value) : Prop :=
  match x with
  | VObject o => o ∈ d_strong d
  | VArray _ _ l | VTuple l => foldr (λ y P, pushable d y ∧ P) True l
  | VVariant x => pushable d x
  | VBottom => False
  | _ => True
  end.

Lemma pushable_more d d' x : d_strong d ⊆+ d_strong d' → pushable d x → pushable d' x.
Proof.
  intros Hs. assert (∀ l, Forall (λ y, pushable d y → pushable d' y) l →
    foldr (λ y P, pushable d y ∧ P) True l → foldr (λ y P, pushable d' y ∧ P) True l) as Hl.
  { induction 1 as [|y l Hy _ IH]; [auto|]. cbn. intros [H1 H2]. auto. }
  induction x as [x Hx|t b l IH|l IH|x IH] using value_ind'; [|exact (Hl l IH)|exact (Hl l IH)|exact IH].
  destruct x; try exact (λ H, H); try solve [destruct Hx]. cbn. intros H. exact (elem_of_submseteq _ _ _ H Hs).
Qed.

(** The number of values that a push says it pushed. *)
Fixpoint push_count (x : value) : Z :=
  match x with VNil => 0 | VVariant x => push_count x | _ => 1 end.

Section push.
Context {API : LuaApi} {OK : LuaApiOk API} {dead : bool}.

(** A push of something that is no object: the view moves. *)
Lemma tracked_push x v d : tracked dead v d → tracked dead (v_push x v) d.
Proof. intros Ht. apply (tracked_moves v); [exact Ht|apply moves_stack; reflexivity|apply Ht|auto]. Qed.

Lemma tracked_keeps v v' d : tracked dead v d → keeps (lv_next v) v v' → tracked dead v' d.
Proof.
  intros Ht Hk. pose proof (ke_tables _ _ _ Hk REGISTRY (tr_next _ _ Ht)) as Hreg.
  apply (tracked_moves v); rewrite ?Hreg; [exact Ht|exact (keeps_moves _ _ (tr_next _ _ Ht) Hk)|apply Ht|auto].
Qed.
End push.

(** One value more is on the stack, and what is tracked stays tracked. *)
Definition pushes_one (v : lua_view) (d : deai) (v' : lua_view) (d' : deai) : Prop :=
  tracked false v' d' ∧ moves v v' ∧ (∃ lx, lv_stack v' = lx :: lv_stack v) ∧ d_strong d ⊆+ d_strong d'.

Section push_one.
Context {API : LuaApi} {OK : LuaApiOk API}.

Lemma tracked_not_stale v d o : tracked false v d → ¬ stale v d o.
Proof.
  intros Ht (r & t & He & Hr & Hc). destruct (tr_entries _ _ Ht _ He) as (t' & Hr' & _ & _ & [[H _]|(u & Hu & _)]); [discriminate|].
  cbn in Hr'. pose proof (tw_keys _ (proj1 (tr_world _ _ Ht))) as Hnd.
  pose proof (raw_lookup_elem _ _ _ Hnd Hr) as E. rewrite (raw_lookup_elem _ _ _ Hnd Hr') in E. injection E as ->. congruence.
Qed.

Lemma push_simple_one lx (r : Z) v d : tracked false v d → runs v d (push lx;; mret r) (λ r' v' d', r' = r ∧ pushes_one v d v' d').
Proof.
  intros Ht. eapply runs_step; [apply runs_push|]. apply runs_ret. split; [reflexivity|].
  split; [apply tracked_push, Ht|]. split; [apply moves_stack; reflexivity|]. split; [exists lx; reflexivity|reflexivity].
Qed.

(** The elements of an array: [t] is the table on the top, which stays there. *)
Lemma push_elements_one l t st i v d :
  (∀ x, x ∈ l → ∀ name v d, tracked false v d → pushable d x →
    runs v d (di_lua_pushvariant name x) (λ r v' d', r = push_count x ∧ pushes_one v d v' d')) →
  tracked false v d → foldr (λ y P, pushable d y ∧ P) True l →
  lv_stack v = LTable t :: st → (0 < t < lv_next v)%nat → lv_meta v (LTable t) = None → table_wf (lv_tables v t) →
  runs v d (push_elements (di_lua_pushvariant None) i l) (λ _ v' d',
    tracked false v' d' ∧ lv_stack v' = lv_stack v ∧ d_strong d ⊆+ d_strong d' ∧ (lv_next v ≤ lv_next v')%nat ∧
    (∀ t', (0 < t' < lv_next v)%nat → t' ≠ t → lv_tables v' t' = lv_tables v t') ∧
    (∀ x, below (lv_next v) x → lv_meta v' x = lv_meta v x) ∧ (∀ u, (u < lv_next v)%nat → lv_blocks v' u = lv_blocks v u) ∧
    ∀ s, raw_lookup (LString s) (lv_tables v' REGISTRY) = raw_lookup (LString s) (lv_tables v REGISTRY)).
Proof.
  intros IH. revert i v d. induction l as [|x l IHl]; intros i v d Ht Hp Hst Hlt Hmeta Hwf; cbn [push_elements].
  { apply runs_ret. split; [exact Ht|]. repeat split; reflexivity. }
  destruct Hp as [Hx Hp]. eapply runs_bind; [exact (IH x (list_elem_of_here _ _) None v d Ht Hx)|].
  intros ? v1 d1 (_ & Ht1 & Hm1 & (lx & Hst1) & Hs1). pose proof (mo_next _ _ Hm1) as Hn1.
  assert (lv_tables v1 t = lv_tables v t) as Htab1 by (apply (mo_tables _ _ Hm1); lia).
  assert (lv_meta v1 (LTable t) = None) as Hmeta1 by (rewrite (mo_meta _ _ Hm1); [exact Hmeta|cbn; lia]).
  eapply runs_bind; [apply (runs_rawseti (-2) (i + 1) lx (lv_stack v) t v1 d1); [rewrite Hst in Hst1; exact (v_at_second _ _ _ _ Hst1)|exact Hst1]|].
  intros ? v2 d2 (-> & l2 & Hl2 & ->). rewrite Htab1 in Hl2.
  assert (tracked false (with_table t l2 v1) d1) as Ht2.
  { apply (tracked_set v1 d1 t (i + 1) lx); [exact Ht1|lia|exact Hmeta1|rewrite Htab1; exact Hwf|rewrite Htab1; exact Hl2]. }
  set (v2 := v_pop 1 (with_table t l2 v1)).
  assert (tracked false v2 d1) as Ht2' by (apply (tracked_keeps (with_table t l2 v1)); [exact Ht2|apply keeps_stack; reflexivity]).
  assert (lv_stack v2 = lv_stack v) as Hst2 by (cbn; rewrite Hst1; reflexivity).
  eapply runs_conseq; [apply (IHl (λ y Hy, IH y (list_elem_of_further _ _ _ Hy)) (i + 1) v2 d1); try assumption|].
  - assert (∀ l, foldr (λ y P, pushable d y ∧ P) True l → foldr (λ y P, pushable d1 y ∧ P) True l) as H; [|exact (H l Hp)].
    induction l0 as [|y l0 IH0]; [auto|]. cbn. intros [H1 H2]. split; [exact (pushable_more d d1 y Hs1 H1)|exact (IH0 H2)].
  - rewrite Hst2. exact Hst.
  - cbn. lia.
  - cbn. rewrite Nat.eqb_refl. apply (table_wf_perm _ _ (symmetry Hl2)), table_wf_update; [exact Hwf|discriminate].
  - intros ? v3 d3 (Ht3 & Hst3 & Hs3 & Hk3 & Htab3 & Hmeta3 & Hb3 & Hstr3). split; [exact Ht3|]. split; [congruence|].
    split; [etransitivity; eassumption|]. split; [|split; [|split; [|split]]].
    + cbn in Hk3. lia.
    + intros t' Ht' Hne. rewrite Htab3; [|cbn; lia|exact Hne]. cbn. rewrite (proj2 (Nat.eqb_neq t' t) Hne). apply (mo_tables _ _ Hm1), Ht'.
    + intros y Hy. rewrite Hmeta3; [apply (mo_meta _ _ Hm1), Hy|]. destruct y; cbn in *; try tauto; lia.
    + intros u Hu. rewrite Hb3; [apply (mo_blocks _ _ Hm1), Hu|cbn; lia].
    + intros s. rewrite Hstr3. cbn -[Nat.eqb]. rewrite (proj2 (Nat.eqb_neq REGISTRY t)) by (unfold REGISTRY; lia).
      apply (mo_strings _ _ Hm1).
Qed.

Lemma push_table_one l v d :
  (∀ x, x ∈ l → ∀ name v d, tracked false v d → pushable d x →
    runs v d (di_lua_pushvariant name x) (λ r v' d', r = push_count x ∧ pushes_one v d v' d')) →
  tracked false v d → foldr (λ y P, pushable d y ∧ P) True l →
  runs v d (api lua_newtable;; push_elements (di_lua_pushvariant None) 0 l;; mret 1) (λ r v' d', r = 1 ∧ pushes_one v d v' d').
Proof.
  intros IH Ht Hp. eapply runs_step; [apply runs_newtable|]. pose proof (tr_next _ _ Ht) as Hpos.
  assert (keeps (lv_next v) v (v_new LTable 0 v)) as Hk by (apply keeps_new; [apply le_n|auto|reflexivity]).
  eapply runs_bind; [apply (push_elements_one l (lv_next v) (lv_stack v) 0 (v_new LTable 0 v) d IH); try assumption|].
  - exact (tracked_keeps v _ d Ht Hk).
  - reflexivity.
  - cbn. lia.
  - cbn. rewrite decide_True by reflexivity. reflexivity.
  - cbn. rewrite Nat.eqb_refl. constructor; [apply NoDup_nil_2|apply not_elem_of_nil..].
  - intros ? v' d' (Ht' & Hst & Hs & Hn & Htab & Hmeta & Hb & Hstr). apply runs_ret. split; [reflexivity|]. split; [exact Ht'|].
    pose proof (keeps_moves _ _ Hpos Hk) as Hm. cbn in Hn. split; [|split; [exists (LTable (lv_next v)); exact Hst|exact Hs]].
    constructor; [constructor|intros s; rewrite Hstr; apply (mo_strings _ _ Hm)].
    + cbn in Hn. lia.
    + intros t Hlt. rewrite Htab; [apply (mo_tables _ _ Hm), Hlt|cbn; lia|lia].
    + intros x Hx. rewrite Hmeta; [apply (mo_meta _ _ Hm), Hx|destruct x; cbn in *; try tauto; lia].
    + intros u Hu. rewrite Hb; [apply (mo_blocks _ _ Hm), Hu|cbn; lia].
Qed.

(** [di_lua_pushvariant] pushes one value, whatever it is given, when no proxy is
    dead. *)
Lemma runs_push_one x name v d :
  tracked false v d → pushable d x →
  runs v d (di_lua_pushvariant name x) (λ r v' d', r = push_count x ∧ pushes_one v d v' d').
Proof.
  revert name v d. induction x as [x Hx|t b l IH|l IH|x IH] using value_ind'; intros name v d Ht Hp;
    [|cbn [di_lua_pushvariant push_count]..].
  - destruct x as [| | | | | | |p|o|w|[s|]|s| | | |]; try solve [destruct Hx|exact (push_simple_one _ _ v d Ht)|destruct Hp].
    + cbn [di_lua_pushvariant push_count]. destruct (p =? 0); exact (push_simple_one _ _ v d Ht).
    + eapply runs_conseq; [exact (runs_push_object name o v d Ht Hp)|].
      intros r v' d' (-> & Ht' & Hm & _ & u & Hpo & Hcase). split; [reflexivity|]. split; [exact Ht'|]. split; [exact Hm|].
      destruct Hcase as [(_ & _ & Hst & Hs)|[(_ & Hst & Hs & _)|(Hs & _)]].
      * split; [eauto|]. rewrite Hs. cbn. apply submseteq_cons. reflexivity.
      * split; [eauto|]. cbn in Hs. apply Permutation_cons_inv in Hs. rewrite Hs. reflexivity.
      * destruct (tracked_not_stale v d o Ht Hs).
    + cbn [di_lua_pushvariant push_count]. eapply runs_bind.
      { apply (runs_pushproxy name (Z.of_nat w) di_lua_weak_object_methods false v d (tr_next _ _ Ht)).
        apply (bool_decide_unpack _). vm_compute. exact I. }
      intros ? v' d' (-> & Hk & Hst & _). apply runs_ret. split; [reflexivity|]. split; [exact (tracked_keeps v v' d Ht Hk)|].
      split; [exact (keeps_moves _ _ (tr_next _ _ Ht) Hk)|]. split; [eauto|reflexivity].
  - case_bool_decide; [exact (push_simple_one _ _ v d Ht)|]. apply push_table_one; [|exact Ht|exact Hp].
    intros x Hin. rewrite List.Forall_forall in IH. apply list_elem_of_In in Hin. exact (IH x Hin).
  - apply push_table_one; [|exact Ht|exact Hp].
    intros x Hin. rewrite List.Forall_forall in IH. apply list_elem_of_In in Hin. exact (IH x Hin).
  - exact (IH None v d Ht Hp).
Qed.

(** The arguments of a call. *)
Lemma runs_push_args l v d :
  tracked false v d → Forall (pushable d) l →
  runs v d (for_each (λ x, _ ← di_lua_pushvariant None x; mret tt) l) (λ _ v' d',
    tracked false v' d' ∧ moves v v' ∧ d_strong d ⊆+ d_strong d' ∧
    ∃ lxs, length lxs = length l ∧ lv_stack v' = lxs ++ lv_stack v).
Proof.
  revert v d. induction l as [|x l IH]; intros v d Ht Hl; cbn [for_each].
  { apply runs_ret. split; [exact Ht|]. split; [reflexivity|]. split; [reflexivity|]. exists []. auto. }
  apply Forall_cons in Hl as [Hx Hl]. eapply runs_bind; [exact (runs_void v d _ _ (runs_push_one x None v d Ht Hx))|].
  intros ? v1 d1 (? & _ & Ht1 & Hm1 & (lx & Hst1) & Hs1). eapply runs_conseq; [apply (IH v1 d1 Ht1)|].
  { apply (Forall_impl _ _ _ Hl). intros y. apply pushable_more, Hs1. }
  intros ? v2 d2 (Ht2 & Hm2 & Hs2 & lxs & Hlen & Hst2). split; [exact Ht2|]. split; [transitivity v1; assumption|].
  split; [etransitivity; eassumption|]. exists (lxs ++ [lx]). rewrite length_app. cbn. split; [lia|].
  rewrite <- app_assoc. cbn. rewrite <- Hst1. exact Hst2.
Qed.
End push_one.

(** ** The current script *)
Definition env (v : lua_view) (p : Z) : Prop :=
  raw_lookup (LString DI_LUA_REGISTRY_SCRIPT_OBJECT_KEY) (lv_tables v REGISTRY) = LLightUserdata p.

(** Before the first script none is set. *)
Definition script_is (v : lua_view) (p : Z) : Prop :=
  env v p ∨ raw_lookup (LString DI_LUA_REGISTRY_SCRIPT_OBJECT_KEY) (lv_tables v REGISTRY) = LNil ∧ p = 0.

Lemma raw_lookup_set l k x : x ≠ LNil → raw_lookup k (raw_update k x l) = x.
Proof.
  intros Hx. induction l as [|[k' y] l IH]; cbn [raw_update]; [rewrite decide_False by exact Hx; cbn; rewrite decide_True by reflexivity; reflexivity|].
  destruct (decide (k' = k)) as [->|Hne]; [rewrite decide_False by exact Hx; cbn; rewrite decide_True by reflexivity; reflexivity|].
  cbn. rewrite decide_False by exact Hne. exact IH.
Qed.

Lemma elem_raw_update l k k' x y : (k, x) ∈ l → k ≠ k' → (k, x) ∈ raw_update k' y l.
Proof.
  induction l as [|[j z] l IH]; [intros H; inversion H|]. cbn [raw_update]. intros Hin Hne.
  apply elem_of_cons in Hin as [[= <- <-]|Hin].
  - rewrite decide_False by congruence. left.
  - destruct (decide (j = k')); [destruct (decide (y = LNil)); [exact Hin|right; exact Hin]|right; exact (IH Hin Hne)].
Qed.

(** What a conversion can read: no table, and of userdata the proxies of objects. *)
Definition convertible (v : lua_view) (d : deai) (x : lua_value) : Prop :=
  match x with
  | LTable _ => False
  | LUserdata u => ∃ o, proxy v u ∧ lv_blocks v u = Z.of_nat o ∧ o ∈ d_strong d
  | _ => True
  end.

(** What is relied on: a call takes the function and its arguments off the stack and
    leaves one value, which a conversion can read; it leaves the current script as it
    was, and what is tracked, as scripts act on objects only through the functions of
    the plugin. *)
Class LuaCallsOk {API : LuaApi} (OK : LuaApiOk API) (CALLS : LuaCalls) := {
  runs_script_of o v d : ∃ p, runs v d (script_of o) (exactly p v d);
  runs_pcall args f rest msgh p v d :
    tracked false v d → env v p → lv_stack v = args ++ f :: rest →
    runs v d (lua_pcall (length args) msgh) (λ _ v' d', tracked true v' d' ∧ env v' p ∧
      ∃ x, lv_stack v' = x :: rest ∧ convertible v' d' x);
  runs_gettable key st t p v d :
    tracked false v d → env v p → lv_stack v = key :: t :: st →
    runs v d (lua_gettable (-2)) (λ _ v' d', tracked true v' d' ∧ env v' p ∧
      ∃ x, lv_stack v' = x :: t :: st ∧ convertible v' d' x);
  runs_tolstring x st p v d :
    tracked true v d → env v p → lv_stack v = x :: st →
    runs v d (luaL_tolstring (-1)) (λ r v' d', tracked true v' d' ∧ env v' p ∧ lv_stack v' = LString r :: x :: st);
  runs_new_error s p v d :
    tracked true v d → env v p →
    runs v d (di_new_error s) (λ _ v' d', tracked true v' d' ∧ env v' p ∧ lv_stack v' = lv_stack v)
}.

Section balance.
Context {API : LuaApi} {OK : LuaApiOk API} {CALLS : LuaCalls} {COK : LuaCallsOk OK CALLS}.

Lemma runs_get_env p v d : script_is v p → runs v d di_lua_get_env (exactly p v d).
Proof.
  intros He. unfold di_lua_get_env. eapply runs_step; [apply runs_push|].
  eapply runs_step; [apply (runs_rawget LUA_REGISTRYINDEX REGISTRY); [reflexivity|discriminate]|].
  assert (raw_lookup (v_top (v_push (LString DI_LUA_REGISTRY_SCRIPT_OBJECT_KEY) v))
    (lv_tables (v_push (LString DI_LUA_REGISTRY_SCRIPT_OBJECT_KEY) v) REGISTRY)
    = raw_lookup (LString DI_LUA_REGISTRY_SCRIPT_OBJECT_KEY) (lv_tables v REGISTRY)) as -> by reflexivity.
  unfold script_is, env in He. set (x := raw_lookup _ _) in *. apply (runs_step _ _ _ _ p (v_push x v) d).
  { unfold touserdata. eapply runs_step; [apply runs_value_at|]. erewrite v_at_top by reflexivity.
    destruct He as [-> |[-> ->]]; (apply runs_ret; split; [reflexivity|split; destruct v; reflexivity]). }
  eapply runs_step; [apply runs_pop; cbn; lia|]. apply runs_ret. split; [reflexivity|]. split; [destruct v; reflexivity|reflexivity].
Qed.

(** [di_lua_xchg_env] *)
Lemma runs_xchg_env {dead} s p v d :
  tracked dead v d → script_is v p →
  runs v d (di_lua_xchg_env s) (λ r v' d', r = p ∧ d' = d ∧ env v' s ∧ tracked dead v' d ∧ stays v v' ∧ lv_stack v' = lv_stack v ∧
    ∀ r x, (LInteger r, x) ∈ lv_tables v REGISTRY → (LInteger r, x) ∈ lv_tables v' REGISTRY).
Proof.
  intros Ht He. unfold di_lua_xchg_env. eapply runs_step; [exact (runs_get_env p v d He)|].
  eapply runs_step; [apply runs_push|]. eapply runs_step; [apply runs_push|].
  set (key := LString DI_LUA_REGISTRY_SCRIPT_OBJECT_KEY). set (v1 := v_push (LLightUserdata s) (v_push key v)).
  pose proof (proj1 (tr_world _ _ Ht)) as Hwf.
  eapply runs_bind; [apply (runs_rawset LUA_REGISTRYINDEX key (LLightUserdata s) REGISTRY (lv_stack v) v1); reflexivity|].
  intros ? v' d' (-> & l & Hl & ->). apply runs_ret. split; [reflexivity|]. split; [reflexivity|].
  assert (table_wf l) as Hwf' by (apply (table_wf_perm _ _ (symmetry Hl)), table_wf_update; [exact Hwf|discriminate]).
  assert (∀ r x, (LInteger r, x) ∈ lv_tables v REGISTRY → (LInteger r, x) ∈ l) as Hin.
  { intros r x Hx. rewrite Hl. apply elem_raw_update; [exact Hx|discriminate]. }
  assert (stays v (with_stack (lv_stack v) (with_table REGISTRY l v1))) as Hm.
  { apply stays_stack, stays_registry. do 2 apply stays_stack. reflexivity. }
  split; [|split; [|split; [exact Hm|split; [reflexivity|exact Hin]]]].
  - unfold env. cbn. fold key. rewrite (raw_lookup_perm (raw_update key (LLightUserdata s) (lv_tables v REGISTRY)) l);
      [apply raw_lookup_set; discriminate|apply table_wf_update; [exact Hwf|discriminate]|symmetry; exact Hl].
  - apply (tracked_moves v); [exact Ht|exact Hm|exact Hwf'|intros r x _; apply Hin].
Qed.

Lemma env_moves v v' p : env v p → moves v v' → env v' p.
Proof. intros He Hm. unfold env. rewrite (mo_strings _ _ Hm). exact He. Qed.

(** An object for a Lua value is tracked. *)
Lemma tracked_object_for {dead} x v d o v' d' :
  tracked dead v d → x ≠ LNil → object_for x v d o v' d' →
  tracked dead v' d' ∧ moves v v' ∧ lv_stack v' = lv_stack v.
Proof.
  intros Ht Hx (_ & r & l & Hr & Hl & -> & ->).
  assert (∀ e, e ∈ lv_tables v REGISTRY → e ∈ l) as Hin by (intros e He; rewrite Hl; right; exact He).
  assert (moves v (with_table REGISTRY l v)) as Hm.
  { apply moves_registry; [exact (strings_stay_new _ _ r x (proj1 (tr_world _ _ Ht)) Hr Hx Hl)|reflexivity]. }
  assert (table_wf l) as Hwf.
  { apply (table_wf_perm (lv_tables v REGISTRY ++ [(LInteger r, x)])); [rewrite Hl; symmetry; apply Permutation_cons_append|].
    apply table_wf_add; [apply Ht|exact Hr|discriminate|exact Hx]. }
  split; [|split; [exact Hm|reflexivity]].
  assert (∀ r', r' ∈ refs_of d → r' ≠ r) as Hfresh.
  { intros r' [Hi|Hi]%elem_of_app ->; apply list_elem_of_fmap in Hi as (e & -> & He); apply Hr; [exact (tr_lua _ _ Ht e He)|].
    destruct (tr_entries _ _ Ht e He) as (t & Hi & _). exact (list_elem_of_fmap_2 fst _ _ Hi). }
  destruct (tracked_moves v _ d Ht Hm Hwf (λ r x _, Hin (LInteger r, x))) as [[T1 [T1a T1b]] T2 T2' T3 T4 T5 T6 T7 T8 T9].
  constructor; try assumption; cbn [d_lua_refs d_map d_strong d_members d_next].
  - split; [exact T1|]. constructor; cbn.
    + intros e [->|He]%elem_of_cons; [left|right; exact (T1a e He)].
    + intros y [->|Hy]%elem_of_cons; [lia|]. specialize (T1b y Hy). lia.
  - rewrite fmap_cons. cbn. apply NoDup_cons. split; [intros Hi; exact (Hfresh r Hi eq_refl)|exact T4].
  - intros e [->|He]%elem_of_cons; [|exact (T5 e He)]. cbn -[REGISTRY]. rewrite Nat.eqb_refl, Hl. left.
  - rewrite fmap_cons. cbn. apply NoDup_cons. split; [|exact T6]. intros (e & He & Hi)%list_elem_of_fmap.
    specialize (T1b _ (T1a e Hi)). lia.
  - apply submseteq_cons. exact T9.
Qed.

(** The value on the top is converted. *)
Lemma runs_convert_top {dead} depth k x st p v d :
  tracked dead v d → env v p → lv_stack v = x :: st → convertible v d x →
  runs v d (di_lua_type_to_di (Datatypes.S depth) k true (-1)) (λ r v' d',
    tracked dead v' d' ∧ env v' p ∧ lv_stack v' = lv_stack v ∧
    r.1 = match x with LLightUserdata _ | LThread _ => ENOTSUP | _ => 0 end).
Proof.
  intros Ht He Hst Hc. pose proof (v_at_top _ _ _ Hst) as Hat.
  destruct (scalar_value x) as [y|] eqn:Ey.
  { eapply runs_done; [exact (runs_scalar depth k true (-1) x y v d Hat Ey)|]. split; [exact Ht|]. split; [exact He|].
    split; [reflexivity|]. destruct x; first [reflexivity|discriminate]. }
  destruct x as [| | | | |t|f|u|q|q]; try discriminate; [destruct Hc|..].
  - cbn [di_lua_type_to_di]. eapply runs_step; [apply runs_value_at|]. rewrite Hat.
    eapply runs_bind; [exact (runs_to_object (LFunction f) st v d (tr_world _ _ Ht) Hst ltac:(discriminate))|].
    intros o v' d' Ho. apply runs_ret.
    destruct (tracked_object_for (LFunction f) v d o v' d' Ht ltac:(discriminate) Ho) as (Ht' & Hm' & Hst').
    split; [exact Ht'|]. split; [exact (env_moves v v' p He Hm')|]. split; [exact Hst'|reflexivity].
  - destruct Hc as (o & Hp & Hb & Ho). eapply runs_done; [exact (runs_convert_proxy depth k true (-1) u o v d Hat Hp Hb)|].
    split; [|split; [exact He|split; reflexivity]].
    destruct Ht as [[T1 [T1a T1b]] T2 T2' T3 T4 T5 T6 T7 T8 T9]. constructor; try assumption; cbn.
    + split; [exact T1|]. constructor; cbn; [intros e Hi; right; exact (T1a e Hi)|]. intros y [->|Hy]%elem_of_cons; apply T1b; assumption.
    + apply submseteq_cons. exact T9.
  - cbn [di_lua_type_to_di]. eapply runs_step; [apply runs_value_at|]. rewrite Hat. apply runs_ret. auto.
  - cbn [di_lua_type_to_di]. eapply runs_step; [apply runs_value_at|]. rewrite Hat. apply runs_ret. auto.
Qed.

End balance.

(** ** Calls of objects from Lua *)
Section method.
Context {API : LuaApi} {OK : LuaApiOk API} {CALLS : LuaCalls}.

(** The arguments of a function that Lua calls: the last one is on the top. *)
Lemma v_at_argument u lxs i x v :
  lv_stack v = reverse lxs ++ [u] → lxs !! i = Some x → v_at (2 + Z.of_nat i) v = x.
Proof.
  intros Hst Hx. apply lookup_lt_Some in Hx as Hi. unfold v_at, at_index, LUA_REGISTRYINDEX.
  assert (length (lv_stack v) = Datatypes.S (length lxs)) as Hlen by (rewrite Hst, length_app, length_reverse; cbn; lia).
  rewrite (proj2 (Z.eqb_neq _ _)), (proj2 (Z.ltb_lt _ _)), (proj2 (Z.leb_le _ _)) by lia.
  rewrite Hst, lookup_app_l by (rewrite length_app, length_reverse; cbn; lia).
  rewrite reverse_lookup by (rewrite length_app, length_reverse; cbn; lia).
  replace (length lxs - Datatypes.S (length (reverse lxs ++ [u]) - Z.to_nat (2 + Z.of_nat i)))%nat with i
    by (rewrite length_app, length_reverse; cbn; lia).
  rewrite Hx. reflexivity.
Qed.

Lemma runs_convert_args depth k u lxs ys v d :
  lv_stack v = reverse lxs ++ [u] → Forall2 (λ lx y, scalar_value lx = Some y) lxs ys →
  runs v d (convert_args (Datatypes.S depth) k (seqZ 2 (Z.of_nat (length lxs)))) (exactly (ys, true) v d).
Proof.
  intros Hst Hys.
  assert (∀ l zs j, (∀ i lx, l !! i = Some lx → lxs !! (j + i)%nat = Some lx) → Forall2 (λ lx y, scalar_value lx = Some y) l zs →
    runs v d (convert_args (Datatypes.S depth) k (seqZ (2 + Z.of_nat j) (Z.of_nat (length l)))) (exactly (zs, true) v d)) as H.
  { induction l as [|lx l IH]; intros zs j Hl Hzs; [inversion Hzs; apply runs_ret; split; auto|].
    apply Forall2_cons_inv_l in Hzs as (z & zs' & Hz & Hzs & ->).
    cbn [length]. rewrite Nat2Z.inj_succ, seqZ_cons, Z.pred_succ by lia. cbn [convert_args].
    assert (v_at (2 + Z.of_nat j) v = lx) as Hat.
    { apply (v_at_argument u lxs); [exact Hst|]. rewrite <- (Nat.add_0_r j). apply Hl. reflexivity. }
    eapply runs_step.
    { unfold di_lua_type_to_di_variant. eapply runs_step; [exact (runs_scalar depth k false _ lx z v d Hat Hz)|]. cbn [fst Z.eqb negb].
      eapply runs_step; [exact (runs_scalar depth k true _ lx z v d Hat Hz)|]. apply runs_ret. split; [reflexivity|split; reflexivity]. }
    cbn [snd]. apply (runs_step _ _ _ _ (zs', true) v d); [|apply runs_ret; split; [reflexivity|split; reflexivity]].
    replace (Z.succ (2 + Z.of_nat j)) with (2 + Z.of_nat (Datatypes.S j)) by lia. apply IH; [|exact Hzs].
    intros i x Hx. rewrite Nat.add_succ_comm. apply Hl. exact Hx. }
  exact (H lxs ys 0%nat (λ i lx Hlx, Hlx) Hys).
Qed.

Lemma release_widened x y v d : widened x = Some y → runs v d (release x) (exactly tt v d).
Proof. destruct x as [| | | | | | | | | |[]| | | | |]; try discriminate; intros _; apply runs_ret; split; auto. Qed.

Lemma release_scalars lxs ys v d :
  Forall2 (λ lx y, scalar_value lx = Some y) lxs ys → runs v d (for_each release ys) (exactly tt v d).
Proof.
  induction 1 as [|lx y lxs ys Hy _ IH]; cbn [for_each]; [apply runs_ret; split; auto|].
  eapply runs_step; [|exact IH]. destruct lx; try discriminate; injection Hy as <-; apply runs_ret; split; auto.
Qed.

End method.

(** ** Where it goes wrong *)
Section leftover.
Context {API : LuaApi} {OK : LuaApiOk API} {CALLS : LuaCalls} {COK : LuaCallsOk OK CALLS}.

(** Reading a member of a Lua table through its object leaves the table and the
    value on the stack of Lua, every time; when the value cannot be converted the
    current script stays that of the table. *)
Theorem getter_leaves_values (depth k : nat) t tref key p v d :
  tracked false v d → env v p → (t, tref) ∈ d_lua_refs d →
  runs v d (di_lua_di_getter (Datatypes.S depth) k [VObject t; VStringLiteral key]) (λ r v' d', ∃ script x y,
    runs v d (script_of t) (exactly script v d) ∧ lv_stack v' = x :: y :: lv_stack v ∧
    tracked true v' d' ∧ env v' (if r.1 =? 0 then p else script)).
Proof.
  intros Ht He Href. cbn [di_lua_di_getter]. destruct (runs_script_of t v d) as [script Hscript].
  eapply runs_step; [exact Hscript|]. eapply runs_bind with (R := λ _ v' d', v' = v ∧ d' = d).
  { unfold tref_of. eapply runs_step; [apply runs_get_deai|].
    destruct (take_out_elem (λ e, Nat.eqb t e.1) (d_lua_refs d) _ Href (Nat.eqb_refl _)) as [r ->].
    eapply runs_step; [apply runs_ret; split; [reflexivity|split; reflexivity]|]. apply runs_ret. auto. }
  intros r v0 d0 (-> & ->). eapply runs_bind; [exact (runs_xchg_env script p v d Ht (or_introl He))|].
  intros ? v1 d1 (-> & -> & He1 & Ht1 & _ & Hst1 & _).
  eapply runs_step; [apply (runs_rawgeti LUA_REGISTRYINDEX r REGISTRY); reflexivity|]. set (y := raw_lookup _ _).
  eapply runs_step; [apply runs_push|]. set (v2 := v_push (LString key) (v_push y v1)).
  eapply runs_bind; [apply (runs_gettable (LString key) (lv_stack v) y script v2 d)|].
  { do 2 apply tracked_push. exact Ht1. }
  { exact He1. }
  { cbn. rewrite Hst1. reflexivity. }
  intros ? v3 d3 (Ht3 & He3 & x & Hst3 & Hc3).
  eapply runs_bind; [exact (runs_convert_top depth k x _ script v3 d3 Ht3 He3 Hst3 Hc3)|].
  intros z v4 d4 (Ht4 & He4 & Hst4 & Hrc). destruct (Z.eqb_spec z.1 0) as [E|E]; cbn [negb].
  - eapply runs_bind; [exact (runs_xchg_env p script v4 d4 Ht4 (or_introl He4))|].
    intros ? v5 d5 (-> & -> & He5 & Ht5 & _ & Hst5 & _). apply runs_ret. exists script, x, y. split; [exact Hscript|].
    split; [congruence|]. split; [exact Ht5|exact He5].
  - apply runs_ret. exists script, x, y. split; [exact Hscript|]. split; [congruence|]. split; [exact Ht4|]. cbn.
    rewrite (proj2 (Z.eqb_neq _ _) E). exact He4.
Qed.

(** The proxy of a weak reference counts as the object itself: converted, it is a
    strong reference that was never taken from the weak one. *)
Theorem weak_proxy_is_object {dead} (depth k : nat) name w v d :
  tracked dead v d →
  runs v d (_ ← di_lua_pushvariant name (VWeak w); i ← gettop; di_lua_type_to_di_variant (Datatypes.S depth) k i)
    (λ r v' d', r = inr (VObject w) ∧ d_strong d' = w :: d_strong d).
Proof.
  intros Ht. cbn [di_lua_pushvariant].
  eapply runs_bind with (R := λ _ v' d', d' = d ∧ ∃ u, lv_stack v' = LUserdata u :: lv_stack v ∧
    lv_blocks v' u = Z.of_nat w ∧ proxy v' u).
  { eapply runs_bind; [apply (runs_pushproxy name (Z.of_nat w) di_lua_weak_object_methods false v d (tr_next _ _ Ht))|].
    { apply (bool_decide_unpack _). vm_compute. exact I. }
    intros ? v' d' (-> & _ & Hst & Hb & _ & Hp & _). apply runs_ret. eauto. }
  intros ? v1 d1 (-> & u & Hst & Hb & Hp). eapply runs_step; [apply runs_gettop|].
  eapply runs_done; [exact (runs_variant_proxy depth k _ u w v1 d (v_at_gettop _ _ v1 Hst) Hp Hb)|]. auto.
Qed.
End leftover.

(** ** Witnesses

    Functions of Lua that answer 7, and objects that answer their first argument. *)
#[export] Instance demo_calls : LuaCalls := {|
  di_is_object_callable _ := mret true;
  di_call_objectt _ l := mret (0, default VNil (head l));
  di_getx _ _ := mret (ENOENT, VNil);
  di_setx _ _ _ := mret 0;
  di_remove_member _ _ := mret 0;
  di_emitn _ _ _ := mret 0;
  di_upgrade_weak_ref _ := mret None;
  di_new_error _ := mret 0%nat;
  script_of _ := mret 42;
  lua_pcall n _ := pop n;; pop 1;; push (LInteger 7);; mret 0;
  lua_gettable _ := pop 1;; push (LInteger 7);; mret tt;
  luaL_tolstring _ := push (LString "error");; mret "error"%string;
  luaL_checklstring _ := mret None
|}.

Lemma demo_weaken {dead} v d : tracked dead v d → tracked true v d.
Proof.
  intros [T1 T2 T2' T3 T4 T5 T6 T7 T8 T9]. constructor; try assumption. intros e He.
  destruct (T7 e He) as (t & H1 & H2 & H3 & [[_ H]|H]); exists t; (split; [exact H1|]; split; [exact H2|]; split; [exact H3|]); [left|right]; auto.
Qed.

#[export] Instance demo_calls_ok : LuaCallsOk demo_lua_ok demo_calls.
Proof.
  assert (∀ st v d, tracked false v d → tracked true (with_stack st v) d) as Hst.
  { intros st v d Ht. apply (demo_weaken (dead := false)), (tracked_keeps v); [exact Ht|apply keeps_stack; reflexivity]. }
  constructor.
  - intros o v d. exists 42. apply runs_ret. split; auto.
  - intros args f rest msgh p v d Ht He Hstk. cbn.
    eapply runs_step; [apply runs_pop; rewrite Hstk, length_app; lia|].
    eapply runs_step; [apply runs_pop; cbn; rewrite Hstk, drop_app_length; cbn; lia|].
    eapply runs_step; [apply runs_push|]. apply runs_ret. split; [exact (Hst _ v d Ht)|]. split; [exact He|].
    exists (LInteger 7). split; [|exact I]. cbn. rewrite Hstk, drop_app_length. reflexivity.
  - intros key st t p v d Ht He Hstk. cbn. eapply runs_step; [apply runs_pop; rewrite Hstk; cbn; lia|].
    eapply runs_step; [apply runs_push|]. apply runs_ret. split; [exact (Hst _ v d Ht)|]. split; [exact He|].
    exists (LInteger 7). split; [|exact I]. cbn. rewrite Hstk. reflexivity.
  - intros x st p v d Ht He Hstk. cbn. eapply runs_step; [apply runs_push|]. apply runs_ret.
    split; [apply tracked_push, Ht|]. split; [exact He|]. cbn. rewrite Hstk. reflexivity.
  - intros s p v d Ht He. apply runs_ret. auto.
Defined.

(** A reference to a Lua function, and a current script. *)
Definition demo_registry : contents :=
  [(LString DI_LUA_REGISTRY_SCRIPT_OBJECT_KEY, LLightUserdata 5); (LInteger 1, LFunction 1)].
Definition demo_ref : lua_view :=
  View [LString "below"] (λ t, if Nat.eqb t REGISTRY then demo_registry else []) (λ _, None) (λ _, 0) 2.
Definition demo_ref_deai : deai := Deai 1 [(0%nat, 1)] [0%nat] [] [].

Lemma demo_ref_tracked dead : tracked dead demo_ref demo_ref_deai.
Proof.
  constructor; cbn; try reflexivity; try lia.
  - split; [constructor; cbn; [apply (bool_decide_unpack _); vm_compute; exact I|set_solver..]|].
    constructor; cbn; [intros e ->%list_elem_of_singleton; left|intros o ->%list_elem_of_singleton; lia].
  - apply NoDup_nil_2.
  - apply NoDup_singleton.
  - intros e ->%list_elem_of_singleton. right. left.
  - apply NoDup_singleton.
  - intros e H. inversion H.
  - apply submseteq_nil_l.
Qed.

Lemma demo_ref_env : env demo_ref 5.
Proof. reflexivity. Qed.



Lemma getter_leaves_values_witness :
  runs demo_ref demo_ref_deai (di_lua_di_getter 1 0 [VObject 0; VStringLiteral "member"]) (λ r v' d', ∃ script x y,
    runs demo_ref demo_ref_deai (script_of 0) (exactly script demo_ref demo_ref_deai) ∧ lv_stack v' = [x; y; LString "below"] ∧
    tracked true v' d' ∧ env v' (if r.1 =? 0 then 5 else script)).
Proof.
  exact (getter_leaves_values 0 0 0 1 "member" 5 demo_ref demo_ref_deai (demo_ref_tracked false) demo_ref_env
    (list_elem_of_here _ _)).
Defined.

Lemma weak_proxy_is_object_witness :
  runs demo_ref demo_ref_deai (_ ← di_lua_pushvariant None (VWeak 9); i ← gettop; di_lua_type_to_di_variant 1 0 i)
    (λ r v' d', r = inr (VObject 9) ∧ d_strong d' = [9; 0]%nat).
Proof. exact (weak_proxy_is_object 0 0 None 9 demo_ref demo_ref_deai (demo_ref_tracked true)). Defined.
