(* ===== verification/LuaLoad.v ===== *)
(** * Loading of Lua scripts (plugins/lua/lua.c)

    The state object with its [lua_State] ([lua_new_state]), scripts with their
    references ([di_lua_load_script]), and the message handler of the calls that run
    them ([di_lua_errfunc]).  What scripts see of the library [os], and that loading a
    script leaves stack, current script and references as they should be. *)

From S2P Require Import Prelude.
From S2P Require Import DiTypes.
From S2P Require Import Strings.
From S2P Require Import LuaApi.
From S2P Require Import Lua.
From S2P Require Import LuaConv.
From S2P Require Import LuaProxy.
From S2P Require Import LuaCall.

Local Open Scope Z_scope.

(** ** The state

    A [struct di_lua_script] with its path, whether it has its member
    ["___di_lua_state"], and its references: those of functions that are running, and
    all others (of callers, listeners and references to Lua values). *)
Record script := Script { s_path : di_string; s_state : bool; s_held : nat; s_others : nat }.

Section state.
Context {API : LuaApi}.

(** - [ld_state]: the [struct di_lua_state] that is alive, by its address;
    - [ld_held]: the references to it of functions that are running; each script with
      the member has another one;
    - [ld_member]: the weak reference ["__lua_state"] of the module;
    - [ld_scripts]: the scripts by their addresses, and [ld_next] the next address;
    - [ld_objects]: the number of the next object;
    - [ld_log]: what was logged, when there is a module ["log"];
    - [ld_leaked]: the strings that nothing refers to any more. *)
Record loader := Loader {
  ld_state : option (Z * dl);
  ld_held : nat;
  ld_member : option Z;
  ld_scripts : gmap Z script;
  ld_next : Z;
  ld_objects : loc;
  ld_log : option (list string);
  ld_leaked : list string
}.

Definition set_state x (l : loader) : loader :=
  Loader x (ld_held l) (ld_member l) (ld_scripts l) (ld_next l) (ld_objects l) (ld_log l) (ld_leaked l).
Definition set_held n (l : loader) : loader :=
  Loader (ld_state l) n (ld_member l) (ld_scripts l) (ld_next l) (ld_objects l) (ld_log l) (ld_leaked l).
Definition set_member m (l : loader) : loader :=
  Loader (ld_state l) (ld_held l) m (ld_scripts l) (ld_next l) (ld_objects l) (ld_log l) (ld_leaked l).
Definition set_scripts s (l : loader) : loader :=
  Loader (ld_state l) (ld_held l) (ld_member l) s (ld_next l) (ld_objects l) (ld_log l) (ld_leaked l).
Definition set_next n (l : loader) : loader :=
  Loader (ld_state l) (ld_held l) (ld_member l) (ld_scripts l) n (ld_objects l) (ld_log l) (ld_leaked l).
Definition set_objects n (l : loader) : loader :=
  Loader (ld_state l) (ld_held l) (ld_member l) (ld_scripts l) (ld_next l) n (ld_log l) (ld_leaked l).
Definition set_log g (l : loader) : loader :=
  Loader (ld_state l) (ld_held l) (ld_member l) (ld_scripts l) (ld_next l) (ld_objects l) g (ld_leaked l).
Definition add_leaked s (l : loader) : loader :=
  Loader (ld_state l) (ld_held l) (ld_member l) (ld_scripts l) (ld_next l) (ld_objects l) (ld_log l) (s :: ld_leaked l).

(** Something refers to the state object. *)
Definition state_used (l : loader) : bool :=
  (0 <? ld_held l)%nat || existsb (λ e, s_state e.2) (map_to_list (ld_scripts l)).

(** When nothing does, it is destroyed: [lua_state_dtor]. *)
Definition lua_state_dtor (l : loader) : loader :=
  match ld_state l with
  | Some (_, x) => if state_used l then l else set_state None (set_objects (d_next (dl_deai x)) l)
  | None => l
  end.
End state.

(** ** What is called

    Of Lua: a new state with its libraries, global variables, and a chunk that is
    loaded from a file and run; [run_chunk] is [lua_pcall] for the function on the top,
    without results, as it acts on scripts too.  [di] is the core object. *)
Class LuaLoads {API : LuaApi} := {
  luaL_newstate : lua_State;
  luaL_openlibs : lua_State → lua_State;
  lua_getglobal : string → ST dl unit;
  lua_setglobal : string → ST dl unit;
  luaL_loadfile : string → ST dl Z;
  run_chunk : ST loader Z;
  di_module_get_deai : loc
}.

Definition DI_LUA_REGISTRY_STATE_OBJECT_KEY : string := "__deai.di_lua.state_object".
Definition allowed_os : list string := ["time"; "difftime"; "clock"; "tmpname"; "date"]%string.
Definition di_lua_di_methods : list string := ["__index"; "__newindex"]%string.

Section load.
Context {API : LuaApi} {CALLS : LuaCalls} {LOADS : LuaLoads}.

(** [m], with [L->L]. *)
Definition in_lua {A} (m : ST dl A) : ST loader A := λ l,
  match ld_state l with
  | Some (a, x) =>
      match m x with
      | Done r x' => Done r (set_state (Some (a, x')) l)
      | Crash c => Crash c
      | NoFuel => NoFuel
      end
  | None => Crash UseAfterFree
  end.

(** ** References *)

(** An address for a struct. *)
Definition alloc : ST loader Z := l ← get; put (set_next (ld_next l + 1) l);; mret (ld_next l).

Definition get_script (p : Z) : ST loader script := l ← get; from_opt UseAfterFree (ld_scripts l !! p).
Definition put_script (p : Z) (s : script) : ST loader unit := modify (λ l, set_scripts (<[p := s]> (ld_scripts l)) l).

(** [di_new_object_with_type(struct di_lua_script)] *)
Definition new_script : ST loader Z :=
  p ← alloc; put_script p (Script None false 1 0);; mret p.

(** [di_ref_object] of a script for the caller. *)
Definition ref_script (p : Z) : ST loader unit :=
  s ← get_script p; put_script p (Script (s_path s) (s_state s) (s_held s) (Datatypes.S (s_others s))).

(** [di_unref_object] of a script that a function holds; the last reference frees it
    with its path, and drops its member. *)
Definition unref_script (p : Z) : ST loader unit :=
  s ← get_script p;
  match s_held s, s_others s with
  | O, _ => fail RefUnderflow
  | Datatypes.S O, O => modify (λ l, lua_state_dtor (set_scripts (delete p (ld_scripts l)) l))
  | Datatypes.S n, _ => put_script p (Script (s_path s) (s_state s) n (s_others s))
  end.

(** [di_upgrade_weak_ref] of a reference to the state object, and [di_unref_object]. *)
Definition upgrade_state (a : Z) : ST loader bool :=
  l ← get;
  match ld_state l with
  | Some (b, _) => if a =? b then put (set_held (Datatypes.S (ld_held l)) l);; mret true else mret false
  | None => mret false
  end.

Definition unref_state : ST loader unit :=
  l ← get;
  match ld_held l with
  | O => fail RefUnderflow
  | Datatypes.S n => put (lua_state_dtor (set_held n l))
  end.

(** ** A new state *)

(** The loop over [allowed_os], with the library below the new table. *)
Definition copy_allowed (names : list string) : ST dl unit :=
  for_each (λ name, push (LString name);; push (LString name);; rawget (-4);; rawset (-3)) names.

(** What [lua_new_state] does in the new [lua_State]: before and after the weak
    reference is stored.  The member that keeps [di] alive is not in this state. *)
Definition set_globals : ST dl unit :=
  di_lua_pushproxy (Some "di"%string) (Z.of_nat di_module_get_deai) di_lua_di_methods false;;
  lua_setglobal "di";;
  lua_getglobal "os";;
  api lua_newtable;;
  copy_allowed allowed_os;;
  lua_setglobal "os";;
  pop 1.

Definition store_state (a : Z) : ST dl unit :=
  push (LString DI_LUA_REGISTRY_STATE_OBJECT_KEY);;
  push (LLightUserdata a);;
  rawset LUA_REGISTRYINDEX.

(** [lua_new_state] *)
Definition lua_new_state : ST loader unit :=
  a ← alloc;
  l ← get;
  put (set_held (Datatypes.S (ld_held l))
         (set_state (Some (a, Dl (luaL_openlibs luaL_newstate) (Deai (ld_objects l) [] [] [] []))) l));;
  in_lua set_globals;;
  modify (set_member (Some a));;
  in_lua (store_state a).

(** The block of [di_lua_load_script] that finds the state, or makes one. *)
Definition get_state : ST loader unit :=
  l ← get;
  alive ← (match ld_member l with Some a => upgrade_state a | None => mret false end);
  if alive : bool then mret tt else modify (set_member None);; lua_new_state.

(** ** A script *)

Definition load_error (path err : string) : string :=
  "Failed to load lua script " +:+ till_nul path +:+ ": " +:+ till_nul err +:+ String (Ascii.ascii_of_nat 10) EmptyString.

(** [lua_tostring], of a string. *)
Definition lua_tostring (i : Z) : ST dl (option string) :=
  x ← value_at i; mret (match x with LString s => Some s | _ => None end).

(** What follows once there is a module ["log"]: the error or the script, and the
    variable [s] at the end. *)
Definition load_and_run (s : Z) (path : string) : ST loader ((string + Z) * Z) :=
  in_lua (api (lua_newfunction "di_lua_errfunc" 0));;
  rc ← in_lua (luaL_loadfile (till_nul path));
  if negb (rc =? 0) then
    err ← in_lua (lua_tostring (-1));
    err ← from_opt NullDeref err;
    modify (λ l, set_log ((λ g, g ++ [load_error path err]) <$> ld_log l) l);;
    in_lua (pop 2);;
    mret (inl (load_error path err), s)
  else
    x ← get_script s;
    put_script s (Script (Some path) true (s_held x) (s_others x));;
    s ← in_lua (di_lua_xchg_env s);
    ret ← run_chunk;
    s ← in_lua (di_lua_xchg_env s);
    in_lua (needs 1;; api (lua_remove 1));;
    if negb (ret =? 0) then
      err ← in_lua (luaL_tolstring (-1));
      in_lua (pop 2);;
      mret (inl (till_nul err), s)
    else ref_script s;; mret (inr s, s).

(** [di_lua_load_script], with the cleanups of its variables at the end: the result is
    the message of an error or a script. *)
Definition di_lua_load_script (path_ : di_string) : ST loader (string + Z) :=
  match path_ with
  | None => mret (inl "Path is null"%string)
  | Some path =>
      s ← new_script;
      get_state;;
      l ← get;
      r ← (match ld_log l with
           | None => modify (add_leaked path);; mret (inl "Can't find log module"%string, s)
           | Some _ => load_and_run s path
           end);
      unref_state;;
      unref_script r.2;;
      mret r.1
  end.

(** ** The message handler *)

Definition error_prompt (path err : string) : string :=
  "Failed to run lua script " +:+ till_nul path +:+ ": " +:+ till_nul err.
Definition no_trace (path err err2 : string) : string :=
  error_prompt path err +:+ String (Ascii.ascii_of_nat 10) "stack traceback:" +:+
  String (Ascii.ascii_of_nat 10) (String (Ascii.ascii_of_nat 9) "(Failed to generate stack trace: ") +:+ till_nul err2 +:+ ")".

(** [o->path] *)
Definition script_path (o : Z) : ST loader string :=
  if o =? 0 then fail NullDeref else s ← get_script o; from_opt NullDeref (s_path s).

(** [di_lua_errfunc], with the error on the top. *)
Definition di_lua_errfunc : ST loader Z :=
  err ← in_lua (luaL_tolstring (-1));
  in_lua (push (LString DI_LUA_REGISTRY_SCRIPT_OBJECT_KEY));;
  in_lua (rawget LUA_REGISTRYINDEX);;
  o ← in_lua (touserdata (-1));
  path ← script_path o;
  in_lua (lua_getglobal "debug");;
  in_lua (push (LString "traceback"));;
  in_lua (lua_gettable (-2));;
  in_lua (push (LString (error_prompt path err)));;
  in_lua (push (LInteger 3));;
  rc ← in_lua (lua_pcall 2 0);
  if negb (rc =? 0) then
    err2 ← in_lua (luaL_tolstring (-1));
    in_lua (push (LString (no_trace path err err2)));;
    mret 1
  else mret 1.
End load.

(** ** What Lua does *)

Definition LUA_RIDX_GLOBALS : lua_value := LInteger 2.
Definition registry (v : lua_view) : contents := lv_tables v REGISTRY.

(** The table of globals is [g], with no metatable. *)
Record globals (v : lua_view) (g : nat) : Prop := {
  gl_table : raw_lookup LUA_RIDX_GLOBALS (registry v) = LTable g;
  gl_range : (0 < g < lv_next v)%nat;
  gl_meta : lv_meta v (LTable g) = None;
  gl_wf : table_wf (lv_tables v g)
}.

(** A state with its libraries: [os] is that library, and [ld] is [package.loaded]. *)
Record standard (v : lua_view) (g os ld : nat) : Prop := {
  sv_stack : lv_stack v = [];
  sv_registry : table_wf (registry v);
  sv_meta : lv_meta v (LTable REGISTRY) = None;
  sv_script : raw_lookup (LString DI_LUA_REGISTRY_SCRIPT_OBJECT_KEY) (registry v) = LNil;
  sv_globals : globals v g;
  sv_os : raw_lookup (LString "os") (lv_tables v g) = LTable os;
  sv_loaded : raw_lookup (LString "_LOADED") (registry v) = LTable ld;
  sv_loaded_os : raw_lookup (LString "os") (lv_tables v ld) = LTable os;
  sv_range : (0 < os < lv_next v)%nat ∧ (0 < ld < lv_next v)%nat;
  sv_distinct : NoDup [g; os; ld];
  sv_wf : table_wf (lv_tables v os)
}.

(** ** What holds of scripts and the state

    Scripts that are allocated have a reference; the state object is alive while
    something refers to it, and then it is what the module refers to. *)
Section invariant.
Context {API : LuaApi} {OK : LuaApiOk API}.

Record loader_wf (l : loader) : Prop := {
  lo_scripts p s : ld_scripts l !! p = Some s → 0 < p < ld_next l ∧ (0 < s_held s + s_others s)%nat;
  lo_used : state_used l = true → is_Some (ld_state l);
  lo_live a x : ld_state l = Some (a, x) →
    ld_member l = Some a ∧ tracked true (view (dl_L x)) (dl_deai x);
  lo_member a : ld_member l = Some a → a < ld_next l;
  lo_next : 0 < ld_next l
}.

Definition loader_ok (l : loader) : Prop := loader_wf l ∧ (is_Some (ld_state l) → state_used l = true).

Definition stack_of (l : loader) : list lua_value :=
  match ld_state l with Some (_, x) => lv_stack (view (dl_L x)) | None => [] end.
Definition current_script (l : loader) (p : Z) : Prop :=
  match ld_state l with Some (_, x) => script_is (view (dl_L x)) p | None => p = 0 end.

(** What functions that are running hold is kept. *)
Record held_kept (l l' : loader) : Prop := {
  hk_state : ld_held l' = ld_held l;
  hk_scripts p s : ld_scripts l !! p = Some s → (0 < s_held s)%nat →
    ∃ n, ld_scripts l' !! p = Some (Script (s_path s) (s_state s) (s_held s) n);
  hk_next : ld_next l ≤ ld_next l'
}.
End invariant.

(** What is relied on: global variables are in the table of globals; loading a file
    pushes a function or a message; running it takes the function off the stack and
    leaves an error, if any.  A script acts on scripts and on the state only through
    the functions of the plugin. *)
Class LuaLoadsOk {API : LuaApi} (OK : LuaApiOk API) (LOADS : LuaLoads) := {
  new_state_view : ∃ g os ld, standard (view (luaL_openlibs luaL_newstate)) g os ld;
  runs_getglobal n g v d :
    globals v g → runs v d (lua_getglobal n) (exactly tt (v_push (raw_lookup (LString n) (lv_tables v g)) v) d);
  runs_setglobal n g x st v d :
    globals v g → lv_stack v = x :: st →
    runs v d (lua_setglobal n) (λ _ v' d', d' = d ∧
      ∃ l, l ≡ₚ raw_update (LString n) x (lv_tables v g) ∧ v' = with_stack st (with_table g l v));
  runs_loadfile path v d :
    runs v d (luaL_loadfile path) (λ r v' d', d' = d ∧ keeps (lv_next v) v v' ∧
      ∃ x, lv_stack v' = x :: lv_stack v ∧ (r ≠ 0 → ∃ msg, x = LString msg));
  runs_chunk f errf st p s l a x :
    loader_ok l → ld_state l = Some (a, x) → lv_stack (view (dl_L x)) = f :: errf :: st → env (view (dl_L x)) p →
    ld_scripts l !! p = Some s → (0 < s_held s)%nat →
    ∃ r l' x', run_chunk l = Done r l' ∧ loader_ok l' ∧ held_kept l l' ∧ ld_state l' = Some (a, x') ∧
      env (view (dl_L x')) p ∧
      if r =? 0 then lv_stack (view (dl_L x')) = errf :: st
      else ∃ err, lv_stack (view (dl_L x')) = err :: errf :: st
}.

(** ** Runs on the state of scripts *)
Section loads.
Context {API : LuaApi} {OK : LuaApiOk API}.

Definition loads {A} (l : loader) (m : ST loader A) (Q : A → loader → Prop) : Prop :=
  ∃ r l', m l = Done r l' ∧ Q r l'.

Lemma loads_ret {A} (r : A) l (Q : A → loader → Prop) : Q r l → loads l (mret r) Q.
Proof. intros H. exists r, l. auto. Qed.

Lemma loads_bind {A B} l (m : ST loader A) (f : A → ST loader B) R Q :
  loads l m R → (∀ r l', R r l' → loads l' (f r) Q) → loads l (m ≫= f) Q.
Proof.
  intros (r & l' & E & HR) Hf. destruct (Hf r l' HR) as (b & l'' & E' & HQ). exists b, l''. split; [|exact HQ].
  exact (then_done m f l r l' _ E E').
Qed.

Lemma loads_step {A B} l (m : ST loader A) (f : A → ST loader B) r l' Q :
  m l = Done r l' → loads l' (f r) Q → loads l (m ≫= f) Q.
Proof. intros E H. apply (loads_bind _ _ _ (λ r' l'', r' = r ∧ l'' = l')); [exists r, l'; auto|]. intros ? ? [-> ->]. exact H. Qed.

Lemma loads_conseq {A} l (m : ST loader A) (R Q : A → loader → Prop) :
  loads l m R → (∀ r l', R r l' → Q r l') → loads l m Q.
Proof. intros (r & l' & E & HR) H. exists r, l'. auto. Qed.

(** A run in Lua changes the state of Lua and nothing else. *)
Lemma loads_in_lua {A} l a x (m : ST dl A) Q :
  ld_state l = Some (a, x) → runs (view (dl_L x)) (dl_deai x) m Q →
  loads l (in_lua m) (λ r l', ∃ x', l' = set_state (Some (a, x')) l ∧ Q r (view (dl_L x')) (dl_deai x')).
Proof.
  intros E H. destruct (H x eq_refl eq_refl) as (r & x' & Em & HQ). exists r, (set_state (Some (a, x')) l).
  unfold in_lua. rewrite E, Em. eauto.
Qed.

Lemma state_used_true l :
  state_used l = true ↔ (0 < ld_held l)%nat ∨ ∃ p s, ld_scripts l !! p = Some s ∧ s_state s = true.
Proof.
  unfold state_used. rewrite orb_true_iff, Nat.ltb_lt, existsb_exists. f_equiv. split.
  - intros ([p s] & Hin & Hs). apply list_elem_of_In, elem_of_map_to_list in Hin. eauto.
  - intros (p & s & Hin & Hs). exists (p, s). split; [|exact Hs]. apply list_elem_of_In, elem_of_map_to_list, Hin.
Qed.

Lemma state_used_held l : (0 < ld_held l)%nat → state_used l = true.
Proof. intros H. apply state_used_true. left. exact H. Qed.

(** The state object is destroyed in time. *)
Lemma loader_ok_dtor l : loader_wf l → loader_ok (lua_state_dtor l).
Proof.
  intros Hwf. unfold lua_state_dtor. destruct (ld_state l) as [[a x]|] eqn:E; [destruct (state_used l) eqn:Eu|].
  - split; auto.
  - split; [|intros [? [=]]]. destruct Hwf as [H1 H2 H3 H4 H5]. constructor; try assumption.
    + intros Hu. change (state_used l = true) in Hu. congruence.
    + intros ? ? [=].
  - split; [exact Hwf|]. rewrite E. intros [? [=]].
Qed.

Lemma dtor_scripts l : ld_scripts (lua_state_dtor l) = ld_scripts l.
Proof. unfold lua_state_dtor. destruct (ld_state l) as [[a x]|]; [destruct (state_used l)|]; reflexivity. Qed.
Lemma dtor_held l : ld_held (lua_state_dtor l) = ld_held l.
Proof. unfold lua_state_dtor. destruct (ld_state l) as [[a x]|]; [destruct (state_used l)|]; reflexivity. Qed.
Lemma dtor_next l : ld_next (lua_state_dtor l) = ld_next l.
Proof. unfold lua_state_dtor. destruct (ld_state l) as [[a x]|]; [destruct (state_used l)|]; reflexivity. Qed.

(** It is left as it was, or gone. *)
Lemma dtor_state l : ld_state (lua_state_dtor l) = (if state_used l then ld_state l else None).
Proof. unfold lua_state_dtor. destruct (ld_state l) as [[a x]|] eqn:E; destruct (state_used l); rewrite ?E; reflexivity. Qed.
End loads.

(** ** The library [os] of scripts *)
Section restrict.
Context {API : LuaApi} {OK : LuaApiOk API}.

Lemma raw_lookup_same l k x : NoDup l.*1 → raw_lookup k (raw_update k x l) = x.
Proof.
  intros Hnd. destruct (decide (x = LNil)) as [->|Hx]; [|exact (raw_lookup_set l k x Hx)].
  rewrite raw_update_filter by exact Hnd. apply raw_lookup_none. intros (e & -> & He)%list_elem_of_fmap.
  apply list_elem_of_filter in He as [He _]. exact (He eq_refl).
Qed.

(** Nothing but the contents of one table, and the stack, changes. *)
Record only (t : nat) (v v' : lua_view) : Prop := {
  on_next : lv_next v' = lv_next v;
  on_meta x : lv_meta v' x = lv_meta v x;
  on_blocks u : lv_blocks v' u = lv_blocks v u;
  on_tables t' : t' ≠ t → lv_tables v' t' = lv_tables v t'
}.

#[export] Instance only_preorder t : PreOrder (only t).
Proof.
  split; [constructor; reflexivity|]. intros u v w [A1 A2 A3 A4] [B1 B2 B3 B4].
  constructor; intros; [congruence|rewrite B2; apply A2|rewrite B3; apply A3|rewrite B4, A4 by assumption; reflexivity].
Qed.

Lemma only_table t l st v : only t v (with_stack st (with_table t l v)).
Proof. constructor; [reflexivity..|]. intros t' Hne. cbn. rewrite (proj2 (Nat.eqb_neq t' t) Hne). reflexivity. Qed.

(** The entries of a library for these names. *)
Definition copied (names : list string) (lib l : contents) : Prop :=
  table_wf l ∧ ∀ k, raw_lookup k l = if decide (k ∈ map LString names) then raw_lookup k lib else LNil.

Lemma copied_perm names names' lib l : names ≡ₚ names' → copied names lib l → copied names' lib l.
Proof.
  intros Hp [Hwf Hl]. split; [exact Hwf|]. intros k. rewrite Hl. apply decide_ext. rewrite Hp. reflexivity.
Qed.

Lemma copied_add name names lib l l' :
  copied names lib l → l' ≡ₚ raw_update (LString name) (raw_lookup (LString name) lib) l → copied (name :: names) lib l'.
Proof.
  intros [Hwf Hl] Hp. set (u := raw_update _ _ _) in Hp.
  assert (table_wf u) as Hu by (apply table_wf_update; [exact Hwf|discriminate]).
  split; [exact (table_wf_perm _ _ (symmetry Hp) Hu)|]. intros k.
  rewrite (raw_lookup_perm u l') by (try exact (symmetry Hp); apply Hu). cbn [map].
  destruct (decide (k = LString name)) as [->|Hne].
  - rewrite decide_True by left. apply raw_lookup_same, Hwf.
  - unfold u. rewrite raw_lookup_update by (try exact Hne; apply Hwf). rewrite Hl. apply decide_ext. set_solver.
Qed.

Lemma runs_copy_allowed names t os st v d old :
  lv_stack v = LTable t :: LTable os :: st → t ≠ os → copied old (lv_tables v os) (lv_tables v t) →
  runs v d (copy_allowed names) (λ _ v' d', d' = d ∧ only t v v' ∧ lv_stack v' = lv_stack v ∧
    copied (names ++ old) (lv_tables v os) (lv_tables v' t)).
Proof.
  intros Hst Hne. revert old v Hst. induction names as [|name names IH]; intros old v Hst Hold; cbn [copy_allowed for_each].
  { apply runs_ret. split; [reflexivity|]. split; [reflexivity|]. split; [reflexivity|exact Hold]. }
  set (k := LString name).
  eapply runs_bind with (R := λ _ v' d', d' = d ∧ only t v v' ∧ lv_stack v' = lv_stack v ∧
    copied (name :: old) (lv_tables v os) (lv_tables v' t)).
  - eapply runs_step; [apply runs_push|]. eapply runs_step; [apply runs_push|].
    eapply runs_step; [apply (runs_rawget (-4) os); [unfold v_at; cbn; rewrite Hst; reflexivity|discriminate]|].
    set (x := raw_lookup _ _).
    eapply runs_conseq; [apply (runs_rawset (-3) k x t (LTable t :: LTable os :: st)); [unfold v_at|]; cbn; rewrite Hst; reflexivity|].
    intros ? v' d' (-> & l & Hl & ->). split; [reflexivity|]. split; [apply (only_table t l _ v)|]. split; [symmetry; exact Hst|].
    apply (copied_add name old _ (lv_tables v t)); [exact Hold|]. cbn. rewrite Nat.eqb_refl. exact Hl.
  - intros ? v1 d1 (-> & Ho & Hst1 & Hc). assert (lv_tables v1 os = lv_tables v os) as Eos by (apply (on_tables _ _ _ Ho); congruence).
    rewrite <- Eos in Hc. eapply runs_conseq; [apply (IH (name :: old) v1 (eq_trans Hst1 Hst) Hc)|].
    intros ? v2 d2 (-> & Ho2 & Hst2 & Hc2). split; [reflexivity|]. split; [transitivity v1; assumption|].
    split; [congruence|]. rewrite Eos in Hc2. apply (copied_perm (names ++ name :: old)); [|exact Hc2]. symmetry. apply Permutation_middle.
Qed.
End restrict.

(** ** A new state *)
Section new_state.
Context {API : LuaApi} {OK : LuaApiOk API} {CALLS : LuaCalls} {LOADS : LuaLoads} {LOK : LuaLoadsOk OK LOADS}.

Lemma globals_keeps v v' g n : (0 < n)%nat → (g < n)%nat → keeps n v v' → globals v g → globals v' g.
Proof.
  intros H0 Hg [K1 K2 K3 K4] [G1 G2 G3 G4]. constructor.
  - unfold registry. rewrite K2 by exact H0. exact G1.
  - lia.
  - rewrite K3 by exact Hg. exact G3.
  - rewrite K2 by exact Hg. exact G4.
Qed.

Lemma globals_only v v' g t : t ≠ g → t ≠ REGISTRY → only t v v' → globals v g → globals v' g.
Proof.
  intros H1 H0 [O1 O2 _ O3] [G1 G2 G3 G4]. constructor.
  - unfold registry. rewrite O3 by congruence. exact G1.
  - lia.
  - rewrite O2. exact G3.
  - rewrite O3 by congruence. exact G4.
Qed.

Lemma registry_table v g l st : g ≠ REGISTRY → registry (with_stack st (with_table g l v)) = registry v.
Proof. intros H. apply (on_tables _ _ _ (only_table g l st v)). congruence. Qed.

Lemma contents_table v g l st : lv_tables (with_stack st (with_table g l v)) g = l.
Proof. cbn. rewrite Nat.eqb_refl. reflexivity. Qed.

Lemma globals_set v g l st : globals v g → table_wf l → globals (with_stack st (with_table g l v)) g.
Proof.
  intros [G1 G2 G3 G4] Hwf. constructor; [rewrite registry_table by (unfold REGISTRY; lia); exact G1|exact G2|exact G3|].
  rewrite contents_table. exact Hwf.
Qed.

Lemma globals_stack v g st : globals v g → globals (with_stack st v) g.
Proof. intros [G1 G2 G3 G4]. constructor; assumption. Qed.

(** Setting a global variable. *)
Lemma runs_setglobal_wf n g x st v d :
  globals v g → lv_stack v = x :: st → x ≠ LNil →
  runs v d (lua_setglobal n) (λ _ v' d', d' = d ∧ ∃ l,
    v' = with_stack st (with_table g l v) ∧ globals v' g ∧ raw_lookup (LString n) l = x ∧
    ∀ k, k ≠ LString n → raw_lookup k l = raw_lookup k (lv_tables v g)).
Proof.
  intros Hg Hst Hx. eapply runs_conseq; [exact (runs_setglobal n g x st v d Hg Hst)|].
  intros ? v' d' (-> & l & Hl & ->). split; [reflexivity|]. exists l. split; [reflexivity|].
  set (u := raw_update _ _ _) in Hl.
  assert (table_wf u) as Hu by (apply table_wf_update; [apply Hg|discriminate]).
  assert (∀ k, raw_lookup k l = raw_lookup k u) as E by (intros k; apply raw_lookup_perm; [apply Hu|symmetry; exact Hl]).
  split; [apply globals_set; [exact Hg|exact (table_wf_perm _ _ (symmetry Hl) Hu)]|].
  split; [rewrite E; apply raw_lookup_set, Hx|]. intros k Hk. rewrite E. apply raw_lookup_update; [apply Hg|exact Hk].
Qed.

(** What scripts see: [v] is a state with its libraries. *)
Record restricted (v v' : lua_view) (g os ld : nat) : Prop := {
  re_stack : lv_stack v' = [];
  re_registry : registry v' = registry v;
  re_meta : lv_meta v' (LTable REGISTRY) = None;
  re_next : (lv_next v ≤ lv_next v')%nat;
  re_globals : globals v' g;
  re_os : ∃ t, raw_lookup (LString "os") (lv_tables v' g) = LTable t ∧ t ≠ REGISTRY ∧ copied allowed_os (lv_tables v os) (lv_tables v' t);
  re_di : ∃ u, raw_lookup (LString "di") (lv_tables v' g) = LUserdata u ∧ proxy v' u ∧
    lv_blocks v' u = Z.of_nat di_module_get_deai;
  re_others k : k ≠ LString "os" → k ≠ LString "di" → raw_lookup k (lv_tables v' g) = raw_lookup k (lv_tables v g);
  re_loaded : lv_tables v' ld = lv_tables v ld;
  re_lib : lv_tables v' os = lv_tables v os
}.

Lemma runs_set_globals v g os ld d :
  standard v g os ld → runs v d set_globals (λ _ v' d', d' = d ∧ restricted v v' g os ld).
Proof.
  intros [S1 S2 S3 S4 S5 S6 S7 S8 [S9 S10] S11 S12]. pose proof (gl_range _ _ S5) as Hg.
  apply NoDup_cons in S11 as [Hgo S11]. apply NoDup_cons in S11 as [Hold _].
  assert (g ≠ os ∧ g ≠ ld ∧ os ≠ ld) as (Hne1 & Hne2 & Hne3) by set_solver.
  unfold set_globals. set (u := lv_next v). assert (0 < u)%nat as Hu by (unfold u; lia).
  eapply runs_bind; [apply (runs_pushproxy _ _ di_lua_di_methods false v d Hu)|].
  { apply (bool_decide_unpack _). vm_compute. exact I. }
  intros ? v1 d1 (-> & Hk & Hst1 & Hb1 & _ & Hp1 & Hlt). fold u in Hst1, Hb1, Hp1, Hlt. rewrite S1 in Hst1.
  assert (globals v1 g) as G1 by (apply (globals_keeps v v1 g u Hu); [lia|exact Hk|exact S5]).
  pose proof (ke_tables _ _ _ Hk) as Ht1.
  eapply runs_bind; [exact (runs_setglobal_wf "di" g (LUserdata u) [] v1 d G1 Hst1 ltac:(discriminate))|].
  intros ? v2 d2 (-> & l1 & E2 & G2 & Hdi & Hl1).
  eapply runs_step; [exact (runs_getglobal "os" g v2 d G2)|].
  assert (raw_lookup (LString "os") (lv_tables v2 g) = LTable os) as ->.
  { rewrite E2, contents_table, Hl1 by discriminate. rewrite Ht1 by lia. exact S6. }
  eapply runs_step; [apply runs_newtable|]. set (v4 := v_new LTable 0 (v_push (LTable os) v2)). set (t := lv_next v1).
  assert (lv_next v2 = t) as En2 by (rewrite E2; reflexivity).
  assert (keeps t v2 v4) as Hk4 by (apply keeps_new; [cbn; lia|auto|apply keeps_stack; reflexivity]).
  assert (lv_tables v4 os = lv_tables v os) as Eos.
  { rewrite (ke_tables _ _ _ Hk4) by lia. rewrite E2. rewrite (on_tables _ _ _ (only_table g l1 [] v1)) by congruence. apply Ht1. lia. }
  assert (lv_tables v4 t = []) as Et by (cbn; rewrite En2, Nat.eqb_refl; reflexivity).
  assert (copied [] (lv_tables v4 os) (lv_tables v4 t)) as Hc0.
  { rewrite Et. split; [constructor; [apply NoDup_nil_2|apply not_elem_of_nil..]|]. intros k. rewrite decide_False by apply not_elem_of_nil. reflexivity. }
  eapply runs_bind; [apply (runs_copy_allowed allowed_os t os [] v4 d []); [cbn; rewrite En2, E2; reflexivity|lia|exact Hc0]|].
  intros ? v5 d5 (-> & Ho5 & Hst5 & Hc5). rewrite Eos in Hc5.
  assert (globals v5 g) as G5.
  { apply (globals_only v4 v5 g t); [lia|unfold REGISTRY; lia|exact Ho5|]. apply (globals_keeps v2 v4 g t); [lia|lia|exact Hk4|exact G2]. }
  assert (lv_stack v5 = [LTable t; LTable os]) as Hst5' by (rewrite Hst5; cbn; rewrite En2, E2; reflexivity).
  eapply runs_bind; [exact (runs_setglobal_wf "os" g (LTable t) [LTable os] v5 d G5 Hst5' ltac:(discriminate))|].
  intros ? v6 d6 (-> & l2 & E6 & G6 & Hos & Hl2). eapply runs_done; [apply runs_pop; rewrite E6; cbn; lia|].
  split; [reflexivity|].
  assert (lv_tables v5 g = l1) as E5g.
  { rewrite (on_tables _ _ _ Ho5) by lia. rewrite (ke_tables _ _ _ Hk4) by lia. rewrite E2. apply contents_table. }
  assert (∀ t', (t' < t)%nat → t' ≠ g → lv_tables v6 t' = lv_tables v1 t') as Hrest.
  { intros t' Hlt' Hne'. rewrite E6, (on_tables _ _ _ (only_table g l2 _ v5)) by exact Hne'. rewrite (on_tables _ _ _ Ho5) by lia.
    rewrite (ke_tables _ _ _ Hk4) by lia. rewrite E2. exact (on_tables _ _ _ (only_table g l1 [] v1) t' Hne'). }
  assert (∀ x, below t x → lv_meta v6 x = lv_meta v1 x) as Hmeta.
  { intros x Hx. rewrite E6. cbn. rewrite (on_meta _ _ _ Ho5), (ke_meta _ _ _ Hk4) by exact Hx. rewrite E2. reflexivity. }
  assert (lv_tables v6 g = l2) as E6g by (rewrite E6; apply contents_table).
  assert (lv_next v6 = Datatypes.S t) as En6 by (rewrite E6; cbn; rewrite (on_next _ _ _ Ho5); cbn; rewrite En2; reflexivity).
  assert (∀ k, k ≠ LString "os" → k ≠ LString "di" → raw_lookup k l2 = raw_lookup k (lv_tables v1 g)) as Hkeys.
  { intros k H1 H2. rewrite Hl2, E5g, Hl1 by assumption. reflexivity. }
  constructor.
  - rewrite E6. reflexivity.
  - change (lv_tables v6 REGISTRY = lv_tables v REGISTRY). rewrite Hrest by (unfold REGISTRY; lia). apply Ht1, Hu.
  - change (lv_meta v6 (LTable REGISTRY) = None). rewrite Hmeta by (cbn; unfold REGISTRY; lia).
    rewrite (ke_meta _ _ _ Hk) by (cbn; unfold REGISTRY; lia). exact S3.
  - cbn. rewrite En6. lia.
  - apply globals_stack. exact G6.
  - exists t. cbn [v_pop with_stack lv_tables]. rewrite E6g. split; [exact Hos|]. split; [unfold REGISTRY; lia|].
    assert (lv_tables v6 t = lv_tables v5 t) as ->; [|exact Hc5].
    rewrite E6. apply (on_tables _ _ _ (only_table g l2 _ v5)). lia.
  - exists u. cbn [v_pop with_stack lv_tables]. rewrite E6g. split; [rewrite Hl2, E5g by discriminate; exact Hdi|]. split.
    + destruct Hp1 as (m & Hm & Hmt & Hp). exists m. split; [|split].
      * change (lv_meta v6 (LUserdata u) = Some m). rewrite Hmeta by exact Hlt. exact Hm.
      * cbn. rewrite En6. lia.
      * cbn. destruct (decide (m = g)) as [->|Hne]; [rewrite E6g, Hkeys by discriminate; exact Hp|].
        rewrite Hrest by lia. exact Hp.
    + cbn. rewrite E6. cbn. rewrite (on_blocks _ _ _ Ho5), (ke_blocks _ _ _ Hk4) by lia. rewrite E2. exact Hb1.
  - intros k H1 H2. cbn [v_pop with_stack lv_tables]. rewrite E6g, Hkeys by assumption. rewrite Ht1 by lia. reflexivity.
  - change (lv_tables v6 ld = lv_tables v ld). rewrite Hrest by lia. apply Ht1. lia.
  - change (lv_tables v6 os = lv_tables v os). rewrite Hrest by lia. apply Ht1. lia.
Qed.

Lemma tracked_fresh {dead} v n :
  table_wf (registry v) → (0 < lv_next v)%nat → lv_meta v (LTable REGISTRY) = None → tracked dead v (Deai n [] [] [] []).
Proof.
  intros Hwf Hn Hm. constructor; cbn; try assumption.
  - split; [exact Hwf|]. constructor; cbn; intros e He; inversion He.
  - apply NoDup_nil_2.
  - apply NoDup_nil_2.
  - intros e He. inversion He.
  - apply NoDup_nil_2.
  - intros e He. inversion He.
  - reflexivity.
  - reflexivity.
Qed.

(** The address of the state is stored in the registry. *)
Record stored (v v' : lua_view) (a : Z) : Prop := {
  st_stack : lv_stack v' = lv_stack v;
  st_only : only REGISTRY v v';
  st_wf : table_wf (registry v');
  st_key : raw_lookup (LString DI_LUA_REGISTRY_STATE_OBJECT_KEY) (registry v') = LLightUserdata a;
  st_others k : k ≠ LString DI_LUA_REGISTRY_STATE_OBJECT_KEY → raw_lookup k (registry v') = raw_lookup k (registry v)
}.

Lemma runs_store_state a v d :
  table_wf (registry v) → runs v d (store_state a) (λ _ v' d', d' = d ∧ stored v v' a).
Proof.
  intros Hwf. unfold store_state. set (key := LString _). eapply runs_step; [apply runs_push|]. eapply runs_step; [apply runs_push|].
  set (v1 := v_push _ _). eapply runs_conseq.
  { apply (runs_rawset LUA_REGISTRYINDEX key (LLightUserdata a) REGISTRY (lv_stack v) v1); reflexivity. }
  intros ? v' d' (-> & l & Hl & ->). split; [reflexivity|].
  assert (only REGISTRY v (with_stack (lv_stack v) (with_table REGISTRY l v1))) as Ho by (transitivity v1; [constructor; reflexivity|apply only_table]).
  set (w := raw_update key (LLightUserdata a) (registry v)). change (l ≡ₚ w) in Hl.
  assert (table_wf w) as Hw by (apply table_wf_update; [exact Hwf|discriminate]).
  assert (∀ k, raw_lookup k l = raw_lookup k w) as E by (intros k; apply raw_lookup_perm; [apply Hw|symmetry; exact Hl]).
  constructor; unfold registry; rewrite ?contents_table, ?E; [reflexivity|exact Ho|exact (table_wf_perm _ _ (symmetry Hl) Hw)|apply raw_lookup_set; discriminate|].
  intros k Hk. rewrite E. apply raw_lookup_update; [apply Hwf|exact Hk].
Qed.

(** What a new state is. *)
Record fresh_state (l l' : loader) (a : Z) (x : dl) (g os ld : nat) : Prop := {
  fs_state : l' = Loader (Some (a, x)) (Datatypes.S (ld_held l)) (Some a) (ld_scripts l) (ld_next l + 1) (ld_objects l) (ld_log l) (ld_leaked l);
  fs_address : a = ld_next l;
  fs_standard : standard (view (luaL_openlibs luaL_newstate)) g os ld;
  fs_view : ∃ v, restricted (view (luaL_openlibs luaL_newstate)) v g os ld ∧ stored v (view (dl_L x)) a;
  fs_deai : dl_deai x = Deai (ld_objects l) [] [] [] []
}.

Lemma loads_new_state l :
  loads l lua_new_state (λ _ l', ∃ a x g os ld, fresh_state l l' a x g os ld).
Proof.
  destruct new_state_view as (g & os & ld & Hs). unfold lua_new_state.
  eapply loads_step; [reflexivity|]. eapply loads_step; [reflexivity|]. eapply loads_step; [reflexivity|].
  set (a := ld_next l). set (d := Deai (ld_objects l) [] [] [] []).
  eapply loads_bind; [eapply (loads_in_lua _ a (Dl (luaL_openlibs luaL_newstate) d)); [reflexivity|exact (runs_set_globals _ g os ld d Hs)]|].
  intros ? l1 (x1 & -> & Hd1 & Hr). eapply loads_step; [reflexivity|].
  eapply loads_conseq; [eapply (loads_in_lua _ a x1); [reflexivity|]|].
  { apply (runs_store_state a). rewrite (re_registry _ _ _ _ _ Hr). exact (sv_registry _ _ _ _ Hs). }
  intros ? l2 (x2 & -> & Hd2 & Hst). exists a, x2, g, os, ld. constructor; [reflexivity|reflexivity|exact Hs|eauto|]. rewrite Hd2. exact Hd1.
Qed.

Lemma fresh_view l l' a x g os ld :
  fresh_state l l' a x g os ld →
  stack_of l' = [] ∧ script_is (view (dl_L x)) 0 ∧ tracked true (view (dl_L x)) (dl_deai x).
Proof.
  intros [-> _ Hs (v & Hr & Hst) Hd]. pose proof (st_only _ _ _ Hst) as Ho. pose proof (gl_range _ _ (re_globals _ _ _ _ _ Hr)). split; [|split].
  - cbn. rewrite (st_stack _ _ _ Hst). apply Hr.
  - right. split; [|reflexivity]. change (raw_lookup (LString DI_LUA_REGISTRY_SCRIPT_OBJECT_KEY) (registry (view (dl_L x))) = LNil).
    rewrite (st_others _ _ _ Hst) by discriminate. rewrite (re_registry _ _ _ _ _ Hr). apply Hs.
  - rewrite Hd. apply tracked_fresh; [apply Hst|rewrite (on_next _ _ _ Ho); lia|rewrite (on_meta _ _ _ Ho); apply Hr].
Qed.
End new_state.

(** ** Loading a script *)
Section load_script.
Context {API : LuaApi} {OK : LuaApiOk API} {CALLS : LuaCalls} {COK : LuaCallsOk OK CALLS}
  {LOADS : LuaLoads} {LOK : LuaLoadsOk OK LOADS}.

(** The state that is used: [l'] has one reference more to it. *)
Record has_state (p : Z) (l l' : loader) (a : Z) (x : dl) : Prop := {
  hs_state : ld_state l' = Some (a, x);
  hs_wf : loader_wf l';
  hs_held : ld_held l' = Datatypes.S (ld_held l);
  hs_scripts : ld_scripts l' = ld_scripts l;
  hs_next : ld_next l ≤ ld_next l';
  hs_log : ld_log l' = ld_log l;
  hs_leaked : ld_leaked l' = ld_leaked l;
  hs_stack : lv_stack (view (dl_L x)) = stack_of l;
  hs_script : script_is (view (dl_L x)) p
}.

Lemma loads_get_state p l :
  loader_ok l → current_script l p → loads l get_state (λ _ l', ∃ a x, has_state p l l' a x).
Proof.
  intros [Hwf Hclosed] Hp. unfold get_state. eapply loads_step; [reflexivity|].
  destruct (ld_state l) as [[a x]|] eqn:E.
  - destruct (lo_live l Hwf a x E) as [Hm Ht]. rewrite Hm.
    eapply loads_step; [unfold upgrade_state, get, mbind, ST_bind; rewrite E, Z.eqb_refl; reflexivity|].
    apply loads_ret. exists a, x. unfold current_script in Hp. rewrite E in Hp. destruct Hwf as [W1 W2 W3 W4 W5].
    constructor; cbn; try assumption; try reflexivity.
    + constructor; cbn; try assumption. intros _. eauto.
    + unfold stack_of. rewrite E. reflexivity.
  - assert (loads l (match ld_member l with Some a => upgrade_state a | None => mret false end) (λ r l', r = false ∧ l' = l)) as Hup.
    { destruct (ld_member l) as [a|]; [|apply loads_ret; auto]. exists false, l. unfold upgrade_state, get, mbind, ST_bind. rewrite E. auto. }
    eapply loads_bind; [exact Hup|]. intros ? ? [-> ->]. eapply loads_step; [reflexivity|].
    eapply loads_conseq; [apply loads_new_state|]. intros ? l' (a & x & g & os & ld & Hf). exists a, x.
    destruct (fresh_view _ _ _ _ _ _ _ Hf) as (Hst & Hsc & Ht). destruct Hf as [-> -> _ _ _]. destruct Hwf as [W1 W2 W3 W4 W5].
    unfold current_script in Hp. rewrite E in Hp. subst p.
    constructor; cbn in *; try reflexivity; try lia; [|unfold stack_of; rewrite E; exact Hst|exact Hsc].
    constructor; cbn.
    + intros p s Hs. specialize (W1 p s Hs). lia.
    + eauto.
    + intros ? ? [= <- <-]. auto.
    + intros ? [= <-]. lia.
    + lia.
Qed.

(** The state is alive. *)
Definition live (l : loader) (a : Z) (x : dl) : Prop := loader_wf l ∧ ld_state l = Some (a, x).

Lemma live_lua l a x x' :
  live l a x → tracked true (view (dl_L x')) (dl_deai x') → live (set_state (Some (a, x')) l) a x'.
Proof.
  intros [[W1 W2 W3 W4 W5] E] Ht. split; [|reflexivity]. destruct (W3 a x E) as [Hm _]. constructor; cbn; try assumption; [eauto|].
  intros ? ? [= <- <-]. auto.
Qed.

Lemma live_script l a x p s :
  live l a x → 0 < p < ld_next l → (0 < s_held s + s_others s)%nat → live (set_scripts (<[p := s]> (ld_scripts l)) l) a x.
Proof.
  intros [[W1 W2 W3 W4 W5] E] Hp Hs. split; [|exact E]. constructor; cbn; try assumption; [|rewrite E; eauto].
  intros q y. rewrite lookup_insert_Some. intros [[<- <-]|[_ Hq]]; [auto|exact (W1 q y Hq)].
Qed.

Lemma live_in_lua {A} l a x (m : ST dl A) Q :
  live l a x → runs (view (dl_L x)) (dl_deai x) m (λ r v d, tracked true v d ∧ Q r v) →
  loads l (in_lua m) (λ r l', ∃ x', l' = set_state (Some (a, x')) l ∧ live l' a x' ∧ Q r (view (dl_L x'))).
Proof.
  intros Hl Hm. eapply loads_conseq; [exact (loads_in_lua l a x m _ (proj2 Hl) Hm)|].
  intros r l' (x' & -> & Ht & HQ). exists x'. split; [reflexivity|]. split; [exact (live_lua l a x x' Hl Ht)|exact HQ].
Qed.

Lemma live_tracked l a x : live l a x → tracked true (view (dl_L x)) (dl_deai x).
Proof. intros [Hwf E]. apply (lo_live l Hwf a x E). Qed.

Lemma live_ok l a x : live l a x → (0 < ld_held l)%nat → loader_ok l.
Proof. intros [Hwf E] Hh. split; [exact Hwf|]. intros _. apply state_used_held, Hh. Qed.

Lemma script_is_keeps v v' p n : (0 < n)%nat → keeps n v v' → script_is v p → script_is v' p.
Proof. intros Hn Hk. unfold script_is, env. rewrite (ke_tables _ _ _ Hk REGISTRY Hn). auto. Qed.

(** The message handler and the file. *)
Lemma loads_file path p l a x :
  live l a x → script_is (view (dl_L x)) p →
  loads l (in_lua (api (lua_newfunction "di_lua_errfunc" 0));; in_lua (luaL_loadfile path)) (λ r l', ∃ x' f errf,
    l' = set_state (Some (a, x')) l ∧ live l' a x' ∧ script_is (view (dl_L x')) p ∧
    lv_stack (view (dl_L x')) = f :: errf :: lv_stack (view (dl_L x)) ∧ (r ≠ 0 → ∃ msg, f = LString msg)).
Proof.
  intros Hl Hp. pose proof (live_tracked l a x Hl) as Ht. set (v := view (dl_L x)) in *. pose proof (tr_next _ _ Ht) as Hn.
  eapply loads_bind.
  { apply (live_in_lua l a x _ (λ _ v1, script_is v1 p ∧ lv_stack v1 = LFunction (lv_next v) :: lv_stack v)); [exact Hl|].
    eapply runs_done; [apply runs_newfunction; lia|].
    assert (keeps (lv_next v) v (v_new LFunction 0 (v_pop 0 v))) as Hk by (apply keeps_new; [apply le_n|auto|apply keeps_stack; reflexivity]).
    split; [exact (tracked_keeps v _ _ Ht Hk)|]. split; [exact (script_is_keeps _ _ p _ Hn Hk Hp)|reflexivity]. }
  intros ? l1 (x1 & -> & Hl1 & Hp1 & Hst1). pose proof (live_tracked _ a x1 Hl1) as Ht1.
  eapply loads_conseq.
  { apply (live_in_lua _ a x1 _ (λ r v2, script_is v2 p ∧ ∃ f, lv_stack v2 = f :: LFunction (lv_next v) :: lv_stack v ∧
      (r ≠ 0 → ∃ msg, f = LString msg))); [exact Hl1|].
    eapply runs_conseq; [apply runs_loadfile|]. intros rc v2 d2 (-> & Hk & f & Hst & Hmsg).
    split; [exact (tracked_keeps _ v2 _ Ht1 Hk)|]. split; [exact (script_is_keeps _ _ p _ (tr_next _ _ Ht1) Hk Hp1)|].
    exists f. rewrite Hst, Hst1. auto. }
  intros rc l2 (x2 & -> & Hl2 & Hp2 & f & Hst2 & Hmsg). exists x2, f, (LFunction (lv_next v)). auto.
Qed.

(** Taking off what a failed load leaves. *)
Lemma loads_pop n l a x p xs st :
  live l a x → script_is (view (dl_L x)) p → lv_stack (view (dl_L x)) = xs ++ st → length xs = n →
  loads l (in_lua (pop n)) (λ _ l', ∃ x', l' = set_state (Some (a, x')) l ∧ live l' a x' ∧ script_is (view (dl_L x')) p ∧
    lv_stack (view (dl_L x')) = st).
Proof.
  intros Hl Hp Hst Hn. apply (live_in_lua l a x _ (λ _ v, script_is v p ∧ lv_stack v = st)); [exact Hl|].
  eapply runs_done; [apply runs_pop; rewrite Hst, length_app; lia|]. split; [|split; [exact Hp|]].
  - apply (tracked_keeps (view (dl_L x))); [exact (live_tracked l a x Hl)|apply keeps_stack; reflexivity].
  - cbn. rewrite Hst, <- Hn. apply drop_app_length.
Qed.

(** The current script is exchanged. *)
Lemma loads_xchg s l a x p :
  live l a x → script_is (view (dl_L x)) p →
  loads l (in_lua (di_lua_xchg_env s)) (λ r l', r = p ∧ ∃ x', l' = set_state (Some (a, x')) l ∧ live l' a x' ∧
    env (view (dl_L x')) s ∧ lv_stack (view (dl_L x')) = lv_stack (view (dl_L x))).
Proof.
  intros Hl Hp. eapply loads_conseq.
  { apply (live_in_lua l a x _ (λ r v, r = p ∧ env v s ∧ lv_stack v = lv_stack (view (dl_L x)))); [exact Hl|].
    eapply runs_conseq; [exact (runs_xchg_env s p _ _ (live_tracked l a x Hl) Hp)|].
    intros r v d (-> & -> & He & Ht & _ & Hst & _). auto. }
  intros r l' (x' & -> & Hl' & -> & He & Hst). eauto 10.
Qed.

Lemma loads_remove l a x p st y :
  live l a x → env (view (dl_L x)) p → lv_stack (view (dl_L x)) = st ++ [y] →
  loads l (in_lua (needs 1;; api (lua_remove 1))) (λ _ l', ∃ x', l' = set_state (Some (a, x')) l ∧ live l' a x' ∧
    env (view (dl_L x')) p ∧ lv_stack (view (dl_L x')) = st).
Proof.
  intros Hl Hp Hst. apply (live_in_lua l a x _ (λ _ v, env v p ∧ lv_stack v = st)); [exact Hl|].
  eapply runs_step; [apply runs_needs; rewrite Hst, length_app; cbn; lia|].
  eapply runs_done; [apply runs_api; intros L E; rewrite (view_remove_bottom st y L) by (rewrite E; exact Hst); rewrite E; reflexivity|].
  split; [|split; [exact Hp|reflexivity]].
  apply (tracked_keeps (view (dl_L x))); [exact (live_tracked l a x Hl)|apply keeps_stack; reflexivity].
Qed.

(** The message of an error on the top, which is taken off. *)
Lemma loads_message l a x p err st :
  live l a x → env (view (dl_L x)) p → lv_stack (view (dl_L x)) = err :: st →
  loads l (msg ← in_lua (luaL_tolstring (-1)); in_lua (pop 2);; mret msg) (λ _ l', ∃ x', l' = set_state (Some (a, x')) l ∧
    live l' a x' ∧ script_is (view (dl_L x')) p ∧ lv_stack (view (dl_L x')) = st).
Proof.
  intros Hl Hp Hst. eapply loads_bind.
  { apply (live_in_lua l a x _ (λ r v, env v p ∧ lv_stack v = LString r :: err :: st)); [exact Hl|].
    eapply runs_conseq; [exact (runs_tolstring err st p _ _ (live_tracked l a x Hl) Hp Hst)|]. auto. }
  intros msg l1 (x1 & -> & Hl1 & He1 & Hst1).
  eapply loads_bind; [exact (loads_pop 2 _ a x1 p [LString msg; err] st Hl1 (or_introl He1) Hst1 eq_refl)|].
  intros ? l2 (x2 & -> & Hl2 & Hp2 & Hst2). apply loads_ret. eauto 10.
Qed.

Lemma loads_assoc {A B C} l (m1 : ST loader A) (m2 : ST loader B) (f : B → ST loader C) R Q :
  loads l (m1;; m2) R → (∀ r l', R r l' → loads l' (f r) Q) → loads l (m1;; r ← m2; f r) Q.
Proof.
  intros (r & l' & E & HR) Hf. destruct (Hf r l' HR) as (b & l'' & E' & HQ). exists b, l''. split; [|exact HQ].
  unfold mbind, ST_bind in *. destruct (m1 l); try discriminate. rewrite E. exact E'.
Qed.

(** What holds at the end of [load_and_run], for the script [s] that the function
    holds. *)
Record loaded (path : string) (s p : Z) (l : loader) (a : Z) (st : list lua_value) (r : (string + Z) * Z) (l' : loader) : Prop := {
  ld_variable : r.2 = s;
  ld_alive : ∃ x, live l' a x ∧ script_is (view (dl_L x)) p ∧
    (lv_stack (view (dl_L x)) = st ∨ ∃ errf, lv_stack (view (dl_L x)) = take (length st) (errf :: st));
  ld_kept : ld_held l' = ld_held l ∧ ld_next l ≤ ld_next l';
  ld_others q y : q ≠ s → ld_scripts l !! q = Some y → (0 < s_held y)%nat →
    ∃ n, ld_scripts l' !! q = Some (Script (s_path y) (s_state y) (s_held y) n);
  ld_script : ∃ y, ld_scripts l' !! s = Some y ∧ s_held y = 1%nat ∧
    ∀ q, r.1 = inr q → q = s ∧ s_path y = Some path ∧ s_state y = true ∧ (0 < s_others y)%nat
}.

Lemma loads_of_message (m1 : ST loader string) (m2 : ST loader unit) l (s : Z) msg l' :
  (err ← m1; m2;; mret err) l = Done msg l' →
  (err ← m1; m2;; mret (inl (B := Z) (till_nul err), s)) l = Done (inl (till_nul msg), s) l'.
Proof.
  unfold mbind, ST_bind. destruct (m1 l) as [err l1|c|]; try discriminate. destruct (m2 l1) as [u l2|c|]; try discriminate.
  unfold mret, ST_ret. intros [= <- <-]. reflexivity.
Qed.

Lemma take_last {A} (x : A) l : ∃ y, x :: l = take (length l) (x :: l) ++ [y].
Proof.
  destruct (lookup_lt_is_Some_2 (x :: l) (length l)) as [y Hy]; [cbn; lia|]. exists y.
  rewrite <- (take_S_r _ _ _ Hy). symmetry. apply take_ge. reflexivity.
Qed.

(** The end, after the run. *)
Lemma loads_finish path s p l l4 ret a x errf st :
  let l5 := set_state (Some (a, x)) l4 in
  live l5 a x → env (view (dl_L x)) p → ld_held l4 = ld_held l ∧ ld_next l ≤ ld_next l4 →
  (∀ q y, q ≠ s → ld_scripts l !! q = Some y → (0 < s_held y)%nat →
    ∃ n, ld_scripts l4 !! q = Some (Script (s_path y) (s_state y) (s_held y) n)) →
  (∃ n, ld_scripts l4 !! s = Some (Script (Some path) true 1 n)) →
  (if ret =? 0 then lv_stack (view (dl_L x)) = errf :: st
   else ∃ err, lv_stack (view (dl_L x)) = err :: errf :: st) →
  loads l5 (in_lua (needs 1;; api (lua_remove 1));;
    if negb (ret =? 0) then err ← in_lua (luaL_tolstring (-1)); in_lua (pop 2);; mret (inl (till_nul err), s)
    else ref_script s;; mret (inr s, s)) (loaded path s p l a st).
Proof.
  intros l5 Hl5 He Hkept Hothers (m & Hs) Hst. destruct (take_last errf st) as [y Hlast].
  assert (0 < s < ld_next l4) as Hrange by exact (proj1 (lo_scripts l5 (proj1 Hl5) s _ Hs)).
  assert (∀ res l', (∃ x', live l' a x' ∧ script_is (view (dl_L x')) p ∧ lv_stack (view (dl_L x')) = take (length st) (errf :: st)) →
    ld_held l' = ld_held l4 → ld_next l' = ld_next l4 → (∀ q, q ≠ s → ld_scripts l' !! q = ld_scripts l4 !! q) →
    (∃ k, ld_scripts l' !! s = Some (Script (Some path) true 1 k) ∧ ∀ q, res = inr q → q = s ∧ (0 < k)%nat) →
    loaded path s p l a st (res, s) l') as Hend.
  { intros res l' (x' & Hl' & Hp' & Hst') H1 H2 H3 (k & H4 & H5). constructor.
    - reflexivity.
    - exists x'. split; [exact Hl'|]. split; [exact Hp'|]. right. exists errf. exact Hst'.
    - rewrite H1, H2. exact Hkept.
    - intros q z Hne Hq Hz. rewrite (H3 q Hne). exact (Hothers q z Hne Hq Hz).
    - eexists. split; [exact H4|]. split; [reflexivity|]. intros q Hq. destruct (H5 q Hq) as [-> Hk]. auto. }
  destruct (Z.eqb_spec ret 0) as [->|Hret]; cbn [negb].
  - rewrite Hlast in Hst. eapply loads_bind; [exact (loads_remove l5 a x p _ y Hl5 He Hst)|].
    intros ? l6 (x6 & -> & Hl6 & He6 & Hst6). set (l6 := set_state _ l5) in *.
    eapply loads_step; [unfold ref_script, get_script, get, mbind, ST_bind; cbn; rewrite Hs; reflexivity|].
    cbn [s_path s_state s_held s_others]. set (y' := Script (Some path) true 1 (Datatypes.S m)). set (l7 := set_scripts _ _).
    apply loads_ret. apply Hend; try reflexivity.
    + exists x6. split; [apply (live_script l6 a x6 s y'); [exact Hl6|exact Hrange|cbn; lia]|]. split; [left; exact He6|exact Hst6].
    + intros q Hne. cbn. apply lookup_insert_ne. congruence.
    + exists (Datatypes.S m). split; [apply lookup_insert_eq|]. intros q [= ->]. split; [reflexivity|lia].
  - destruct Hst as [err Hst]. rewrite Hlast in Hst.
    eapply loads_bind; [exact (loads_remove l5 a x p (err :: _) y Hl5 He Hst)|].
    intros ? l6 (x6 & -> & Hl6 & He6 & Hst6). 
    destruct (loads_message _ a x6 p err _ Hl6 He6 Hst6) as (msg & l7 & E & x7 & -> & Hl7 & Hp7 & Hst7).
    apply (loads_of_message _ _ _ s msg) in E. exists (inl (till_nul msg), s). eexists. split; [exact E|].
    apply Hend; try reflexivity; [eauto|]. exists m. split; [exact Hs|]. intros q [=].
Qed.

Lemma loads_load_and_run path s p l a x n :
  live l a x → (0 < ld_held l)%nat → ld_scripts l !! s = Some (Script None false 1 n) → script_is (view (dl_L x)) p →
  loads l (load_and_run s path) (loaded path s p l a (lv_stack (view (dl_L x)))).
Proof.
  intros Hl Hheld Hs Hp. unfold load_and_run. set (st := lv_stack _).
  eapply loads_assoc; [exact (loads_file (till_nul path) p l a x Hl Hp)|].
  intros rc l1 (x1 & f & errf & -> & Hl1 & Hp1 & Hst1 & Hmsg). fold st in Hst1.
  assert (0 < s < ld_next l) as Hrange by apply (lo_scripts l (proj1 Hl) s _ Hs).
  destruct (Z.eqb_spec rc 0) as [->|Hrc]; cbn [negb].
  - eapply loads_step; [unfold get_script, get, mbind, ST_bind; cbn; rewrite Hs; reflexivity|].
    eapply loads_step; [reflexivity|]. cbn [s_held s_others].
    set (y := Script (Some path) true 1 n). set (l2 := set_scripts _ _).
    assert (live l2 a x1) as Hl2 by (apply live_script; [exact Hl1|exact Hrange|cbn; lia]).
    eapply loads_bind; [exact (loads_xchg s l2 a x1 p Hl2 Hp1)|].
    intros ? l3 (-> & x3 & -> & Hl3 & He3 & Hst3). rewrite Hst1 in Hst3. set (l3 := set_state _ l2) in *.
    assert (ld_scripts l3 !! s = Some y) as Hs3 by (cbn; apply lookup_insert_eq).
    destruct (runs_chunk f errf st s y l3 a x3 (live_ok l3 a x3 Hl3 Hheld) (proj2 Hl3) Hst3 He3 Hs3 ltac:(cbn; lia))
      as (ret & l4 & x4 & E4 & [Hwf4 _] & [Hk1 Hk2 Hk3] & Hstate4 & He4 & Hst4).
    eapply loads_step; [exact E4|].
    eapply loads_bind; [exact (loads_xchg p l4 a x4 s (conj Hwf4 Hstate4) (or_introl He4))|].
    intros ? l5 (-> & x5 & -> & Hl5 & He5 & Hst5). set (l5 := set_state _ l4) in *.
    apply (loads_finish path s p l l4 ret a x5 errf st); try assumption; [split; [exact Hk1|exact Hk3]| |exact (Hk2 s y Hs3 ltac:(cbn; lia))|].
    + intros q z Hne Hq Hz. apply (Hk2 q z); [|exact Hz]. cbn. rewrite lookup_insert_ne by congruence. exact Hq.
    + rewrite Hst5. exact Hst4.
  - destruct (Hmsg Hrc) as [msg ->].
    eapply loads_bind.
    { apply (live_in_lua _ a x1 _ (λ r v, r = Some msg ∧ v = view (dl_L x1))); [exact Hl1|].
      unfold lua_tostring. eapply runs_step; [apply runs_value_at|]. rewrite (v_at_top _ _ _ Hst1).
      apply runs_ret. split; [exact (live_tracked _ a x1 Hl1)|auto]. }
    intros ? l2 (x2 & -> & Hl2 & -> & Ev). rewrite <- Ev in Hp1, Hst1. eapply loads_step; [reflexivity|].
    eapply loads_step; [reflexivity|]. set (l3 := set_log _ _).
    assert (live l3 a x2) as Hl3 by (destruct Hl2 as [[W1 W2 W3 W4 W5] E]; split; [constructor; assumption|exact E]).
    eapply loads_bind; [exact (loads_pop 2 l3 a x2 p [_; _] st Hl3 Hp1 Hst1 eq_refl)|].
    intros ? l4 (x4 & -> & Hl4 & Hp4 & Hst4). apply loads_ret. constructor; cbn.
    + reflexivity.
    + exists x4. auto.
    + lia.
    + intros q y _ Hq _. exists (s_others y). rewrite Hq. destruct y; reflexivity.
    + eexists. split; [exact Hs|]. split; [reflexivity|]. intros q [=].
Qed.

(** *** References are dropped *)

Lemma state_used_same l l' :
  ld_held l' = ld_held l → (∀ q, s_state <$> ld_scripts l' !! q = s_state <$> ld_scripts l !! q) → state_used l' = state_used l.
Proof.
  intros Hh Hs. apply eq_bool_prop_intro. rewrite !Is_true_true, !state_used_true, Hh. f_equiv.
  assert (∀ m m' : gmap Z script, (∀ q, s_state <$> m !! q = s_state <$> m' !! q) →
    (∃ q s, m !! q = Some s ∧ s_state s = true) → ∃ q s, m' !! q = Some s ∧ s_state s = true) as H.
  { intros m m' E (q & s & Hq & Ht). specialize (E q). rewrite Hq in E. cbn in E. symmetry in E.
    apply fmap_Some in E as (s' & Hs' & E'). exists q, s'. split; [exact Hs'|congruence]. }
  split; apply H; [exact Hs|intros q; symmetry; apply Hs].
Qed.

(** [l'] has no state that [l] does not have. *)
Definition state_below (l l' : loader) : Prop := ∀ e, ld_state l' = Some e → ld_state l = Some e.

Lemma dtor_below l : state_below l (lua_state_dtor l).
Proof. intros e. rewrite dtor_state. destruct (state_used l); [auto|discriminate]. Qed.

Lemma loads_unref_state n l a x :
  live l a x → ld_held l = Datatypes.S n →
  loads l unref_state (λ _ l', loader_ok l' ∧ state_below l l' ∧ ld_held l' = n ∧ ld_scripts l' = ld_scripts l ∧
    ld_next l' = ld_next l).
Proof.
  intros [[W1 W2 W3 W4 W5] E] Hn. exists tt, (lua_state_dtor (set_held n l)).
  split; [unfold unref_state, get, mbind, ST_bind; rewrite Hn; reflexivity|].
  split; [|split; [|split; [|split]]].
  - apply loader_ok_dtor. constructor; cbn; try assumption. rewrite E. eauto.
  - intros e He. exact (dtor_below (set_held n l) e He).
  - rewrite dtor_held. reflexivity.
  - rewrite dtor_scripts. reflexivity.
  - rewrite dtor_next. reflexivity.
Qed.

Lemma loads_unref_script s y l :
  loader_ok l → ld_scripts l !! s = Some y → s_held y = 1%nat →
  loads l (unref_script s) (λ _ l', loader_ok l' ∧ state_below l l' ∧ ld_held l' = ld_held l ∧ ld_next l' = ld_next l ∧
    (∀ q, q ≠ s → ld_scripts l' !! q = ld_scripts l !! q) ∧
    ((0 < s_others y)%nat → ld_state l' = ld_state l ∧ ld_scripts l' !! s = Some (Script (s_path y) (s_state y) 0 (s_others y)))).
Proof.
  intros [[W1 W2 W3 W4 W5] Hc] Hs Hheld. destruct y as [path b h o]. cbn in Hheld. subst h.
  unfold loads, unref_script, get_script, get, mbind, ST_bind. cbn. rewrite Hs. cbn. destruct o as [|o].
  - eexists tt, _. split; [reflexivity|]. set (l1 := set_scripts _ l).
    split; [|split; [|split; [|split; [|split]]]].
    + apply loader_ok_dtor. constructor; try assumption.
      * intros q y Hq. cbn in Hq. apply lookup_delete_Some in Hq as [_ Hq]. exact (W1 q y Hq).
      * intros Hu. apply W2. apply state_used_true. apply state_used_true in Hu as [Hu|(q & y & Hq & Hy)]; [left; exact Hu|].
        right. cbn in Hq. apply lookup_delete_Some in Hq as [_ Hq]. eauto.
    + intros e He. exact (dtor_below l1 e He).
    + rewrite dtor_held. reflexivity.
    + rewrite dtor_next. reflexivity.
    + intros q Hne. rewrite dtor_scripts. cbn. apply lookup_delete_ne. congruence.
    + cbn. lia.
  - eexists tt, _. split; [reflexivity|]. set (y := Script path b 0 _). set (l1 := set_scripts _ l).
    assert (state_used l1 = state_used l) as Hu.
    { apply state_used_same; [reflexivity|]. intros q. cbn. destruct (decide (q = s)) as [->|Hne];
        [rewrite lookup_insert_eq, Hs; reflexivity|rewrite lookup_insert_ne by congruence; reflexivity]. }
    split; [split; [|rewrite Hu; exact Hc]|split; [|split; [|split; [|split]]]]; try reflexivity.
    + constructor; try assumption; [|rewrite Hu; exact W2]. intros q z. cbn. rewrite lookup_insert_Some.
      intros [[<- <-]|[_ Hq]]; [|exact (W1 q z Hq)]. split; [apply (W1 s _ Hs)|cbn; lia].
    + intros e He. exact He.
    + intros q Hne. cbn. apply lookup_insert_ne. congruence.
    + split; [reflexivity|]. cbn. apply lookup_insert_eq.
Qed.

(** A script that is new. *)
Lemma loader_ok_new l :
  loader_wf l → (is_Some (ld_state l) → state_used l = true) → ld_scripts l !! ld_next l = None →
  loader_ok (set_scripts (<[ld_next l := Script None false 1 0]> (ld_scripts l)) (set_next (ld_next l + 1) l)).
Proof.
  intros [W1 W2 W3 W4 W5] Hc Hfresh. set (l1 := set_scripts _ _).
  assert (state_used l1 = true ↔ state_used l = true) as Hu.
  { rewrite !state_used_true. change (ld_held l1) with (ld_held l). apply or_iff_compat_l. cbn. split; intros (q & z & Hq & Hz).
    - apply lookup_insert_Some in Hq as [[<- <-]|[_ Hq]]; [discriminate|eauto].
    - exists q, z. rewrite lookup_insert_ne by congruence. auto. }
  split; [|intros H; apply Hu, Hc, H]. constructor; try assumption.
  - intros q z. cbn. rewrite lookup_insert_Some. intros [[<- <-]|[_ Hq]]; [cbn; lia|]. specialize (W1 q z Hq). lia.
  - intros H. apply W2, Hu, H.
  - intros a E. specialize (W4 a E). cbn. lia.
  - cbn. lia.
Qed.

(** *** The whole function *)

(** The stack of Lua at the end: the same values, or, after a script was run, the
    message handler in place of the value at the bottom. *)
Definition stack_after (st st' : list lua_value) : Prop := st' = st ∨ ∃ errf, st' = take (length st) (errf :: st).

End load_script.

(** ** The message handler *)
Section errfunc.
Context {API : LuaApi} {OK : LuaApiOk API} {CALLS : LuaCalls} {LOADS : LuaLoads} {LOK : LuaLoadsOk OK LOADS}.

(** A step in Lua with one outcome. *)
Lemma loads_exactly {A B} l a x (m : ST dl A) (f : A → ST loader B) r v d Q :
  ld_state l = Some (a, x) → runs (view (dl_L x)) (dl_deai x) m (exactly r v d) →
  (∀ x', view (dl_L x') = v → dl_deai x' = d → loads (set_state (Some (a, x')) l) (f r) Q) →
  loads l (in_lua m ≫= f) Q.
Proof.
  intros E Hm Hf. eapply loads_bind; [exact (loads_in_lua l a x m _ E Hm)|]. intros ? l' (x' & -> & -> & Hv & Hd). auto.
Qed.

(** The message: what [debug.traceback] makes of the path of the current script and of
    the error, or, when that fails, a text with both errors. *)
Theorem errfunc_message l a x p y path g err v2 rc v3 err2 :
  let v := view (dl_L x) in
  let d := dl_deai x in
  ld_state l = Some (a, x) → env v p → p ≠ 0 → ld_scripts l !! p = Some y → s_path y = Some path → globals v g →
  runs v d (luaL_tolstring (-1)) (exactly err (v_push (LString err) v) d) →
  runs (v_push (LString "traceback") (v_push (raw_lookup (LString "debug") (lv_tables v g))
         (v_push (LLightUserdata p) (v_push (LString err) v)))) d (lua_gettable (-2)) (exactly tt v2 d) →
  runs (v_push (LInteger 3) (v_push (LString (error_prompt path err)) v2)) d (lua_pcall 2 0) (exactly rc v3 d) →
  (rc ≠ 0 → runs v3 d (luaL_tolstring (-1)) (exactly err2 (v_push (LString err2) v3) d)) →
  loads l di_lua_errfunc (λ r l', r = 1 ∧ ∃ x', ld_state l' = Some (a, x') ∧ dl_deai x' = d ∧
    view (dl_L x') = if rc =? 0 then v3 else v_push (LString (no_trace path err err2)) (v_push (LString err2) v3)).
Proof.
  intros v d E He Hp Hy Hpath Hg Htostring Hget Hcall Hfail. unfold di_lua_errfunc.
  apply (loads_exactly l a x _ _ _ _ _ _ E Htostring). intros x1 V1 D1.
  eapply loads_exactly; [reflexivity|apply runs_push|]. intros x2 V2 D2.
  eapply loads_exactly; [reflexivity|apply (runs_rawget LUA_REGISTRYINDEX REGISTRY); rewrite V2; [reflexivity|discriminate]|].
  rewrite V2, D2, V1, D1. intros x3 V3 D3.
  assert (view (dl_L x3) = v_push (LLightUserdata p) (v_push (LString err) v)) as V3'.
  { rewrite V3. unfold env in He. rewrite <- He. reflexivity. }
  eapply loads_exactly; [reflexivity|unfold touserdata; eapply runs_step; [apply runs_value_at|];
    rewrite V3'; cbn [v_at]; apply runs_ret; split; [reflexivity|split; reflexivity]|]. intros x4 V4 D4.
  eapply loads_step; [unfold script_path; rewrite (proj2 (Z.eqb_neq _ _) Hp); unfold get_script, get, mbind, ST_bind; cbn; rewrite Hy; cbn; rewrite Hpath; reflexivity|].
  eapply loads_exactly; [reflexivity|apply (runs_getglobal "debug" g); rewrite V4; apply globals_stack, globals_stack, Hg|].
  rewrite V4, D4, D3. intros x5 V5 D5.
  eapply loads_exactly; [reflexivity|apply runs_push|]. rewrite V5, D5. intros x6 V6 D6.
  eapply loads_exactly; [reflexivity|rewrite V6, D6; exact Hget|]. intros x7 V7 D7.
  eapply loads_exactly; [reflexivity|apply runs_push|]. rewrite V7, D7. intros x8 V8 D8.
  eapply loads_exactly; [reflexivity|apply runs_push|]. rewrite V8, D8. intros x9 V9 D9.
  eapply loads_exactly; [reflexivity|rewrite V9, D9; exact Hcall|]. intros x10 V10 D10.
  destruct (Z.eqb_spec rc 0) as [_|Hrc]; cbn [negb].
  - apply loads_ret. split; [reflexivity|]. exists x10. auto.
  - eapply loads_exactly; [reflexivity|rewrite V10, D10; exact (Hfail Hrc)|]. intros x11 V11 D11.
    eapply loads_exactly; [reflexivity|apply runs_push|]. rewrite V11, D11. intros x12 V12 D12.
    apply loads_ret. split; [reflexivity|]. exists x12. auto.
Qed.
End errfunc.

(** ** What scripts see of the library [os] *)
Section sandbox.
Context {API : LuaApi} {OK : LuaApiOk API} {CALLS : LuaCalls} {LOADS : LuaLoads} {LOK : LuaLoadsOk OK LOADS}.

(** C28. In a new state the global variable [os] is a table with the functions of
    [allowed_os], those of the library, and nothing else.  The library itself, with
    all its functions, is still what [package.loaded.os] is. *)
Theorem os_restricted l :
  loads l lua_new_state (λ _ l', ∃ a x g os ld t,
    let lib := view (luaL_openlibs luaL_newstate) in
    let v := view (dl_L x) in
    ld_state l' = Some (a, x) ∧ standard lib g os ld ∧ globals v g ∧ raw_lookup (LString "os") (lv_tables v g) = LTable t ∧
    (∀ k, raw_lookup k (lv_tables v t) = if decide (k ∈ map LString allowed_os) then raw_lookup k (lv_tables lib os) else LNil) ∧
    raw_lookup (LString "_LOADED") (registry v) = LTable ld ∧ raw_lookup (LString "os") (lv_tables v ld) = LTable os ∧
    lv_tables v os = lv_tables lib os).
Proof.
  eapply loads_conseq; [apply loads_new_state|]. intros ? l' (a & x & g & os & ld & [-> _ Hs (v & Hr & Hst) _]).
  destruct (re_os _ _ _ _ _ Hr) as (t & Ht & Hne & _ & Hcopied). exists a, x, g, os, ld, t. intros lib w.
  destruct (sv_range _ _ _ _ Hs) as [Hos Hld]. pose proof (st_only _ _ _ Hst) as Ho.
  assert (∀ u, u ≠ REGISTRY → lv_tables w u = lv_tables v u) as Htab by exact (on_tables _ _ _ Ho).
  destruct (re_globals _ _ _ _ _ Hr) as [G1 G2 G3 G4]. unfold REGISTRY in *.
  split; [reflexivity|]. split; [exact Hs|]. split; [|split; [|split; [|split; [|split]]]].
  - constructor; [rewrite (st_others _ _ _ Hst) by discriminate; exact G1|unfold w; rewrite (on_next _ _ _ Ho); exact G2|
      unfold w; rewrite (on_meta _ _ _ Ho); exact G3|rewrite Htab by lia; exact G4].
  - rewrite Htab by lia. exact Ht.
  - intros k. rewrite Htab by exact Hne. apply Hcopied.
  - unfold w. rewrite (st_others _ _ _ Hst) by discriminate. rewrite (re_registry _ _ _ _ _ Hr). apply Hs.
  - rewrite Htab by lia. rewrite (re_loaded _ _ _ _ _ Hr). apply Hs.
  - rewrite Htab by lia. apply Hr.
Qed.
End sandbox.

(** ** A Lua that loads scripts

    Its library [os] has three functions; scripts run without effect. *)
Definition demo_lib : lua_view :=
  View [] (λ t, match t with
                | O => [(LUA_RIDX_GLOBALS, LTable 1); (LString "_LOADED", LTable 2)]
                | 1%nat => [(LString "os", LTable 3)]
                | 2%nat => [(LString "os", LTable 3)]
                | 3%nat => [(LString "time", LFunction 4); (LString "execute", LFunction 5); (LString "date", LFunction 6)]
                | _ => []
                end) (λ _, None) (λ _, 0) 7.

(** The table of globals. *)
Definition demo_globals : ST (dl (API := demo_lua)) nat :=
  s ← get;
  match raw_lookup LUA_RIDX_GLOBALS (registry (dl_L s)) with LTable g => mret g | _ => fail TypeConfusion end.

#[export] Instance demo_loads : @LuaLoads demo_lua := {|
  luaL_newstate := demo_lib;
  luaL_openlibs v := v;
  lua_getglobal n := g ← demo_globals; s ← get; push (raw_lookup (LString n) (lv_tables (dl_L s) g));
  lua_setglobal n :=
    g ← demo_globals;
    modify (λ s, with_L (with_stack (drop 1 (lv_stack (dl_L s)))
      (with_table g (raw_update (LString n) (v_top (dl_L s)) (lv_tables (dl_L s) g)) (dl_L s))) s);
  luaL_loadfile p := if bool_decide (p = EmptyString) then (push (LString "cannot open");; mret 7) else (api (lua_newfunction p 0);; mret 0);
  run_chunk := (in_lua (pop 1);; mret 0);
  di_module_get_deai := 0%nat
|}.

Lemma demo_lib_standard : standard demo_lib 1 3 2.
Proof.
  assert (∀ l : contents, NoDup l.*1 ∧ LNil ∉ l.*1 ∧ LNil ∉ l.*2 → table_wf l) as Hwf by (intros l (H1 & H2 & H3); constructor; assumption).
  constructor; cbn; try reflexivity; try lia; try (apply Hwf; apply (bool_decide_unpack _); vm_compute; exact I).
  - constructor; cbn; try reflexivity; try lia. apply Hwf. apply (bool_decide_unpack _). vm_compute. exact I.
  - apply (bool_decide_unpack _). vm_compute. exact I.
Qed.

Lemma demo_globals_runs g v d : globals v g → runs (OK := demo_lua_ok) v d demo_globals (exactly g v d).
Proof.
  intros Hg s Hv Hd. exists g, s. split; [|split; auto]. unfold demo_globals, get, mbind, ST_bind. cbn in Hv. rewrite Hv, (gl_table _ _ Hg). reflexivity.
Qed.

#[export] Instance demo_loads_ok : LuaLoadsOk demo_lua_ok demo_loads.
Proof.
  constructor.
  - exists 1%nat, 3%nat, 2%nat. exact demo_lib_standard.
  - intros n g v d Hg. cbn [lua_getglobal demo_loads]. eapply runs_step; [exact (demo_globals_runs g v d Hg)|]. intros s Hv Hd.
    eexists tt, _. split; [reflexivity|]. cbn in *. rewrite Hv. split; [reflexivity|]. split; [reflexivity|exact Hd].
  - intros n g x st v d Hg Hst. cbn. eapply runs_step; [exact (demo_globals_runs g v d Hg)|]. intros s Hv Hd.
    eexists tt, _. split; [reflexivity|]. cbn in *. rewrite Hv. unfold v_top. rewrite Hst. split; [exact Hd|]. eauto.
  - intros path v d. cbn [luaL_loadfile demo_loads]. case_bool_decide.
    + eapply runs_step; [apply runs_push|]. apply runs_ret. split; [reflexivity|]. split; [apply keeps_stack; reflexivity|]. eauto.
    + eapply runs_step; [apply runs_newfunction; lia|]. apply runs_ret. split; [reflexivity|].
      split; [apply keeps_new; [apply le_n|auto|apply keeps_stack; reflexivity]|]. eexists. split; [reflexivity|]. lia.
  - intros f errf st p s l a x [Hwf Hc] E Hst He Hs Hh. assert (live l a x) as Hl by (split; assumption).
    destruct (loads_pop 1 l a x p [f] (errf :: st) Hl (or_introl He) Hst eq_refl) as (? & l' & El & x' & -> & [Hwf' _] & Hp' & Hst').
    assert (env (view (dl_L x')) p) as He'.
    { revert El. unfold in_lua, pop, needs, gettop, api, get, modify, mbind, ST_bind, mret, ST_ret. rewrite E. cbn.
      destruct (_ <=? _); [|discriminate]. intros [= H]. subst x'. exact He. }
    exists 0. eexists _, x'. cbn [run_chunk demo_loads]. split; [exact (then_done _ _ _ _ _ _ El eq_refl)|].
    split; [split; [exact Hwf'|intros _; apply Hc; rewrite E; eauto]|]. split; [|auto].
    constructor; [reflexivity| |reflexivity]. intros q y Hq _. exists (s_others y). cbn. rewrite Hq. destruct y; reflexivity.
Defined.

Definition demo_loader : loader (API := demo_lua) := Loader None 0 None ∅ 1 0 (Some []) [].

Lemma demo_loader_ok : loader_ok (OK := demo_lua_ok) demo_loader.
Proof.
  split; [|intros [? [=]]]. constructor; cbn; try discriminate. reflexivity.
Qed.


(** The script is loaded, the next one shares its state, and one that cannot be read
    is an error. *)
Definition demo_result (paths : list string) : option (list (string + Z) * nat) :=
  match collect (λ p, di_lua_load_script (Some p)) paths demo_loader with
  | Done r l => Some (r, size (ld_scripts l))
  | _ => None
  end.

Example demo_scripts :
  demo_result ["main.lua"; ""; "lib.lua"]%string = Some ([inr 1; inl (load_error "" "cannot open"); inr 4], 2%nat).
Proof. vm_compute. reflexivity. Qed.

Lemma os_restricted_witness :
  loads demo_loader lua_new_state (λ _ l', ∃ a x g os ld t,
    let lib := demo_lib in
    let v := dl_L x in
    ld_state l' = Some (a, x) ∧ standard lib g os ld ∧ globals v g ∧ raw_lookup (LString "os") (lv_tables v g) = LTable t ∧
    (∀ k, raw_lookup k (lv_tables v t) = if decide (k ∈ map LString allowed_os) then raw_lookup k (lv_tables lib os) else LNil) ∧
    raw_lookup (LString "_LOADED") (registry v) = LTable ld ∧ raw_lookup (LString "os") (lv_tables v ld) = LTable os ∧
    lv_tables v os = lv_tables lib os).
Proof. exact (os_restricted (OK := demo_lua_ok) demo_loader). Defined.
