(* ===== verification/LuaListen.v ===== *)
(** * Listen handles of Lua scripts (plugins/lua/lua.c)

    A listener that a script adds has a [struct di_lua_listen_handle_proxy], which is no
    object: it is freed by the later one of the finalizer of its Lua proxy and the
    destructor of the wrapper of a [once] handler.  The listener itself lives as an
    anonymous root.  What holds of these structs at all times. *)

From S2P Require Import Prelude.

Local Open Scope Z_scope.

(** ** The state

    - [ls_proxies]: the allocated [struct di_lua_listen_handle_proxy];
    - [ls_wrappers]: the objects [struct di_signal_handler_wrapper] with their
      references, their [listen_handle], and whether their destructor is still set;
    - [ls_roots]: the anonymous roots; a listen handle whose handler is a wrapper
      holds a reference to it, other roots are [None];
    - [ls_next_root]: the number of the next anonymous root. *)
Record listen_proxy := ListenProxy {
  root_handle_for_listen_handle : Z;
  root_handle_for_source : Z;
  once_wrapper_alive : bool;
  lua_object_alive : bool
}.

Record wrapper := Wrapper { wr_refs : nat; wr_listen_handle : option nat; wr_dtor : bool }.

Record listen_state := ListenState {
  ls_proxies : gmap nat listen_proxy;
  ls_wrappers : gmap nat wrapper;
  ls_roots : gmap Z (option nat);
  ls_next : nat;
  ls_next_root : Z
}.

Definition with_proxies (f : gmap nat listen_proxy → gmap nat listen_proxy) (s : listen_state) : listen_state :=
  ListenState (f (ls_proxies s)) (ls_wrappers s) (ls_roots s) (ls_next s) (ls_next_root s).
Definition with_wrappers (f : gmap nat wrapper → gmap nat wrapper) (s : listen_state) : listen_state :=
  ListenState (ls_proxies s) (f (ls_wrappers s)) (ls_roots s) (ls_next s) (ls_next_root s).
Definition with_roots (f : gmap Z (option nat) → gmap Z (option nat)) (s : listen_state) : listen_state :=
  ListenState (ls_proxies s) (ls_wrappers s) (f (ls_roots s)) (ls_next s) (ls_next_root s).

(** A read of a struct that was freed is not defined. *)
Definition get_proxy (p : nat) : ST listen_state listen_proxy := s ← get; from_opt UseAfterFree (ls_proxies s !! p).
Definition put_proxy (p : nat) (x : listen_proxy) : ST listen_state unit := modify (with_proxies <[p := x]>).
Definition get_wrapper (w : nat) : ST listen_state wrapper := s ← get; from_opt UseAfterFree (ls_wrappers s !! w).
Definition put_wrapper (w : nat) (x : wrapper) : ST listen_state unit := modify (with_wrappers <[w := x]>).

Definition set_once (b : bool) (x : listen_proxy) : listen_proxy :=
  ListenProxy (root_handle_for_listen_handle x) (root_handle_for_source x) b (lua_object_alive x).
Definition set_lua (b : bool) (x : listen_proxy) : listen_proxy :=
  ListenProxy (root_handle_for_listen_handle x) (root_handle_for_source x) (once_wrapper_alive x) b.
Definition set_handles (h src : Z) (x : listen_proxy) : listen_proxy :=
  ListenProxy h src (once_wrapper_alive x) (lua_object_alive x).

(** [di_lua_free_listen_handle] *)
Definition di_lua_free_listen_handle (p : nat) : ST listen_state unit :=
  x ← get_proxy p;
  if lua_object_alive x || once_wrapper_alive x then mret tt
  else modify (with_proxies (delete p)).

(** [di_lua_signal_handler_wrapper_dtor] *)
Definition di_lua_signal_handler_wrapper_dtor (w : nat) : ST listen_state unit :=
  wr ← get_wrapper w;
  p ← from_opt NullDeref (wr_listen_handle wr);
  x ← get_proxy p;
  put_proxy p (set_once false x);;
  di_lua_free_listen_handle p;;
  wr ← get_wrapper w;
  put_wrapper w (Wrapper (wr_refs wr) None (wr_dtor wr)).

(** [di_finalize_object] of a wrapper, with the handler left out: its destructor runs
    once. *)
Definition finalize_wrapper (w : nat) : ST listen_state unit :=
  wr ← get_wrapper w;
  if wr_dtor wr then
    put_wrapper w (Wrapper (wr_refs wr) (wr_listen_handle wr) false);;
    di_lua_signal_handler_wrapper_dtor w
  else mret tt.

Definition ref_wrapper (w : nat) : ST listen_state unit :=
  wr ← get_wrapper w; put_wrapper w (Wrapper (Datatypes.S (wr_refs wr)) (wr_listen_handle wr) (wr_dtor wr)).

Definition unref_wrapper (w : nat) : ST listen_state unit :=
  wr ← get_wrapper w;
  match wr_refs wr with
  | O => fail RefUnderflow
  | 1%nat => finalize_wrapper w;; modify (with_wrappers (delete w))
  | Datatypes.S n => put_wrapper w (Wrapper n (wr_listen_handle wr) (wr_dtor wr))
  end.

(** [__add_anonymous] and [__remove_anonymous] of the roots: a listen handle that is no
    longer a root stops its listener, which drops the handler. *)
Definition add_anonymous (r : option nat) : ST listen_state Z :=
  s ← get;
  modify (λ s, ListenState (ls_proxies s) (ls_wrappers s) (<[ls_next_root s := r]> (ls_roots s)) (ls_next s) (ls_next_root s + 1));;
  mret (ls_next_root s).

Definition remove_anonymous (h : Z) : ST listen_state unit :=
  s ← get;
  match ls_roots s !! h with
  | None => mret tt
  | Some r =>
      modify (with_roots (delete h));;
      match r with Some w => unref_wrapper w | None => mret tt end
  end.

Definition alloc : ST listen_state nat :=
  s ← get;
  modify (λ s, ListenState (ls_proxies s) (ls_wrappers s) (ls_roots s) (Datatypes.S (ls_next s)) (ls_next_root s));;
  mret (ls_next s).

(** [di_lua_add_listener], after its arguments were checked; [listened] is whether
    [di_listen_to] succeeds.  The result is the proxy, or [None] for an error. *)
Definition di_lua_add_listener (once listened : bool) : ST listen_state (option nat) :=
  p ← alloc;
  put_proxy p (ListenProxy 0 0 false false);;
  w ← (if once then
         w ← alloc;
         put_wrapper w (Wrapper 1 (Some p) true);;
         x ← get_proxy p;
         put_proxy p (set_once true x);;
         mret (Some w)
       else mret None);
  (if listened : bool then match w with Some w => ref_wrapper w | None => mret tt end else mret tt);;
  match w with Some w => unref_wrapper w | None => mret tt end;;
  if negb listened then mret None
  else
    h ← add_anonymous w;
    x ← get_proxy p;
    put_proxy p (set_handles h (root_handle_for_source x) x);;
    src ← add_anonymous None;
    x ← get_proxy p;
    put_proxy p (set_handles (root_handle_for_listen_handle x) src x);;
    x ← get_proxy p;
    put_proxy p (set_lua true x);;
    mret (Some p).

(** [di_lua_stop_listener_impl] *)
Definition di_lua_stop_listener_impl (p : nat) : ST listen_state unit :=
  x ← get_proxy p;
  if root_handle_for_listen_handle x =? 0 then mret tt
  else
    check (negb (root_handle_for_source x =? 0));;
    remove_anonymous (root_handle_for_listen_handle x);;
    x ← get_proxy p;
    remove_anonymous (root_handle_for_source x);;
    x ← get_proxy p;
    put_proxy p (set_handles 0 0 x).

(** [di_lua_gc_for_listen_handle] *)
Definition di_lua_gc_for_listen_handle (p : nat) : ST listen_state unit :=
  x ← get_proxy p;
  put_proxy p (set_lua false x);;
  di_lua_free_listen_handle p.

(** [call_lua_signal_handler_once], up to the call of the handler. *)
Definition call_lua_signal_handler_once (w : nat) : ST listen_state unit :=
  wr ← get_wrapper w;
  p ← from_opt NullDeref (wr_listen_handle wr);
  di_lua_stop_listener_impl p;;
  finalize_wrapper w.

(** ** What happens

    A listener is added; a script stops it, or drops its Lua proxy, whose finalizer
    is called; a signal is emitted to a [once] listener, which lasts from [Emit] until
    the handler returns; a root is dropped, as when the program ends. *)
Inductive listen_op :=
  | Add (once listened : bool)
  | Stop (p : nat)
  | Gc (p : nat)
  | Emit (h : Z)
  | Return (w : nat)
  | DropRoot (h : Z).

Definition perform_listen (op : listen_op) : ST listen_state unit :=
  match op with
  | Add once listened => _ ← di_lua_add_listener once listened; mret tt
  | Stop p => di_lua_stop_listener_impl p
  | Gc p => di_lua_gc_for_listen_handle p
  | Emit h =>
      s ← get;
      match ls_roots s !! h with
      | Some (Some w) => ref_wrapper w;; call_lua_signal_handler_once w
      | _ => mret tt
      end
  | Return w => unref_wrapper w
  | DropRoot h => remove_anonymous h
  end.

(** The wrappers that are being called. *)
Definition calls_after (op : listen_op) (s : listen_state) (calls : list nat) : list nat :=
  match op with
  | Emit h => match ls_roots s !! h with Some (Some w) => w :: calls | _ => calls end
  | Return w => filter (λ w', w' ≠ w) calls
  | _ => calls
  end.

(** Finalizers and [stop] are for a proxy that Lua still has. *)
Definition listen_op_ok (op : listen_op) (s : listen_state) (calls : list nat) : Prop :=
  match op with
  | Stop p | Gc p => ∃ x, ls_proxies s !! p = Some x ∧ lua_object_alive x = true
  | Return w => w ∈ calls
  | _ => True
  end.

(** ** What holds at all times

    A proxy is allocated exactly as long as Lua or the wrapper of a [once] handler has
    it, but for those that were [leaked].  A wrapper is called by at most one signal,
    after which it has no proxy; until then it belongs to the root of its listener. *)
Definition fresh_wrapper (p : nat) : wrapper := Wrapper 1 (Some p) true.
Definition called_wrapper : wrapper := Wrapper 1 None false.

Record listen_ok (leaked calls : list nat) (s : listen_state) : Prop := {
  lo_proxies p x : ls_proxies s !! p = Some x →
    (p < ls_next s)%nat ∧ (lua_object_alive x = true ∨ once_wrapper_alive x = true ∨ p ∈ leaked);
  lo_handles p x : ls_proxies s !! p = Some x →
    root_handle_for_listen_handle x = 0 ∨
    0 < root_handle_for_listen_handle x < ls_next_root s ∧ 0 < root_handle_for_source x < ls_next_root s ∧
    (∀ w, ls_roots s !! root_handle_for_source x ≠ Some (Some w));
  lo_distinct p x p' x' : ls_proxies s !! p = Some x → ls_proxies s !! p' = Some x' →
    root_handle_for_listen_handle x ≠ 0 → root_handle_for_listen_handle x' = root_handle_for_listen_handle x → p' = p;
  lo_once p x : ls_proxies s !! p = Some x → once_wrapper_alive x = true →
    ∃ w, ls_wrappers s !! w = Some (fresh_wrapper p) ∧ ls_roots s !! root_handle_for_listen_handle x = Some (Some w);
  lo_roots h r : ls_roots s !! h = Some r → 0 < h < ls_next_root s;
  lo_listening h w : ls_roots s !! h = Some (Some w) → ∃ p x,
    ls_wrappers s !! w = Some (fresh_wrapper p) ∧ ls_proxies s !! p = Some x ∧ once_wrapper_alive x = true ∧
    root_handle_for_listen_handle x = h;
  lo_wrappers w wr : ls_wrappers s !! w = Some wr → (w < ls_next s)%nat ∧
    (wr = called_wrapper ∧ w ∈ calls ∨ ∃ p x, wr = fresh_wrapper p ∧ ls_proxies s !! p = Some x ∧ once_wrapper_alive x = true ∧
      ls_roots s !! root_handle_for_listen_handle x = Some (Some w));
  lo_calls w : w ∈ calls → ls_wrappers s !! w = Some called_wrapper;
  lo_nodup : NoDup calls;
  lo_next_root : 0 < ls_next_root s
}.

(** *** Runs *)
Lemma get_proxy_done p x s : ls_proxies s !! p = Some x → get_proxy p s = Done x s.
Proof. intros H. unfold get_proxy, mbind, ST_bind. cbn. rewrite H. reflexivity. Qed.

Lemma get_wrapper_done w wr s : ls_wrappers s !! w = Some wr → get_wrapper w s = Done wr s.
Proof. intros H. unfold get_wrapper, mbind, ST_bind. cbn. rewrite H. reflexivity. Qed.

(** The proxy that a wrapper leaves: it is freed unless Lua has it. *)
Definition drop_once (p : nat) (x : listen_proxy) (m : gmap nat listen_proxy) : gmap nat listen_proxy :=
  if lua_object_alive x then <[p := set_once false x]> m else delete p m.

Lemma drop_once_lookup p x m p' :
  drop_once p x m !! p' = if decide (p' = p) then (if lua_object_alive x then Some (set_once false x) else None) else m !! p'.
Proof.
  unfold drop_once. destruct (lua_object_alive x), (decide (p' = p)) as [->|Hne];
    rewrite ?lookup_insert_eq, ?lookup_delete_eq, ?lookup_insert_ne, ?lookup_delete_ne by congruence; reflexivity.
Qed.

(** The destructor of a wrapper. *)
Lemma finalize_done w n p x s :
  ls_wrappers s !! w = Some (Wrapper n (Some p) true) → ls_proxies s !! p = Some x →
  finalize_wrapper w s = Done tt (ListenState (drop_once p x (ls_proxies s)) (<[w := Wrapper n None false]> (ls_wrappers s))
    (ls_roots s) (ls_next s) (ls_next_root s)).
Proof.
  intros Hw Hp. eapply eq_trans.
  - eapply then_done; [exact (get_wrapper_done _ _ _ Hw)|]. cbn [wr_dtor wr_refs wr_listen_handle].
    eapply then_done; [reflexivity|]. unfold di_lua_signal_handler_wrapper_dtor.
    eapply then_done; [apply get_wrapper_done; cbn; apply lookup_insert_eq|]. eapply then_done; [reflexivity|].
    eapply then_done; [apply get_proxy_done; exact Hp|]. eapply then_done; [reflexivity|].
    eapply then_done.
    { unfold di_lua_free_listen_handle. eapply then_done; [apply get_proxy_done; cbn; apply lookup_insert_eq|].
      cbn [lua_object_alive once_wrapper_alive set_once]. rewrite orb_false_r.
      instantiate (1 := with_proxies (λ _, drop_once p x (ls_proxies s)) (with_wrappers <[w := Wrapper n (Some p) false]> s)).
      instantiate (1 := tt). unfold drop_once. destruct (lua_object_alive x); [reflexivity|].
      unfold modify, with_proxies. cbn. rewrite delete_insert_eq. reflexivity. }
    eapply then_done; [apply get_wrapper_done; cbn; apply lookup_insert_eq|]. reflexivity.
  - unfold put_wrapper, modify, with_wrappers. cbn. rewrite insert_insert_eq. reflexivity.
Qed.

(** The last reference to a wrapper is dropped. *)
Lemma unref_fresh w p x s :
  ls_wrappers s !! w = Some (fresh_wrapper p) → ls_proxies s !! p = Some x →
  unref_wrapper w s = Done tt (ListenState (drop_once p x (ls_proxies s)) (delete w (ls_wrappers s))
    (ls_roots s) (ls_next s) (ls_next_root s)).
Proof.
  intros Hw Hp. eapply then_done; [exact (get_wrapper_done _ _ _ Hw)|]. cbn [wr_refs fresh_wrapper].
  eapply then_done; [exact (finalize_done w 1 p x s Hw Hp)|]. unfold modify, with_wrappers. cbn. rewrite delete_insert_eq. reflexivity.
Qed.

Lemma unref_called w s :
  ls_wrappers s !! w = Some called_wrapper →
  unref_wrapper w s = Done tt (with_wrappers (delete w) s).
Proof.
  intros Hw. eapply then_done; [exact (get_wrapper_done _ _ _ Hw)|]. cbn [wr_refs called_wrapper].
  eapply then_done; [|reflexivity]. eapply then_done; [exact (get_wrapper_done _ _ _ Hw)|]. reflexivity.
Qed.

(** *** Roots that are dropped *)
Section drop.
Context {leaked calls : list nat}.

(** What is left of the proxies when a root is dropped. *)
Definition dropped (h : Z) (s : listen_state) : gmap nat listen_proxy :=
  match ls_roots s !! h with
  | Some (Some w) =>
      match ls_wrappers s !! w with
      | Some (Wrapper _ (Some p) _) => match ls_proxies s !! p with Some x => drop_once p x (ls_proxies s) | None => ls_proxies s end
      | _ => ls_proxies s
      end
  | _ => ls_proxies s
  end.
Definition wrappers_left (h : Z) (s : listen_state) : gmap nat wrapper :=
  match ls_roots s !! h with Some (Some w) => delete w (ls_wrappers s) | _ => ls_wrappers s end.

Lemma remove_done h s :
  listen_ok leaked calls s →
  remove_anonymous h s = Done tt (ListenState (dropped h s) (wrappers_left h s) (delete h (ls_roots s)) (ls_next s) (ls_next_root s)).
Proof.
  intros Hok. unfold remove_anonymous, dropped, wrappers_left. eapply then_done; [reflexivity|].
  destruct (ls_roots s !! h) as [[w|]|] eqn:E.
  - destruct (lo_listening _ _ _ Hok h w E) as (p & x & Hw & Hp & _). rewrite Hw. cbn [fresh_wrapper]. rewrite Hp.
    eapply then_done; [reflexivity|]. exact (unref_fresh w p x (with_roots (delete h) s) Hw Hp).
  - eapply then_done; [reflexivity|]. reflexivity.
  - rewrite delete_id by exact E. destruct s. reflexivity.
Qed.

(** A root that is no listen handle of a wrapper, or is absent. *)
Lemma drop_other h s :
  listen_ok leaked calls s → (∀ w, ls_roots s !! h ≠ Some (Some w)) →
  listen_ok leaked calls (ListenState (ls_proxies s) (ls_wrappers s) (delete h (ls_roots s)) (ls_next s) (ls_next_root s)).
Proof.
  intros Hok Hh.
  assert (∀ h' w, ls_roots s !! h' = Some (Some w) → delete h (ls_roots s) !! h' = Some (Some w)) as Hkeep.
  { intros h' w E. rewrite lookup_delete_ne; [exact E|]. intros ->. exact (Hh w E). }
  assert (∀ h' r, delete h (ls_roots s) !! h' = Some r → ls_roots s !! h' = Some r) as Hold.
  { intros h' r [_ E]%lookup_delete_Some. exact E. }
  destruct Hok as [H1 H2 H3 H4 H5 H6 H7 H8 H9 H10]. constructor; cbn; try assumption.
  - intros p x Hp. destruct (H2 p x Hp) as [E|(E1 & E2 & E3)]; [left; exact E|right]. split; [exact E1|]. split; [exact E2|].
    intros w Hw. exact (E3 w (Hold _ _ Hw)).
  - intros p x Hp Ho. destruct (H4 p x Hp Ho) as (w & Hw & Hr). exists w. split; [exact Hw|exact (Hkeep _ _ Hr)].
  - intros h' r E. exact (H5 h' r (Hold _ _ E)).
  - intros h' w E. exact (H6 h' w (Hold _ _ E)).
  - intros w wr Hw. destruct (H7 w wr Hw) as [Hlt [?|(p & x & -> & Hp & Ho & Hr)]]; (split; [exact Hlt|]); [left; assumption|right].
    exists p, x. auto.
Qed.

(** The listen handle of a wrapper. *)
Lemma drop_wrapper h w p x s :
  listen_ok leaked calls s → ls_roots s !! h = Some (Some w) → ls_wrappers s !! w = Some (fresh_wrapper p) →
  ls_proxies s !! p = Some x → root_handle_for_listen_handle x = h →
  listen_ok leaked calls
    (ListenState (drop_once p x (ls_proxies s)) (delete w (ls_wrappers s)) (delete h (ls_roots s)) (ls_next s) (ls_next_root s)).
Proof.
  intros Hok Hr Hw Hp Hh.
  assert (∀ p' x', drop_once p x (ls_proxies s) !! p' = Some x' →
    p' ≠ p ∧ ls_proxies s !! p' = Some x' ∨ p' = p ∧ lua_object_alive x = true ∧ x' = set_once false x) as Hcases.
  { intros p' x'. rewrite drop_once_lookup. destruct (decide (p' = p)) as [->|Hne]; [|auto].
    destruct (lua_object_alive x) eqn:El; [|discriminate]. intros [= <-]. auto. }
  assert (∀ p' x', drop_once p x (ls_proxies s) !! p' = Some x' → ∃ y, ls_proxies s !! p' = Some y ∧
    root_handle_for_listen_handle x' = root_handle_for_listen_handle y ∧ root_handle_for_source x' = root_handle_for_source y) as Hsame.
  { intros p' x' [[_ E]|(-> & _ & ->)]%Hcases; eauto. }
  assert (∀ h' r, delete h (ls_roots s) !! h' = Some r → ls_roots s !! h' = Some r ∧ h' ≠ h) as Hold.
  { intros h' r [Hne E]%lookup_delete_Some. auto. }
  destruct Hok as [H1 H2 H3 H4 H5 H6 H7 H8 H9 H10].
  assert (∀ p' w', p' ≠ p → ls_wrappers s !! w' = Some (fresh_wrapper p') → w' ≠ w) as Hw'.
  { intros p' w' Hne E ->. rewrite Hw in E. injection E as ->. exact (Hne eq_refl). }
  constructor; cbn; try assumption.
  - intros p' x' [[_ E]|(-> & El & ->)]%Hcases; [exact (H1 p' x' E)|]. destruct (H1 p x Hp) as [Hlt _]. auto.
  - intros p' x' (y & Hy & -> & ->)%Hsame. destruct (H2 p' y Hy) as [E|(E1 & E2 & E3)]; [left; exact E|right].
    split; [exact E1|]. split; [exact E2|]. intros w' [E _]%Hold. exact (E3 w' E).
  - intros p1 x1 p2 x2 (y1 & Hy1 & -> & _)%Hsame (y2 & Hy2 & -> & _)%Hsame. exact (H3 p1 y1 p2 y2 Hy1 Hy2).
  - intros p' x' [[Hne E]|(-> & _ & ->)]%Hcases Ho; [|discriminate Ho]. destruct (H4 p' x' E Ho) as (w' & E1 & E2). exists w'.
    pose proof (Hw' p' w' Hne E1) as Hnew. rewrite !lookup_delete_ne; [auto|congruence|congruence].
  - intros h' r [E _]%Hold. exact (H5 h' r E).
  - intros h' w' [E Hne]%Hold. destruct (H6 h' w' E) as (p' & x' & E1 & E2 & E3 & E4). exists p', x'.
    assert (p' ≠ p) as Hp' by (intros ->; simplify_eq/=; congruence). rewrite drop_once_lookup, decide_False by exact Hp'.
    rewrite lookup_delete_ne by (intros ->; exact (Hw' p' _ Hp' E1 eq_refl)). auto.
  - intros w' wr [Hne E]%lookup_delete_Some. destruct (H7 w' wr E) as [Hlt [?|(p' & x' & -> & E1 & E2 & E3)]];
      (split; [exact Hlt|]); [left; assumption|right]. exists p', x'.
    assert (p' ≠ p) as Hp' by (intros ->; simplify_eq/=; congruence). rewrite drop_once_lookup, decide_False by exact Hp'.
    rewrite lookup_delete_ne; [auto|congruence].
  - intros w' Hin. rewrite lookup_delete_ne; [exact (H8 w' Hin)|]. intros <-. specialize (H8 _ Hin). rewrite Hw in H8. discriminate.
Qed.

(** Any root: what holds goes on, and proxies that Lua has stay. *)
Lemma remove_ok h s :
  listen_ok leaked calls s → ∃ s', remove_anonymous h s = Done tt s' ∧ listen_ok leaked calls s' ∧
    ls_roots s' = delete h (ls_roots s) ∧ ls_next_root s' = ls_next_root s ∧
    ∀ p x, ls_proxies s !! p = Some x → lua_object_alive x = true → ∃ x', ls_proxies s' !! p = Some x' ∧ lua_object_alive x' = true ∧
      root_handle_for_listen_handle x' = root_handle_for_listen_handle x ∧ root_handle_for_source x' = root_handle_for_source x.
Proof.
  intros Hok. eexists. split; [exact (remove_done h s Hok)|]. unfold dropped, wrappers_left.
  destruct (ls_roots s !! h) as [[w|]|] eqn:E.
  - destruct (lo_listening _ _ _ Hok h w E) as (p & x & Hw & Hp & _ & Hh). rewrite Hw. cbn [fresh_wrapper]. rewrite Hp.
    split; [exact (drop_wrapper h w p x s Hok E Hw Hp Hh)|]. split; [reflexivity|]. split; [reflexivity|]. cbn. intros p' x' Hp' Hl.
    rewrite drop_once_lookup. destruct (decide (p' = p)) as [->|_]; [|exists x'; auto].
    rewrite Hp in Hp'. injection Hp' as <-. rewrite Hl. eexists. split; [reflexivity|]. auto.
  - split; [apply (drop_other h s Hok); congruence|]. split; [reflexivity|]. split; [reflexivity|]. intros p x Hp Hl. exists x. auto.
  - split; [apply (drop_other h s Hok); congruence|]. split; [reflexivity|]. split; [reflexivity|]. intros p x Hp Hl. exists x. auto.
Qed.
End drop.

(** *** Changes of one struct *)
Section change.
Context {leaked calls : list nat}.

Lemma update_proxy p x x' s :
  listen_ok leaked calls s → ls_proxies s !! p = Some x → once_wrapper_alive x' = once_wrapper_alive x →
  lua_object_alive x' = true ∨ once_wrapper_alive x' = true ∨ p ∈ leaked →
  root_handle_for_listen_handle x' = root_handle_for_listen_handle x ∧ root_handle_for_source x' = root_handle_for_source x ∨
  root_handle_for_listen_handle x' = 0 ∧ once_wrapper_alive x = false →
  listen_ok leaked calls (with_proxies <[p := x']> s).
Proof.
  intros [H1 H2 H3 H4 H5 H6 H7 H8 H9 H10] Hp Ho Halive Hh.
  assert (∀ q y, <[p := x']> (ls_proxies s) !! q = Some y → q ≠ p ∧ ls_proxies s !! q = Some y ∨ q = p ∧ y = x') as Hcases.
  { intros q y [[-> ->]|[Hne E]]%lookup_insert_Some; auto. }
  assert (∀ q y, once_wrapper_alive y = true → ls_proxies s !! q = Some y → ∃ y', <[p := x']> (ls_proxies s) !! q = Some y' ∧
    once_wrapper_alive y' = true ∧ root_handle_for_listen_handle y' = root_handle_for_listen_handle y) as Hnew.
  { intros q y Hy E. destruct (decide (q = p)) as [->|Hne]; [|exists y; rewrite lookup_insert_ne by congruence; auto].
    rewrite Hp in E. injection E as <-. exists x'. rewrite lookup_insert_eq. split; [reflexivity|].
    destruct Hh as [[Hh _]|[_ Hh]]; [split; congruence|congruence]. }
  constructor; cbn; try assumption.
  - intros q y [[_ E]|[-> ->]]%Hcases; [exact (H1 q y E)|]. split; [exact (proj1 (H1 p x Hp))|exact Halive].
  - intros q y [[_ E]|[-> ->]]%Hcases; [exact (H2 q y E)|]. destruct Hh as [[-> ->]|[-> _]]; [exact (H2 p x Hp)|left; reflexivity].
  - assert (∀ q y, q ≠ p → ls_proxies s !! q = Some y → root_handle_for_listen_handle x' ≠ 0 →
      root_handle_for_listen_handle y ≠ root_handle_for_listen_handle x') as Hne.
    { intros q y Hne E Hz Heq. destruct Hh as [[Hh _]|[Hh _]]; [|exact (Hz Hh)]. rewrite Hh in *. exact (Hne (H3 p x q y Hp E Hz Heq)). }
    intros q y q' y' [[Hq E]|[-> ->]]%Hcases [[Hq' E']|[-> ->]]%Hcases Hz Heq; [exact (H3 q y q' y' E E' Hz Heq)| | |reflexivity].
    + exfalso. rewrite Heq in Hne. apply (Hne q y Hq E); congruence.
    + exfalso. exact (Hne q' y' Hq' E' Hz Heq).
  - intros q y [[_ E]|[-> ->]]%Hcases Hy; [exact (H4 q y E Hy)|]. rewrite Ho in Hy. destruct (H4 p x Hp Hy) as (w & Hw & Hr).
    exists w. split; [exact Hw|]. destruct Hh as [[-> _]|[_ Hh]]; [exact Hr|congruence].
  - intros h w E. destruct (H6 h w E) as (q & y & E1 & E2 & E3 & E4). destruct (Hnew q y E3 E2) as (y' & F1 & F2 & F3).
    exists q, y'. split; [exact E1|]. split; [exact F1|]. split; [exact F2|congruence].
  - intros w wr E. destruct (H7 w wr E) as [Hlt [?|(q & y & -> & E1 & E2 & E3)]]; (split; [exact Hlt|]); [left; assumption|right].
    destruct (Hnew q y E2 E1) as (y' & F1 & F2 & F3). exists q, y'. rewrite F3. auto.
Qed.

Lemma delete_proxy p x s :
  listen_ok leaked calls s → ls_proxies s !! p = Some x → once_wrapper_alive x = false →
  listen_ok leaked calls (with_proxies (delete p) s).
Proof.
  intros [H1 H2 H3 H4 H5 H6 H7 H8 H9 H10] Hp Ho.
  assert (∀ q y, delete p (ls_proxies s) !! q = Some y → ls_proxies s !! q = Some y) as Hold.
  { intros q y [_ E]%lookup_delete_Some. exact E. }
  assert (∀ q y, once_wrapper_alive y = true → ls_proxies s !! q = Some y → delete p (ls_proxies s) !! q = Some y) as Hkeep.
  { intros q y Hy E. rewrite lookup_delete_ne; [exact E|]. intros ->. congruence. }
  constructor; cbn; try assumption.
  - intros q y E. exact (H1 q y (Hold _ _ E)).
  - intros q y E. exact (H2 q y (Hold _ _ E)).
  - intros q y q' y' E E'. exact (H3 q y q' y' (Hold _ _ E) (Hold _ _ E')).
  - intros q y E. exact (H4 q y (Hold _ _ E)).
  - intros h w E. destruct (H6 h w E) as (q & y & E1 & E2 & E3 & E4). exists q, y. auto.
  - intros w wr E. destruct (H7 w wr E) as [Hlt [?|(q & y & -> & E1 & E2 & E3)]]; (split; [exact Hlt|]); [left; assumption|right].
    exists q, y. auto.
Qed.

Lemma add_called w s :
  listen_ok leaked calls s → ls_wrappers s !! w = None → (w < ls_next s)%nat →
  listen_ok leaked (w :: calls) (with_wrappers <[w := called_wrapper]> s).
Proof.
  intros [H1 H2 H3 H4 H5 H6 H7 H8 H9 H10] Hw Hlt.
  assert (∀ v wr, ls_wrappers s !! v = Some wr → <[w := called_wrapper]> (ls_wrappers s) !! v = Some wr) as Hkeep.
  { intros v wr E. rewrite lookup_insert_ne; [exact E|]. intros ->. congruence. }
  constructor; cbn; try assumption.
  - intros p x Hp Ho. destruct (H4 p x Hp Ho) as (v & E1 & E2). exists v. auto.
  - intros h v E. destruct (H6 h v E) as (p & x & E1 & E2). exists p, x. auto.
  - intros v wr [[-> <-]|[Hne E]]%lookup_insert_Some; [split; [exact Hlt|]; left; split; [reflexivity|left]|].
    destruct (H7 v wr E) as [Hv [[-> Hin]|E']]; (split; [exact Hv|]); [left; split; [reflexivity|right; exact Hin]|right; exact E'].
  - intros v [->|Hin]%elem_of_cons; [apply lookup_insert_eq|exact (Hkeep _ _ (H8 v Hin))].
  - apply NoDup_cons. split; [|exact H9]. intros Hin%H8. congruence.
Qed.

Lemma remove_called w s :
  listen_ok leaked calls s → w ∈ calls → listen_ok leaked (filter (λ w', w' ≠ w) calls) (with_wrappers (delete w) s).
Proof.
  intros [H1 H2 H3 H4 H5 H6 H7 H8 H9 H10] Hw. pose proof (H8 w Hw) as E0.
  assert (∀ v p, ls_wrappers s !! v = Some (fresh_wrapper p) → delete w (ls_wrappers s) !! v = Some (fresh_wrapper p)) as Hkeep.
  { intros v p E. rewrite lookup_delete_ne; [exact E|]. intros <-. rewrite E0 in E. discriminate. }
  constructor; cbn; try assumption.
  - intros p x Hp Ho. destruct (H4 p x Hp Ho) as (v & E1 & E2). exists v. auto.
  - intros h v E. destruct (H6 h v E) as (p & x & E1 & E2). exists p, x. auto.
  - intros v wr [Hne E]%lookup_delete_Some. destruct (H7 v wr E) as [Hv [[-> Hin]|E']]; (split; [exact Hv|]); [left|right; exact E'].
    split; [reflexivity|]. apply list_elem_of_filter. auto.
  - intros v [Hne Hin]%list_elem_of_filter. rewrite lookup_delete_ne by congruence. exact (H8 v Hin).
  - apply NoDup_filter, H9.
Qed.
End change.

(** *** Operations *)
Section operations.
Context {leaked calls : list nat}.

Lemma put_proxy_done p x s : put_proxy p x s = Done tt (with_proxies <[p := x]> s).
Proof. reflexivity. Qed.

Lemma stop_listener_ok p s :
  listen_ok leaked calls s → (∃ x, ls_proxies s !! p = Some x ∧ lua_object_alive x = true) →
  ∃ s', di_lua_stop_listener_impl p s = Done tt s' ∧ listen_ok leaked calls s'.
Proof.
  intros Hok (x & Hp & Hl). destruct (decide (root_handle_for_listen_handle x = 0)) as [E|E].
  { exists s. split; [|exact Hok]. eapply then_done; [exact (get_proxy_done p x s Hp)|]. rewrite E. reflexivity. }
  destruct (lo_handles _ _ _ Hok p x Hp) as [E'|(_ & Hsrc & Hnone)]; [destruct (E E')|].
  destruct (remove_ok (root_handle_for_listen_handle x) s Hok) as (s1 & R1 & Hok1 & Hroots1 & _ & Hkeep1).
  destruct (Hkeep1 p x Hp Hl) as (x1 & Hp1 & Hl1 & Eh1 & Es1).
  destruct (remove_ok (root_handle_for_source x1) s1 Hok1) as (s2 & R2 & Hok2 & Hroots2 & _ & Hkeep2).
  destruct (Hkeep2 p x1 Hp1 Hl1) as (x2 & Hp2 & Hl2 & Eh2 & _).
  exists (with_proxies <[p := set_handles 0 0 x2]> s2). split.
  - eapply then_done; [exact (get_proxy_done p x s Hp)|]. rewrite (proj2 (Z.eqb_neq _ _) E).
    eapply then_done with (s' := s) (a := tt); [rewrite (proj2 (Z.eqb_neq _ _)) by lia; reflexivity|].
    eapply then_done; [exact R1|]. eapply then_done; [exact (get_proxy_done p x1 s1 Hp1)|].
    eapply then_done; [exact R2|]. eapply then_done; [exact (get_proxy_done p x2 s2 Hp2)|]. reflexivity.
  - apply (update_proxy p x2); [exact Hok2|exact Hp2|reflexivity|left; exact Hl2|]. right. split; [reflexivity|].
    destruct (once_wrapper_alive x2) eqn:Eo; [|reflexivity]. destruct (lo_once _ _ _ Hok2 p x2 Hp2 Eo) as (w & _ & Hr).
    rewrite Eh2, Eh1, Hroots2, Hroots1 in Hr. apply lookup_delete_Some in Hr as [_ Hr]. rewrite lookup_delete_eq in Hr. discriminate.
Qed.

Lemma gc_ok p s :
  listen_ok leaked calls s → (∃ x, ls_proxies s !! p = Some x ∧ lua_object_alive x = true) →
  ∃ s', di_lua_gc_for_listen_handle p s = Done tt s' ∧ listen_ok leaked calls s'.
Proof.
  intros Hok (x & Hp & Hl). eexists. split.
  - eapply then_done; [exact (get_proxy_done p x s Hp)|]. eapply then_done; [reflexivity|].
    unfold di_lua_free_listen_handle. eapply then_done; [apply get_proxy_done; cbn; apply lookup_insert_eq|].
    cbn [lua_object_alive once_wrapper_alive set_lua orb].
    instantiate (1 := if once_wrapper_alive x then with_proxies <[p := set_lua false x]> s else with_proxies (delete p) s).
    destruct (once_wrapper_alive x); [reflexivity|]. unfold modify, with_proxies. cbn. rewrite delete_insert_eq. reflexivity.
  - destruct (once_wrapper_alive x) eqn:Eo; [|exact (delete_proxy p x s Hok Hp Eo)].
    apply (update_proxy p x); [exact Hok|exact Hp|reflexivity|right; left; exact Eo|left; split; reflexivity].
Qed.

Lemma emit_ok h w s :
  listen_ok leaked calls s → ls_roots s !! h = Some (Some w) →
  ∃ s', (ref_wrapper w;; call_lua_signal_handler_once w) s = Done tt s' ∧ listen_ok leaked (w :: calls) s'.
Proof.
  intros Hok Hr. destruct (lo_listening _ _ _ Hok h w Hr) as (p & x & Hw & Hp & Ho & Hh).
  destruct (lo_handles _ _ _ Hok p x Hp) as [E|(Hrh & Hsrc & Hnone)].
  { destruct (lo_roots _ _ _ Hok h _ Hr). lia. }
  destruct (lo_wrappers _ _ _ Hok w _ Hw) as [Hlt _].
  set (src := root_handle_for_source x) in *.
  assert (delete h (ls_roots s) !! src ≠ Some (Some w) ∧ ∀ v, delete h (ls_roots s) !! src ≠ Some (Some v)) as [_ Hnone'].
  { split; [|intros v]; intros [_ Ev]%lookup_delete_Some; exact (Hnone _ Ev). }
  pose proof (drop_wrapper h w p x s Hok Hr Hw Hp Hh) as Hok1.
  pose proof (drop_other src _ Hok1 Hnone') as Hok2. cbn in Hok2.
  set (z := set_handles 0 0 x).
  exists (ListenState (drop_once p z (<[p := z]> (ls_proxies s))) (<[w := called_wrapper]> (ls_wrappers s))
    (delete src (delete h (ls_roots s))) (ls_next s) (ls_next_root s)). split.
  - eapply then_done.
    { eapply then_done; [exact (get_wrapper_done _ _ _ Hw)|]. reflexivity. }
    cbn [fresh_wrapper wr_refs wr_listen_handle wr_dtor]. unfold call_lua_signal_handler_once.
    eapply then_done; [apply get_wrapper_done; cbn; apply lookup_insert_eq|]. eapply then_done; [reflexivity|].
    eapply then_done.
    { eapply then_done; [apply get_proxy_done; exact Hp|]. rewrite Hh, (proj2 (Z.eqb_neq h 0)) by lia.
      eapply then_done; [fold src; rewrite (proj2 (Z.eqb_neq src 0)) by lia; reflexivity|].
      eapply then_done.
      { unfold remove_anonymous. eapply then_done; [reflexivity|]. cbn [ls_roots with_wrappers]. rewrite Hr.
        eapply then_done; [reflexivity|]. eapply then_done; [apply get_wrapper_done; cbn; apply lookup_insert_eq|]. reflexivity. }
      eapply then_done; [apply get_proxy_done; exact Hp|]. fold src.
      eapply then_done.
      { unfold remove_anonymous. eapply then_done; [reflexivity|]. cbn [ls_roots with_wrappers with_roots].
        instantiate (1 := with_roots (λ _, delete src (delete h (ls_roots s))) (with_wrappers <[w := fresh_wrapper p]> s)).
        instantiate (1 := tt). unfold modify, with_wrappers, with_roots. cbn. rewrite insert_insert_eq.
        destruct (delete h (ls_roots s) !! src) as [[v|]|] eqn:Ev; [destruct (Hnone' v eq_refl)|reflexivity|].
        rewrite (delete_id _ _ Ev). reflexivity. }
      eapply then_done; [apply get_proxy_done; exact Hp|]. reflexivity. }
    cbn [with_roots with_wrappers with_proxies ls_proxies ls_wrappers ls_roots ls_next ls_next_root].
    eapply eq_trans; [apply (finalize_done w 1 p z); cbn; apply lookup_insert_eq|]. cbn. rewrite insert_insert_eq. reflexivity.
  - pose proof (add_called w _ Hok2 (lookup_delete_eq _ _) Hlt) as Hok3. unfold with_wrappers in Hok3. cbn in Hok3.
    rewrite insert_delete_eq in Hok3.
    assert (drop_once p z (<[p := z]> (ls_proxies s)) =
      if lua_object_alive x then <[p := set_handles 0 0 (set_once false x)]> (drop_once p x (ls_proxies s)) else drop_once p x (ls_proxies s)) as ->.
    { unfold drop_once. cbn [z set_handles lua_object_alive]. destruct (lua_object_alive x);
        rewrite ?insert_insert_eq, ?delete_insert_eq; reflexivity. }
    destruct (lua_object_alive x) eqn:El; [|exact Hok3].
    refine (update_proxy p (set_once false x) (set_handles 0 0 (set_once false x)) _ Hok3 _ eq_refl (or_introl El) (or_intror (conj eq_refl eq_refl))).
    cbn. rewrite drop_once_lookup, decide_True, El by reflexivity. reflexivity.
Qed.
(** New numbers, and a struct that is lost. *)
Lemma more_next n s :
  listen_ok leaked calls s → (ls_next s ≤ n)%nat →
  listen_ok leaked calls (ListenState (ls_proxies s) (ls_wrappers s) (ls_roots s) n (ls_next_root s)).
Proof.
  intros [H1 H2 H3 H4 H5 H6 H7 H8 H9 H10] Hn. constructor; cbn; try assumption.
  - intros p x Hp. destruct (H1 p x Hp) as [Hlt H]. split; [lia|exact H].
  - intros w wr Hw. destruct (H7 w wr Hw) as [Hlt H]. split; [lia|exact H].
Qed.

Lemma fresh_proxy p s : listen_ok leaked calls s → (ls_next s ≤ p)%nat → ls_proxies s !! p = None.
Proof.
  intros Hok Hp. destruct (ls_proxies s !! p) as [x|] eqn:E; [|reflexivity]. destruct (lo_proxies _ _ _ Hok p x E). lia.
Qed.

Lemma leak_struct_ok p n s :
  listen_ok leaked calls s → (ls_next s ≤ p < n)%nat →
  listen_ok (p :: leaked) calls
    (ListenState (<[p := ListenProxy 0 0 false false]> (ls_proxies s)) (ls_wrappers s) (ls_roots s) n (ls_next_root s)).
Proof.
  intros Hok Hp. pose proof (fresh_proxy p s Hok (proj1 Hp)) as Hnone.
  destruct Hok as [H1 H2 H3 H4 H5 H6 H7 H8 H9 H10].
  assert (∀ q y, ls_proxies s !! q = Some y → <[p := ListenProxy 0 0 false false]> (ls_proxies s) !! q = Some y) as Hkeep.
  { intros q y E. rewrite lookup_insert_ne; [exact E|]. intros ->. congruence. }
  constructor; cbn; try assumption.
  - intros q y [[-> <-]|[_ E]]%lookup_insert_Some; [split; [lia|right; right; left]|].
    destruct (H1 q y E) as [Hlt [H|[H|H]]]; (split; [lia|]); [auto|auto|right; right; right; exact H].
  - intros q y [[-> <-]|[_ E]]%lookup_insert_Some; [left; reflexivity|exact (H2 q y E)].
  - intros q y q' y' [[-> <-]|[_ E]]%lookup_insert_Some E' Hz Heq; [destruct (Hz eq_refl)|].
    apply lookup_insert_Some in E' as [[-> <-]|[_ E']]; [cbn in Heq; congruence|exact (H3 q y q' y' E E' Hz Heq)].
  - intros q y [[-> <-]|[_ E]]%lookup_insert_Some Hy; [discriminate Hy|exact (H4 q y E Hy)].
  - intros h w E. destruct (H6 h w E) as (q & y & E1 & E2 & E3). exists q, y. auto.
  - intros w wr E. destruct (H7 w wr E) as [Hlt [?|(q & y & -> & E1 & E2 & E3)]]; (split; [lia|]); [left; assumption|right].
    exists q, y. auto.
Qed.

(** A listener, with a wrapper or without. *)
Definition listener_state (p : nat) (ow : option nat) (n : nat) (s : listen_state) : listen_state :=
  let h := ls_next_root s in
  ListenState (<[p := ListenProxy h (h + 1) (bool_decide (is_Some ow)) true]> (ls_proxies s))
    (match ow with Some w => <[w := fresh_wrapper p]> (ls_wrappers s) | None => ls_wrappers s end)
    (<[h + 1 := None]> (<[h := ow]> (ls_roots s))) n (h + 2).

Lemma listener_ok p ow n s :
  listen_ok leaked calls s → (ls_next s ≤ p < n)%nat → (∀ w, ow = Some w → ls_next s ≤ w < n)%nat →
  listen_ok leaked calls (listener_state p ow n s).
Proof.
  intros Hok Hp How. pose proof (fresh_proxy p s Hok (proj1 Hp)) as Hnone. destruct Hok as [H1 H2 H3 H4 H5 H6 H7 H8 H9 H10].
  assert (∀ w, ow = Some w → ls_wrappers s !! w = None) as Hfw.
  { intros w E. destruct (ls_wrappers s !! w) as [wr|] eqn:Ew; [|reflexivity]. destruct (H7 w wr Ew). specialize (How w E). lia. }
  unfold listener_state. remember (ls_next_root s) as h eqn:Hnext. set (x := ListenProxy h (h + 1) _ true).
  set (W := match ow with Some w => _ | None => _ end). set (R := <[h + 1 := None]> _).
  assert (∀ q y, <[p := x]> (ls_proxies s) !! q = Some y → q = p ∧ y = x ∨ ls_proxies s !! q = Some y) as Hcases.
  { intros q y [[-> <-]|[_ E]]%lookup_insert_Some; auto. }
  assert (∀ q y, ls_proxies s !! q = Some y → <[p := x]> (ls_proxies s) !! q = Some y) as Hkeep.
  { intros q y E. rewrite lookup_insert_ne; [exact E|]. intros ->. congruence. }
  assert (∀ w wr, ls_wrappers s !! w = Some wr → W !! w = Some wr) as HkeepW.
  { intros w wr E. subst W. destruct ow as [v|]; [|exact E]. rewrite lookup_insert_ne; [exact E|].
    intros ->. rewrite (Hfw w eq_refl) in E. discriminate. }
  assert (∀ w wr, W !! w = Some wr → ow = Some w ∧ wr = fresh_wrapper p ∨ ls_wrappers s !! w = Some wr) as HcasesW.
  { intros w wr. subst W. destruct ow as [v|]; [|auto]. intros [[-> <-]|[_ E]]%lookup_insert_Some; auto. }
  assert (∀ g r, ls_roots s !! g = Some r → R !! g = Some r) as HkeepR.
  { intros g r E. destruct (H5 g r E) as [_ Hg]. subst R. rewrite !lookup_insert_ne by lia. exact E. }
  assert (∀ g r, R !! g = Some r → g = h + 1 ∧ r = None ∨ g = h ∧ r = ow ∨ ls_roots s !! g = Some r) as HcasesR.
  { intros g r. subst R. intros [[Eg <-]|[_ [[Eg <-]|[_ E]]%lookup_insert_Some]]%lookup_insert_Some; auto. }
  assert (R !! h = Some ow) as HR by (subst R; rewrite lookup_insert_ne by lia; apply lookup_insert_eq).
  constructor; cbn [ls_proxies ls_wrappers ls_roots ls_next ls_next_root]; try assumption.
  - intros q y [[-> ->]|E]%Hcases; [split; [lia|left; reflexivity]|]. destruct (H1 q y E) as [Hlt H]. split; [lia|exact H].
  - intros q y [[-> ->]|E]%Hcases.
    + right. cbn. split; [lia|]. split; [lia|]. intros w E. apply HcasesR in E as [[_ E]|[[E _]|E]]; [discriminate|lia|].
      destruct (H5 _ _ E). lia.
    + destruct (H2 q y E) as [E1|(E1 & E2 & E3)]; [left; exact E1|right]. split; [lia|]. split; [lia|].
      intros w Ew. apply HcasesR in Ew as [[_ Ew]|[[Ew _]|Ew]]; [discriminate|lia|exact (E3 w Ew)].
  - assert (∀ q y, ls_proxies s !! q = Some y → root_handle_for_listen_handle y ≠ h) as Hne.
    { intros q y E Eh. destruct (H2 q y E) as [E1|(E1 & _)]; lia. }
    intros q y q' y' [[-> ->]|E]%Hcases [[-> ->]|E']%Hcases Hz Heq; [reflexivity| | |exact (H3 q y q' y' E E' Hz Heq)].
    + destruct (Hne q' y' E' Heq).
    + destruct (Hne q y E (eq_sym Heq)).
  - intros q y [[-> ->]|E]%Hcases Hy.
    + cbn in Hy. apply bool_decide_eq_true_1 in Hy as [w ->]. exists w. split; [subst W; apply lookup_insert_eq|exact HR].
    + destruct (H4 q y E Hy) as (w & E1 & E2). exists w. auto.
  - intros g r [[Eg _]|[[Eg _]|E]]%HcasesR; [lia|lia|]. destruct (H5 g r E). lia.
  - intros g w E. apply HcasesR in E as [[_ E]|[[Eg E]|E]]; [discriminate| |].
    + subst ow. exists p, x. split; [subst W; apply lookup_insert_eq|]. split; [apply lookup_insert_eq|]. split; [reflexivity|exact (eq_sym Eg)].
    + destruct (H6 g w E) as (q & y & E1 & E2 & E3). exists q, y. auto.
  - intros w wr [[E ->]|E]%HcasesW.
    + split; [exact (proj2 (How w E))|]. right. exists p, x. split; [reflexivity|]. split; [apply lookup_insert_eq|].
      subst ow. split; [reflexivity|exact HR].
    + destruct (H7 w wr E) as [Hlt [?|(q & y & -> & E1 & E2 & E3)]]; (split; [lia|]); [left; assumption|right].
      exists q, y. auto.
  - intros w Hin. apply HkeepW, H8, Hin.
  - lia.
Qed.

(** [di_lua_add_listener] *)
Lemma add_done once listened s :
  ls_proxies s !! ls_next s = None → ls_wrappers s !! Datatypes.S (ls_next s) = None →
  let p := ls_next s in let w := Datatypes.S p in
  di_lua_add_listener once listened s =
    match once, listened with
    | true, true => Done (Some p) (listener_state p (Some w) (Datatypes.S w) s)
    | false, true => Done (Some p) (listener_state p None w s)
    | true, false => Done None (ListenState (ls_proxies s) (ls_wrappers s) (ls_roots s) (Datatypes.S w) (ls_next_root s))
    | false, false =>
        Done None (ListenState (<[p := ListenProxy 0 0 false false]> (ls_proxies s)) (ls_wrappers s) (ls_roots s) w (ls_next_root s))
    end.
Proof.
  intros Hp Hw p w. unfold di_lua_add_listener.
  destruct once, listened; unfold unref_wrapper, finalize_wrapper, di_lua_signal_handler_wrapper_dtor, di_lua_free_listen_handle,
    ref_wrapper, add_anonymous, get_proxy, put_proxy, get_wrapper, put_wrapper, alloc, from_opt, modify, get, mret, ST_ret, mbind, ST_bind;
    cbn -[insert delete lookup]; fold p w.
  all: repeat (rewrite ?lookup_insert_eq; cbn -[insert delete lookup]).
  all: unfold with_proxies, with_wrappers, listener_state; cbn -[insert delete lookup].
  all: rewrite ?insert_insert_eq, ?delete_insert_eq, ?(delete_id _ _ Hp), ?(delete_id _ _ Hw), <- ?Z.add_assoc; reflexivity.
Qed.

Lemma add_ok once listened s :
  listen_ok leaked calls s → ∃ r s', di_lua_add_listener once listened s = Done r s' ∧ (is_Some r ↔ listened = true) ∧
    listen_ok (if negb once && negb listened then ls_next s :: leaked else leaked) calls s'.
Proof.
  intros Hok. pose proof (fresh_proxy (ls_next s) s Hok (le_n _)) as Hp.
  assert (ls_wrappers s !! Datatypes.S (ls_next s) = None) as Hw.
  { destruct (ls_wrappers s !! _) as [wr|] eqn:E; [|reflexivity]. destruct (lo_wrappers _ _ _ Hok _ wr E). lia. }
  pose proof (add_done once listened s Hp Hw) as E. cbv zeta in E. destruct once, listened; cbn [negb andb];
    (eexists _, _; split; [exact E|]; split; [split; [done|try (intros; done); intros [v Hv]; discriminate Hv]|]).
  - apply listener_ok; [exact Hok|lia|]. intros w [= <-]. lia.
  - apply more_next; [exact Hok|lia].
  - apply listener_ok; [exact Hok|lia|discriminate].
  - apply leak_struct_ok; [exact Hok|lia].
Qed.

(** A root that is dropped by itself. *)
Lemma drop_root_ok h s : listen_ok leaked calls s → ∃ s', remove_anonymous h s = Done tt s' ∧ listen_ok leaked calls s'.
Proof. intros Hok. destruct (remove_ok h s Hok) as (s' & E & Hok' & _). exists s'. auto. Qed.
End operations.

(** The structs that an operation leaks: the one of a listener, not a [once] one, that
    could not be added. *)
Definition leaked_after (op : listen_op) (s : listen_state) (leaked : list nat) : list nat :=
  match op with Add false false => ls_next s :: leaked | _ => leaked end.

Lemma perform_ok op s leaked calls :
  listen_ok leaked calls s → listen_op_ok op s calls →
  ∃ s', perform_listen op s = Done tt s' ∧ listen_ok (leaked_after op s leaked) (calls_after op s calls) s'.
Proof.
  intros Hok Hop. destruct op as [once listened|p|p|h|w|h]; cbn [perform_listen leaked_after calls_after listen_op_ok] in *.
  - destruct (add_ok once listened s Hok) as (r & s' & E & _ & Hok'). exists s'. split.
    + eapply then_done; [exact E|reflexivity].
    + destruct once, listened; exact Hok'.
  - exact (stop_listener_ok p s Hok Hop).
  - exact (gc_ok p s Hok Hop).
  - destruct (ls_roots s !! h) as [[w|]|] eqn:E.
    + destruct (emit_ok h w s Hok E) as (s' & E' & Hok'). exists s'. split; [|exact Hok'].
      eapply then_done; [reflexivity|]. rewrite E. exact E'.
    + exists s. split; [|exact Hok]. eapply then_done; [reflexivity|]. rewrite E. reflexivity.
    + exists s. split; [|exact Hok]. eapply then_done; [reflexivity|]. rewrite E. reflexivity.
  - eexists. split; [exact (unref_called w s (lo_calls _ _ _ Hok w Hop))|exact (remove_called w s Hok Hop)].
  - exact (drop_root_ok h s Hok).
Qed.

(** ** Reachable states

    A configuration is the structs that were leaked, the wrappers that are being called
    and the state. *)
Definition no_listeners : listen_state := ListenState ∅ ∅ ∅ 0 1.

Inductive listen_step : list nat * list nat * listen_state → list nat * list nat * listen_state → Prop :=
  | step_of op leaked calls s s' :
      listen_op_ok op s calls → perform_listen op s = Done tt s' →
      listen_step (leaked, calls, s) (leaked_after op s leaked, calls_after op s calls, s').

Lemma no_listeners_ok : listen_ok [] [] no_listeners.
Proof.
  constructor; cbn; try (intros *; rewrite lookup_empty; discriminate); [intros w []%not_elem_of_nil|constructor|lia].
Qed.

Lemma reachable_ok c c' :
  rtc listen_step c c' → listen_ok c.1.1 c.1.2 c.2 → listen_ok c'.1.1 c'.1.2 c'.2.
Proof.
  induction 1 as [c|c c1 c' Hstep _ IH]; [auto|]. intros Hok. apply IH. destruct Hstep as [op leaked calls s s' Hop E].
  destruct (perform_ok op s leaked calls Hok Hop) as (s2 & E2 & Hok2). rewrite E in E2. injection E2 as <-. exact Hok2.
Qed.

(** Nothing is left when nothing has it. *)
Lemma nothing_left leaked s :
  listen_ok leaked [] s → ls_roots s = ∅ → (∀ p x, ls_proxies s !! p = Some x → lua_object_alive x = false) →
  ls_wrappers s = ∅ ∧ ∀ p, is_Some (ls_proxies s !! p) → p ∈ leaked.
Proof.
  intros Hok Hr Hl. split.
  - apply map_empty. intros w. destruct (ls_wrappers s !! w) as [wr|] eqn:E; [|reflexivity].
    destruct (lo_wrappers _ _ _ Hok w wr E) as [_ [[_ []%not_elem_of_nil]|(p & x & _ & _ & _ & Hw)]].
    rewrite Hr, lookup_empty in Hw. discriminate.
  - intros p [x Hp]. destruct (lo_proxies _ _ _ Hok p x Hp) as [_ [H|[H|H]]]; [|destruct (lo_once _ _ _ Hok p x Hp H) as (w & _ & Hw)|exact H].
    + rewrite (Hl p x Hp) in H. discriminate.
    + rewrite Hr, lookup_empty in Hw. discriminate.
Qed.

(** C24. Listeners of scripts, from none on and in any order of adding, stopping,
    dropping the Lua proxy, emitting to [once] handlers, their return and dropping roots:
    the shared struct is never used after it was freed and no object loses a reference it
    does not have, so every operation that is possible ends normally; once no root, no call
    and no Lua proxy is left, no handler is, and no struct is but those of listeners that
    could not be added. *)
Theorem listeners_ok leaked calls s :
  rtc listen_step ([], [], no_listeners) (leaked, calls, s) →
  (∀ op, listen_op_ok op s calls → ∃ s', perform_listen op s = Done tt s') ∧
  (calls = [] → ls_roots s = ∅ → (∀ p x, ls_proxies s !! p = Some x → lua_object_alive x = false) →
    ls_wrappers s = ∅ ∧ ∀ p, is_Some (ls_proxies s !! p) → p ∈ leaked).
Proof.
  intros H. apply reachable_ok in H; [|exact no_listeners_ok]. cbn [fst snd] in H. split.
  - intros op Hop. destruct (perform_ok op s leaked calls H Hop) as (s' & E & _). exists s'. exact E.
  - intros -> Hr Hl. exact (nothing_left leaked s H Hr Hl).
Qed.

(** A [once] listener whose signal is emitted, with its proxy dropped while it is called;
    and the struct that an addition without success leaks. *)
Lemma listeners_ok_witness :
  let s := ListenState {[2%nat := ListenProxy 0 0 false false]} ∅ ∅ 3 3 in
  rtc listen_step ([], [], no_listeners) ([2%nat], [], s) ∧ ls_wrappers s = ∅ ∧ ∀ p, is_Some (ls_proxies s !! p) → p ∈ [2%nat].
Proof.
  intros s. assert (rtc listen_step ([], [], no_listeners) ([2%nat], [], s)) as H.
  { eapply rtc_l; [eapply (step_of (Add true true)); [exact I|vm_compute; reflexivity]|].
    eapply rtc_l; [eapply (step_of (Emit 1)); [exact I|vm_compute; reflexivity]|].
    eapply rtc_l; [eapply (step_of (Gc 0)); [eexists; split; reflexivity|vm_compute; reflexivity]|].
    eapply rtc_l; [eapply (step_of (Return 1)); [left|vm_compute; reflexivity]|].
    eapply rtc_l; [eapply (step_of (Add false false)); [exact I|vm_compute; reflexivity]|]. apply rtc_refl. }
  split; [exact H|]. apply (proj2 (listeners_ok _ _ _ H)); [reflexivity|reflexivity|].
  intros p x E. cbn in E. apply lookup_singleton_Some in E as [_ <-]. reflexivity.
Defined.
