(* ===== verification/XorgConn.v ===== *)
(** * The life of an X connection (plugins/xorg/xorg.c)

    A connection, its extensions and the dispatch of events to them.  The table of
    extensions of a connection has no reference to them, while each extension has one to
    the connection; both are taken apart by destructors, which may run in either order. *)

From S2P Require Import Prelude.

(** ** The state

    One connection with its extensions; other connections have their own.

    - [xconn]: the object [struct di_xorg_connection]: its reference count, the flag
      [destroyed], whether its destructor is still set, whether its members are there
      (["__xcb_fd_event"] and the methods), whether [c] is not null, and the table [xext];
    - [xext]: the object of an extension, with [dc] not null or null, and the number of
      objects that [free] finalizes (key bindings), which refer to the extension;
    - [c_held], [e_held]: the references that clients have;
    - [x_open], [x_contexts]: the connections to the X server that are open, and the
      contexts of xkbcommon. *)
Record xconn := XConn {
  c_refs : nat;
  c_held : nat;
  c_destroyed : bool;
  c_dtor : bool;
  c_members : bool;
  c_c : bool;
  c_xext : list nat
}.

Record xext := XExt {
  e_refs : nat;
  e_held : nat;
  e_bindings : nat;
  e_destroyed : bool;
  e_dtor : bool;
  e_dc : bool;
  e_name : string
}.

Record xstate := XState {
  x_conn : option xconn;
  x_exts : gmap nat xext;
  x_next : nat;
  x_open : nat;
  x_contexts : nat
}.

Definition set_conn (c : option xconn) (s : xstate) : xstate := XState c (x_exts s) (x_next s) (x_open s) (x_contexts s).
Definition set_exts (m : gmap nat xext) (s : xstate) : xstate := XState (x_conn s) m (x_next s) (x_open s) (x_contexts s).
Definition set_next (n : nat) (s : xstate) : xstate := XState (x_conn s) (x_exts s) n (x_open s) (x_contexts s).
Definition set_server (o k : nat) (s : xstate) : xstate := XState (x_conn s) (x_exts s) (x_next s) o k.

Definition conn_refs (n : nat) (c : xconn) : xconn :=
  XConn n (c_held c) (c_destroyed c) (c_dtor c) (c_members c) (c_c c) (c_xext c).
Definition conn_held (n : nat) (c : xconn) : xconn :=
  XConn (c_refs c) n (c_destroyed c) (c_dtor c) (c_members c) (c_c c) (c_xext c).
Definition conn_xext (l : list nat) (c : xconn) : xconn :=
  XConn (c_refs c) (c_held c) (c_destroyed c) (c_dtor c) (c_members c) (c_c c) l.
Definition ext_refs (n : nat) (x : xext) : xext :=
  XExt n (e_held x) (e_bindings x) (e_destroyed x) (e_dtor x) (e_dc x) (e_name x).
Definition ext_held (n : nat) (x : xext) : xext :=
  XExt (e_refs x) n (e_bindings x) (e_destroyed x) (e_dtor x) (e_dc x) (e_name x).
Definition ext_bindings (n : nat) (x : xext) : xext :=
  XExt (e_refs x) (e_held x) n (e_destroyed x) (e_dtor x) (e_dc x) (e_name x).
Definition ext_dc (b : bool) (x : xext) : xext :=
  XExt (e_refs x) (e_held x) (e_bindings x) (e_destroyed x) (e_dtor x) b (e_name x).

(** Objects that were freed are not defined. *)
Definition get_conn : ST xstate xconn := s ← get; from_opt UseAfterFree (x_conn s).
Definition put_conn (c : xconn) : ST xstate unit := modify (set_conn (Some c)).
Definition get_x (e : nat) : ST xstate xext := s ← get; from_opt UseAfterFree (x_exts s !! e).
Definition put_x (e : nat) (x : xext) : ST xstate unit := s ← get; put (set_exts (<[e := x]> (x_exts s)) s).

(** ** Objects: object.c for the connection and its extensions *)
Inductive xref := C | X (e : nat).

Definition get_refs (o : xref) : ST xstate nat :=
  match o with C => c ← get_conn; mret (c_refs c) | X e => x ← get_x e; mret (e_refs x) end.
Definition put_refs (o : xref) (n : nat) : ST xstate unit :=
  match o with C => c ← get_conn; put_conn (conn_refs n c) | X e => x ← get_x e; put_x e (ext_refs n x) end.
Definition is_destroyed (o : xref) : ST xstate bool :=
  match o with C => c ← get_conn; mret (c_destroyed c) | X e => x ← get_x e; mret (e_destroyed x) end.
Definition set_destroyed (o : xref) : ST xstate unit :=
  match o with
  | C => c ← get_conn; put_conn (XConn (c_refs c) (c_held c) true (c_dtor c) (c_members c) (c_c c) (c_xext c))
  | X e => x ← get_x e; put_x e (XExt (e_refs x) (e_held x) (e_bindings x) true (e_dtor x) (e_dc x) (e_name x))
  end.
(** Whether the destructor is set; it is no longer afterwards. *)
Definition take_dtor (o : xref) : ST xstate bool :=
  match o with
  | C =>
      c ← get_conn;
      put_conn (XConn (c_refs c) (c_held c) (c_destroyed c) false (c_members c) (c_c c) (c_xext c));;
      mret (c_dtor c)
  | X e =>
      x ← get_x e;
      put_x e (XExt (e_refs x) (e_held x) (e_bindings x) (e_destroyed x) false (e_dc x) (e_name x));;
      mret (e_dtor x)
  end.
Definition remove_members (o : xref) : ST xstate unit :=
  match o with
  | C => c ← get_conn; put_conn (XConn (c_refs c) (c_held c) (c_destroyed c) (c_dtor c) false (c_c c) (c_xext c))
  | X e => _ ← get_x e; mret tt
  end.
Definition free_object (o : xref) : ST xstate unit :=
  match o with C => modify (set_conn None) | X e => modify (λ s, set_exts (delete e (x_exts s)) s) end.

(** [di_ref_object] *)
Definition di_ref_object (o : xref) : ST xstate unit := n ← get_refs o; put_refs o (S n).

(** [HASH_DEL] and the successor in the table. *)
Definition hash_del (e : nat) : ST xstate unit :=
  c ← get_conn;
  if bool_decide (e ∈ c_xext c) then put_conn (conn_xext (filter (λ e', e' ≠ e) (c_xext c)) c) else fail HashCorrupt.

Fixpoint successor (e : nat) (l : list nat) : option (option nat) :=
  match l with
  | [] => None
  | e' :: l' => if Nat.eqb e' e then Some (head l') else successor e l'
  end.

(** [HASH_ITER] over the extensions: the successor is read before the body runs.  The body
    tells whether to go on. *)
Fixpoint hash_iter (fuel : nat) (body : nat → ST xstate bool) (el : option nat) : ST xstate unit :=
  match el with
  | None => mret tt
  | Some e =>
      match fuel with
      | O => out_of_fuel
      | S fuel' =>
          c ← get_conn;
          tmp ← from_opt StaleIter (successor e (c_xext c));
          more ← body e;
          if (more : bool) then hash_iter fuel' body tmp else mret tt
      end
  end.

(** The names in [xext_reg]. *)
Definition xext_reg : list string := ["xinput"; "randr"; "key"]%string.
Definition iter_fuel : nat := S (length xext_reg).

Section objects.
Variable di_unref_object : xref → ST xstate unit.

(** [x->free]: the bindings of an extension are finalized; what it asks the X server for
    is in the files of the extensions. *)
Definition free_ext (e : nat) : ST xstate unit :=
  x ← get_x e;
  for_each (λ _, x ← get_x e; put_x e (ext_bindings (e_bindings x - 1) x);; di_unref_object (X e)) (repeat tt (e_bindings x)).

(** [di_xorg_free_sub] *)
Definition di_xorg_free_sub (e : nat) : ST xstate unit :=
  x ← get_x e;
  if e_dc x then
    hash_del e;;
    di_unref_object C;;
    x ← get_x e;
    put_x e (ext_dc false x);;
    free_ext e
  else mret tt.

(** [_di_finalize_object], with the destructor [dtor]. *)
Definition finalize_with (dtor : ST xstate unit) (o : xref) : ST xstate unit :=
  d ← take_dtor o;
  (if (d : bool) then dtor else mret tt);;
  remove_members o.

(** [di_finalize_object] of an extension. *)
Definition finalize_ext (e : nat) : ST xstate unit :=
  di_ref_object (X e);;
  finalize_with (di_xorg_free_sub e) (X e);;
  di_unref_object (X e).

(** [xorg_disconnect]; the tables of atoms are in Xorg. *)
Definition xorg_disconnect : ST xstate unit :=
  c ← get_conn;
  if negb (c_members c) then mret tt
  else
    modify (λ s, set_server (x_open s) (x_contexts s - 1) s);;
    hash_iter iter_fuel (λ e, finalize_ext e;; mret true) (head (c_xext c));;
    c ← get_conn;
    check (c_c c);;
    modify (λ s, set_server (x_open s - 1) (x_contexts s) s);;
    put_conn (XConn (c_refs c) (c_held c) (c_destroyed c) (c_dtor c) (c_members c) false (c_xext c)).

Definition run_dtor (o : xref) : ST xstate unit :=
  match o with C => xorg_disconnect | X e => di_xorg_free_sub e end.

(** [di_finalize_object] *)
Definition di_finalize_object (o : xref) : ST xstate unit :=
  di_ref_object o;;
  finalize_with (run_dtor o) o;;
  di_unref_object o.

(** [di_destroy_object] *)
Definition di_destroy_object (o : xref) : ST xstate unit :=
  di_ref_object o;;
  set_destroyed o;;
  finalize_with (run_dtor o) o;;
  di_unref_object o.
End objects.

(** [di_unref_object]; weak references are left out. *)
Fixpoint unref_object (fuel : nat) (o : xref) : ST xstate unit :=
  match fuel with
  | O => out_of_fuel
  | S fuel' =>
      n ← get_refs o;
      match n with
      | O => fail RefUnderflow
      | S n' =>
          put_refs o n';;
          if Nat.eqb n' 0 then
            d ← is_destroyed o;
            if (d : bool) then free_object o else di_destroy_object (unref_object fuel') o
          else mret tt
      end
  end.

(** The depth to which dropping a reference leads. *)
Definition depth : nat := 4.
Definition di_unref_object : xref → ST xstate unit := unref_object depth.

(** ** Operations of the connection *)

(** [di_xorg_connect_to]; [connects] is whether the X server can be reached, [has_event]
    whether the event module is there. *)
Definition di_xorg_connect_to (connects has_event : bool) : ST xstate bool :=
  if negb connects then mret false
  else
    modify (λ s, set_server (S (x_open s)) (x_contexts s) s);;
    if negb has_event then mret false
    else
      put_conn (XConn 1 1 false false false true []);;
      c ← get_conn;
      put_conn (XConn (c_refs c) (c_held c) (c_destroyed c) true true (c_c c) (c_xext c));;
      modify (λ s, set_server (x_open s) (S (x_contexts s)) s);;
      mret true.

(** A call of xcb with [c] of the connection, which must not be null. *)
Definition use_c : ST xstate unit := c ← get_conn; if c_c c then mret tt else fail NullDeref.

(** [HASH_FIND] in [xext]. *)
Definition find_ext (name : string) (s : xstate) (l : list nat) : option nat :=
  List.find (λ e, match x_exts s !! e with Some x => String.eqb (e_name x) name | None => false end) l.

(** [di_xorg_get_ext]; [new] tells whether the constructor of an extension, which asks the
    X server, succeeds.  The result is the extension or nothing. *)
Definition di_xorg_get_ext (new : bool) (name : string) : ST xstate (option nat) :=
  c ← get_conn;
  s ← get;
  match find_ext name s (c_xext c) with
  | Some e => di_ref_object (X e);; mret (Some e)
  | None =>
      if bool_decide (name ∈ xext_reg) && new then
        use_c;;
        let e := x_next s in
        modify (set_next (S e));;
        put_x e (XExt 1 0 0 false false true name);;
        x ← get_x e;
        put_x e (XExt (e_refs x) (e_held x) (e_bindings x) (e_destroyed x) true (e_dc x) (e_name x));;
        c ← get_conn;
        put_conn (conn_xext (c_xext c ++ [e]) c);;
        di_ref_object C;;
        mret (Some e)
      else mret None
  end.

(** [screen_of_display]: the screens of the setup, counted down. *)
Fixpoint screen_of_display {A} (screens : list A) (screen : Z) : option A :=
  match screens with
  | [] => None
  | data :: screens' => if Z.eqb screen 0 then Some data else screen_of_display screens' (screen - 1)
  end.

(** [get_screen]: the width and height of the default screen. *)
Definition get_screen (screens : list (Z * Z)) (dflt_scrn : Z) : ST xstate (list (string * Z)) :=
  use_c;;
  scrn ← from_opt NullDeref (screen_of_display screens dflt_scrn);
  mret [("height", scrn.2); ("width", scrn.1)]%string.

(** ** Clients

    What scripts do, each as far as the references they have permit: connect, ask a
    connection that has its methods for an extension, disconnect, add and drop key bindings
    (which grab keys and give them back), and drop references. *)
Inductive xop :=
  | Connect (connects has_event : bool)
  | GetExt (new : bool) (name : string)
  | Disconnect
  | Bind (e : nat)
  | Unbind (e : nat)
  | DropConn
  | DropExt (e : nat).

(** A reference of a client is taken or given up. *)
Definition hold_conn (f : nat → nat) : ST xstate unit := c ← get_conn; put_conn (conn_held (f (c_held c)) c).
Definition hold_ext (f : nat → nat) (e : nat) : ST xstate unit := x ← get_x e; put_x e (ext_held (f (e_held x)) x).

Definition client (op : xop) : ST xstate unit :=
  s ← get;
  match op with
  | Connect connects has_event =>
      if x_conn s then mret tt else _ ← di_xorg_connect_to connects has_event; mret tt
  | GetExt new name =>
      match x_conn s with
      | Some c =>
          if Nat.ltb 0 (c_held c) && c_members c then
            r ← di_xorg_get_ext new name;
            match r with Some e => hold_ext S e | None => mret tt end
          else mret tt
      | None => mret tt
      end
  | Disconnect =>
      match x_conn s with
      | Some c => if Nat.ltb 0 (c_held c) && c_members c then di_finalize_object di_unref_object C else mret tt
      | None => mret tt
      end
  | Bind e =>
      match x_exts s !! e with
      | Some x => if Nat.ltb 0 (e_held x) && e_dc x then
            put_x e (ext_bindings (S (e_bindings x)) x);; di_ref_object (X e);; use_c
          else mret tt
      | None => mret tt
      end
  | Unbind e =>
      match x_exts s !! e with
      | Some x =>
          if Nat.ltb 0 (e_bindings x) then
            (if e_dc x then use_c else mret tt);;
            put_x e (ext_bindings (e_bindings x - 1) x);;
            di_unref_object (X e)
          else mret tt
      | None => mret tt
      end
  | DropConn =>
      match x_conn s with
      | Some c => if Nat.ltb 0 (c_held c) then hold_conn pred;; di_unref_object C else mret tt
      | None => mret tt
      end
  | DropExt e =>
      match x_exts s !! e with
      | Some x => if Nat.ltb 0 (e_held x) then hold_ext pred e;; di_unref_object (X e) else mret tt
      | None => mret tt
      end
  end.

(** ** Events

    What the handler of an extension makes of an event: what clients do when they are told,
    and its status; an event is what the extensions make of it. *)
Definition xevent : Type := nat → list xop * Z.

Definition handle_event (ev : xevent) (e : nat) : ST xstate bool :=
  _ ← get_x e;
  for_each client (ev e).1;;
  mret (Z.eqb (ev e).2 1).

(** [di_xorg_ioev], with [xcb_poll_for_event] and [xcb_connection_has_error] of [dc->c]:
    the events that can be read, whether the connection has an error then,
    and what clients do when they are told about that. *)
Definition di_xorg_ioev (events : list xevent) (error : bool) (on_error : list xop) : ST xstate unit :=
  s ← get;
  check (match x_conn s with Some c => Nat.ltb 0 (c_refs c) | None => false end);;
  di_ref_object C;;
  for_each (λ ev,
    use_c;;
    c ← get_conn;
    hash_iter iter_fuel (handle_event ev) (head (c_xext c))) events;;
  use_c;;
  (if error then for_each client on_error;; di_finalize_object di_unref_object C else mret tt);;
  di_unref_object C.

(** ** Runs of the operations on objects *)

Ltac unfold_objects :=
  unfold finalize_with, di_ref_object, set_destroyed, is_destroyed, take_dtor, remove_members, free_object, get_refs, put_refs,
    use_c, get_conn, put_conn, get_x, put_x, modify, put, get, from_opt, check, mret, ST_ret, mbind, ST_bind.
Ltac lookups := repeat (rewrite lookup_insert_eq || (progress cbn -[insert delete lookup])).

Lemma unref_conn_more f n c s :
  x_conn s = Some c → c_refs c = S (S n) → unref_object (S f) C s = Done tt (set_conn (Some (conn_refs (S n) c)) s).
Proof. intros Hc Hn. cbn [unref_object]. unfold_objects. rewrite Hc. cbn. rewrite Hn. cbn. rewrite Hc. reflexivity. Qed.

Lemma unref_ext_more f n e x s :
  x_exts s !! e = Some x → e_refs x = S (S n) →
  unref_object (S f) (X e) s = Done tt (set_exts (<[e := ext_refs (S n) x]> (x_exts s)) s).
Proof. intros He Hn. cbn [unref_object]. unfold_objects. rewrite He. cbn. rewrite Hn. cbn. rewrite He. reflexivity. Qed.

(** The last reference to a connection without extensions: it is closed if it was not. *)
Lemma unref_conn_last f c s :
  x_conn s = Some c → c_refs c = 1 → c_destroyed c = false → c_xext c = [] → c_dtor c = c_members c → c_c c = c_members c →
  unref_object (S (S f)) C s =
    Done tt (set_conn None (if c_members c then set_server (x_open s - 1) (x_contexts s - 1) s else s)).
Proof.
  intros Hc Hn Hd Hx Hdt Hcc. destruct c as [n h d dt m cc l]. cbn in *. subst.
  unfold di_destroy_object, run_dtor, xorg_disconnect. unfold_objects. rewrite Hc. cbn. rewrite Hc. cbn.
  destruct m; reflexivity.
Qed.

(** The bindings of an extension drop their references to it. *)
Lemma free_ext_done f e x r s :
  x_exts s !! e = Some x → e_refs x = e_bindings x + S r →
  free_ext (unref_object (S f)) e s = Done tt (set_exts (<[e := ext_refs (S r) (ext_bindings 0 x)]> (x_exts s)) s).
Proof.
  intros He Hr. eapply then_done; [unfold_objects; rewrite He; reflexivity|]. remember (e_bindings x) as b eqn:Hb.
  revert x s He Hr Hb. induction b as [|b IH]; intros x s He Hr Hb; cbn [repeat for_each].
  - destruct x, s. cbn in *. subst. unfold set_exts. cbn. rewrite insert_id by exact He. reflexivity.
  - set (y := ext_refs (b + S r) (ext_bindings b x)).
    eapply then_done with (a := tt) (s' := set_exts (<[e := y]> (x_exts s)) s).
    + eapply then_done; [unfold_objects; rewrite He; reflexivity|]. eapply then_done; [reflexivity|].
      eapply eq_trans; [eapply (unref_ext_more f (b + r)); [apply lookup_insert_eq|cbn; lia]|].
      unfold set_exts, y. cbn. rewrite insert_insert_eq, <- Hb. cbn. repeat f_equal; lia.
    + eapply eq_trans; [apply (IH y); [apply lookup_insert_eq|cbn; lia|reflexivity]|].
      unfold set_exts, y. cbn. rewrite insert_insert_eq. reflexivity.
Qed.

(** The destructor of an extension; [s1] is the state after its reference to the
    connection was dropped. *)
Definition without (e : nat) (c : xconn) : xconn := conn_xext (filter (λ e', e' ≠ e) (c_xext c)) c.

Lemma free_sub_done f e x c r s s1 :
  x_exts s !! e = Some x → e_dc x = true → e_refs x = e_bindings x + S r →
  x_conn s = Some c → e ∈ c_xext c →
  unref_object (S f) C (set_conn (Some (without e c)) s) = Done tt s1 → x_exts s1 = x_exts s →
  di_xorg_free_sub (unref_object (S f)) e s =
    Done tt (set_exts (<[e := XExt (S r) (e_held x) 0 (e_destroyed x) (e_dtor x) false (e_name x)]> (x_exts s)) s1).
Proof.
  intros He Hd Hr Hc Hin Hu Hs1. eapply then_done; [unfold_objects; rewrite He; reflexivity|]. rewrite Hd.
  eapply then_done.
  { unfold hash_del. unfold_objects. rewrite Hc, bool_decide_eq_true_2 by exact Hin. reflexivity. }
  eapply then_done; [exact Hu|]. eapply then_done; [unfold_objects; rewrite Hs1, He; reflexivity|].
  eapply then_done; [reflexivity|]. rewrite Hs1.
  eapply eq_trans; [apply (free_ext_done f e (ext_dc false x) r); [apply lookup_insert_eq|exact Hr]|].
  unfold set_exts. cbn. rewrite insert_insert_eq. reflexivity.
Qed.

(** The last reference to an extension that has no destructor any more. *)
Lemma unref_ext_dead f e x s :
  x_exts s !! e = Some x → e_refs x = 1 → e_destroyed x = false → e_dtor x = false →
  unref_object (S (S f)) (X e) s = Done tt (set_exts (delete e (x_exts s)) s).
Proof.
  intros He Hr Hd Ht. destruct x as [n h b d dt dc name]. cbn in *. subst.
  eapply then_done; [unfold_objects; rewrite He; reflexivity|]. cbn [e_refs].
  eapply then_done; [unfold_objects; rewrite He; reflexivity|]. cbn [Nat.eqb].
  eapply then_done; [unfold_objects; lookups; reflexivity|]. cbn [e_destroyed ext_refs]. unfold di_destroy_object.
  do 2 (eapply then_done; [unfold_objects; lookups; reflexivity|]).
  eapply then_done.
  { unfold finalize_with. eapply then_done; [unfold_objects; lookups; reflexivity|].
    eapply then_done; [reflexivity|]. unfold_objects. lookups. reflexivity. }
  cbn [unref_object]. unfold_objects. lookups. unfold set_exts. cbn. rewrite !insert_insert_eq, delete_insert_eq. reflexivity.
Qed.

(** The last one to an extension in use. *)
Lemma unref_ext_last f e x c s s1 :
  x_exts s !! e = Some x → e_refs x = 1 → e_bindings x = 0 → e_destroyed x = false → e_dtor x = true → e_dc x = true →
  x_conn s = Some c → e ∈ c_xext c → (∀ m, unref_object (S (S f)) C (set_exts m (set_conn (Some (without e c)) s)) = Done tt (set_exts m s1)) →
  unref_object (S (S (S f))) (X e) s = Done tt (set_exts (delete e (x_exts s)) s1).
Proof.
  intros He Hr Hb Hd Ht Hdc Hc Hin Hu. destruct x as [n h b d dt dc name]. cbn in *. subst.
  set (U := unref_object (S (S f))) in *.
  eapply then_done; [unfold_objects; rewrite He; reflexivity|]. cbn [e_refs].
  eapply then_done; [unfold_objects; rewrite He; reflexivity|]. cbn [Nat.eqb].
  eapply then_done; [unfold_objects; lookups; reflexivity|]. cbn [e_destroyed ext_refs]. unfold di_destroy_object.
  eapply then_done; [unfold_objects; lookups; reflexivity|]. eapply then_done; [unfold_objects; lookups; reflexivity|].
  eapply then_done.
  { unfold finalize_with. eapply then_done; [unfold_objects; lookups; reflexivity|]. eapply then_done.
    - unfold run_dtor. eapply (free_sub_done (S f) e _ c 0); try (cbn; first [apply lookup_insert_eq|exact Hc|reflexivity]).
      + exact Hin.
      + cbn. apply (Hu _).
      + reflexivity.
    - unfold_objects. lookups. reflexivity. }
  cbn [e_held e_bindings e_destroyed e_dtor e_name].
  unfold U. cbn [unref_object]. unfold_objects. lookups. unfold set_exts. cbn. rewrite !insert_insert_eq, delete_insert_eq. reflexivity.
Qed.

(** An extension that is finalized by a connection: it is freed when only its bindings
    referred to it. *)
Definition finalized (e : nat) (x : xext) (m : gmap nat xext) : gmap nat xext :=
  match e_held x with
  | O => delete e m
  | S h => <[e := XExt (S h) (S h) 0 false false false (e_name x)]> m
  end.

Lemma finalize_ext_done f e x c s s1 :
  x_exts s !! e = Some x → e_refs x = e_held x + e_bindings x → e_destroyed x = false → e_dtor x = true → e_dc x = true →
  x_conn s = Some c → e ∈ c_xext c → (∀ m, unref_object (S (S f)) C (set_exts m (set_conn (Some (without e c)) s)) = Done tt (set_exts m s1)) →
  finalize_ext (unref_object (S (S f))) e s = Done tt (set_exts (finalized e x (x_exts s)) s1).
Proof.
  intros He Hr Hd Ht Hdc Hc Hin Hu. destruct x as [n h b d dt dc name]. cbn in *. subst. unfold finalize_ext.
  eapply then_done; [unfold_objects; rewrite He; cbn; rewrite He; reflexivity|].
  eapply then_done.
  { unfold finalize_with. eapply then_done; [unfold_objects; lookups; reflexivity|]. eapply then_done.
    - eapply (free_sub_done (S f) e _ c h); try (cbn; first [apply lookup_insert_eq|exact Hc|reflexivity|exact Hin|lia]).
      + cbn. apply (Hu _).
      + reflexivity.
    - unfold_objects. lookups. reflexivity. }
  unfold finalized. cbn [e_held e_bindings e_destroyed e_dtor e_name]. destruct h as [|h].
  - eapply eq_trans; [eapply unref_ext_dead; [apply lookup_insert_eq|reflexivity..]|].
    unfold set_exts. cbn. rewrite !insert_insert_eq, delete_insert_eq. reflexivity.
  - eapply eq_trans; [apply (unref_ext_more (S f) h e (XExt (S (S h)) (S h) 0 false false false name)); [apply lookup_insert_eq|reflexivity]|].
    unfold set_exts, ext_refs. cbn. rewrite !insert_insert_eq. reflexivity.
Qed.

(** ** What holds at all times

    [t] counts the references of running functions to the connection, [lost] the X
    connections that were opened in vain.  A connection is [Closing] while
    [xorg_disconnect] runs. *)
Inductive phase := Running | Closing.

Definition flags_ok (ph : phase) (lost : nat) (c : xconn) (s : xstate) : Prop :=
  match ph with
  | Running =>
      c_dtor c = c_members c ∧ c_c c = c_members c ∧ x_open s = (if c_members c then S lost else lost) ∧
      x_contexts s = (if c_members c then 1 else 0) ∧ (c_members c = false → c_xext c = [])
  | Closing => c_dtor c = false ∧ c_members c = true ∧ c_c c = true ∧ x_open s = S lost ∧ x_contexts s = 0
  end.

Record conn_ok (ph : phase) (t lost : nat) (s : xstate) (c : xconn) : Prop := {
  co_refs : c_refs c = c_held c + length (c_xext c) + t;
  co_pos : 0 < c_refs c;
  co_destroyed : c_destroyed c = false;
  co_flags : flags_ok ph lost c s;
  co_nodup : NoDup (c_xext c);
  co_table e : e ∈ c_xext c ↔ ∃ x, x_exts s !! e = Some x ∧ e_dc x = true
}.

Record ext_ok (e next : nat) (x : xext) : Prop := {
  eo_next : e < next;
  eo_refs : e_refs x = e_held x + e_bindings x;
  eo_pos : 0 < e_refs x;
  eo_destroyed : e_destroyed x = false;
  eo_dtor : e_dtor x = e_dc x;
  eo_bindings : e_dc x = false → e_bindings x = 0;
  eo_name : e_dc x = true → e_name x ∈ xext_reg
}.

Record xinv (ph : phase) (t lost : nat) (s : xstate) : Prop := {
  xi_conn :
    match x_conn s with
    | Some c => conn_ok ph t lost s c
    | None => t = 0 ∧ x_open s = lost ∧ x_contexts s = 0 ∧ ∀ e x, x_exts s !! e = Some x → e_dc x = false
    end;
  xi_ext e x : x_exts s !! e = Some x → ext_ok e (x_next s) x;
  xi_names e e' x x' : x_exts s !! e = Some x → x_exts s !! e' = Some x' → e_dc x = true → e_dc x' = true →
    e_name x = e_name x' → e = e'
}.

Lemma xinv_conn ph t lost s c : xinv ph t lost s → x_conn s = Some c → conn_ok ph t lost s c.
Proof. intros H Hc. pose proof (xi_conn _ _ _ _ H) as H'. rewrite Hc in H'. exact H'. Qed.

(** An extension whose [dc] is set is in the table of the connection. *)
Lemma xinv_dc ph t lost s e x :
  xinv ph t lost s → x_exts s !! e = Some x → e_dc x = true → ∃ c, x_conn s = Some c ∧ conn_ok ph t lost s c ∧ e ∈ c_xext c.
Proof.
  intros H He Hd. pose proof (xi_conn _ _ _ _ H) as Hc. destruct (x_conn s) as [c|].
  - exists c. split; [reflexivity|]. split; [exact Hc|]. apply (co_table _ _ _ _ _ Hc). exists x. auto.
  - destruct Hc as (_ & _ & _ & Hn). rewrite (Hn e x He) in Hd. discriminate.
Qed.

(** The registry bounds the table. *)
Lemma table_short ph t lost s c : xinv ph t lost s → x_conn s = Some c → length (c_xext c) ≤ length xext_reg.
Proof.
  intros H Hc. pose proof (xinv_conn _ _ _ _ _ H Hc) as Hok.
  assert (∀ l, NoDup l → (∀ e, e ∈ l → e ∈ c_xext c) → ∃ ns, length ns = length l ∧ NoDup ns ∧ (∀ n, n ∈ ns → n ∈ xext_reg) ∧
    ∀ n, n ∈ ns → ∃ e x, e ∈ l ∧ x_exts s !! e = Some x ∧ e_dc x = true ∧ e_name x = n) as Hnames.
  { induction l as [|e l IH]; intros Hn Hl.
    - exists []. split; [reflexivity|]. split; [constructor|]. split; intros n Hin; apply not_elem_of_nil in Hin as [].
    - apply NoDup_cons in Hn as [Hnot Hn]. destruct (IH Hn) as (ns & E1 & E2 & E3 & E4); [intros; apply Hl; right; assumption|].
      destruct (proj1 (co_table _ _ _ _ _ Hok e) (Hl e ltac:(left))) as (x & He & Hd). exists (e_name x :: ns).
      split; [cbn; lia|]. split; [|split].
      + apply NoDup_cons. split; [|exact E2]. intros (e' & x' & Hin & He' & Hd' & Hname)%E4.
        rewrite (xi_names _ _ _ _ H e e' x x' He He' Hd Hd' (eq_sym Hname)) in Hnot. exact (Hnot Hin).
      + intros n [->|Hin]%elem_of_cons; [exact (eo_name _ _ _ (xi_ext _ _ _ _ H e x He) Hd)|exact (E3 n Hin)].
      + intros n [->|Hin]%elem_of_cons; [exists e, x; split; [left|auto]|].
        destruct (E4 n Hin) as (e' & x' & Hin' & E). exists e', x'. split; [right; exact Hin'|exact E]. }
  destruct (Hnames (c_xext c) (co_nodup _ _ _ _ _ Hok)) as (ns & <- & Hn & Hreg & _); [auto|].
  apply submseteq_length, NoDup_submseteq; assumption.
Qed.

Lemma filter_not_in (e : nat) (l : list nat) : e ∉ l → filter (λ e', e' ≠ e) l = l.
Proof.
  induction l as [|e' l IH]; intros Hnot; [reflexivity|].
  rewrite filter_cons_True by (intros ->; apply Hnot; left). f_equal. apply IH. intros H. apply Hnot. right. exact H.
Qed.

Lemma length_without (e : nat) l : NoDup l → e ∈ l → length l = S (length (filter (λ e', e' ≠ e) l)).
Proof.
  intros Hn Hin. induction Hn as [|e' l Hnot Hn IH]; [apply not_elem_of_nil in Hin as []|].
  apply elem_of_cons in Hin as [<-|Hin].
  - rewrite filter_cons_False by auto. cbn. f_equal. f_equal. symmetry. apply filter_not_in, Hnot.
  - rewrite filter_cons_True by (intros ->; exact (Hnot Hin)). cbn. f_equal. exact (IH Hin).
Qed.

(** An extension that a connection let go. *)
Definition let_go (e : nat) (x : xext) (m m' : gmap nat xext) : Prop :=
  m' = delete e m ∨ ∃ h, 0 < h ∧ m' = <[e := XExt h h 0 false false false (e_name x)]> m.

Lemma finalized_let_go e x m : let_go e x m (finalized e x m).
Proof. unfold finalized. destruct (e_held x) as [|h]; [left; reflexivity|right]. exists (S h). split; [lia|reflexivity]. Qed.

Lemma let_go_lookup e x m m' e' x' :
  let_go e x m m' → m' !! e' = Some x' → e' ≠ e ∧ m !! e' = Some x' ∨ e' = e ∧ e_dc x' = false ∧ ∃ h, 0 < h ∧ x' = XExt h h 0 false false false (e_name x).
Proof.
  intros [->|(h & Hh & ->)].
  - intros [Hne E]%lookup_delete_Some. auto.
  - intros [[<- <-]|[Hne E]]%lookup_insert_Some; [right|left; auto]. split; [reflexivity|]. split; [reflexivity|]. exists h. auto.
Qed.

Lemma let_go_other e x m m' e' : let_go e x m m' → e' ≠ e → m' !! e' = m !! e'.
Proof. intros [->|(h & _ & ->)] Hne; [apply lookup_delete_ne|apply lookup_insert_ne]; congruence. Qed.

(** The extensions of the state after one was let go. *)
Lemma let_go_exts e x m' ph t lost s :
  xinv ph t lost s → x_exts s !! e = Some x → let_go e x (x_exts s) m' →
  (∀ e' x', m' !! e' = Some x' → ext_ok e' (x_next s) x') ∧
  (∀ e1 e2 x1 x2, m' !! e1 = Some x1 → m' !! e2 = Some x2 → e_dc x1 = true → e_dc x2 = true → e_name x1 = e_name x2 → e1 = e2).
Proof.
  intros H He Hl. split.
  - intros e' x' E. destruct (let_go_lookup _ _ _ _ _ _ Hl E) as [[_ E']|(-> & _ & h & Hh & ->)]; [exact (xi_ext _ _ _ _ H e' x' E')|].
    destruct (xi_ext _ _ _ _ H e x He). constructor; cbn; (lia || congruence).
  - intros e1 e2 x1 x2 E1 E2 D1 D2. destruct (let_go_lookup _ _ _ _ _ _ Hl E1) as [[_ E1']|(_ & D & _)]; [|congruence].
    destruct (let_go_lookup _ _ _ _ _ _ Hl E2) as [[_ E2']|(_ & D & _)]; [|congruence].
    exact (xi_names _ _ _ _ H e1 e2 x1 x2 E1' E2' D1 D2).
Qed.

Lemma entry_dropped ph t lost s c e x m' n :
  xinv ph t lost s → x_conn s = Some c → e ∈ c_xext c → x_exts s !! e = Some x → let_go e x (x_exts s) m' →
  c_refs c = S n → 0 < n → xinv ph t lost (set_exts m' (set_conn (Some (conn_refs n (without e c))) s)).
Proof.
  intros H Hc Hin He Hl Hn Hpos. pose proof (xinv_conn _ _ _ _ _ H Hc) as Hok.
  destruct (let_go_exts e x m' ph t lost s H He Hl) as [Hexts Hnames].
  pose proof (length_without e _ (co_nodup _ _ _ _ _ Hok) Hin) as Hlen. constructor; cbn [x_conn x_exts x_next set_exts set_conn]; [|exact Hexts|exact Hnames].
  destruct Hok as [K1 K2 K3 K4 K5 K6]. constructor; cbn.
  - lia.
  - exact Hpos.
  - exact K3.
  - destruct ph; cbn in *; [|exact K4]. destruct K4 as (A1 & A2 & A3 & A4 & A5). repeat (split; [assumption|]).
    intros Hm. rewrite (A5 Hm). reflexivity.
  - apply NoDup_filter, K5.
  - intros e'. rewrite list_elem_of_filter. split.
    + intros [Hne Hin']. apply K6 in Hin' as (y & Hy & Hd). exists y. rewrite (let_go_other _ _ _ _ _ Hl Hne). auto.
    + intros (y & Hy & Hd). destruct (let_go_lookup _ _ _ _ _ _ Hl Hy) as [[Hne E]|(_ & D & _)]; [|congruence].
      split; [exact Hne|]. apply K6. exists y. auto.
Qed.

(** A connection that ends. *)
Definition conn_gone (c : xconn) (s : xstate) : xstate :=
  set_conn None (if c_members c then set_server (x_open s - 1) (x_contexts s - 1) s else s).

Lemma conn_gone_ok lost s c m :
  flags_ok Running lost c s → (∀ e x, m !! e = Some x → ext_ok e (x_next s) x ∧ e_dc x = false) →
  xinv Running 0 lost (set_exts m (conn_gone c s)).
Proof.
  intros (_ & _ & Ho & Hk & _) Hm. unfold conn_gone. constructor.
  - destruct (c_members c); cbn; (split; [reflexivity|]); (split; [lia|]); (split; [lia|]); intros e x E; exact (proj2 (Hm e x E)).
  - intros e x E. destruct (c_members c); exact (proj1 (Hm e x E)).
  - intros e e' x x' E _ D. cbn in E. assert (m !! e = Some x) as E' by (destruct (c_members c); exact E).
    rewrite (proj2 (Hm e x E')) in D. discriminate.
Qed.

(** A reference of a running function to the connection. *)
Lemma ref_conn_ok ph t lost s c :
  xinv ph t lost s → x_conn s = Some c → xinv ph (S t) lost (set_conn (Some (conn_refs (S (c_refs c)) c)) s).
Proof.
  intros H Hc. pose proof (xinv_conn _ _ _ _ _ H Hc) as [K1 K2 K3 K4 K5 K6]. constructor; cbn.
  - constructor; cbn; (lia || assumption).
  - exact (xi_ext _ _ _ _ H).
  - exact (xi_names _ _ _ _ H).
Qed.

Lemma conn_counts_ok t t' lost s c n h :
  xinv Running t lost s → x_conn s = Some c → n + c_held c + t = c_refs c + h + t' → 0 < n →
  xinv Running t' lost (set_conn (Some (conn_refs n (conn_held h c))) s).
Proof.
  intros H Hc Hn Hpos. pose proof (xinv_conn _ _ _ _ _ H Hc) as [K1 K2 K3 K4 K5 K6]. constructor; cbn.
  - constructor; cbn; try assumption. lia.
  - exact (xi_ext _ _ _ _ H).
  - exact (xi_names _ _ _ _ H).
Qed.

(** A reference to the connection is dropped; [h] references of clients are left. *)
Lemma unref_conn_ok f t t' lost s c h :
  xinv Running t lost s → x_conn s = Some c → c_held c + t = S (h + t') →
  ∃ s', unref_object (S (S f)) C (set_conn (Some (conn_held h c)) s) = Done tt s' ∧ xinv Running t' lost s' ∧
    (0 < h + t' → s' = set_conn (Some (conn_refs (pred (c_refs c)) (conn_held h c))) s).
Proof.
  intros H Hc Ht. pose proof (xinv_conn _ _ _ _ _ H Hc) as Hok. pose proof (co_refs _ _ _ _ _ Hok) as K1.
  destruct (c_refs c) as [|[|n]] eqn:En; [lia| |].
  - assert (c_xext c = []) as Hx by (destruct (c_xext c); [reflexivity|cbn in K1; lia]).
    destruct (co_flags _ _ _ _ _ Hok) as (A1 & A2 & A3 & A4 & _).
    eexists. split; [eapply (unref_conn_last f (conn_held h c)); cbn; try reflexivity; try assumption|].
    { exact (co_destroyed _ _ _ _ _ Hok). }
    split; [|lia]. assert (t' = 0) as -> by (rewrite Hx in K1; cbn in K1; lia).
    assert (∀ e x, x_exts s !! e = Some x → ext_ok e (x_next s) x ∧ e_dc x = false) as Hm.
    { intros e x E. split; [exact (xi_ext _ _ _ _ H e x E)|]. destruct (e_dc x) eqn:D; [|reflexivity].
      assert (e ∈ c_xext c) as Hin by (apply (co_table _ _ _ _ _ Hok); exists x; auto). rewrite Hx in Hin. apply not_elem_of_nil in Hin as []. }
    pose proof (conn_gone_ok lost s c (x_exts s) (co_flags _ _ _ _ _ Hok) Hm) as Hg.
    unfold conn_gone in Hg. cbn [conn_held c_members]. destruct (c_members c); exact Hg.
  - eexists. split; [eapply (unref_conn_more (S f) n (conn_held h c)); [reflexivity|exact En]|].
    split; [|reflexivity]. apply (conn_counts_ok t t' lost s c (S n) h H Hc); lia.
Qed.

(** The counts of an extension change. *)
Lemma ext_counts_ok t lost s e x n h b :
  xinv Running t lost s → x_exts s !! e = Some x → n = h + b → 0 < n → (e_dc x = false → b = 0) →
  xinv Running t lost (set_exts (<[e := XExt n h b (e_destroyed x) (e_dtor x) (e_dc x) (e_name x)]> (x_exts s)) s).
Proof.
  intros H He Hn Hpos Hb. set (y := XExt _ _ _ _ _ _ _).
  assert (∀ e' x', <[e := y]> (x_exts s) !! e' = Some x' → ∃ z, x_exts s !! e' = Some z ∧ e_dc x' = e_dc z ∧ e_name x' = e_name z) as Hold.
  { intros e' x' [[<- <-]|[_ E]]%lookup_insert_Some; [exists x|exists x']; auto. }
  constructor; cbn [x_conn x_exts x_next set_exts].
  - pose proof (xi_conn _ _ _ _ H) as Hc. destruct (x_conn s) as [c|].
    + destruct Hc as [K1 K2 K3 K4 K5 K6]. constructor; try assumption. intros e'. rewrite K6. split.
      * intros (z & Hz & Hd). destruct (decide (e' = e)) as [->|Hne]; [|exists z; cbn; rewrite lookup_insert_ne by congruence; auto].
        exists y. cbn. rewrite lookup_insert_eq. rewrite He in Hz. injection Hz as <-. auto.
      * intros (z & (w & Hw & D & _)%Hold & Hd). exists w. split; [exact Hw|congruence].
    + destruct Hc as (A & B & D & Hn'). repeat (split; [assumption|]). intros e' x' (z & Hz & -> & _)%Hold. exact (Hn' e' z Hz).
  - intros e' x' [[<- <-]|[_ E]]%lookup_insert_Some; [|exact (xi_ext _ _ _ _ H e' x' E)].
    destruct (xi_ext _ _ _ _ H e x He). constructor; cbn; assumption.
  - intros e1 e2 x1 x2 (z1 & Hz1 & -> & ->)%Hold (z2 & Hz2 & -> & ->)%Hold. exact (xi_names _ _ _ _ H e1 e2 z1 z2 Hz1 Hz2).
Qed.

(** An extension without a connection is freed. *)
Lemma ext_freed_ok t lost s e x :
  xinv Running t lost s → x_exts s !! e = Some x → e_dc x = false → xinv Running t lost (set_exts (delete e (x_exts s)) s).
Proof.
  intros H He Hd. destruct (let_go_exts e x (delete e (x_exts s)) _ _ _ _ H He) as [Hexts Hnames]; [left; reflexivity|].
  constructor; cbn [x_conn x_exts x_next set_exts]; [|exact Hexts|exact Hnames].
  pose proof (xi_conn _ _ _ _ H) as Hc. destruct (x_conn s) as [c|].
  - destruct Hc as [K1 K2 K3 K4 K5 K6]. constructor; try assumption. intros e'. rewrite K6. split; intros (z & Hz & D); exists z; (split; [|exact D]).
    + cbn. rewrite lookup_delete_ne; [exact Hz|]. intros <-. congruence.
    + cbn in Hz. apply lookup_delete_Some in Hz as [_ Hz]. exact Hz.
  - destruct Hc as (A & B & D & Hn). repeat (split; [assumption|]). intros e' x' [_ E]%lookup_delete_Some. exact (Hn e' x' E).
Qed.

(** A reference to an extension is dropped; [h] references of clients and [b] bindings are left. *)
Lemma unref_ext_ok f t lost s e x h b :
  xinv Running t lost s → x_exts s !! e = Some x → e_refs x = S (h + b) → (e_dc x = false → b = 0) →
  ∃ s', unref_object (S (S (S f))) (X e) (set_exts (<[e := XExt (e_refs x) h b (e_destroyed x) (e_dtor x) (e_dc x) (e_name x)]> (x_exts s)) s) =
    Done tt s' ∧ xinv Running t lost s'.
Proof.
  intros H He Hr Hb. pose proof (xi_ext _ _ _ _ H e x He) as Hx. set (y := XExt _ _ _ _ _ _ _).
  destruct (h + b) as [|n] eqn:En.
  - assert (h = 0 ∧ b = 0) as [-> ->] by lia. destruct (e_dc x) eqn:D.
    + destruct (xinv_dc _ _ _ _ _ _ H He D) as (c & Hc & Hok & Hin).
      pose proof (length_without e _ (co_nodup _ _ _ _ _ Hok) Hin) as Hlen. pose proof (co_refs _ _ _ _ _ Hok) as K1.
      assert (e_dtor x = true) as Ht by (rewrite (eo_dtor _ _ _ Hx); exact D).
      assert (∀ s1, (∀ m, unref_object (S (S f)) C (set_exts m (set_conn (Some (without e c)) s)) = Done tt (set_exts m s1)) →
        x_exts s1 = x_exts s → unref_object (S (S (S f))) (X e) (set_exts (<[e := y]> (x_exts s)) s) = Done tt (set_exts (delete e (x_exts s)) s1)) as Hrun.
      { intros s1 Hu Es. eapply eq_trans; [eapply (unref_ext_last f e y c _ s1); cbn; try exact Hr; try reflexivity; try assumption|].
        - apply lookup_insert_eq.
        - exact (eo_destroyed _ _ _ Hx).
        - cbn. rewrite delete_insert_eq. reflexivity. }
      destruct (c_refs c) as [|[|k]] eqn:Ek; [lia| |].
      * assert (filter (λ e', e' ≠ e) (c_xext c) = []) as Hx0 by (destruct (filter _ _); [reflexivity|cbn in Hlen; lia]).
        destruct (co_flags _ _ _ _ _ Hok) as (A1 & A2 & A3 & A4 & _). eexists. split.
        { apply (Hrun (conn_gone c s)); [|unfold conn_gone; destruct (c_members c); reflexivity].
          intros m. eapply eq_trans; [eapply (unref_conn_last f (without e c)); cbn; try reflexivity; try assumption; exact (co_destroyed _ _ _ _ _ Hok)|].
          unfold conn_gone. cbn. destruct (c_members c); reflexivity. }
        assert (t = 0) as -> by lia. apply conn_gone_ok; [exact (co_flags _ _ _ _ _ Hok)|].
        intros e' x' [Hne E]%lookup_delete_Some. split; [exact (xi_ext _ _ _ _ H e' x' E)|]. destruct (e_dc x') eqn:D'; [|reflexivity].
        assert (e' ∈ filter (λ e', e' ≠ e) (c_xext c)) as Hin'.
        { apply list_elem_of_filter. split; [congruence|]. apply (co_table _ _ _ _ _ Hok). exists x'. auto. }
        rewrite Hx0 in Hin'. apply not_elem_of_nil in Hin' as [].
      * eexists. split.
        { apply (Hrun (set_conn (Some (conn_refs (S k) (without e c))) s)); [|reflexivity].
          intros m. eapply (unref_conn_more (S f) k (without e c)); [reflexivity|exact Ek]. }
        apply (entry_dropped Running t lost s c e x _ (S k) H Hc Hin He); [left; reflexivity|exact Ek|lia].
    + eexists. split; [|exact (ext_freed_ok t lost s e x H He D)].
      eapply eq_trans; [eapply (unref_ext_dead (S f) e y); [apply lookup_insert_eq|exact Hr| |]; cbn|].
      * exact (eo_destroyed _ _ _ Hx).
      * rewrite (eo_dtor _ _ _ Hx). exact D.
      * unfold set_exts. cbn. rewrite delete_insert_eq. reflexivity.
  - eexists. split; [eapply (unref_ext_more (S (S f)) n e y); [apply lookup_insert_eq|exact Hr]|].
    pose proof (ext_counts_ok t lost s e x (S n) h b H He) as Hok. unfold set_exts, ext_refs in *. cbn. rewrite insert_insert_eq.
    apply Hok; [lia|lia|exact Hb].
Qed.

(** *** Disconnecting *)

Lemma finalize_ext_ok f t lost s c e :
  xinv Closing (S t) lost s → x_conn s = Some c → e ∈ c_xext c →
  ∃ s', finalize_ext (unref_object (S (S f))) e s = Done tt s' ∧ xinv Closing (S t) lost s' ∧
    x_conn s' = Some (conn_refs (pred (c_refs c)) (without e c)).
Proof.
  intros H Hc Hin. pose proof (xinv_conn _ _ _ _ _ H Hc) as Hok.
  destruct (proj1 (co_table _ _ _ _ _ Hok e) Hin) as (x & He & Hd). pose proof (xi_ext _ _ _ _ H e x He) as Hx.
  pose proof (length_without e _ (co_nodup _ _ _ _ _ Hok) Hin) as Hlen. pose proof (co_refs _ _ _ _ _ Hok) as K1.
  destruct (c_refs c) as [|[|k]] eqn:Ek; [lia|lia|].
  set (s1 := set_conn (Some (conn_refs (S k) (without e c))) s).
  exists (set_exts (finalized e x (x_exts s)) s1). split; [|split; [|reflexivity]].
  - eapply (finalize_ext_done f e x c s s1); try assumption.
    + exact (eo_refs _ _ _ Hx).
    + exact (eo_destroyed _ _ _ Hx).
    + rewrite (eo_dtor _ _ _ Hx). exact Hd.
    + intros m. eapply (unref_conn_more (S f) k (without e c)); [reflexivity|exact Ek].
  - apply (entry_dropped Closing (S t) lost s c e x _ (S k) H Hc Hin He); [apply finalized_let_go|exact Ek|lia].
Qed.

Lemma close_table f t lost fuel s c :
  xinv Closing (S t) lost s → x_conn s = Some c → length (c_xext c) ≤ fuel →
  ∃ s' c', hash_iter fuel (λ e, finalize_ext (unref_object (S (S f))) e;; mret true) (head (c_xext c)) s = Done tt s' ∧
    xinv Closing (S t) lost s' ∧ x_conn s' = Some c' ∧ c_xext c' = [] ∧ c_held c' = c_held c.
Proof.
  revert s c. induction fuel as [|fuel IH]; intros s c H Hc Hlen; destruct (c_xext c) as [|e l] eqn:El;
    try (exists s, c; split; [reflexivity|]; split; [exact H|]; auto); [cbn in Hlen; lia|].
  assert (e ∈ c_xext c) as Hin by (rewrite El; left). destruct (finalize_ext_ok f t lost s c e H Hc Hin) as (s1 & E1 & H1 & Hc1).
  pose proof (co_nodup _ _ _ _ _ (xinv_conn _ _ _ _ _ H Hc)) as Hn. rewrite El in Hn. apply NoDup_cons in Hn as [Hnot Hn].
  assert (c_xext (conn_refs (pred (c_refs c)) (without e c)) = l) as El1.
  { cbn. rewrite El, filter_cons_False by auto. apply filter_not_in, Hnot. }
  destruct (IH s1 _ H1 Hc1) as (s' & c' & E' & H' & Hc' & Hx' & Hh'); [rewrite El1; cbn in Hlen; lia|].
  exists s', c'. split; [|auto]. cbn [hash_iter head]. eapply then_done; [unfold_objects; rewrite Hc; reflexivity|].
  eapply then_done; [rewrite El; cbn; rewrite Nat.eqb_refl; reflexivity|].
  eapply then_done; [eapply then_done; [exact E1|reflexivity]|]. rewrite El1 in E'. exact E'.
Qed.

Lemma finalize_conn_ok f t lost s c :
  xinv Running t lost s → x_conn s = Some c → 0 < c_held c + t →
  ∃ s' c', di_finalize_object (unref_object (S (S f))) C s = Done tt s' ∧ xinv Running t lost s' ∧
    x_conn s' = Some c' ∧ c_held c' = c_held c ∧ c_members c' = false.
Proof.
  intros H Hc Hpos. pose proof (ref_conn_ok _ _ _ _ _ H Hc) as H1. set (s1 := set_conn _ s) in H1.
  assert (∃ s2 c2, finalize_with (run_dtor (unref_object (S (S f))) C) C s1 = Done tt s2 ∧ xinv Running (S t) lost s2 ∧
    x_conn s2 = Some c2 ∧ c_held c2 = c_held c ∧ c_members c2 = false) as (s2 & c2 & E2 & H2 & Hc2 & Hh2 & Hm2).
  { pose proof (co_flags _ _ _ _ _ (xinv_conn _ _ _ _ _ H Hc)) as (A1 & A2 & A3 & A4 & A5). destruct (c_members c) eqn:Em.
    - set (c2 := XConn (S (c_refs c)) (c_held c) (c_destroyed c) false true (c_c c) (c_xext c)).
      set (s2 := set_server (x_open s) (x_contexts s - 1) (set_conn (Some c2) s)).
      assert (xinv Closing (S t) lost s2) as H2.
      { pose proof (xinv_conn _ _ _ _ _ H Hc) as [K1 K2 K3 K4 K5 K6]. constructor; cbn.
        - constructor; cbn; try assumption; [lia|lia|]. repeat (split; [(assumption || reflexivity)|]). lia.
        - exact (xi_ext _ _ _ _ H).
        - exact (xi_names _ _ _ _ H). }
      destruct (close_table f t lost iter_fuel s2 c2 H2 eq_refl) as (s3 & c3 & E3 & H3 & Hc3 & Hx3 & Hh3).
      { pose proof (table_short _ _ _ _ _ H Hc). unfold iter_fuel. cbn [c2 c_xext]. lia. }
      pose proof (xinv_conn _ _ _ _ _ H3 Hc3) as [K1 K2 K3 (B1 & B2 & B3 & B4 & B5) K5 K6].
      set (c4 := XConn (c_refs c3) (c_held c3) (c_destroyed c3) (c_dtor c3) false false (c_xext c3)).
      exists (set_conn (Some c4) (set_server (x_open s3 - 1) (x_contexts s3) s3)), c4.
      split; [|split; [|split; [reflexivity|split; [exact Hh3|reflexivity]]]].
      + eapply then_done; [reflexivity|]. cbn [c_dtor conn_refs]. rewrite A1. eapply then_done.
        { unfold run_dtor, xorg_disconnect. eapply then_done; [reflexivity|]. cbn [c_members conn_refs negb]. rewrite Em. cbn [negb].
        eapply then_done; [reflexivity|]. eapply then_done.
        { revert E3. unfold s2, c2. cbn [c_xext]. intros E3. rewrite <- E3. f_equal. }
        eapply then_done; [unfold_objects; rewrite Hc3; reflexivity|]. rewrite B3. eapply then_done; [reflexivity|]. eapply then_done; [reflexivity|]. reflexivity. }
        reflexivity.
      + cbn. constructor; cbn.
        * constructor; cbn; try assumption. repeat (split; [(assumption || lia)|]). auto.
        * exact (xi_ext _ _ _ _ H3).
        * exact (xi_names _ _ _ _ H3).
    - exists s1, (conn_refs (S (c_refs c)) c). split; [|auto]. eapply then_done; [reflexivity|]. cbn [c_dtor conn_refs]. rewrite A1.
      eapply then_done; [reflexivity|]. unfold s1. unfold_objects. destruct c. cbn in *. subst. reflexivity. }
  destruct (unref_conn_ok f (S t) t lost s2 c2 (c_held c) H2 Hc2) as (s3 & E3 & H3 & Hs3); [lia|]. specialize (Hs3 ltac:(lia)).
  exists s3, (conn_refs (pred (c_refs c2)) (conn_held (c_held c) c2)). split; [|subst s3; auto].
  eapply then_done; [unfold_objects; rewrite Hc; cbn; rewrite Hc; reflexivity|]. eapply then_done; [exact E2|].
  rewrite <- E3. f_equal. rewrite <- Hh2. destruct s2, c2. cbn in *. subst. reflexivity.
Qed.

(** *** Clients *)

(** An X connection that is lost: it is not closed when the event module is missing. *)
Definition lost_by (op : xop) (s : xstate) : nat :=
  match op, x_conn s with Connect true false, None => 1 | _, _ => 0 end.

Lemma connect_ok connects has_event lost s :
  xinv Running 0 lost s → x_conn s = None →
  ∃ r s', di_xorg_connect_to connects has_event s = Done r s' ∧
    xinv Running 0 (if connects && negb has_event then S lost else lost) s'.
Proof.
  intros H Hc. pose proof (xi_conn _ _ _ _ H) as Hn. rewrite Hc in Hn. destruct Hn as (_ & Ho & Hk & Hdc).
  destruct connects; [|exists false, s; split; [reflexivity|exact H]].
  destruct has_event; (eexists _, _; split; [reflexivity|]); cbn; (constructor; [|exact (xi_ext _ _ _ _ H)|exact (xi_names _ _ _ _ H)]); cbn.
  - constructor; cbn; try reflexivity; try lia; [constructor|].
    + intros e. split; [intros Hin; apply not_elem_of_nil in Hin as []|]. intros (x & E & D). rewrite (Hdc e x E) in D. discriminate.
  - rewrite Hc. repeat (split; [lia|]). exact Hdc.
Qed.

Lemma find_ext_some name s l e :
  find_ext name s l = Some e → e ∈ l ∧ ∃ x, x_exts s !! e = Some x ∧ e_name x = name.
Proof.
  unfold find_ext. intros H. apply List.find_some in H as [Hin H]. split; [apply list_elem_of_In, Hin|].
  destruct (x_exts s !! e) as [x|]; [|discriminate]. exists x. split; [reflexivity|]. apply String.eqb_eq, H.
Qed.

Lemma find_ext_none name s l e x : find_ext name s l = None → e ∈ l → x_exts s !! e = Some x → e_name x ≠ name.
Proof.
  unfold find_ext. intros H Hin He Hn. apply list_elem_of_In in Hin. pose proof (List.find_none _ _ H e Hin) as Hf. cbn in Hf.
  rewrite He in Hf. apply String.eqb_neq in Hf. exact (Hf Hn).
Qed.

(** A new extension. *)
Lemma ext_added t lost s c name :
  xinv Running t lost s → x_conn s = Some c → c_members c = true → find_ext name s (c_xext c) = None → name ∈ xext_reg →
  xinv Running t lost
    (set_exts (<[x_next s := XExt 1 1 0 false true true name]> (x_exts s)) (set_next (S (x_next s))
      (set_conn (Some (conn_refs (S (c_refs c)) (conn_xext (c_xext c ++ [x_next s]) c))) s))).
Proof.
  intros H Hc Hm Hf Hreg. pose proof (xinv_conn _ _ _ _ _ H Hc) as [K1 K2 K3 (A1 & A2 & A3 & A4 & A5) K5 K6].
  assert (x_exts s !! x_next s = None) as Hnone.
  { destruct (x_exts s !! x_next s) as [x|] eqn:E; [|reflexivity]. destruct (xi_ext _ _ _ _ H _ _ E). lia. }
  assert (∀ e, e ∈ c_xext c → e ≠ x_next s) as Hne.
  { intros e (x & E & _)%K6 ->. congruence. }
  constructor; cbn [x_conn x_exts x_next set_exts set_next set_conn].
  - constructor; cbn.
    + rewrite length_app. cbn. lia.
    + lia.
    + exact K3.
    + repeat (split; [assumption|]). congruence.
    + apply NoDup_app. split; [exact K5|]. split; [|apply NoDup_singleton]. intros e Hin ->%list_elem_of_singleton. exact (Hne _ Hin eq_refl).
    + intros e. rewrite elem_of_app, list_elem_of_singleton, K6. split.
      * intros [(x & E & D)| ->]; [exists x; rewrite lookup_insert_ne by congruence; auto|].
        eexists. rewrite lookup_insert_eq. split; reflexivity.
      * intros (x & [[E _]|[_ E]]%lookup_insert_Some & D); [right; congruence|left; exists x; auto].
  - intros e x [[<- <-]|[_ E]]%lookup_insert_Some.
    + constructor; cbn; try reflexivity; try lia. intros _. exact Hreg.
    + destruct (xi_ext _ _ _ _ H e x E). constructor; try assumption. lia.
  - assert (∀ e x, x_exts s !! e = Some x → e_dc x = true → e_name x ≠ name) as Hnew.
    { intros e x E D. apply (find_ext_none name s (c_xext c) e x Hf); [|exact E]. apply K6. exists x. auto. }
    intros e e' x x' [[<- <-]|[_ E]]%lookup_insert_Some [[<- <-]|[_ E']]%lookup_insert_Some D D' Hn; cbn in Hn.
    + reflexivity.
    + destruct (Hnew e' x' E' D'). congruence.
    + destruct (Hnew e x E D). exact Hn.
    + exact (xi_names _ _ _ _ H e e' x x' E E' D D' Hn).
Qed.

Definition connected (s : xstate) (l : list nat) : Prop :=
  ∃ c, x_conn s = Some c ∧ c_members c = true ∧ l `prefix_of` c_xext c.

(** [di_xorg_get_ext] for a client. *)
Lemma get_ext_ok t lost s c new name :
  xinv Running t lost s → x_conn s = Some c → c_members c = true →
  ∃ s', (r ← di_xorg_get_ext new name; match r with Some e => hold_ext S e | None => mret tt end) s = Done tt s' ∧
    xinv Running t lost s' ∧ connected s' (c_xext c).
Proof.
  intros H Hc Hm. pose proof (xinv_conn _ _ _ _ _ H Hc) as Hok. pose proof (co_flags _ _ _ _ _ Hok) as (A1 & A2 & _).
  destruct (find_ext name s (c_xext c)) as [e|] eqn:Ef.
  - destruct (find_ext_some _ _ _ _ Ef) as [Hin (x & He & _)]. pose proof (xi_ext _ _ _ _ H e x He) as Hx.
    pose proof (ext_counts_ok t lost s e x (S (e_refs x)) (S (e_held x)) (e_bindings x) H He) as Hok'.
    eexists. split; [|split; [apply Hok'; [rewrite (eo_refs _ _ _ Hx); lia|lia|exact (eo_bindings _ _ _ Hx)]|]].
    + eapply then_done.
      { unfold di_xorg_get_ext. eapply then_done; [unfold_objects; rewrite Hc; reflexivity|]. eapply then_done; [reflexivity|]. rewrite Ef.
        eapply then_done; [unfold_objects; rewrite He; cbn; rewrite He; reflexivity|]. reflexivity. }
      cbn beta iota. unfold hold_ext. eapply then_done; [unfold_objects; lookups; reflexivity|]. unfold_objects.
      unfold set_exts. cbn. rewrite insert_insert_eq. reflexivity.
    + exists c. split; [exact Hc|]. split; [exact Hm|reflexivity].
  - destruct (bool_decide (name ∈ xext_reg) && new) eqn:Eb.
    + apply andb_prop in Eb as [Hreg%bool_decide_eq_true_1 ->].
      eexists. split; [|split; [exact (ext_added t lost s c name H Hc Hm Ef Hreg)|]].
      * eapply then_done.
        { unfold di_xorg_get_ext. eapply then_done; [unfold_objects; rewrite Hc; reflexivity|]. eapply then_done; [reflexivity|]. rewrite Ef.
          rewrite bool_decide_eq_true_2 by exact Hreg. cbn [andb].
          eapply then_done; [unfold_objects; rewrite Hc; cbn; rewrite A2, Hm; reflexivity|].
          do 2 (eapply then_done; [reflexivity|]). eapply then_done; [unfold_objects; lookups; reflexivity|]. eapply then_done; [reflexivity|].
          eapply then_done; [unfold_objects; cbn; rewrite Hc; reflexivity|]. do 2 (eapply then_done; [reflexivity|]). reflexivity. }
        cbn beta iota. unfold hold_ext. eapply then_done; [unfold_objects; lookups; reflexivity|]. unfold_objects.
        unfold set_exts. cbn. rewrite !insert_insert_eq. reflexivity.
      * eexists. split; [reflexivity|]. split; [exact Hm|]. cbn. apply prefix_app_r. reflexivity.
    + exists s. split; [|split; [exact H|exists c; split; [exact Hc|split; [exact Hm|reflexivity]]]].
      eapply then_done; [unfold di_xorg_get_ext; eapply then_done; [unfold_objects; rewrite Hc; reflexivity|];
        eapply then_done; [reflexivity|]; rewrite Ef, Eb; reflexivity|]. reflexivity.
Qed.

(** An extension in use has an open connection. *)
Lemma use_c_ok t lost s e x :
  xinv Running t lost s → x_exts s !! e = Some x → e_dc x = true → ∀ m, use_c (set_exts m s) = Done tt (set_exts m s).
Proof.
  intros H He D m. destruct (xinv_dc _ _ _ _ _ _ H He D) as (c & Hc & Hok & Hin).
  destruct (co_flags _ _ _ _ _ Hok) as (_ & A2 & _ & _ & A5).
  assert (c_members c = true) as Hm.
  { destruct (c_members c); [reflexivity|]. rewrite (A5 eq_refl) in Hin. apply not_elem_of_nil in Hin as []. }
  unfold_objects. cbn. rewrite Hc, A2, Hm. reflexivity.
Qed.

Lemma bind_ok t lost s e : xinv Running t lost s → ∃ s', client (Bind e) s = Done tt s' ∧ xinv Running t lost s' ∧ x_conn s' = x_conn s.
Proof.
  intros H. unfold client. unfold mbind at 1, ST_bind at 1. cbn [get]. destruct (x_exts s !! e) as [x|] eqn:He; [|exists s; auto].
  destruct (Nat.ltb 0 (e_held x) && e_dc x) eqn:E; [|exists s; auto]. apply andb_prop in E as [Hh D].
  pose proof (xi_ext _ _ _ _ H e x He) as Hx.
  pose proof (ext_counts_ok t lost s e x (S (e_refs x)) (e_held x) (S (e_bindings x)) H He) as Hok'.
  eexists. split; [|split; [apply Hok'; [rewrite (eo_refs _ _ _ Hx); lia|lia|congruence]|reflexivity]].
  eapply then_done; [unfold_objects; reflexivity|].
  eapply then_done; [unfold_objects; lookups; reflexivity|].
  eapply eq_trans; [apply (use_c_ok t lost s e x H He D)|]. unfold set_exts. cbn. rewrite insert_insert_eq. reflexivity.
Qed.

(** What clients do keeps the invariant. *)
Lemma client_ok op t lost s :
  xinv Running t lost s → ∃ s', client op s = Done tt s' ∧ xinv Running t (lost_by op s + lost) s'.
Proof.
  intros H. destruct op as [connects has_event|new name| |e|e| |e]; cbn [lost_by].
  - unfold client. unfold mbind at 1, ST_bind at 1. cbn [get]. destruct (x_conn s) as [c|] eqn:Hc.
    { exists s. destruct connects, has_event; auto. }
    pose proof (xi_conn _ _ _ _ H) as Ht. rewrite Hc in Ht. destruct Ht as [-> _].
    destruct (connect_ok connects has_event lost s H Hc) as (r & s' & E & H'). exists s'. split; [eapply then_done; [exact E|reflexivity]|].
    destruct connects, has_event; exact H'.
  - unfold client. unfold mbind at 1, ST_bind at 1. cbn [get]. destruct (x_conn s) as [c|] eqn:Hc; [|exists s; auto].
    destruct (Nat.ltb 0 (c_held c) && c_members c) eqn:E; [|exists s; auto]. apply andb_prop in E as [_ Hm].
    destruct (get_ext_ok t lost s c new name H Hc Hm) as (s' & E' & H' & _). exists s'. auto.
  - unfold client. unfold mbind at 1, ST_bind at 1. cbn [get]. destruct (x_conn s) as [c|] eqn:Hc; [|exists s; auto].
    destruct (Nat.ltb 0 (c_held c) && c_members c) eqn:E; [|exists s; auto]. apply andb_prop in E as [Hh%Nat.ltb_lt _].
    destruct (finalize_conn_ok 2 t lost s c H Hc) as (s' & c' & E' & H' & _); [lia|]. exists s'. auto.
  - destruct (bind_ok t lost s e H) as (s' & E & H' & _). exists s'. auto.
  - unfold client. unfold mbind at 1, ST_bind at 1. cbn [get]. destruct (x_exts s !! e) as [x|] eqn:He; [|exists s; auto].
    destruct (Nat.ltb 0 (e_bindings x)) eqn:E; [|exists s; auto]. apply Nat.ltb_lt in E.
    pose proof (xi_ext _ _ _ _ H e x He) as Hx.
    assert (e_dc x = true) as D by (destruct (e_dc x) eqn:D; [reflexivity|]; rewrite (eo_bindings _ _ _ Hx D) in E; lia).
    destruct (unref_ext_ok 1 t lost s e x (e_held x) (e_bindings x - 1) H He) as (s' & E' & H').
    { rewrite (eo_refs _ _ _ Hx). lia. }
    { congruence. }
    exists s'. split; [|exact H']. rewrite D. eapply then_done.
    { pose proof (use_c_ok t lost s e x H He D (x_exts s)) as Hu. destruct s. exact Hu. }
    eapply then_done; [reflexivity|]. exact E'.
  - unfold client. unfold mbind at 1, ST_bind at 1. cbn [get]. destruct (x_conn s) as [c|] eqn:Hc; [|exists s; auto].
    destruct (Nat.ltb 0 (c_held c)) eqn:E; [|exists s; auto]. apply Nat.ltb_lt in E.
    destruct (unref_conn_ok 2 t t lost s c (pred (c_held c)) H Hc) as (s' & E' & H' & _); [lia|]. exists s'. split; [|exact H'].
    eapply then_done; [|exact E']. unfold hold_conn. unfold_objects. rewrite Hc. reflexivity.
  - unfold client. unfold mbind at 1, ST_bind at 1. cbn [get]. destruct (x_exts s !! e) as [x|] eqn:He; [|exists s; auto].
    destruct (Nat.ltb 0 (e_held x)) eqn:E; [|exists s; auto]. apply Nat.ltb_lt in E.
    pose proof (xi_ext _ _ _ _ H e x He) as Hx.
    destruct (unref_ext_ok 1 t lost s e x (pred (e_held x)) (e_bindings x) H He) as (s' & E' & H').
    { rewrite (eo_refs _ _ _ Hx). lia. }
    { exact (eo_bindings _ _ _ Hx). }
    exists s'. split; [|exact H']. eapply then_done; [|exact E']. unfold hold_ext. unfold_objects. rewrite He. reflexivity.
Qed.

(** A client that neither disconnects nor drops what may be the last reference to an
    extension. *)
Definition calm (op : xop) : bool :=
  match op with Connect _ _ | GetExt _ _ | Bind _ | DropConn => true | Disconnect | Unbind _ | DropExt _ => false end.

Lemma calm_ok op t lost s l :
  xinv Running (S t) lost s → connected s l → calm op = true →
  ∃ s', client op s = Done tt s' ∧ xinv Running (S t) lost s' ∧ connected s' l.
Proof.
  intros H (c & Hc & Hm & Hl) Hop. destruct op as [connects has_event|new name| |e|e| |e]; try discriminate Hop.
  - exists s. split; [unfold client; unfold mbind at 1, ST_bind at 1; cbn [get]; rewrite Hc; reflexivity|]. split; [exact H|]. exists c. auto.
  - unfold client. unfold mbind at 1, ST_bind at 1. cbn [get]. rewrite Hc, Hm. destruct (Nat.ltb 0 (c_held c)); cbn [andb].
    + destruct (get_ext_ok (S t) lost s c new name H Hc Hm) as (s' & E & H' & c' & Hc' & Hm' & Hl'). exists s'.
      split; [exact E|]. split; [exact H'|]. exists c'. split; [exact Hc'|]. split; [exact Hm'|]. etransitivity; eassumption.
    + exists s. split; [reflexivity|]. split; [exact H|]. exists c. auto.
  - destruct (bind_ok (S t) lost s e H) as (s' & E & H' & Hc'). exists s'. split; [exact E|]. split; [exact H'|].
    exists c. rewrite Hc'. auto.
  - unfold client. unfold mbind at 1, ST_bind at 1. cbn [get]. rewrite Hc. destruct (Nat.ltb 0 (c_held c)) eqn:E; [apply Nat.ltb_lt in E|].
    + destruct (unref_conn_ok 2 (S t) (S t) lost s c (pred (c_held c)) H Hc) as (s' & E' & H' & Hs'); [lia|]. exists s'. split.
      * eapply then_done; [|exact E']. unfold hold_conn. unfold_objects. rewrite Hc. reflexivity.
      * split; [exact H'|]. rewrite Hs' by lia. eexists. split; [reflexivity|]. auto.
    + exists s. split; [reflexivity|]. split; [exact H|]. exists c. auto.
Qed.

Lemma clients_ok ops t lost s :
  xinv Running (S t) lost s → ∃ s', for_each client ops s = Done tt s' ∧ xinv Running (S t) lost s'.
Proof.
  revert s. induction ops as [|op ops IH]; intros s H; [exists s; auto|]. destruct (client_ok op (S t) lost s H) as (s1 & E1 & H1).
  assert (lost_by op s = 0) as Hl.
  { pose proof (xi_conn _ _ _ _ H) as Hc. unfold lost_by. destruct op as [[] []| | | | | |]; try reflexivity.
    destruct (x_conn s); [reflexivity|]. destruct Hc as [Hc _]. discriminate. }
  rewrite Hl in H1. destruct (IH s1 H1) as (s' & E' & H'). exists s'. split; [|exact H']. eapply then_done; [exact E1|exact E'].
Qed.

Lemma calms_ok ops t lost s l :
  xinv Running (S t) lost s → connected s l → forallb calm ops = true →
  ∃ s', for_each client ops s = Done tt s' ∧ xinv Running (S t) lost s' ∧ connected s' l.
Proof.
  revert s. induction ops as [|op ops IH]; intros s H Hl Hops; [exists s; auto|]. apply andb_prop in Hops as [Hop Hops].
  destruct (calm_ok op t lost s l H Hl Hop) as (s1 & E1 & H1 & Hl1). destruct (IH s1 H1 Hl1 Hops) as (s' & E' & H' & Hl').
  exists s'. split; [eapply then_done; [exact E1|exact E']|auto].
Qed.

(** *** Events *)

Lemma successor_at l i e : NoDup l → l !! i = Some e → successor e l = Some (l !! S i).
Proof.
  revert i. induction l as [|e' l IH]; intros i Hn Hi; [discriminate|]. apply NoDup_cons in Hn as [Hnot Hn]. cbn [successor].
  destruct i as [|i]; cbn in Hi.
  - injection Hi as ->. rewrite Nat.eqb_refl. destruct l; reflexivity.
  - rewrite (proj2 (Nat.eqb_neq _ _)); [exact (IH i Hn Hi)|]. intros ->. apply Hnot. exact (list_elem_of_lookup_2 l i e Hi).
Qed.

Definition calm_event (ev : xevent) : Prop := ∀ e, forallb calm (ev e).1 = true.

Lemma dispatch_event_ok ev t lost fuel i s el :
  calm_event ev → xinv Running (S t) lost s → connected s [] → length xext_reg ≤ fuel + i →
  (el = None ∨ ∃ c, x_conn s = Some c ∧ el = c_xext c !! i) →
  ∃ s', hash_iter fuel (handle_event ev) el s = Done tt s' ∧ xinv Running (S t) lost s' ∧ connected s' [].
Proof.
  intros Hev. revert i s el. induction fuel as [|fuel IH]; intros i s el H Hcon Hf Hel;
    (destruct el as [e|]; [|exists s; split; [reflexivity|auto]]);
    (destruct Hel as [Hel|(c & Hc & Hel)]; [discriminate|]); symmetry in Hel;
    pose proof (lookup_lt_Some _ _ _ Hel) as Hi; pose proof (table_short _ _ _ _ _ H Hc) as Hlen; [lia|].
  pose proof (xinv_conn _ _ _ _ _ H Hc) as Hok. pose proof (successor_at _ _ _ (co_nodup _ _ _ _ _ Hok) Hel) as Hs.
  destruct (proj1 (co_table _ _ _ _ _ Hok e) (list_elem_of_lookup_2 _ _ _ Hel)) as (x & He & _).
  assert (connected s (c_xext c)) as Hcon'.
  { destruct Hcon as (c' & Hc' & Hm & _). rewrite Hc in Hc'. injection Hc' as <-. exists c. auto. }
  destruct (calms_ok (ev e).1 t lost s (c_xext c) H Hcon' (Hev e)) as (s1 & E1 & H1 & c1 & Hc1 & Hm1 & Hl1).
  assert (∃ s', (if Z.eqb (ev e).2 1 then hash_iter fuel (handle_event ev) (c_xext c !! S i) else mret tt) s1 = Done tt s' ∧
    xinv Running (S t) lost s' ∧ connected s' []) as (s' & E' & H').
  { destruct (Z.eqb (ev e).2 1).
    - apply (IH (S i)); [exact H1|exists c1; split; [exact Hc1|split; [exact Hm1|apply prefix_nil]]|cbn in *; lia|].
      destruct (c_xext c !! S i) as [e'|] eqn:E; [right|left; reflexivity]. exists c1. split; [exact Hc1|].
      symmetry. exact (prefix_lookup_Some _ _ _ _ E Hl1).
    - exists s1. split; [reflexivity|]. split; [exact H1|]. exists c1. split; [exact Hc1|split; [exact Hm1|apply prefix_nil]]. }
  exists s'. split; [|exact H']. cbn [hash_iter]. eapply then_done; [unfold_objects; rewrite Hc; reflexivity|].
  eapply then_done; [rewrite Hs; reflexivity|]. eapply then_done; [|exact E'].
  unfold handle_event. eapply then_done; [unfold_objects; rewrite He; reflexivity|]. eapply then_done; [exact E1|reflexivity].
Qed.

Lemma connected_use s t lost : xinv Running t lost s → connected s [] → use_c s = Done tt s.
Proof.
  intros H (c & Hc & Hm & _). destruct (co_flags _ _ _ _ _ (xinv_conn _ _ _ _ _ H Hc)) as (_ & A2 & _).
  unfold_objects. rewrite Hc, A2, Hm. reflexivity.
Qed.

Lemma events_ok events t lost s :
  (∀ ev, ev ∈ events → calm_event ev) → xinv Running (S t) lost s → connected s [] →
  ∃ s', for_each (λ ev, use_c;; c ← get_conn; hash_iter iter_fuel (handle_event ev) (head (c_xext c))) events s = Done tt s' ∧
    xinv Running (S t) lost s' ∧ connected s' [].
Proof.
  revert s. induction events as [|ev events IH]; intros s Hev H Hcon; [exists s; auto|].
  pose proof Hcon as (c & Hc & _). destruct (dispatch_event_ok ev t lost iter_fuel 0 s (head (c_xext c))) as (s1 & E1 & H1 & Hcon1).
  - apply Hev. left.
  - exact H.
  - exact Hcon.
  - unfold iter_fuel. lia.
  - right. exists c. split; [exact Hc|]. destruct (c_xext c); reflexivity.
  - destruct (IH s1 (λ ev' Hin, Hev ev' (list_elem_of_further _ _ _ Hin)) H1 Hcon1) as (s' & E' & H').
    exists s'. split; [|exact H']. cbn [for_each]. eapply then_done; [|exact E']. eapply then_done; [exact (connected_use s _ _ H Hcon)|].
    eapply then_done; [unfold_objects; rewrite Hc; reflexivity|]. exact E1.
Qed.

Lemma ioev_ok events error on_error lost s :
  (∀ ev, ev ∈ events → calm_event ev) → xinv Running 0 lost s → connected s [] →
  ∃ s', di_xorg_ioev events error on_error s = Done tt s' ∧ xinv Running 0 lost s'.
Proof.
  intros Hev H (c & Hc & Hm & _). pose proof (xinv_conn _ _ _ _ _ H Hc) as Hok.
  pose proof (ref_conn_ok _ _ _ _ _ H Hc) as H1. set (s1 := set_conn _ s) in H1.
  assert (connected s1 []) as Hcon1 by (eexists; split; [reflexivity|split; [exact Hm|apply prefix_nil]]).
  destruct (events_ok events 0 lost s1 Hev H1 Hcon1) as (s2 & E2 & H2 & Hcon2).
  assert (∃ s3, (if error then for_each client on_error;; di_finalize_object di_unref_object C else mret tt) s2 = Done tt s3 ∧
    xinv Running 1 lost s3) as (s3 & E3 & H3).
  { destruct error; [|exists s2; auto]. destruct (clients_ok on_error 0 lost s2 H2) as (s3 & E3 & H3).
    pose proof (xi_conn _ _ _ _ H3) as Hc3. destruct (x_conn s3) as [c3|] eqn:Ec3; [|destruct Hc3; discriminate].
    destruct (finalize_conn_ok 2 1 lost s3 c3 H3 Ec3) as (s4 & c4 & E4 & H4 & _); [lia|]. exists s4. split; [|exact H4].
    eapply then_done; [exact E3|exact E4]. }
  pose proof (xi_conn _ _ _ _ H3) as Hc3. destruct (x_conn s3) as [c3|] eqn:Ec3; [|destruct Hc3; discriminate].
  destruct (unref_conn_ok 2 1 0 lost s3 c3 (c_held c3) H3 Ec3) as (s4 & E4 & H4 & _); [lia|]. exists s4. split; [|exact H4].
  eapply then_done; [reflexivity|]. rewrite Hc. eapply then_done.
  { rewrite (proj2 (Nat.ltb_lt _ _) (co_pos _ _ _ _ _ Hok)). reflexivity. }
  eapply then_done; [unfold_objects; rewrite Hc; cbn; rewrite Hc; reflexivity|]. eapply then_done; [exact E2|].
  eapply then_done; [exact (connected_use s2 _ _ H2 Hcon2)|]. eapply then_done; [exact E3|].
  unfold di_unref_object, depth. rewrite <- E4. f_equal. destruct s3, c3. cbn in *. subst. reflexivity.
Qed.

(** ** Programs

    Clients act, or the connection has events; these come from its member
    ["__xcb_fd_event"]. *)
Inductive xaction :=
  | Act (op : xop)
  | Events (events : list xevent) (error : bool) (on_error : list xop).

Definition perform (a : xaction) : ST xstate unit :=
  match a with
  | Act op => client op
  | Events events error on_error =>
      s ← get;
      match x_conn s with
      | Some c => if c_members c then di_xorg_ioev events error on_error else mret tt
      | None => mret tt
      end
  end.

Definition fine (a : xaction) : Prop :=
  match a with Act _ => True | Events events _ _ => ∀ ev, ev ∈ events → calm_event ev end.

Definition no_x : xstate := XState None ∅ 0 0 0.

Lemma no_x_ok : xinv Running 0 0 no_x.
Proof.
  constructor; cbn.
  - repeat (split; [reflexivity|]). intros e x. rewrite lookup_empty. discriminate.
  - intros e x. rewrite lookup_empty. discriminate.
  - intros e e' x x'. rewrite lookup_empty. discriminate.
Qed.

(** The X connections that could be lost by a program. *)
Definition loss (a : xaction) : nat := match a with Act (Connect true false) => 1 | _ => 0 end.
Definition losses (actions : list xaction) : nat := sum_list_with loss actions.

Lemma action_ok a lost s :
  xinv Running 0 lost s → fine a → ∃ s' n, perform a s = Done tt s' ∧ xinv Running 0 (n + lost) s' ∧ n ≤ loss a.
Proof.
  intros H Ha. destruct a as [op|events error on_error].
  - destruct (client_ok op 0 lost s H) as (s' & E & H'). exists s', (lost_by op s). split; [exact E|]. split; [exact H'|].
    unfold lost_by. destruct op as [[] []| | | | | |]; cbn; try lia. destruct (x_conn s); cbn; lia.
  - cbn [perform]. unfold mbind at 1, ST_bind at 1. cbn [get]. destruct (x_conn s) as [c|] eqn:Hc; [|exists s, 0; split; [reflexivity|split; [exact H|lia]]].
    destruct (c_members c) eqn:Hm; [|exists s, 0; split; [reflexivity|split; [exact H|lia]]].
    destruct (ioev_ok events error on_error lost s Ha H) as (s' & E & H'); [exists c; split; [exact Hc|split; [exact Hm|apply prefix_nil]]|].
    exists s', 0. split; [exact E|]. split; [exact H'|lia].
Qed.

Lemma run_ok actions lost s :
  xinv Running 0 lost s → Forall fine actions →
  ∃ s' n, for_each perform actions s = Done tt s' ∧ xinv Running 0 (n + lost) s' ∧ n ≤ losses actions.
Proof.
  intros H Hf. revert lost s H. induction Hf as [|a actions Ha _ IH]; intros lost s H; [exists s, 0; split; [reflexivity|split; [exact H|lia]]|].
  destruct (action_ok a lost s H Ha) as (s1 & n1 & E1 & H1 & L1). destruct (IH _ _ H1) as (s' & n & E' & H' & L).
  exists s', (n + n1). split; [eapply then_done; [exact E1|exact E']|]. split; [rewrite <- Nat.add_assoc; exact H'|].
  unfold losses in *. cbn. lia.
Qed.

Lemma nothing_held lost s :
  xinv Running 0 lost s → (∀ c, x_conn s = Some c → c_held c = 0) → (∀ e x, x_exts s !! e = Some x → e_held x = 0 ∧ e_bindings x = 0) →
  x_conn s = None ∧ x_exts s = ∅ ∧ x_open s = lost ∧ x_contexts s = 0.
Proof.
  intros H Hc He. assert (x_exts s = ∅) as Hx.
  { apply map_empty. intros e. destruct (x_exts s !! e) as [x|] eqn:E; [|reflexivity]. destruct (xi_ext _ _ _ _ H e x E), (He e x E). lia. }
  pose proof (xi_conn _ _ _ _ H) as Hok. destruct (x_conn s) as [c|].
  - destruct Hok as [K1 K2 _ _ _ K6]. rewrite (Hc c eq_refl) in K1. destruct (c_xext c) as [|e l]; [cbn in K1; lia|].
    destruct (proj1 (K6 e) (list_elem_of_here _ _)) as (x & E & _). rewrite Hx, lookup_empty in E. discriminate.
  - destruct Hok as (_ & ? & ? & _). auto.
Qed.


(** A session: two extensions, a key binding, an event that makes a client ask for the third
    one and forget the connection, and the end in the order that leaves the connection to its last extension. *)
Definition x_session : list xaction :=
  [Act (Connect true true); Act (GetExt true "key"); Act (Bind 0); Act (GetExt true "randr"); Act (GetExt true "key");
   Events [λ e, (if Nat.eqb e 0 then [GetExt true "xinput"; DropConn] else [], 1%Z)] false [];
   Act (DropExt 0); Act (DropExt 1); Act (DropExt 0); Act (DropExt 2); Act (Unbind 0)].


Lemma crash_bind {S A B} (m : ST S A) (f : A → ST S B) s k : m s = Crash k → (m ≫= f) s = Crash k.
Proof. intros H. unfold mbind, ST_bind. rewrite H. reflexivity. Qed.

(** A client that disconnects when it hears of an event from the first extension: the loop over
    the extensions goes on from one that is no longer in the table, or the next event is
    asked for at a null pointer. *)
Theorem disconnect_in_handler_crashes ev events error on_error lost s c e l :
  xinv Running 0 lost s → x_conn s = Some c → c_members c = true → 0 < c_held c → c_xext c = e :: l →
  (ev e).1 = [Disconnect] →
  di_xorg_ioev (ev :: events) error on_error s = Crash (if Z.eqb (ev e).2 1 && negb (Nat.eqb (length l) 0) then StaleIter else NullDeref).
Proof.
  intros H Hc Hm Hh Hl Hev. pose proof (xinv_conn _ _ _ _ _ H Hc) as Hok.
  pose proof (ref_conn_ok _ _ _ _ _ H Hc) as H1. set (s1 := set_conn _ s) in H1. set (c1 := conn_refs (S (c_refs c)) c) in *.
  destruct (finalize_conn_ok 2 1 lost s1 c1 H1 eq_refl) as (s2 & c2 & E2 & H2 & Hc2 & _ & Hm2); [cbn; lia|].
  pose proof (co_flags _ _ _ _ _ (xinv_conn _ _ _ _ _ H2 Hc2)) as (_ & A2 & _ & _ & A5). rewrite Hm2 in A2. specialize (A5 Hm2).
  destruct (proj1 (co_table _ _ _ _ _ Hok e)) as (x & He & _); [rewrite Hl; left|].
  assert (handle_event ev e s1 = Done (Z.eqb (ev e).2 1) s2) as Eh.
  { unfold handle_event. eapply then_done; [unfold_objects; unfold s1; cbn; rewrite He; reflexivity|]. rewrite Hev.
    eapply then_done; [|reflexivity]. cbn [for_each]. eapply then_done; [|reflexivity]. unfold client. eapply then_done; [reflexivity|].
    assert (Nat.ltb 0 (c_held c1) && c_members c1 = true) as Eg.
    { unfold c1. cbn [c_held c_members conn_refs]. rewrite (proj2 (Nat.ltb_lt _ _) Hh), Hm. reflexivity. }
    unfold s1 at 1. cbn [x_conn set_conn]. rewrite Eg. exact E2. }
  eapply then_done; [reflexivity|]. rewrite Hc.
  eapply then_done; [rewrite (proj2 (Nat.ltb_lt _ _) (co_pos _ _ _ _ _ Hok)); reflexivity|].
  eapply then_done; [unfold_objects; rewrite Hc; cbn; rewrite Hc; reflexivity|]. fold c1 s1.
  assert (use_c s2 = Crash NullDeref) as Eu by (unfold_objects; rewrite Hc2, A2; reflexivity).
  assert (use_c s1 = Done tt s1) as Eu1.
  { unfold_objects. cbn. destruct (co_flags _ _ _ _ _ Hok) as (_ & A & _). rewrite A, Hm. reflexivity. }
  cbn [for_each].
  destruct (Z.eqb (ev e).2 1 && negb (Nat.eqb (length l) 0)) eqn:Eb.
  - apply andb_prop in Eb as [Est El]. destruct l as [|e' l]; [discriminate|].
    apply crash_bind, crash_bind. eapply then_done; [exact Eu1|]. eapply then_done; [reflexivity|].
    cbn [c1 c_xext conn_refs]. rewrite Hl. cbn [head]. unfold iter_fuel. cbn [hash_iter].
    eapply then_done; [reflexivity|]. cbn [c1 c_xext conn_refs]. rewrite Hl. cbn [successor]. rewrite Nat.eqb_refl.
    eapply then_done; [reflexivity|]. eapply then_done; [exact Eh|]. rewrite Est. cbn [head length xext_reg hash_iter].
    eapply then_done; [unfold_objects; rewrite Hc2; reflexivity|]. rewrite A5. reflexivity.
  - assert ((use_c;; c ← get_conn; hash_iter iter_fuel (handle_event ev) (head (c_xext c))) s1 = Done tt s2) as Ei.
    { eapply then_done; [exact Eu1|]. eapply then_done; [reflexivity|]. cbn [c1 c_xext conn_refs]. rewrite Hl. cbn [head].
      unfold iter_fuel. cbn [hash_iter]. eapply then_done; [reflexivity|]. cbn [c1 c_xext conn_refs]. rewrite Hl. cbn [successor].
      rewrite Nat.eqb_refl. eapply then_done; [reflexivity|]. eapply then_done; [exact Eh|].
      destruct (Z.eqb (ev e).2 1); [|reflexivity]. destruct l as [|e' l]; [reflexivity|discriminate]. }
    destruct events as [|ev' events]; cbn [for_each].
    + eapply then_done; [eapply then_done; [exact Ei|reflexivity]|]. apply crash_bind, Eu.
    + apply crash_bind. eapply then_done; [exact Ei|]. apply crash_bind, crash_bind, Eu.
Qed.

Lemma disconnect_in_handler_crashes_witness :
  let s := XState (Some (XConn 2 1 false true true true [0])) {[0 := XExt 1 1 0 false true true "key"%string]} 1 1 1 in
  xinv Running 0 0 s ∧ di_xorg_ioev [λ _, ([Disconnect], 1%Z)] false [] s = Crash NullDeref.
Proof.
  intros s. assert (xinv Running 0 0 s) as H.
  { destruct (run_ok [Act (Connect true true); Act (GetExt true "key")] 0 no_x no_x_ok) as (s' & n & E & H & L); [repeat constructor|].
    vm_compute in E. injection E as <-. assert (n = 0) as -> by (revert L; cbn; lia). exact H. }
  split; [exact H|].
  exact (disconnect_in_handler_crashes (λ _, ([Disconnect], 1%Z)) [] false [] 0 s _ 0 [] H eq_refl eq_refl ltac:(cbn; lia) eq_refl eq_refl).
Defined.

(** The default screen. *)
Lemma screen_of_display_lookup {A} (screens : list A) n : screen_of_display screens (Z.of_nat n) = screens !! n.
Proof.
  revert n. induction screens as [|x screens IH]; intros n; [reflexivity|]. cbn [screen_of_display]. destruct n as [|n]; [reflexivity|].
  rewrite (proj2 (Z.eqb_neq _ _)) by lia. replace (Z.of_nat (S n) - 1)%Z with (Z.of_nat n) by lia. apply IH.
Qed.
