(* ===== verification/Heap.v ===== *)
(** * The object heap (di_internal.h, object.c)

    Objects are [struct di_object_internal] cells addressed by [loc]; signals
    are [struct di_signal] cells addressed by [sid].  A hash table of uthash is
    the list of its elements in insertion order, which is its iteration order.
    Members carry an identity, the address of their [struct di_member], so that
    an iteration that holds a pointer to a freed member can be told from one
    that meets a new member of the same name. *)

From S2P Require Import Prelude DiTypes.

Abbreviation sid := nat (only parsing).

(** ** Cells *)

Record member := Member { m_id : nat; m_name : string; m_val : value }.

(** The destructors and call functions an object can point to: those of the
    modelled files, and those of other code by number. *)
Inductive dtor_kind : Type :=
  | DtorListenHandle        (** [di_listen_handle_dtor] *)
  | DtorClosure             (** [free_closure] *)
  | DtorRoots               (** [di_roots_dtor] *)
  | DtorExt (n : nat).

#[export] Instance dtor_kind_eq_dec : EqDecision dtor_kind.
Proof. solve_decision. Defined.

Inductive call_kind : Type :=
  | CallClosure             (** [closure_trampoline] *)
  | CallProxiedSignal       (** [emit_proxied_signal] *)
  | CallExt (n : nat).

(** The fields of the derived structs of event.c, log.c and dbus.c, which hold no
    references: the state of a libev watcher is whether it is active and how it
    is set; a pointer of libdbus is its address. *)
Inductive fields : Type :=
  | FIoev (fd flags : Z) (active running : bool)       (** [struct di_ioev] *)
  | FTimer (repeat : double) (active : bool)           (** [struct di_timer] *)
  | FPeriodic (interval offset : double) (active : bool) (** [struct di_periodic] *)
  | FLog (log_level : Z)                               (** [struct di_log] *)
  | FConnection (conn : Z) (known_names : list (string * string)) (** [di_dbus_connection] *)
  | FDbusObject (bus obj : string)                     (** [di_dbus_object] *)
  | FMethod (method : string) (interface : option string) (** [di_dbus_method] *)
  | FPending (p : Z)                                   (** [di_dbus_pending_reply] *)
  | FFieldGetter (type : di_type) (offset : string)    (** [struct di_field_getter]; the offset is
                                                            that of the field of this name *).

(** What a derived struct adds to [struct di_object_internal]. *)
Inductive ext : Type :=
  | ENone
  | EClosure (fn : nat) (captures : list value) (atypes : list di_type) (rtype : di_type)
  | EListenHandle (signal : sid)
  | ERoots (next_anonymous_root_id : Z) (anonymous_roots : list (Z * loc))
  | EFields (f : fields)
  | EPoison                 (** the destructor has run: its pointers dangle *).

Record obj := Obj {
  o_members : list member;
  o_signals : list (string * sid);
  o_dtor : option dtor_kind;
  o_call : option call_kind;
  o_rc : nat;
  o_wrc : nat;
  o_destroyed : bool;
  o_ext : ext
}.

(** [struct di_signal]; its listeners are the listen handles the listener
    structs weakly refer to, one struct per handle.  The owner is [None] once
    the reference to it has been dropped ([PTR_POISON]). *)
Record signal := Signal {
  sg_name : di_string;
  sg_nlisteners : nat;
  sg_owner : option loc;
  sg_listeners : list loc
}.

(** ** References *)

Inductive ref : Type := Strong (l : loc) | Weak (l : loc).

#[export] Instance ref_eq_dec : EqDecision ref.
Proof. solve_decision. Defined.

(** The references a value holds. *)
Fixpoint refs (v : value) : list ref :=
  match v with
  | VObject l => [Strong l]
  | VWeak l => if decide (l = DEAD) then [] else [Weak l]
  | VArray _ _ l => concat (map refs l)
  | VTuple l => concat (map refs l)
  | VVariant w => refs w
  | _ => []
  end.

Definition refs_of_list (l : list value) : list ref := concat (map refs l).

Definition ext_refs (x : ext) : list ref :=
  match x with
  | EClosure _ caps _ _ => refs_of_list caps
  | ERoots _ anon => map (λ p, Strong p.2) anon
  | _ => []
  end.

Definition member_refs (ms : list member) : list ref := refs_of_list (map m_val ms).
Definition obj_refs (o : obj) : list ref := member_refs (o_members o) ++ ext_refs (o_ext o).
Definition sig_refs (g : signal) : list ref :=
  match sg_owner g with Some o => [Weak o] | None => [] end ++ map Weak (sg_listeners g).

(** ** The machine state *)

(** [s_leaked] is ghost state: it collects the references that nothing can drop
    any more, because the block that holds them became unreachable or the local
    variable that held them went out of scope.  No operation reads it.
    [s_trace] is the log of calls to code outside the model, newest first. *)
Record state := State {
  s_heap : gmap loc obj;
  s_sigs : gmap sid signal;
  s_next : nat;
  s_leaked : list ref;
  s_trace : list (string * list value)
}.

Abbreviation M := (ST state).

Definition set_heap (h : gmap loc obj) (s : state) : state :=
  State h (s_sigs s) (s_next s) (s_leaked s) (s_trace s).
Definition set_sigs (g : gmap sid signal) (s : state) : state :=
  State (s_heap s) g (s_next s) (s_leaked s) (s_trace s).

(** Memory accesses. *)
Definition rd (l : loc) : M obj := λ s,
  match s_heap s !! l with Some o => Done o s | None => Crash UseAfterFree end.
Definition wr (l : loc) (o : obj) : M unit := modify (λ s, set_heap (<[l := o]> (s_heap s)) s).
Definition rd_sig (i : sid) : M signal := λ s,
  match s_sigs s !! i with Some g => Done g s | None => Crash SignalGone end.
Definition wr_sig (i : sid) (g : signal) : M unit := modify (λ s, set_sigs (<[i := g]> (s_sigs s)) s).

(** A fresh address, for an object, a signal or a member. *)
Definition fresh_id : M nat := λ s,
  Done (s_next s) (State (s_heap s) (s_sigs s) (S (s_next s)) (s_leaked s) (s_trace s)).

(** A call to code outside the model. *)
Definition emit_event (what : string) (args : list value) : M unit :=
  modify (λ s, State (s_heap s) (s_sigs s) (s_next s) (s_leaked s) ((what, args) :: s_trace s)).

(** References that are lost without being dropped (ghost). *)
Definition leak (rs : list ref) : M unit :=
  modify (λ s, State (s_heap s) (s_sigs s) (s_next s) (rs ++ s_leaked s) (s_trace s)).

(** [free (obj)]: what the struct still points to is leaked. *)
Definition free_obj (l : loc) : M unit := λ s,
  match s_heap s !! l with
  | Some o => Done tt (State (delete l (s_heap s)) (s_sigs s) (s_next s)
                         (obj_refs o ++ s_leaked s) (s_trace s))
  | None => Crash UseAfterFree
  end.

(** [free (sig)]: the references that are still in it are leaked. *)
Definition free_sig (i : sid) : M unit := λ s,
  match s_sigs s !! i with
  | Some g => Done tt (State (s_heap s) (delete i (s_sigs s)) (s_next s)
                         (sig_refs g ++ s_leaked s) (s_trace s))
  | None => Crash SignalGone
  end.

(** ** Field updates *)

Definition with_rc (n : nat) (o : obj) : obj :=
  Obj (o_members o) (o_signals o) (o_dtor o) (o_call o) n (o_wrc o) (o_destroyed o) (o_ext o).
Definition with_wrc (n : nat) (o : obj) : obj :=
  Obj (o_members o) (o_signals o) (o_dtor o) (o_call o) (o_rc o) n (o_destroyed o) (o_ext o).
Definition with_destroyed (b : bool) (o : obj) : obj :=
  Obj (o_members o) (o_signals o) (o_dtor o) (o_call o) (o_rc o) (o_wrc o) b (o_ext o).
Definition with_members (ms : list member) (o : obj) : obj :=
  Obj ms (o_signals o) (o_dtor o) (o_call o) (o_rc o) (o_wrc o) (o_destroyed o) (o_ext o).
Definition with_signals (sg : list (string * sid)) (o : obj) : obj :=
  Obj (o_members o) sg (o_dtor o) (o_call o) (o_rc o) (o_wrc o) (o_destroyed o) (o_ext o).
Definition with_dtor (d : option dtor_kind) (o : obj) : obj :=
  Obj (o_members o) (o_signals o) d (o_call o) (o_rc o) (o_wrc o) (o_destroyed o) (o_ext o).
Definition with_call (c : option call_kind) (o : obj) : obj :=
  Obj (o_members o) (o_signals o) (o_dtor o) c (o_rc o) (o_wrc o) (o_destroyed o) (o_ext o).
Definition with_ext (x : ext) (o : obj) : obj :=
  Obj (o_members o) (o_signals o) (o_dtor o) (o_call o) (o_rc o) (o_wrc o) (o_destroyed o) x.

Definition upd (l : loc) (f : obj → obj) : M unit := o ← rd l; wr l (f o).

(** Overwrite the private fields of a derived struct; references that were in
    them are lost. *)
Definition set_ext (l : loc) (x : ext) : M unit :=
  o ← rd l; leak (ext_refs (o_ext o));; wr l (with_ext x o).

(** ** Hash tables as lists *)

(** [HASH_FIND] by name. *)
Fixpoint find_member (name : string) (ms : list member) : option member :=
  match ms with
  | [] => None
  | m :: ms' => if String.eqb (m_name m) name then Some m else find_member name ms'
  end.

(** [HASH_DEL] of one element, with the element; [None] if it is not in the
    table. *)
Fixpoint take_member (id : nat) (ms : list member) : option (member * list member) :=
  match ms with
  | [] => None
  | m :: ms' =>
      if Nat.eqb (m_id m) id then Some (m, ms')
      else prod_map (λ x, x) (cons m) <$> take_member id ms'
  end.

(** The element after [m], [m->hh.next]. *)
Fixpoint next_member (id : nat) (ms : list member) : option member :=
  match ms with
  | [] => None
  | m :: ms' => if Nat.eqb (m_id m) id then head ms' else next_member id ms'
  end.

(** Overwrite the value slot of a member, with the old value; [None] if it is
    not in the table. *)
Fixpoint swap_member (id : nat) (v : value) (ms : list member) : option (value * list member) :=
  match ms with
  | [] => None
  | m :: ms' =>
      if Nat.eqb (m_id m) id then Some (m_val m, Member (m_id m) (m_name m) v :: ms')
      else prod_map (λ x, x) (cons m) <$> swap_member id v ms'
  end.

Fixpoint find_signal (name : string) (sg : list (string * sid)) : option sid :=
  match sg with
  | [] => None
  | (n, i) :: sg' => if String.eqb n name then Some i else find_signal name sg'
  end.

Fixpoint del_signal (i : sid) (sg : list (string * sid)) : option (list (string * sid)) :=
  match sg with
  | [] => None
  | (n, j) :: sg' => if Nat.eqb i j then Some sg' else cons (n, j) <$> del_signal i sg'
  end.

(** ** Reference counting (object.c) *)

(** [di_ref_object] *)
Definition di_ref_object (l : loc) : M loc :=
  o ← rd l; wr l (with_rc (S (o_rc o)) o);; mret l.

(** [di_weakly_ref_object]; the object behind [dead_weak_ref] is [const]. *)
Definition di_weakly_ref_object (l : loc) : M loc :=
  if decide (l = DEAD) then fail ConstWrite
  else o ← rd l; wr l (with_wrc (S (o_wrc o)) o);; mret l.

(** [di_upgrade_weak_ref]; the reference count of the dead object is 0. *)
Definition di_upgrade_weak_ref (l : loc) : M (option loc) :=
  if decide (l = DEAD) then mret None
  else
    o ← rd l;
    if Nat.ltb 0 (o_rc o) then r ← di_ref_object l; mret (Some r) else mret None.

(** [di_decrement_weak_ref_count]; [0] would wrap around in C. *)
Definition di_decrement_weak_ref_count (l : loc) : M unit :=
  o ← rd l;
  match o_wrc o with
  | O => fail RefUnderflow
  | S n => wr l (with_wrc n o);; if Nat.eqb n 0 then free_obj l else mret tt
  end.

(** [di_drop_weak_ref] *)
Definition di_drop_weak_ref (l : loc) : M unit :=
  if decide (l = DEAD) then fail ConstWrite else di_decrement_weak_ref_count l.

(** [di_new_object]: null when the size or the alignment is too small for a
    [struct di_object] (128 bytes, aligned to 8). *)
Definition di_new_object (sz alignment : Z) : M (option loc) :=
  if (sz <? 128)%Z then mret None
  else if (alignment <? 8)%Z then mret None
  else
    l ← fresh_id;
    wr l (Obj [] [] None None 1 1 false ENone);;
    mret (Some l).

(** [di_new_object_with_type(struct T)]: the size and alignment are those of a
    struct that begins with a [struct di_object]; the rest of the struct is
    [x], with its fields zeroed by [di_new_object] and set by the caller. *)
Definition di_new_object_with_type (x : ext) : M loc :=
  r ← di_new_object 128 8;
  l ← from_opt NullDeref r;
  upd l (with_ext x);;
  mret l.

Definition di_set_object_dtor (l : loc) (d : option dtor_kind) : M unit := upd l (with_dtor d).
Definition di_set_object_call (l : loc) (c : option call_kind) : M unit := upd l (with_call c).
Definition di_is_object_callable (l : loc) : M bool :=
  o ← rd l; mret (match o_call o with Some _ => true | None => false end).

(** ** The interface to the rest of the program

    [unref_object] is [di_unref_object]; [call_object] calls through the [call]
    pointer of an object; [run_dtor] runs a destructor.  They are mutually
    recursive through the object graph; Knot.v ties them together.
    [loop_fuel] bounds the iterations of a loop over a table that the loop body
    may extend. *)
Class Kernel := {
  loop_fuel : nat;
  unref_object : loc → M unit;
  call_object : loc → list value → M (Z + value);
  run_dtor : dtor_kind → loc → M unit
}.
