(* ===== verification/Account.v ===== *)
(** * Reference accounting

    The invariant [Inv E s]: every strong count is the number of strong
    references to the object, wherever they are stored - in members, in the
    private fields of derived structs, in leaked blocks - plus those of the
    ghost list [E], the references held by the running code.  Weak counts are
    accounted the same way, plus one while the strong count is not zero.  No
    reference dangles, and addresses are never reused. *)

From S2P Require Import Prelude DiTypes Heap.

(** ** Counting references in the heap *)

Section total.
Context {B : Type} (f : B → list ref).

Definition total (r : ref) (h : gmap nat B) : nat :=
  map_fold (λ _ o acc, cnt r (f o) + acc) 0 h.

Lemma total_empty r : total r ∅ = 0.
Proof. apply map_fold_empty. Qed.

Lemma total_insert_new r h l o :
  h !! l = None → total r (<[l := o]> h) = cnt r (f o) + total r h.
Proof.
  intros Hl. unfold total.
  apply (map_fold_insert_L (λ _ o acc, cnt r (f o) + acc)); [|exact Hl].
  intros. lia.
Qed.

Lemma total_delete r h l o :
  h !! l = Some o → total r h = cnt r (f o) + total r (delete l h).
Proof.
  intros Hl. unfold total.
  apply (map_fold_delete_L (λ _ o acc, cnt r (f o) + acc)); [|exact Hl].
  intros. lia.
Qed.

Lemma total_insert r h l o o' :
  h !! l = Some o → total r (<[l := o']> h) + cnt r (f o) = cnt r (f o') + total r h.
Proof.
  intros Hl. rewrite (total_delete r h l o Hl).
  rewrite <- insert_delete_eq, total_insert_new by apply lookup_delete_eq. lia.
Qed.

Lemma total_insert_same r h l o o' :
  h !! l = Some o → f o' = f o → total r (<[l := o']> h) = total r h.
Proof. intros Hl Hf. pose proof (total_insert r h l o o' Hl). rewrite Hf in *. lia. Qed.

Lemma total_ge r h l o : h !! l = Some o → cnt r (f o) ≤ total r h.
Proof. intros Hl. rewrite (total_delete r h l o Hl). lia. Qed.
End total.

Definition hcnt (r : ref) (s : state) : nat :=
  total obj_refs r (s_heap s) + total sig_refs r (s_sigs s) + cnt r (s_leaked s).

(** ** The invariant *)

Definition implicit_weak (o : obj) : nat := if decide (o_rc o = 0) then 0 else 1.

Record Inv (E : list ref) (s : state) : Prop := {
  inv_strong : ∀ l o, s_heap s !! l = Some o →
    o_rc o = hcnt (Strong l) s + cnt (Strong l) E;
  inv_weak : ∀ l o, s_heap s !! l = Some o →
    o_wrc o = hcnt (Weak l) s + cnt (Weak l) E + implicit_weak o;
  inv_dom : ∀ l, s_heap s !! l = None →
    hcnt (Strong l) s + cnt (Strong l) E = 0 ∧ hcnt (Weak l) s + cnt (Weak l) E = 0;
  inv_fresh : ∀ l, s_next s ≤ l → s_heap s !! l = None ∧ s_sigs s !! l = None;
  inv_dead : s_heap s !! DEAD = None;
  inv_next : DEAD < s_next s;
  inv_destroyed : ∀ l o, s_heap s !! l = Some o → o_rc o = 0 → o_destroyed o = true;
  inv_live : ∀ l o, s_heap s !! l = Some o → 0 < o_wrc o
}.

(** The crashes that the accounting excludes. *)
Definition tolerated (c : crash) : Prop := c ≠ UseAfterFree ∧ c ≠ RefUnderflow.

Lemma tolerated_iff c : tolerated c ↔ (match c with UseAfterFree | RefUnderflow => False | _ => True end).
Proof. destruct c; unfold tolerated; naive_solver. Qed.

Ltac tolerate := apply tolerated_iff; exact I.
#[export] Hint Extern 0 (tolerated _) => tolerate : deai.


(** ** What the invariant gives *)

Lemma Inv_perm E E' s : (∀ r, cnt r E = cnt r E') → Inv E s → Inv E' s.
Proof.
  intros HE [Hs Hw Hd Hf HD Hn Hx Hv]. constructor; auto.
  - intros l o Hl. rewrite <- HE. auto.
  - intros l o Hl. rewrite <- HE. auto.
  - intros l Hl. rewrite <- !HE. auto.
Qed.

#[export] Instance Inv_Proper : Proper (Permutation ==> eq ==> iff) Inv.
Proof.
  intros E E' HE s ? <-.
  assert (∀ r, cnt r E = cnt r E') as HC.
  { intros r. induction HE; simpl; lia. }
  split; apply Inv_perm; [exact HC|]. intros r. symmetry. apply HC.
Qed.

Lemma Inv_strong_alive E s l :
  Inv E s → Strong l ∈ E → ∃ o, s_heap s !! l = Some o ∧ 0 < o_rc o.
Proof.
  intros HI HE%cnt_elem_of. destruct (s_heap s !! l) as [o|] eqn:Hl.
  - exists o. split; [reflexivity|]. rewrite (inv_strong _ _ HI l o Hl). lia.
  - destruct (inv_dom _ _ HI l Hl). lia.
Qed.

Lemma Inv_weak_alloc E s l :
  Inv E s → Weak l ∈ E → ∃ o, s_heap s !! l = Some o ∧ 0 < o_wrc o.
Proof.
  intros HI HE%cnt_elem_of. destruct (s_heap s !! l) as [o|] eqn:Hl.
  - exists o. split; [reflexivity|]. rewrite (inv_weak _ _ HI l o Hl). lia.
  - destruct (inv_dom _ _ HI l Hl). lia.
Qed.

Lemma Inv_not_dead E s l o : Inv E s → s_heap s !! l = Some o → l ≠ DEAD.
Proof. intros HI Hl ->. rewrite (inv_dead _ _ HI) in Hl. discriminate. Qed.

(** A reference stored in an object of the heap. *)
Lemma Inv_stored_alloc E s l o x r :
  Inv E s → s_heap s !! l = Some o → r ∈ obj_refs o → (r = Strong x ∨ r = Weak x) →
  ∃ o', s_heap s !! x = Some o' ∧ (r = Strong x → 0 < o_rc o').
Proof.
  intros HI Hl Hr%cnt_elem_of Hx.
  assert (0 < hcnt r s) as Hc.
  { unfold hcnt. pose proof (total_ge obj_refs r _ _ _ Hl). lia. }
  destruct (s_heap s !! x) as [o'|] eqn:Ho.
  - exists o'. split; [reflexivity|]. intros ->. rewrite (inv_strong _ _ HI x o' Ho). lia.
  - destruct (inv_dom _ _ HI x Ho). destruct Hx as [-> | ->]; lia.
Qed.

(** ** Single-cell updates *)

Definition at_ (x l n : nat) : nat := if decide (x = l) then n else 0.

Lemma hcnt_wr s l o o' r :
  s_heap s !! l = Some o →
  hcnt r (set_heap (<[l := o']> (s_heap s)) s) + cnt r (obj_refs o) =
  hcnt r s + cnt r (obj_refs o').
Proof.
  intros Hl. unfold hcnt; simpl. pose proof (total_insert obj_refs r _ _ _ o' Hl). lia.
Qed.

Lemma Inv_wr E E' s l o o' :
  Inv E s → s_heap s !! l = Some o →
  (∀ x, cnt (Strong x) (obj_refs o') + cnt (Strong x) E' + at_ x l (o_rc o) =
        cnt (Strong x) (obj_refs o) + cnt (Strong x) E + at_ x l (o_rc o')) →
  (∀ x, cnt (Weak x) (obj_refs o') + cnt (Weak x) E' + at_ x l (o_wrc o + implicit_weak o') =
        cnt (Weak x) (obj_refs o) + cnt (Weak x) E + at_ x l (o_wrc o' + implicit_weak o)) →
  (o_rc o' = 0 → o_destroyed o' = true) →
  0 < o_wrc o' →
  Inv E' (set_heap (<[l := o']> (s_heap s)) s).
Proof.
  intros HI Hl Hs Hw Hd Hv. unfold at_ in *. constructor; simpl.
  - intros x y Hx. pose proof (hcnt_wr s l o o' (Strong x) Hl). specialize (Hs x).
    apply lookup_insert_Some in Hx as [[-> ->]|[Hne Hx]].
    + pose proof (inv_strong _ _ HI _ _ Hl). case_decide; lia.
    + pose proof (inv_strong _ _ HI _ _ Hx). case_decide; [congruence|lia].
  - intros x y Hx. pose proof (hcnt_wr s l o o' (Weak x) Hl). specialize (Hw x).
    apply lookup_insert_Some in Hx as [[-> ->]|[Hne Hx]].
    + pose proof (inv_weak _ _ HI _ _ Hl). case_decide; lia.
    + pose proof (inv_weak _ _ HI _ _ Hx). case_decide; [congruence|lia].
  - intros x Hx. apply lookup_insert_None in Hx as [Hx Hne].
    pose proof (hcnt_wr s l o o' (Strong x) Hl). pose proof (hcnt_wr s l o o' (Weak x) Hl).
    specialize (Hs x). specialize (Hw x). destruct (inv_dom _ _ HI x Hx).
    repeat case_decide; try congruence; lia.
  - intros x Hx. destruct (inv_fresh _ _ HI x Hx) as [? ?]. split; [|assumption].
    rewrite lookup_insert_ne; [assumption|]. congruence.
  - rewrite lookup_insert_ne; [apply (inv_dead _ _ HI)|]. apply (Inv_not_dead _ _ _ _ HI Hl).
  - apply (inv_next _ _ HI).
  - intros x y Hx. apply lookup_insert_Some in Hx as [[-> ->]|[Hne Hx]]; [exact Hd|].
    apply (inv_destroyed _ _ HI _ _ Hx).
  - intros x y Hx. apply lookup_insert_Some in Hx as [[-> ->]|[Hne Hx]]; [exact Hv|].
    apply (inv_live _ _ HI _ _ Hx).
Qed.

(** An update that touches neither counts nor references. *)
Lemma Inv_wr_same E s l o o' :
  Inv E s → s_heap s !! l = Some o →
  obj_refs o' = obj_refs o → o_rc o' = o_rc o → o_wrc o' = o_wrc o →
  (o_destroyed o = true → o_destroyed o' = true) →
  Inv E (set_heap (<[l := o']> (s_heap s)) s).
Proof.
  intros HI Hl Hr Hrc Hwrc Hd.
  assert (implicit_weak o' = implicit_weak o) as Hi by (unfold implicit_weak; rewrite Hrc; reflexivity).
  apply (Inv_wr E E s l o o' HI Hl).
  - intros x. rewrite Hr, Hrc. lia.
  - intros x. rewrite Hr, Hwrc, Hi. lia.
  - rewrite Hrc. intros. apply Hd. eapply (inv_destroyed _ _ HI); eauto.
  - rewrite Hwrc. apply (inv_live _ _ HI _ _ Hl).
Qed.

(** An update of the references of an object; what it gains comes from [E]. *)
Lemma Inv_wr_refs E E' s l o o' :
  Inv E s → s_heap s !! l = Some o →
  o_rc o' = o_rc o → o_wrc o' = o_wrc o → o_destroyed o' = o_destroyed o →
  (∀ r, cnt r (obj_refs o') + cnt r E' = cnt r (obj_refs o) + cnt r E) →
  Inv E' (set_heap (<[l := o']> (s_heap s)) s).
Proof.
  intros HI Hl Hrc Hwrc Hd Hr.
  assert (implicit_weak o' = implicit_weak o) as Hi by (unfold implicit_weak; rewrite Hrc; reflexivity).
  apply (Inv_wr E E' s l o o' HI Hl).
  - intros x. rewrite Hrc. specialize (Hr (Strong x)). lia.
  - intros x. rewrite Hwrc, Hi. specialize (Hr (Weak x)). lia.
  - rewrite Hrc, Hd. intros. eapply (inv_destroyed _ _ HI); eauto.
  - rewrite Hwrc. apply (inv_live _ _ HI _ _ Hl).
Qed.

Lemma Inv_sigs E E' s sg' lk :
  Inv E s →
  (∀ r, total sig_refs r sg' + cnt r lk + cnt r E' =
        total sig_refs r (s_sigs s) + cnt r (s_leaked s) + cnt r E) →
  (∀ i, s_next s ≤ i → sg' !! i = None) →
  Inv E' (State (s_heap s) sg' (s_next s) lk (s_trace s)).
Proof.
  intros [Hs Hw Hd Hf HD Hn Hx Hv] Hr Hfr. constructor; simpl; auto.
  - intros l o Hl. rewrite (Hs _ _ Hl). specialize (Hr (Strong l)). unfold hcnt; simpl. lia.
  - intros l o Hl. rewrite (Hw _ _ Hl). specialize (Hr (Weak l)). unfold hcnt; simpl. lia.
  - intros l Hl. destruct (Hd l Hl). unfold hcnt in *; simpl.
    pose proof (Hr (Strong l)). pose proof (Hr (Weak l)). lia.
  - intros l Hl. split; [apply (Hf l Hl)|auto].
Qed.

Lemma Inv_trace E s t : Inv E s → Inv E (State (s_heap s) (s_sigs s) (s_next s) (s_leaked s) t).
Proof. intros [Hs Hw Hd Hf HD Hn Hx Hv]. constructor; auto. Qed.

Lemma Inv_next E s n : s_next s ≤ n → Inv E s → Inv E (State (s_heap s) (s_sigs s) n (s_leaked s) (s_trace s)).
Proof.
  intros Hle [Hs Hw Hd Hf HD Hn Hx Hv]. constructor; simpl; auto; [|lia].
  intros l Hl. apply Hf. lia.
Qed.

(** ** Specifications

    [spec P m Q]: from [P], the run of [m] ends in [Q] or in a tolerated crash. *)
Abbreviation spec := (triple (S := state) tolerated).

(** References that are valid in a state: the object of a strong reference has
    not been destroyed, that of a weak one has not been freed. *)
Definition held (s : state) (r : ref) : Prop :=
  match r with
  | Strong l => ∃ o, s_heap s !! l = Some o ∧ 0 < o_rc o
  | Weak l => ∃ o, s_heap s !! l = Some o
  end.

Lemma Inv_held E s r : Inv E s → r ∈ E → held s r.
Proof.
  intros HI Hr. destruct r as [l|l]; simpl.
  - eapply Inv_strong_alive; eauto.
  - destruct (Inv_weak_alloc _ _ _ HI Hr) as (o & ? & _). eauto.
Qed.

Lemma Inv_held_all E s rs : Inv E s → (∀ r, r ∈ rs → r ∈ E) → Forall (held s) rs.
Proof. intros HI H. apply Forall_forall. intros r Hr. exact (Inv_held E s r HI (H r Hr)). Qed.

Lemma Inv_stored_held E s l o r :
  Inv E s → s_heap s !! l = Some o → r ∈ obj_refs o → held s r.
Proof.
  intros HI Hl Hr. destruct r as [x|x]; simpl.
  - destruct (Inv_stored_alloc E s l o x _ HI Hl Hr) as (o' & ? & ?); eauto.
  - destruct (Inv_stored_alloc E s l o x _ HI Hl Hr) as (o' & ? & ?); eauto.
Qed.

(** The rule of consequence, used to weaken a postcondition. *)
Lemma spec_post {A} P (m : M A) Q Q' : spec P m Q' → (∀ a s, Q' a s → Q a s) → spec P m Q.
Proof. intros H HQ. eapply triple_conseq; eauto. Qed.

Lemma spec_pre {A} P P' (m : M A) Q : (∀ s, P s → P' s) → spec P' m Q → spec P m Q.
Proof. apply triple_pre. Qed.

(** Permute the ghost references. *)
Lemma spec_perm {A} E E' (m : M A) Q :
  (∀ r, cnt r E = cnt r E') → spec (Inv E') m Q → spec (Inv E) m Q.
Proof. intros HE. apply spec_pre. intros s. apply Inv_perm. exact HE. Qed.

Ltac by_count := intros; unfold at_; count_lia.

Lemma rd_spec l (P : state → Prop) :
  (∀ s, P s → ∃ o, s_heap s !! l = Some o) →
  spec P (rd l) (λ o s, P s ∧ s_heap s !! l = Some o).
Proof. intros H s HP. destruct (H s HP) as [o Ho]. unfold rd. rewrite Ho. auto. Qed.

Lemma rd_ok E l :
  Strong l ∈ E → spec (Inv E) (rd l) (λ o s, Inv E s ∧ s_heap s !! l = Some o).
Proof.
  intros HE. apply rd_spec. intros s HI. destruct (Inv_strong_alive _ _ _ HI HE) as (o & ? & _). eauto.
Qed.

(** Updates that keep references and counts. *)
Lemma wr_ok E l o o' :
  obj_refs o' = obj_refs o → o_rc o' = o_rc o → o_wrc o' = o_wrc o →
  (o_destroyed o = true → o_destroyed o' = true) →
  spec (λ s, Inv E s ∧ s_heap s !! l = Some o) (wr l o') (λ _, Inv E).
Proof. intros Hr Hc Hw Hd s [HI Hl]. apply (Inv_wr_same E s l o o' HI Hl); assumption. Qed.

(** Updates that exchange references with the running code. *)
Lemma wr_refs_ok E E' l o o' :
  o_rc o' = o_rc o → o_wrc o' = o_wrc o → o_destroyed o' = o_destroyed o →
  (∀ r, cnt r (obj_refs o') + cnt r E' = cnt r (obj_refs o) + cnt r E) →
  spec (λ s, Inv E s ∧ s_heap s !! l = Some o) (wr l o') (λ _, Inv E').
Proof. intros Hc Hw Hd Hr s [HI Hl]. apply (Inv_wr_refs E E' s l o o' HI Hl); assumption. Qed.

Lemma upd_ok E l f :
  (∀ o, obj_refs (f o) = obj_refs o ∧ o_rc (f o) = o_rc o ∧ o_wrc (f o) = o_wrc o ∧
        (o_destroyed o = true → o_destroyed (f o) = true)) →
  Strong l ∈ E → spec (Inv E) (upd l f) (λ _, Inv E).
Proof.
  intros Hf HE. unfold upd. eapply triple_bind; [apply (rd_ok E l HE)|].
  intros o. destruct (Hf o) as (? & ? & ? & ?). apply wr_ok; assumption.
Qed.

Lemma emit_event_ok E what args : spec (Inv E) (emit_event what args) (λ _, Inv E).
Proof. intros s HI. apply Inv_trace. exact HI. Qed.

Lemma fresh_id_ok E : spec (Inv E) fresh_id (λ _, Inv E).
Proof. intros s HI. apply Inv_next; [lia|exact HI]. Qed.

Lemma leak_ok E rs : spec (Inv (rs ++ E)) (leak rs) (λ _, Inv E).
Proof.
  intros s HI. apply (Inv_sigs (rs ++ E) E s (s_sigs s) (rs ++ s_leaked s) HI).
  - by_count.
  - intros i Hi. apply (inv_fresh _ _ HI i Hi).
Qed.

(** The references of the new fields come from the running code. *)
Lemma set_ext_ok E l x :
  Strong l ∈ E → spec (Inv (ext_refs x ++ E)) (set_ext l x) (λ _, Inv E).
Proof.
  intros HE s HI. destruct (Inv_strong_alive _ _ l HI) as (o & Ho & _); [set_solver|].
  unfold set_ext, rd, leak, wr, modify, mbind, ST_bind. rewrite Ho. simpl.
  pose proof (Inv_wr_refs (ext_refs x ++ E) (ext_refs (o_ext o) ++ E) s l o (with_ext x o) HI Ho) as HI'.
  apply (leak_ok E (ext_refs (o_ext o))) in HI'.
  - exact HI'.
  - reflexivity.
  - reflexivity.
  - reflexivity.
  - intros r. unfold obj_refs. simpl. by_count.
Qed.

(** *** Strong and weak references *)

Lemma refs_with_rc n o : obj_refs (with_rc n o) = obj_refs o. Proof. reflexivity. Qed.
Lemma refs_with_wrc n o : obj_refs (with_wrc n o) = obj_refs o. Proof. reflexivity. Qed.
#[export] Hint Rewrite refs_with_rc refs_with_wrc : cnt.

Lemma Inv_ref E s l o :
  Inv E s → s_heap s !! l = Some o → 0 < o_rc o →
  Inv (Strong l :: E) (set_heap (<[l := with_rc (S (o_rc o)) o]> (s_heap s)) s).
Proof.
  intros HI Hl Hrc. apply (Inv_wr E _ s l o _ HI Hl); unfold implicit_weak; cbn [o_rc o_wrc o_destroyed with_rc].
  - by_count.
  - by_count.
  - lia.
  - apply (inv_live _ _ HI _ _ Hl).
Qed.

Lemma Inv_weakly_ref E s l o :
  Inv E s → s_heap s !! l = Some o →
  Inv (Weak l :: E) (set_heap (<[l := with_wrc (S (o_wrc o)) o]> (s_heap s)) s).
Proof.
  intros HI Hl. apply (Inv_wr E _ s l o _ HI Hl); unfold implicit_weak; cbn [o_rc o_wrc o_destroyed with_wrc].
  - by_count.
  - by_count.
  - intros. eapply inv_destroyed; eauto.
  - lia.
Qed.

(** Reference counts only grow: what is held stays held. *)
Lemma held_wr s l o o' r :
  s_heap s !! l = Some o → o_rc o ≤ o_rc o' →
  held s r → held (set_heap (<[l := o']> (s_heap s)) s) r.
Proof.
  intros Hl Hle. destruct r as [x|x]; simpl; intros (y & Hx & Hy) || intros (y & Hx);
    destruct (decide (l = x)) as [->|Hne];
    first [rewrite lookup_insert_eq | rewrite lookup_insert_ne by exact Hne]; eauto.
  exists o'. split; [reflexivity|]. rewrite Hl in Hx. injection Hx as ->. lia.
Qed.

Lemma ref_object_held E H l :
  Strong l ∈ H →
  spec (λ s, Inv E s ∧ Forall (held s) H) (di_ref_object l)
       (λ x s, x = l ∧ Inv (Strong l :: E) s ∧ Forall (held s) H).
Proof.
  intros Hl s [HI HH]. pose proof (proj1 (Forall_forall _ _) HH _ Hl) as (o & Ho & Hrc).
  unfold di_ref_object, rd, mbind, ST_bind. rewrite Ho. simpl. split; [reflexivity|]. split.
  - apply Inv_ref; assumption.
  - eapply Forall_impl; [exact HH|]. intros r. apply held_wr with o; [exact Ho|simpl; lia].
Qed.

Lemma ref_object_ok E l :
  Strong l ∈ E → spec (Inv E) (di_ref_object l) (λ x s, x = l ∧ Inv (Strong l :: E) s).
Proof.
  intros HE. eapply triple_conseq; [apply (ref_object_held E [Strong l])|..].
  - left.
  - intros s HI. split; [exact HI|]. apply (Inv_held_all _ _ _ HI). set_solver.
  - naive_solver.
Qed.

Lemma weakly_ref_object_held E H l :
  (Weak l ∈ H ∨ Strong l ∈ H) →
  spec (λ s, Inv E s ∧ Forall (held s) H) (di_weakly_ref_object l)
       (λ x s, x = l ∧ l ≠ DEAD ∧ Inv (Weak l :: E) s ∧ Forall (held s) H).
Proof.
  intros Hl s [HI HH]. unfold di_weakly_ref_object. case_decide as Hd; [tolerate|].
  assert (∃ o, s_heap s !! l = Some o) as [o Ho].
  { rewrite Forall_forall in HH. destruct Hl as [Hl|Hl]; apply HH in Hl; naive_solver. }
  unfold rd, mbind, ST_bind. rewrite Ho. simpl. split; [reflexivity|]. split; [exact Hd|]. split.
  - apply Inv_weakly_ref; assumption.
  - eapply Forall_impl; [exact HH|]. intros r. apply held_wr with o; [exact Ho|simpl; lia].
Qed.

Lemma weakly_ref_object_ok E l :
  (Weak l ∈ E ∨ Strong l ∈ E) →
  spec (Inv E) (di_weakly_ref_object l) (λ x s, x = l ∧ l ≠ DEAD ∧ Inv (Weak l :: E) s).
Proof.
  intros HE. eapply triple_conseq; [apply (weakly_ref_object_held E E l HE)|..].
  - intros s HI. split; [exact HI|]. apply (Inv_held_all _ _ _ HI). auto.
  - naive_solver.
Qed.

Lemma upgrade_weak_ref_ok E l :
  (l = DEAD ∨ Weak l ∈ E) →
  spec (Inv E) (di_upgrade_weak_ref l)
       (λ r s, match r with Some x => x = l ∧ Inv (Strong l :: E) s | None => Inv E s end).
Proof.
  intros HE s HI. unfold di_upgrade_weak_ref. case_decide; [exact HI|].
  destruct HE as [?|HE]; [congruence|].
  destruct (Inv_weak_alloc _ _ _ HI HE) as (o & Ho & _).
  unfold mbind, ST_bind, rd. rewrite Ho. destruct (Nat.ltb_spec 0 (o_rc o)); [|exact HI].
  unfold di_ref_object, rd, mbind, ST_bind. rewrite Ho. simpl. split; [reflexivity|].
  apply Inv_ref; assumption.
Qed.

(** Freeing the struct of an object that is not referenced any more, but by the
    running code. *)
Lemma Inv_free E E' s l o :
  Inv E s → s_heap s !! l = Some o →
  (∀ x, x ≠ l → cnt (Strong x) E' = cnt (Strong x) E ∧ cnt (Weak x) E' = cnt (Weak x) E) →
  hcnt (Strong l) s + cnt (Strong l) E' = 0 → hcnt (Weak l) s + cnt (Weak l) E' = 0 →
  Inv E' (State (delete l (s_heap s)) (s_sigs s) (s_next s) (obj_refs o ++ s_leaked s) (s_trace s)).
Proof.
  intros HI Hl HE Hs0 Hw0.
  assert (∀ r, hcnt r (State (delete l (s_heap s)) (s_sigs s) (s_next s)
                         (obj_refs o ++ s_leaked s) (s_trace s)) = hcnt r s) as Hh.
  { intros r. unfold hcnt; simpl. rewrite cnt_app, (total_delete obj_refs r (s_heap s) l o Hl). lia. }
  constructor; simpl.
  - intros x y Hx. apply lookup_delete_Some in Hx as [Hne Hx]. rewrite Hh.
    destruct (HE x) as [-> _]; [congruence|]. apply (inv_strong _ _ HI); exact Hx.
  - intros x y Hx. apply lookup_delete_Some in Hx as [Hne Hx]. rewrite Hh.
    destruct (HE x) as [_ ->]; [congruence|]. apply (inv_weak _ _ HI); exact Hx.
  - intros x Hx. rewrite !Hh. destruct (decide (x = l)) as [->|Hne]; [lia|].
    destruct (HE x Hne) as [-> ->]. apply lookup_delete_None in Hx as [?|Hx]; [congruence|].
    apply (inv_dom _ _ HI x Hx).
  - intros x Hx. destruct (inv_fresh _ _ HI x Hx). split; [|assumption].
    apply lookup_delete_None. auto.
  - apply lookup_delete_None. right. apply (inv_dead _ _ HI).
  - apply (inv_next _ _ HI).
  - intros x y Hx. apply lookup_delete_Some in Hx as [_ Hx]. apply (inv_destroyed _ _ HI x y Hx).
  - intros x y Hx. apply lookup_delete_Some in Hx as [_ Hx]. apply (inv_live _ _ HI x y Hx).
Qed.

Lemma decrement_weak_ok E l :
  spec (Inv (Weak l :: E)) (di_decrement_weak_ref_count l) (λ _, Inv E).
Proof.
  intros s HI. destruct (Inv_weak_alloc _ _ l HI) as (o & Ho & Hw); [left|].
  unfold di_decrement_weak_ref_count, rd, mbind, ST_bind. rewrite Ho.
  pose proof (inv_weak _ _ HI l o Ho) as Hwl. pose proof (inv_strong _ _ HI l o Ho) as Hsl.
  destruct (o_wrc o) as [|n] eqn:Hn; [lia|]. simpl. destruct (Nat.eqb_spec n 0) as [->|Hne].
  - unfold free_obj; simpl. rewrite lookup_insert_eq, delete_insert_eq.
    unfold implicit_weak in Hwl. cbn [cnt] in *.
    apply (Inv_free (Weak l :: E) E s l o HI Ho).
    + intros x Hx. by_count.
    + repeat case_decide; simplify_eq; lia.
    + repeat case_decide; simplify_eq; lia.
  - apply (Inv_wr _ E s l o _ HI Ho); unfold implicit_weak; cbn [o_rc o_wrc o_destroyed with_wrc].
    + by_count.
    + by_count.
    + intros. eapply inv_destroyed; eauto.
    + lia.
Qed.

Lemma drop_weak_ref_ok E l : spec (Inv (Weak l :: E)) (di_drop_weak_ref l) (λ _, Inv E).
Proof.
  unfold di_drop_weak_ref. case_decide; [apply triple_fail; tolerate|apply decrement_weak_ok].
Qed.

(** *** Allocation *)

Lemma Inv_alloc E s o :
  Inv (obj_refs o ++ E) s → o_rc o = 1 → o_wrc o = 1 →
  Inv (Strong (s_next s) :: E)
    (set_heap (<[s_next s := o]> (s_heap s))
       (State (s_heap s) (s_sigs s) (S (s_next s)) (s_leaked s) (s_trace s))).
Proof.
  intros HI Hrc Hwrc. set (l := s_next s).
  destruct (inv_fresh _ _ HI l) as [Hl Hg]; [unfold l; lia|].
  pose proof (inv_dom _ _ HI l Hl) as [Hs0 Hw0].
  assert (∀ r, hcnt r (set_heap (<[l := o]> (s_heap s))
       (State (s_heap s) (s_sigs s) (S l) (s_leaked s) (s_trace s))) = cnt r (obj_refs o) + hcnt r s) as Hh.
  { intros r. unfold hcnt; simpl. rewrite total_insert_new by exact Hl. lia. }
  rewrite cnt_app in *.
  constructor; simpl.
  - intros x y. rewrite lookup_insert. case_decide as Hx; rewrite Hh.
    + intros [= <-]. subst x. rewrite Hrc. count_lia.
    + intros Hy. rewrite (inv_strong _ _ HI _ _ Hy), cnt_app. count_lia.
  - intros x y. rewrite lookup_insert. case_decide as Hx; rewrite Hh.
    + intros [= <-]. subst x. unfold implicit_weak. rewrite Hwrc, Hrc. count_lia.
    + intros Hy. rewrite (inv_weak _ _ HI _ _ Hy), cnt_app. count_lia.
  - intros x. rewrite lookup_insert. case_decide as Hx; [discriminate|]. rewrite !Hh.
    intros Hy. destruct (inv_dom _ _ HI x Hy). rewrite !cnt_app in *. count_lia.
  - intros x Hx. rewrite lookup_insert. fold l in Hx. case_decide; [lia|]. apply (inv_fresh _ _ HI). lia.
  - rewrite lookup_insert. case_decide as Hx; [|apply (inv_dead _ _ HI)].
    pose proof (inv_next _ _ HI). unfold DEAD, l in *. lia.
  - pose proof (inv_next _ _ HI). unfold l. lia.
  - intros x y. rewrite lookup_insert. case_decide; [|apply (inv_destroyed _ _ HI)].
    intros [= <-]. lia.
  - intros x y. rewrite lookup_insert. case_decide; [|apply (inv_live _ _ HI)].
    intros [= <-]. lia.
Qed.

Definition fresh_object : obj := Obj [] [] None None 1 1 false ENone.

Lemma new_object_ok E sz al :
  spec (Inv E) (di_new_object sz al)
       (λ r s, match r with
               | Some l => Inv (Strong l :: E) s ∧ s_heap s !! l = Some fresh_object
               | None => Inv E s end).
Proof.
  intros s HI. unfold di_new_object. destruct (sz <? 128)%Z; [exact HI|].
  destruct (al <? 8)%Z; [exact HI|].
  unfold mbind, ST_bind; simpl. split; [|apply lookup_insert_eq].
  apply (Inv_alloc E s fresh_object); [exact HI|reflexivity|reflexivity].
Qed.

Lemma new_object_with_type_ok E x :
  spec (Inv (ext_refs x ++ E)) (di_new_object_with_type x) (λ l, Inv (Strong l :: E)).
Proof.
  intros s HI. unfold di_new_object_with_type, di_new_object, from_opt, upd, rd, wr, modify.
  unfold mbind, ST_bind; simpl. rewrite lookup_insert_eq. simpl. unfold set_heap; simpl.
  rewrite insert_insert_eq.
  apply (Inv_alloc E s (with_ext x fresh_object)); [exact HI|reflexivity|reflexivity].
Qed.
