(* ===== verification/Object.v ===== *)
(** * Objects: values, members, handlers, destruction (object.c)

    The operations of object.c on top of the heap, with the operations that
    run other code taken from the [Kernel] interface. *)

From S2P Require Import Prelude DiTypes Conv Heap.

Section object.
Context {K : Kernel}.

(** ** Values *)

(** [di_free_value], with [di_free_array] and [di_free_tuple]. *)
Fixpoint di_free_value (v : value) : M unit :=
  match v with
  | VNil => mret tt
  | VArray t arr_null l =>
      match l with
      | [] => check arr_null
      | _ => _ ← sizeof_is_zero t; for_each di_free_value l
      end
  | VTuple l => for_each di_free_value l
  | VObject l => unref_object l
  | VWeak l => di_drop_weak_ref l
  | VVariant w => di_free_value w
  | VBottom => fail CheckFailed
  | _ => mret tt
  end.

(** [di_copy_value]: the copy has the tag of the original.  The storage of a
    copied array comes from [calloc] and is not null. *)
Fixpoint di_copy_value (v : value) : M value :=
  match v with
  | VArray t _ l =>
      z ← sizeof_is_zero t;
      check (negb z);;
      l' ← collect di_copy_value l;
      mret (VArray t false l')
  | VTuple l => l' ← collect di_copy_value l; mret (VTuple l')
  | VVariant w => w' ← di_copy_value w; mret (VVariant w')
  | VString s => mret (VString (Some (default EmptyString s)))
  | VObject l => l' ← di_ref_object l; mret (VObject l')
  | VWeak l => l' ← di_weakly_ref_object l; mret (VWeak l')
  | VBottom => fail CheckFailed
  | v => mret v
  end.

(** [di_type_conversion] (utils.h); the boolean is [cloned]. *)
Fixpoint di_type_conversion (inp : value) (outty : di_type) (borrowing : bool)
  : M (Z + value * bool) :=
  if bool_decide (type_of inp = outty) then
    _ ← sizeof_is_zero outty; mret (inr (inp, false))
  else if bool_decide (outty = DI_TYPE_VARIANT) then
    c ← di_copy_value inp; mret (inr (VVariant c, true))
  else
    match inp, outty with
    | VStringLiteral s, DI_TYPE_STRING => mret (inr (VString (Some s), negb borrowing))
    | _, DI_TYPE_NIL => mret (inr (VNil, false))
    | VVariant w, _ => di_type_conversion w outty borrowing
    | _, _ =>
        match int_field inp with
        | Some (_, z) =>
            if is_integer outty then
              mret (match integer_conversion inp outty with
                    | inl rc => inl rc | inr v => inr (v, false) end)
            else if bool_decide (outty = DI_TYPE_FLOAT) then
              mret (inr (VFloat (double_of_Z z), false))
            else mret (inl EINVAL)
        | None => mret (inl EINVAL)
        end
    end.

(** ** Members *)

(** [di_lookup] *)
Definition di_lookup (l : loc) (name : di_string) : M (option member) :=
  match name with
  | None => mret None
  | Some n => o ← rd l; mret (find_member n (o_members o))
  end.

Definition getter_prefix : string := "__get_".
Definition setter_prefix : string := "__set_".
(** The code takes the length of the setter prefix for the deleter prefix, so
    that only the first six bytes of ["__delete_"] are compared. *)
Definition deleter_prefix : string := "__dele".

Definition real_name (name : string) : string :=
  if starts_with getter_prefix name then drop_bytes 6 name
  else if starts_with setter_prefix name then drop_bytes 6 name
  else if starts_with deleter_prefix name then drop_bytes 6 name
  else EmptyString.

(** [check_new_member] *)
Definition check_new_member (o : obj) (name : string) : Z :=
  match find_member name (o_members o) with
  | Some _ => EEXIST
  | None => if starts_with "__" (real_name name) then EINVAL else 0%Z
  end.

(** [di_insert_member]: [HASH_ADD_KEYPTR] appends. *)
Definition di_insert_member (l : loc) (m : member) : M Z :=
  o ← rd l;
  let ret := check_new_member o (m_name m) in
  if Z.eqb ret 0 then wr l (with_members (o_members o ++ [m]) o);; mret 0%Z
  else mret ret.

(** [di_add_member]: owns [v], which is lost when there is no name. *)
Definition di_add_member (l : loc) (name : di_string) (v : value) : M Z :=
  match name with
  | None => leak (refs v);; mret EINVAL
  | Some n =>
      id ← fresh_id;
      ret ← di_insert_member l (Member id n v);
      if Z.eqb ret 0 then mret 0%Z
      else di_free_value v;; mret ret
  end.

(** [di_add_member_clone] *)
Definition di_add_member_clone (l : loc) (name : di_string) (v : value) : M Z :=
  z ← sizeof_is_zero (type_of v);
  if (z : bool) then mret EINVAL
  else v' ← di_copy_value v; di_add_member l name v'.

(** [va_arg_with_di_type]: a [struct di_string] argument is fetched as one
    pointer, which leaves its length indeterminate. *)
Definition va_arg_with_di_type (v : value) : M value :=
  match v with
  | VString _ => fail Uninit
  | VNil | VBottom => fail CheckFailed
  | v => mret v
  end.

(** [di_add_member_clonev] *)
Definition di_add_member_clonev (l : loc) (name : di_string) (v : value) : M Z :=
  z ← sizeof_is_zero (type_of v);
  if (z : bool) then mret EINVAL
  else nv ← va_arg_with_di_type v; di_add_member_clone l name nv.

(** [di_add_member_move] *)
Definition di_add_member_move (l : loc) (name : di_string) (v : value) : M Z :=
  z ← sizeof_is_zero (type_of v);
  if (z : bool) then mret EINVAL else di_add_member l name v.

(** [di_remove_member_raw_impl]: unlinks the member [id], then frees its value. *)
Definition di_remove_member_raw_impl (l : loc) (id : nat) : M unit :=
  o ← rd l;
  match take_member id (o_members o) with
  | None => fail HashCorrupt
  | Some (m, ms) => wr l (with_members ms o);; di_free_value (m_val m)
  end.

(** [di_remove_member_raw] *)
Definition di_remove_member_raw (l : loc) (name : di_string) : M Z :=
  r ← di_lookup l name;
  match r with
  | None => mret ENOENT
  | Some m => di_remove_member_raw_impl l (m_id m);; mret 0%Z
  end.

(** [di_rawgetx] *)
Definition di_rawgetx (l : loc) (prop : di_string) : M (Z + value) :=
  r ← di_lookup l prop;
  match r with
  | None => mret (inl ENOENT)
  | Some m =>
      z ← sizeof_is_zero (type_of (m_val m));
      check (negb z);;
      v ← di_copy_value (m_val m);
      mret (inr v)
  end.

(** The macro [gen_tfunc]: convert what [getter] returns to type [rtype].  A
    value that is converted to nil is neither returned nor freed. *)
Definition gen_tfunc (getter : M (Z + value)) (rtype : di_type) : M (Z + value) :=
  r ← getter;
  match r with
  | inl rc => mret (inl rc)
  | inr ret2 =>
      c ← di_type_conversion ret2 rtype false;
      match c with
      | inl rc => di_free_value ret2;; mret (inl rc)
      | inr (ret, cloned) =>
          (if (cloned : bool) then di_free_value ret2
           else if bool_decide (rtype = DI_TYPE_NIL) then leak (refs ret2)
           else mret tt);;
          mret (inr ret)
      end
  end.

Definition di_rawgetxt (l : loc) (prop : di_string) (rtype : di_type) : M (Z + value) :=
  gen_tfunc (di_rawgetx l prop) rtype.

(** ** Calls *)

Definition MAX_NARGS : nat := 128.

(** [di_is_internal] *)
Definition di_is_internal (s : di_string) : bool :=
  match s with None => false | Some s => starts_with "__" s end.

(** [di_call_internal]: the pair is [( *called, result )].  The reference to
    [method] is dropped after the call, and not when the object is not
    callable. *)
Definition di_call_internal (self method : loc) (args : list value) : M (bool * (Z + value)) :=
  m ← rd method;
  match o_call m with
  | None => leak [Strong method];; mret (false, inl EINVAL)
  | Some _ =>
      check (Nat.leb (S (length args)) MAX_NARGS);;
      r ← call_object method (VObject self :: args);
      unref_object method;;
      mret (true, r)
  end.

(** The macro [gen_callx]. *)
Definition gen_callx (getter : M (Z + value)) (self : loc) (args : list value)
  : M (bool * (Z + value)) :=
  r ← getter;
  match r with
  | inl rc => mret (false, inl rc)
  | inr (VObject m) => di_call_internal self m args
  | inr _ => fail TypeConfusion
  end.

Definition di_rawcallxn (self : loc) (name : di_string) (args : list value)
  : M (bool * (Z + value)) :=
  gen_callx (di_rawgetxt self name DI_TYPE_OBJECT) self args.

(** The name [asprintf] builds for a handler; ["%.*s"] stops at a NUL byte. *)
Definition handler_name (prefix : string) (name : di_string) : string :=
  prefix +:+ "_" +:+ till_nul (default EmptyString name).

(** [call_handler_with_fallback]; [arg] is [None] for [DI_LAST_TYPE], and
    [keep] tells whether the caller wants the result. *)
Definition call_handler_with_fallback (o : loc) (prefix : string) (name : di_string)
    (arg : option value) (keep : bool) : M (bool * (Z + value)) :=
  if di_is_internal name then mret (false, inl ENOENT)
  else
    let arg' := match arg with Some a => [a] | None => [] end in
    r1 ← di_rawcallxn o (Some (handler_name prefix name)) arg';
    r2 ← (if (r1.1 : bool) then mret r1
          else di_rawcallxn o (Some prefix) (VString name :: arg'));
    match r2.2 with
    | inl rc => mret (r2.1, inl rc)
    | inr v =>
        if keep then mret (r2.1, inr v)
        else di_free_value v;; mret (r2.1, inr VNil)
    end.

(** [di_flatten_variant]: the innermost value of nested variants. *)
Fixpoint di_flatten_variant (v : value) : value :=
  match v with
  | VVariant w => di_flatten_variant w
  | v => v
  end.

(** [di_getx] *)
Definition di_getx (o : loc) (prop : di_string) : M (Z + value) :=
  r ← di_rawgetx o prop;
  match r with
  | inr v => mret (inr v)
  | inl _ =>
      h ← call_handler_with_fallback o "__get" prop None true;
      match h.2 with
      | inl rc => mret (inl rc)
      | inr VBottom => mret (inl ENOENT)
      | inr (VVariant w) =>
          match di_flatten_variant w with
          | VBottom => mret (inl ENOENT)
          | inner => mret (inr inner)
          end
      | inr v => mret (inr v)
      end
  end.

Definition di_getxt (o : loc) (prop : di_string) (rtype : di_type) : M (Z + value) :=
  gen_tfunc (di_getx o prop) rtype.

Definition di_callx (self : loc) (name : di_string) (args : list value)
  : M (bool * (Z + value)) :=
  gen_callx (di_getxt self name DI_TYPE_OBJECT) self args.

(** ** Setting and removing members *)

(** Overwrite a value slot and return what was in it; the member must still be
    in the table. *)
Definition store_member (l : loc) (id : nat) (v : value) : M value :=
  o ← rd l;
  match swap_member id v (o_members o) with
  | None => fail StaleIter
  | Some (old, ms) => wr l (with_members ms o);; mret old
  end.

(** [di_setx].  The old value is freed in place: while its destructors run the
    slot holds no valid value.  The new value is then copied with the type of
    the old member. *)
Definition di_setx (o : loc) (prop : di_string) (v : value) : M Z :=
  h ← call_handler_with_fallback o "__set" prop (Some v) false;
  if (h.1 : bool) then mret (rc_of h.2)
  else
    d ← call_handler_with_fallback o "__delete" prop None false;
    if (d.1 : bool) && negb (Z.eqb (rc_of d.2) 0) then mret (rc_of d.2)
    else
      mem ← di_lookup o prop;
      match mem with
      | Some m =>
          old ← store_member o (m_id m) VBottom;
          di_free_value old;;
          _ ← sizeof_is_zero (type_of v);
          if bool_decide (type_of (m_val m) = type_of v) then
            c ← di_copy_value v;
            freed ← store_member o (m_id m) c;
            leak (refs freed);;
            mret 0%Z
          else fail TypeConfusion
      | None => di_add_member_clone o prop v
      end.

(** [di_remove_member] *)
Definition di_remove_member (o : loc) (name : di_string) : M Z :=
  h ← call_handler_with_fallback o "__delete" name None false;
  if (h.1 : bool) then mret (rc_of h.2) else di_remove_member_raw o name.

(** ** Type names *)

(** [di_set_type] *)
Definition di_set_type (o : loc) (type : string) : M Z :=
  _ ← di_remove_member_raw o (Some "__type"%string);
  di_add_member_clonev o (Some "__type"%string) (VStringLiteral type).

(** [di_get_type]; [inl] is an [ERR_PTR]. *)
Definition di_get_type (o : loc) : M (Z + string) :=
  r ← di_rawgetxt o (Some "__type"%string) DI_TYPE_STRING_LITERAL;
  match r with
  | inl rc => mret (if Z.eqb rc ENOENT then inr "deai:object"%string else inl rc)
  | inr (VStringLiteral s) => mret (inr s)
  | inr _ => fail TypeConfusion
  end.

(** [di_check_type] *)
Definition di_check_type (o : loc) (tyname : string) : M bool :=
  ot ← di_get_type o;
  mret (match ot with inl _ => false | inr s => String.eqb s tyname end).

(** ** Destruction *)

(** One iteration of the loop of [_di_finalize_object]; [id] is the member
    pointer [m].  Its successor is read before the member is removed. *)
Definition finalize_step (l : loc) (id : nat) : M (option nat) :=
  o ← rd l;
  match take_member id (o_members o) with
  | None => fail StaleIter
  | Some _ =>
      let next_m := next_member id (o_members o) in
      di_remove_member_raw_impl l id;;
      mret (m_id <$> next_m)
  end.

(** [_di_finalize_object] *)
Definition finalize_object_impl (l : loc) : M unit :=
  o ← rd l;
  (match o_dtor o with
   | Some d => wr l (with_dtor None o);; run_dtor d l
   | None => mret tt
   end);;
  o ← rd l;
  match head (o_members o) with
  | None => mret tt
  | Some m => while_some loop_fuel (finalize_step l) (m_id m)
  end.

(** [di_finalize_object] *)
Definition di_finalize_object (l : loc) : M unit :=
  _ ← di_ref_object l;
  finalize_object_impl l;;
  unref_object l.

(** [di_destroy_object]; the signals are detached, not freed. *)
Definition di_destroy_object (l : loc) : M unit :=
  _ ← di_ref_object l;
  o ← rd l;
  (if o_destroyed o then
     emit_event "log: destroy object multiple times" []
   else mret tt);;
  upd l (with_destroyed true);;
  finalize_object_impl l;;
  upd l (with_signals []);;
  unref_object l.

(** [di_unref_object], one unfolding. *)
Definition unref_body (l : loc) : M unit :=
  o ← rd l;
  match o_rc o with
  | O => fail RefUnderflow
  | S n =>
      wr l (with_rc n o);;
      if Nat.eqb n 0 then
        if o_destroyed o then di_decrement_weak_ref_count l
        else di_destroy_object l
      else mret tt
  end.

(** ** Modules *)

(** [di_new_module_with_size]; 184 is [sizeof(struct di_module)], 16 the
    alignment of [max_align_t]. *)
Definition di_new_module_with_size (di : loc) (size : Z) (x : ext) : M (option loc) :=
  if (size <? 184)%Z then mret None
  else
    r ← di_new_object size 16;
    pm ← from_opt NullDeref r;
    upd pm (with_ext x);;
    _ ← di_set_type pm "deai:module";
    weak ← di_weakly_ref_object di;
    _ ← di_add_member_move pm (Some "__deai"%string) (VWeak weak);
    mret (Some pm).

Definition di_new_module (di : loc) : M (option loc) := di_new_module_with_size di 184 ENone.
End object.
