(* ===== verification/ObjectSpec.v ===== *)
(** * Memory safety and exact reference accounting of object.c

    Every operation of Object.v is specified against [KernelOk], the contract of
    the code that is reached through unref, calls and destructors: it accounts
    for all references exactly, never touches a freed object and never lets a
    count underflow. *)

From S2P Require Import Prelude DiTypes Conv Heap Account Object.

(** The references an operation returns. *)
Definition rc_refs (r : Z + value) : list ref :=
  match r with inl _ => [] | inr v => refs v end.

(** ** The contract *)
Class KernelOk (K : Kernel) : Prop := {
  unref_ok l E : spec (Inv (Strong l :: E)) (unref_object l) (λ _, Inv E);
  call_ok l args E :
    Strong l ∈ E → (∀ r, r ∈ refs_of_list args → r ∈ E) →
    spec (Inv E) (call_object l args) (λ r, Inv (rc_refs r ++ E));
  dtor_ok d l E :
    Strong l ∈ E → spec (Inv E) (run_dtor d l) (λ _, Inv E)
}.

(** ** Lemmas on references *)

Lemma refs_of_list_cons v l : refs_of_list (v :: l) = refs v ++ refs_of_list l.
Proof. reflexivity. Qed.
Lemma refs_of_list_app l1 l2 : refs_of_list (l1 ++ l2) = refs_of_list l1 ++ refs_of_list l2.
Proof. unfold refs_of_list. rewrite map_app, concat_app. reflexivity. Qed.

Lemma refs_array t b l : refs (VArray t b l) = refs_of_list l.
Proof. reflexivity. Qed.
Lemma refs_tuple l : refs (VTuple l) = refs_of_list l.
Proof. reflexivity. Qed.

Lemma refs_int_field v z : int_field v = Some z → refs v = [].
Proof. destruct v; simpl; congruence. Qed.

Lemma refs_nil v : refs v = if bool_decide (type_of v = DI_TYPE_NIL) then [] else refs v.
Proof. destruct v; reflexivity. Qed.

Lemma refs_integer_conversion v t w : integer_conversion v t = inr w → type_of v ≠ t → refs w = [].
Proof.
  unfold integer_conversion. intros H Hne. rewrite bool_decide_eq_false_2 in H by exact Hne.
  unfold convert_switch, convert_case in H.
  destruct t; try discriminate H; destruct (int_field v); try discriminate H;
    case_match; simplify_eq; reflexivity.
Qed.

Lemma refs_flatten v : refs (di_flatten_variant v) = refs v.
Proof. induction v using value_ind'; try reflexivity; [|assumption]. destruct v; done. Qed.

Lemma member_refs_app ms1 ms2 : member_refs (ms1 ++ ms2) = member_refs ms1 ++ member_refs ms2.
Proof. unfold member_refs. rewrite map_app. apply refs_of_list_app. Qed.

Lemma find_member_refs n ms m r :
  find_member n ms = Some m → r ∈ refs (m_val m) → r ∈ member_refs ms.
Proof.
  unfold member_refs. induction ms as [|m' ms IH]; simpl; [discriminate|].
  rewrite refs_of_list_cons, elem_of_app. destruct (String.eqb (m_name m') n).
  - intros [= ->]. auto.
  - auto.
Qed.

Lemma take_member_refs id ms m ms' r :
  take_member id ms = Some (m, ms') →
  cnt r (member_refs ms) = cnt r (refs (m_val m)) + cnt r (member_refs ms').
Proof.
  unfold member_refs. revert ms'. induction ms as [|x ms IH]; intros ms'; simpl; [discriminate|].
  destruct (Nat.eqb (m_id x) id).
  - intros [= -> ->]. rewrite refs_of_list_cons, cnt_app. reflexivity.
  - destruct (take_member id ms) as [[y ys]|]; [|discriminate]. intros [= -> <-].
    specialize (IH ys eq_refl). simpl. rewrite !refs_of_list_cons, !cnt_app. lia.
Qed.

Lemma swap_member_refs id v ms old ms' r :
  swap_member id v ms = Some (old, ms') →
  cnt r (member_refs ms') + cnt r (refs old) = cnt r (member_refs ms) + cnt r (refs v).
Proof.
  unfold member_refs. revert ms'. induction ms as [|x ms IH]; intros ms'; simpl; [discriminate|].
  destruct (Nat.eqb (m_id x) id).
  - intros [= -> <-]. simpl. rewrite !refs_of_list_cons, !cnt_app. lia.
  - destruct (swap_member id v ms) as [[y ys]|]; [|discriminate]. intros [= -> <-].
    specialize (IH ys eq_refl). simpl. rewrite !refs_of_list_cons, !cnt_app. lia.
Qed.

Lemma obj_refs_with_members ms o r :
  cnt r (obj_refs (with_members ms o)) + cnt r (member_refs (o_members o)) =
  cnt r (obj_refs o) + cnt r (member_refs ms).
Proof. unfold obj_refs; simpl. rewrite !cnt_app. lia. Qed.

(** ** Rules *)

Create HintDb spec.

(** Step through a bind with a specification of its head. *)
Ltac step H := eapply triple_bind; [eapply H|cbv beta].
(** Finish on a pure result. *)
Ltac ret := apply triple_ret; intros; cbn [rc_refs fst snd refs app] in *; try assumption.
(** Close a crash the contract tolerates. *)
Ltac crash := apply triple_fail; tolerate.

Lemma sizeof_ok P t :
  spec P (sizeof_is_zero t) (λ z s, P s ∧ z = bool_decide (t = DI_TYPE_NIL)).
Proof.
  unfold sizeof_is_zero. destruct t; cbn; first [crash | apply triple_ret; auto].
Qed.

Lemma sizeof_skip P t : spec P (sizeof_is_zero t) (λ _, P).
Proof. eapply spec_post; [apply sizeof_ok|]. naive_solver. Qed.

Lemma check_skip P b : spec P (check b) (λ _, P).
Proof. destruct b; [apply triple_ret; auto|crash]. Qed.

(** A step that keeps the state predicate. *)
Ltac skip := eapply triple_bind; [first [apply sizeof_skip | apply check_skip]|cbv beta]; intros ?.

Lemma collect_refs {A B} (f : A → M B) (rf : B → list ref) (rs : A → list ref) H E l :
  (∀ r, r ∈ concat (map rs l) → r ∈ H) →
  (∀ x E, x ∈ l → (∀ r, r ∈ rs x → r ∈ H) →
     spec (λ s, Inv E s ∧ Forall (held s) H) (f x) (λ y s, Inv (rf y ++ E) s ∧ Forall (held s) H)) →
  spec (λ s, Inv E s ∧ Forall (held s) H) (collect f l)
       (λ ys s, Inv (concat (map rf ys) ++ E) s ∧ Forall (held s) H).
Proof.
  revert E. induction l as [|x l IH]; intros E HH Hf; simpl.
  - ret.
  - simpl in HH.
    eapply triple_bind; [apply Hf; [left|intros r Hr; apply HH; rewrite elem_of_app; auto]|].
    intros y. eapply triple_bind; [apply IH|].
    + intros r Hr. apply HH. rewrite elem_of_app; auto.
    + intros z E' Hz. apply Hf. right. exact Hz.
    + intros ys. apply triple_ret. intros s [HI Hheld]. split; [|exact Hheld].
      simpl. eapply Inv_perm; [|exact HI]. by_count.
Qed.

Section specs.
Context {K : Kernel} {KO : KernelOk K}.

(** *** Values *)

Lemma for_each_free l E :
  Forall (λ v, ∀ E, spec (Inv (refs v ++ E)) (di_free_value v) (λ _, Inv E)) l →
  spec (Inv (refs_of_list l ++ E)) (for_each di_free_value l) (λ _, Inv E).
Proof.
  intros Hl. induction Hl as [|v l Hv Hl IH]; simpl; [ret|].
  eapply triple_bind; [eapply spec_perm; [|apply Hv]|intros ?; apply IH].
  intros. rewrite refs_of_list_cons. by_count.
Qed.

(** Freeing a value drops exactly the references it holds. *)
Lemma free_value_ok v E : spec (Inv (refs v ++ E)) (di_free_value v) (λ _, Inv E).
Proof.
  revert E. induction v as [v Hv| t b l IH | l IH | v IH] using value_ind'; intros E.
  - destruct v; try destruct Hv; cbn [di_free_value refs app]; try ret.
    + apply unref_ok.
    + case_decide as Hd; cbn [app]; [subst; unfold di_drop_weak_ref; rewrite decide_True by done; crash|].
      apply drop_weak_ref_ok.
    + crash.
  - rewrite refs_array. destruct l as [|v l]; cbn [di_free_value].
    + eapply spec_post; [apply check_skip|]. auto.
    + skip. apply for_each_free. exact IH.
  - rewrite refs_tuple. cbn [di_free_value]. apply for_each_free. exact IH.
  - apply IH.
Qed.

Lemma copy_value_held H v E :
  (∀ r, r ∈ refs v → r ∈ H) →
  spec (λ s, Inv E s ∧ Forall (held s) H) (di_copy_value v)
       (λ w s, Inv (refs w ++ E) s ∧ Forall (held s) H).
Proof.
  revert E. induction v as [v Hv| t b l IH | l IH | v IH] using value_ind'; intros E HH.
  - destruct v; try destruct Hv; cbn [di_copy_value]; try ret; cbn [refs] in HH.
    + step (ref_object_held E H l). { apply HH. left. }
      intros x. apply triple_ret. intros s (-> & ? & ?). split; assumption.
    + destruct (decide (l = DEAD)) as [->|Hd].
      { intros st _. simpl. tolerate. }
      step (weakly_ref_object_held E H l).
      { left. apply HH. left. }
      intros x. apply triple_ret. intros s (-> & _ & ? & ?). cbn [refs].
      rewrite decide_False by exact Hd. split; assumption.
    + crash.
  - rewrite refs_array in HH. cbn [di_copy_value]. skip. skip.
    eapply triple_bind; [apply (collect_refs di_copy_value refs refs H E l HH)|].
    + intros x E' Hx. rewrite Forall_forall in IH. apply IH. exact Hx.
    + intros l'. ret.
  - rewrite refs_tuple in HH. cbn [di_copy_value].
    eapply triple_bind; [apply (collect_refs di_copy_value refs refs H E l HH)|].
    + intros x E' Hx. rewrite Forall_forall in IH. apply IH. exact Hx.
    + intros l'. ret.
  - cbn [di_copy_value]. eapply triple_bind; [apply IH; exact HH|]. intros w. ret.
Qed.

(** Copying a value whose references the caller holds. *)
Lemma copy_value_ok v E :
  (∀ r, r ∈ refs v → r ∈ E) → spec (Inv E) (di_copy_value v) (λ w, Inv (refs w ++ E)).
Proof.
  intros HE. eapply triple_conseq; [apply (copy_value_held E v E HE)|..].
  - intros s HI. split; [exact HI|]. apply (Inv_held_all _ _ _ HI). auto.
  - naive_solver.
Qed.

(** The result of a conversion: nothing on failure; a clone owns new
    references; otherwise the references are those of the input, except for a
    conversion to nil. *)
Definition conv_post (v : value) (t : di_type) (E : list ref) (r : Z + value * bool) (s : state) : Prop :=
  match r with
  | inl _ => Inv E s
  | inr (w, true) => Inv (refs w ++ E) s
  | inr (w, false) => Inv E s ∧ refs w = if bool_decide (t = DI_TYPE_NIL) then [] else refs v
  end.

(** The two first tests of the conversion of [v]. *)
Ltac conv_head v t HH :=
  cbn [di_type_conversion];
  destruct (bool_decide_reflect (type_of v = t)) as [<-|Hne];
  [ skip; apply triple_ret; intros st [HI Hh]; split; [|exact Hh]; split; [exact HI|];
    apply refs_nil
  | destruct (bool_decide_reflect (t = DI_TYPE_VARIANT)) as [->|Hnv];
    [ eapply triple_bind; [apply copy_value_held; exact HH|]; intros c; apply triple_ret; auto |] ].

(** The end of a conversion that copies nothing. *)
Ltac conv_done :=
  apply triple_ret; intros st [HI Hh]; (split; [|exact Hh]); cbn [conv_post];
  first [ exact HI | split; [exact HI|]; case_bool_decide; [reflexivity|congruence] ].

Lemma conv_int_post v t E st c :
  type_of v ≠ t → int_field v = Some c → Inv E st →
  conv_post v t E (match integer_conversion v t with
                   | inl rc => inl rc | inr w => inr (w, false) end) st.
Proof.
  intros Hne Hc HI. destruct (integer_conversion v t) as [rc|w] eqn:Hi; [exact HI|].
  split; [exact HI|]. rewrite (refs_integer_conversion _ _ _ Hi Hne), (refs_int_field _ _ Hc).
  case_bool_decide; reflexivity.
Qed.

Lemma type_conversion_held H v t b E :
  (∀ r, r ∈ refs v → r ∈ H) →
  spec (λ s, Inv E s ∧ Forall (held s) H) (di_type_conversion v t b)
       (λ r s, conv_post v t E r s ∧ Forall (held s) H).
Proof.
  revert E. induction v as [v Hv| t' b' l IH | l IH | v IH] using value_ind'; intros E HH.
  - destruct v; try destruct Hv;
      match goal with |- context [di_type_conversion ?v _ _] => conv_head v t HH end;
      destruct t; try (destruct Hne; reflexivity); try (destruct Hnv; reflexivity);
      cbn [int_field is_integer]; try destruct b; repeat case_bool_decide; try discriminate;
      apply triple_ret; intros st [HI Hh]; (split; [|exact Hh]); cbn [conv_post];
      first [ apply (conv_int_post _ _ _ _ _ Hne eq_refl HI) | exact HI | exact (conj HI eq_refl) ].
  - conv_head (VArray t' b' l) t HH.
    destruct t; try congruence; conv_done.
  - conv_head (VTuple l) t HH.
    destruct t; try congruence; conv_done.
  - conv_head (VVariant v) t HH.
    destruct t; try congruence; first [apply IH; exact HH | conv_done].
Qed.

(** *** Members *)

Lemma lookup_ok l name E :
  Strong l ∈ E →
  spec (Inv E) (di_lookup l name)
    (λ r s, Inv E s ∧
       match r with
       | Some m => ∃ o n, name = Some n ∧ s_heap s !! l = Some o ∧ find_member n (o_members o) = Some m
       | None => True
       end).
Proof.
  intros HE. unfold di_lookup. destruct name as [n|]; [|ret; auto].
  step (rd_ok E l HE). intros o. apply triple_ret. intros s [HI Ho]. split; [exact HI|].
  destruct (find_member n (o_members o)) eqn:Hm; eauto 10.
Qed.

Lemma insert_member_ok l m E :
  Strong l ∈ E →
  spec (Inv (refs (m_val m) ++ E)) (di_insert_member l m)
    (λ rc, Inv (if Z.eqb rc 0 then E else refs (m_val m) ++ E)).
Proof.
  intros HE. unfold di_insert_member. step (rd_ok (refs (m_val m) ++ E) l). { set_solver. }
  intros o. destruct (Z.eqb _ _) eqn:Hz.
  - step (wr_refs_ok (refs (m_val m) ++ E) E l o).
    + reflexivity.
    + reflexivity.
    + reflexivity.
    + intros r. pose proof (obj_refs_with_members (o_members o ++ [m]) o r).
      rewrite member_refs_app in *. unfold member_refs, refs_of_list in *. simpl in *.
      rewrite ?app_nil_r in *. count_lia.
    + intros ?. ret.
  - apply triple_ret. rewrite Hz. naive_solver.
Qed.

Lemma add_member_ok l name v E :
  Strong l ∈ E → spec (Inv (refs v ++ E)) (di_add_member l name v) (λ _, Inv E).
Proof.
  intros HE. unfold di_add_member. destruct name as [n|].
  - step (fresh_id_ok (refs v ++ E)). intros id.
    step (insert_member_ok l (Member id n v) E HE). intros rc.
    destruct (Z.eqb rc 0); [ret|].
    step (free_value_ok v E). intros ?. ret.
  - step (leak_ok E (refs v)). intros ?. ret.
Qed.

Lemma add_member_clone_ok l name v E :
  Strong l ∈ E → (∀ r, r ∈ refs v → r ∈ E) →
  spec (Inv E) (di_add_member_clone l name v) (λ _, Inv E).
Proof.
  intros HE Hv. unfold di_add_member_clone. skip. destruct a; [ret|].
  step (copy_value_ok v E Hv). intros w. apply add_member_ok. exact HE.
Qed.

Lemma add_member_clonev_ok l name v E :
  Strong l ∈ E → (∀ r, r ∈ refs v → r ∈ E) →
  spec (Inv E) (di_add_member_clonev l name v) (λ _, Inv E).
Proof.
  intros HE Hv. unfold di_add_member_clonev. skip. destruct a; [ret|].
  destruct v; try (apply (add_member_clone_ok l name _ E HE Hv)); intros st _; simpl; tolerate.
Qed.

Lemma add_member_move_ok l name v E :
  Strong l ∈ E → spec (Inv (refs v ++ E)) (di_add_member_move l name v) (λ _, Inv E).
Proof.
  intros HE. unfold di_add_member_move.
  eapply triple_bind; [apply sizeof_ok|]. intros z. destruct z.
  - apply triple_ret. intros s [HI Hz]. symmetry in Hz. apply bool_decide_eq_true in Hz.
    destruct v; try discriminate Hz. exact HI.
  - eapply spec_pre; [|apply add_member_ok; exact HE]. naive_solver.
Qed.
(** Removing the member [id]: its references go to the running code, which
    frees them. *)
Lemma remove_member_raw_impl_ok l id E :
  Strong l ∈ E → spec (Inv E) (di_remove_member_raw_impl l id) (λ _, Inv E).
Proof.
  intros HE. unfold di_remove_member_raw_impl. step (rd_ok E l HE). intros o.
  destruct (take_member id (o_members o)) as [[m ms]|] eqn:Ht; [|crash].
  step (wr_refs_ok E (refs (m_val m) ++ E) l o).
  - reflexivity.
  - reflexivity.
  - reflexivity.
  - intros r. pose proof (take_member_refs _ _ _ _ r Ht).
    pose proof (obj_refs_with_members ms o r). by_count.
  - intros ?. apply free_value_ok.
Qed.

Lemma remove_member_raw_ok l name E :
  Strong l ∈ E → spec (Inv E) (di_remove_member_raw l name) (λ _, Inv E).
Proof.
  intros HE. unfold di_remove_member_raw. step (lookup_ok l name E HE). intros [m|].
  - eapply triple_bind.
    + eapply spec_pre; [|apply (remove_member_raw_impl_ok l (m_id m) E HE)]. naive_solver.
    + intros ?. ret.
  - ret. naive_solver.
Qed.

(** The result of a getter owns its references. *)
Lemma rawgetx_ok l prop E :
  Strong l ∈ E → spec (Inv E) (di_rawgetx l prop) (λ r, Inv (rc_refs r ++ E)).
Proof.
  intros HE. unfold di_rawgetx. step (lookup_ok l prop E HE). intros [m|].
  - skip. skip. eapply triple_bind.
    + eapply spec_pre; [|apply (copy_value_held (refs (m_val m)) (m_val m) E); auto].
      intros s (HI & o & n & -> & Ho & Hm). split; [exact HI|].
      apply Forall_forall. intros r Hr. apply (Inv_stored_held _ _ _ _ _ HI Ho).
      unfold obj_refs. rewrite elem_of_app. left. eapply find_member_refs; eauto.
    + intros w. ret. naive_solver.
  - ret. naive_solver.
Qed.

Lemma gen_tfunc_ok getter t E :
  spec (Inv E) getter (λ r, Inv (rc_refs r ++ E)) →
  spec (Inv E) (gen_tfunc getter t) (λ r, Inv (rc_refs r ++ E)).
Proof.
  intros Hg. unfold gen_tfunc. step Hg. intros [rc|v]; [ret|]. cbn [rc_refs].
  eapply triple_bind.
  - eapply spec_pre; [|apply (type_conversion_held (refs v) v t false (refs v ++ E)); auto].
    intros s HI. split; [exact HI|]. apply (Inv_held_all _ _ _ HI). set_solver.
  - intros [rc|[w [|]]]; cbn [conv_post]; eapply spec_pre; try (intros s [Hs _]; exact Hs).
    + step (free_value_ok v E). intros ?. ret.
    + eapply triple_bind.
      * eapply spec_perm; [|apply (free_value_ok v (refs w ++ E))]. by_count.
      * intros ?. ret.
    + case_bool_decide.
      * apply triple_conseq with (P' := λ s, refs w = [] ∧ Inv (refs v ++ E) s)
          (Q' := λ r, Inv (rc_refs r ++ E)); [|naive_solver|auto].
        apply triple_pure. intros Hw. step (leak_ok E (refs v)). intros ?. ret. rewrite Hw. assumption.
      * apply triple_ret. intros s [HI Hw]. cbn [rc_refs]. rewrite Hw. exact HI.
Qed.

Lemma rawgetxt_ok l prop t E :
  Strong l ∈ E → spec (Inv E) (di_rawgetxt l prop t) (λ r, Inv (rc_refs r ++ E)).
Proof. intros HE. apply gen_tfunc_ok, rawgetx_ok, HE. Qed.

(** *** Calls *)

(** A call returns references only if something was called. *)
Definition called_post (E : list ref) (r : bool * (Z + value)) (s : state) : Prop :=
  Inv (rc_refs r.2 ++ E) s ∧ (r.1 = false → rc_refs r.2 = []).

Lemma called_err E c rc s : Inv E s → called_post E (c, inl rc) s.
Proof. split; [assumption|reflexivity]. Qed.
Lemma called_true E r s : Inv (rc_refs r ++ E) s → called_post E (true, r) s.
Proof. split; [assumption|discriminate]. Qed.
Hint Resolve called_err called_true : deai.

Lemma call_internal_ok self method args E :
  Strong self ∈ E → (∀ r, r ∈ refs_of_list args → r ∈ E) →
  spec (Inv (Strong method :: E)) (di_call_internal self method args) (called_post E).
Proof.
  intros HE Ha. unfold di_call_internal.
  step (rd_ok (Strong method :: E) method); [left|]. intros m.
  eapply spec_pre; [intros s [Hs _]; exact Hs|].
  destruct (o_call m).
  - skip. step (call_ok method (VObject self :: args) (Strong method :: E)).
    + left.
    + intros r. rewrite refs_of_list_cons. simpl. rewrite elem_of_cons. set_solver.
    + intros r. eapply triple_bind.
      * eapply spec_perm; [|apply (unref_ok method (rc_refs r ++ E))]. by_count.
      * intros ?. apply triple_ret. eauto with deai.
  - step (leak_ok E [Strong method]). intros ?. apply triple_ret. eauto with deai.
Qed.

Lemma gen_callx_ok getter self args E :
  Strong self ∈ E → (∀ r, r ∈ refs_of_list args → r ∈ E) →
  spec (Inv E) getter (λ r, Inv (rc_refs r ++ E)) →
  spec (Inv E) (gen_callx getter self args) (called_post E).
Proof.
  intros HE Ha Hg. unfold gen_callx. step Hg. intros [rc|v]; [apply triple_ret; eauto with deai|].
  destruct v; try crash. apply (call_internal_ok self l args E HE Ha).
Qed.

Lemma rawcallxn_ok self name args E :
  Strong self ∈ E → (∀ r, r ∈ refs_of_list args → r ∈ E) →
  spec (Inv E) (di_rawcallxn self name args) (called_post E).
Proof. intros HE Ha. apply gen_callx_ok; [assumption..|]. apply rawgetxt_ok, HE. Qed.

Lemma call_handler_ok o prefix name arg keep E :
  Strong o ∈ E → (∀ r, r ∈ refs (default VNil arg) → r ∈ E) →
  spec (Inv E) (call_handler_with_fallback o prefix name arg keep)
    (λ r s, Inv (rc_refs r.2 ++ E) s ∧ (keep = false → rc_refs r.2 = [])).
Proof.
  intros HE Ha. unfold call_handler_with_fallback.
  destruct (di_is_internal name); [apply triple_ret; auto|].
  assert (∀ r, r ∈ refs_of_list (match arg with Some a => [a] | None => [] end) → r ∈ E) as Ha'.
  { intros r. destruct arg as [a|]; simpl in *; [rewrite refs_of_list_cons, app_nil_r; apply Ha|].
    unfold refs_of_list. simpl. set_solver. }
  step (rawcallxn_ok o (Some (handler_name prefix name)) _ E HE Ha'). intros [c1 r1].
  eapply triple_bind with (R := called_post E).
  - cbn [fst snd]. destruct c1; [ret|].
    eapply spec_pre with (P' := Inv E).
    + intros s [HI Hr]. rewrite (Hr eq_refl) in HI. exact HI.
    + apply rawcallxn_ok; [exact HE|]. exact Ha'.
  - intros [c r]. eapply spec_pre; [intros s [HI _]; exact HI|]. cbn [fst snd].
    destruct r as [rc|v]; [apply triple_ret; auto|].
    destruct keep; [apply triple_ret; intros s HI; split; [exact HI|discriminate]|].
    step (free_value_ok v E). intros ?. apply triple_ret. auto.
Qed.

Lemma call_handler_drop_ok o prefix name arg E :
  Strong o ∈ E → (∀ r, r ∈ refs (default VNil arg) → r ∈ E) →
  spec (Inv E) (call_handler_with_fallback o prefix name arg false) (λ _, Inv E).
Proof.
  intros HE Ha. eapply spec_post; [apply (call_handler_ok o prefix name arg false E HE Ha)|].
  intros r s [HI Hr]. rewrite (Hr eq_refl) in HI. exact HI.
Qed.

Lemma getx_ok o prop E :
  Strong o ∈ E → spec (Inv E) (di_getx o prop) (λ r, Inv (rc_refs r ++ E)).
Proof.
  intros HE. unfold di_getx. step (rawgetx_ok o prop E HE). intros [rc|v]; [|ret].
  step (call_handler_ok o "__get" prop None true E HE); [simpl; set_solver|].
  intros [c r]. cbn [fst snd]. eapply spec_pre; [intros s [HI _]; exact HI|]. cbn [fst snd].
  destruct r as [rc'|v]; [ret|]. destruct v; try ret. cbn [rc_refs refs].
  pose proof (refs_flatten v) as Hf. destruct (di_flatten_variant v); ret;
    cbn [refs] in Hf; rewrite <- Hf in *; assumption.
Qed.

Lemma getxt_ok o prop t E :
  Strong o ∈ E → spec (Inv E) (di_getxt o prop t) (λ r, Inv (rc_refs r ++ E)).
Proof. intros HE. apply gen_tfunc_ok, getx_ok, HE. Qed.

Lemma callx_ok self name args E :
  Strong self ∈ E → (∀ r, r ∈ refs_of_list args → r ∈ E) →
  spec (Inv E) (di_callx self name args) (called_post E).
Proof. intros HE Ha. apply gen_callx_ok; [assumption..|]. apply getxt_ok, HE. Qed.

(** *** Setting and removing members *)

Lemma store_member_ok l id v E :
  Strong l ∈ E → spec (Inv (refs v ++ E)) (store_member l id v) (λ old, Inv (refs old ++ E)).
Proof.
  intros HE. unfold store_member. step (rd_ok (refs v ++ E) l); [set_solver|]. intros o.
  destruct (swap_member id v (o_members o)) as [[old ms]|] eqn:Hs; [|crash].
  step (wr_refs_ok (refs v ++ E) (refs old ++ E) l o).
  - reflexivity.
  - reflexivity.
  - reflexivity.
  - intros r. pose proof (swap_member_refs _ _ _ _ _ r Hs).
    pose proof (obj_refs_with_members ms o r). by_count.
  - intros ?. ret.
Qed.

Lemma setx_ok o prop v E :
  Strong o ∈ E → (∀ r, r ∈ refs v → r ∈ E) → spec (Inv E) (di_setx o prop v) (λ _, Inv E).
Proof.
  intros HE Hv. unfold di_setx.
  step (call_handler_drop_ok o "__set" prop (Some v) E HE Hv). intros [c r]. cbn [fst snd].
  destruct c; [ret|].
  step (call_handler_drop_ok o "__delete" prop None E HE); [simpl; set_solver|].
  intros [c' r']. cbn [fst snd]. destruct (c' && _); [ret|].
  step (lookup_ok o prop E HE). intros mem. eapply spec_pre; [intros s [HI _]; exact HI|].
  destruct mem as [m|]; [|apply add_member_clone_ok; assumption].
  step (store_member_ok o (m_id m) VBottom E HE). intros old.
  step (free_value_ok old E). intros ?. skip. case_bool_decide; [|crash].
  step (copy_value_ok v E Hv). intros w. step (store_member_ok o (m_id m) w E HE). intros fr.
  step (leak_ok E (refs fr)). intros ?. ret.
Qed.

Lemma remove_member_ok o name E :
  Strong o ∈ E → spec (Inv E) (di_remove_member o name) (λ _, Inv E).
Proof.
  intros HE. unfold di_remove_member.
  step (call_handler_drop_ok o "__delete" name None E HE); [simpl; set_solver|].
  intros [c r]. cbn [fst snd]. destruct c; [ret|]. apply remove_member_raw_ok, HE.
Qed.

Lemma set_type_ok o type E :
  Strong o ∈ E → spec (Inv E) (di_set_type o type) (λ _, Inv E).
Proof.
  intros HE. unfold di_set_type. step (remove_member_raw_ok o (Some "__type"%string) E HE).
  intros ?. apply add_member_clonev_ok; [exact HE|]. simpl. set_solver.
Qed.

Lemma get_type_ok o E : Strong o ∈ E → spec (Inv E) (di_get_type o) (λ _, Inv E).
Proof.
  intros HE. unfold di_get_type.
  step (rawgetxt_ok o (Some "__type"%string) DI_TYPE_STRING_LITERAL E HE).
  intros [rc|v]; [ret|]. destruct v; try crash. ret.
Qed.

Lemma check_type_ok o ty E : Strong o ∈ E → spec (Inv E) (di_check_type o ty) (λ _, Inv E).
Proof. intros HE. unfold di_check_type. step (get_type_ok o E HE). intros r. ret. Qed.

(** *** Destruction *)

Lemma finalize_step_ok l id E : Strong l ∈ E → spec (Inv E) (finalize_step l id) (λ _, Inv E).
Proof.
  intros HE. unfold finalize_step. step (rd_ok E l HE). intros o.
  destruct (take_member id (o_members o)); [|crash].
  eapply spec_pre; [intros s [HI _]; exact HI|].
  step (remove_member_raw_impl_ok l id E HE). intros ?. ret.
Qed.

Lemma finalize_object_impl_ok l E :
  Strong l ∈ E → spec (Inv E) (finalize_object_impl l) (λ _, Inv E).
Proof.
  intros HE. unfold finalize_object_impl. step (rd_ok E l HE). intros o.
  eapply triple_bind with (R := λ _, Inv E).
  - destruct (o_dtor o) as [d|]; [|ret; naive_solver].
    step (wr_ok E l o (with_dtor None o)); [done..|]. intros ?. apply dtor_ok, HE.
  - intros ?. step (rd_ok E l HE). intros o'. eapply spec_pre; [intros s [HI _]; exact HI|].
    destruct (head (o_members o')) as [m|]; [|ret].
    apply (triple_while_some tolerated loop_fuel (finalize_step l) (λ _, Inv E) (Inv E)).
    intros id. eapply spec_post; [apply (finalize_step_ok l id E HE)|]. intros [?|]; auto.
Qed.

Lemma finalize_object_ok l E : Strong l ∈ E → spec (Inv E) (di_finalize_object l) (λ _, Inv E).
Proof.
  intros HE. unfold di_finalize_object. step (ref_object_ok E l HE). intros x.
  eapply spec_pre; [intros s [_ HI]; exact HI|].
  step (finalize_object_impl_ok l (Strong l :: E)); [left|]. intros ?. apply unref_ok.
Qed.

(** [di_destroy_object] after it has taken its own reference. *)
Definition destroy_rest (l : loc) : M unit :=
  o ← rd l;
  (if o_destroyed o then
     emit_event "log: destroy object multiple times" []
   else mret tt);;
  upd l (with_destroyed true);;
  finalize_object_impl l;;
  upd l (with_signals []);;
  unref_object l.

Lemma destroy_rest_ok l E : spec (Inv (Strong l :: E)) (destroy_rest l) (λ _, Inv E).
Proof.
  assert (Strong l ∈ Strong l :: E) as HE by left.
  unfold destroy_rest. step (rd_ok (Strong l :: E) l HE). intros o.
  eapply spec_pre; [intros s [HI _]; exact HI|].
  eapply triple_bind with (R := λ _, Inv (Strong l :: E)).
  { destruct (o_destroyed o); [apply emit_event_ok|ret]. }
  intros ?. step (upd_ok (Strong l :: E) l (with_destroyed true)); [done|exact HE|].
  intros ?. step (finalize_object_impl_ok l (Strong l :: E) HE). intros ?.
  step (upd_ok (Strong l :: E) l (with_signals [])); [done|exact HE|]. intros ?. apply unref_ok.
Qed.

Lemma destroy_object_ok l E : Strong l ∈ E → spec (Inv E) (di_destroy_object l) (λ _, Inv E).
Proof.
  intros HE. change (di_destroy_object l) with (_ ← di_ref_object l; destroy_rest l).
  step (ref_object_ok E l HE). intros x. eapply spec_pre; [intros s [_ HI]; exact HI|].
  apply destroy_rest_ok.
Qed.

(** [di_unref_object] drops one strong reference.  When it is the last one and
    the object has been destroyed already, the weak reference that all strong
    references share becomes the weak reference that is dropped; when the
    object has not been destroyed, [di_destroy_object] takes the last
    reference back first. *)
Lemma unref_body_ok l E : spec (Inv (Strong l :: E)) (unref_body l) (λ _, Inv E).
Proof.
  intros s HI. destruct (Inv_strong_alive _ _ l HI) as (o & Ho & Hrc); [left|].
  unfold unref_body, rd, mbind at 1, ST_bind. rewrite Ho. destruct (o_rc o) as [|n] eqn:Hn; [lia|].
  destruct (Nat.eqb_spec n 0) as [->|Hne].
  - destruct (o_destroyed o) eqn:Hd.
    + apply (decrement_weak_ok E l). unfold wr, modify. simpl.
      apply (Inv_wr _ _ s l o _ HI Ho); unfold implicit_weak; cbn [o_rc o_wrc o_destroyed with_rc].
      * by_count.
      * by_count.
      * auto.
      * apply (inv_live _ _ HI _ _ Ho).
    + pose proof (destroy_rest_ok l E s HI) as Hr.
      change (di_destroy_object l) with (_ ← di_ref_object l; destroy_rest l).
      unfold wr, modify, di_ref_object, rd, mbind, ST_bind; simpl. rewrite lookup_insert_eq. simpl.
      rewrite insert_insert_eq.
      replace (with_rc 1 (with_rc 0 o)) with o by (rewrite <- Hn; destruct o; reflexivity).
      rewrite (insert_id _ _ _ Ho). destruct s. exact Hr.
  - simpl. apply (Inv_wr _ _ s l o _ HI Ho); unfold implicit_weak; cbn [o_rc o_wrc o_destroyed with_rc].
    + by_count.
    + by_count.
    + lia.
    + apply (inv_live _ _ HI _ _ Ho).
Qed.

Lemma new_module_with_size_ok di size x E :
  Strong di ∈ E →
  spec (Inv (ext_refs x ++ E)) (di_new_module_with_size di size x)
    (λ r, Inv (match r with Some l => Strong l :: E | None => ext_refs x ++ E end)).
Proof.
  intros HE. unfold di_new_module_with_size. destruct (size <? 184)%Z; [ret|].
  step (new_object_ok (ext_refs x ++ E) size 16). intros [l|]; [|crash].
  change (from_opt NullDeref (Some l)) with (mret (M := M) l).
  eapply triple_bind with (R := λ pm s, pm = l ∧ Inv (Strong l :: ext_refs x ++ E) s ∧
                                        s_heap s !! l = Some fresh_object).
  { apply triple_ret. auto. }
  intros pm. apply triple_pure. intros ->.
  eapply triple_bind with (R := λ _, Inv (Strong l :: E)).
  - unfold upd. eapply triple_bind; [apply rd_spec; intros s [_ Hl]; eauto|]. intros o.
    intros s [[HI Hl] Hl']. rewrite Hl in Hl'. injection Hl' as <-.
    apply (Inv_wr_refs (Strong l :: ext_refs x ++ E) _ s l fresh_object _ HI Hl); [reflexivity..|].
    unfold obj_refs. simpl. by_count.
  - intros ?. step (set_type_ok l "deai:module" (Strong l :: E)); [left|]. intros ?.
    step (weakly_ref_object_ok (Strong l :: E) di); [set_solver|]. intros w.
    eapply triple_bind.
    + eapply spec_pre; [|apply (add_member_move_ok l _ (VWeak w) (Strong l :: E)); left].
      intros s (-> & Hd & HI). cbn [refs]. rewrite decide_False by exact Hd. exact HI.
    + intros ?. ret.
Qed.
End specs.
