(* ===== verification/Signals.v ===== *)
(** * Signals and listen handles (object.c)

    A listener is a weak reference from a signal to a listen handle.  The handle
    owns the handler, as its member ["__handler"]; dropping the handle stops the
    listener, and stopping the last listener of a signal frees the signal. *)

From S2P Require Import Prelude DiTypes Heap Account Object ObjectSpec.

(** ** Operations *)

(** [list_del] of the listener of a handle. *)
Fixpoint del_listener (h : loc) (l : list loc) : option (list loc) :=
  match l with
  | [] => None
  | x :: l' => if Nat.eqb x h then Some l' else cons x <$> del_listener h l'
  end.

Definition with_listeners (n : nat) (l : list loc) (g : signal) : signal :=
  Signal (sg_name g) n (sg_owner g) l.
Definition with_owner (o : option loc) (g : signal) : signal :=
  Signal (sg_name g) (sg_nlisteners g) o (sg_listeners g).

(** The key of a name in a table: [name.data], [name.length]. *)
Definition key_of (name : di_string) : string := default EmptyString name.

Section signals.
Context {K : Kernel}.

(** [di_drop_weak_ref(&sig->owner)] *)
Definition drop_owner (i : sid) : M unit :=
  g ← rd_sig i;
  match sg_owner g with
  | Some o => wr_sig i (with_owner None g);; di_drop_weak_ref o
  | None => fail NullDeref
  end.

(** The part of [di_listen_handle_dtor] that runs when the list of listeners
    is empty.  The reference [owner] is dropped at the end of the block. *)
Definition free_signal (i : sid) : M unit :=
  g ← rd_sig i;
  o ← from_opt NullDeref (sg_owner g);
  owner ← di_upgrade_weak_ref o;
  match owner with
  | Some ow =>
      x ← rd ow;
      sigs ← from_opt HashCorrupt (del_signal i (o_signals x));
      wr ow (with_signals sigs x);;
      (if di_is_internal (sg_name g) then mret tt
       else call_handler_with_fallback ow "__del_signal" (sg_name g) None false;; mret tt)
  | None => mret tt
  end;;
  drop_owner i;;
  free_sig i;;
  match owner with Some ow => unref_object ow | None => mret tt end.

(** [di_listen_handle_dtor] *)
Definition di_listen_handle_dtor (h : loc) : M unit :=
  x ← rd h;
  match o_ext x with
  | EListenHandle i =>
      g ← rd_sig i;
      l ← from_opt HashCorrupt (del_listener h (sg_listeners g));
      wr_sig i (with_listeners (pred (sg_nlisteners g)) l g);;
      (match l with [] => free_signal i | _ => mret tt end);;
      set_ext h EPoison;;
      di_drop_weak_ref h
  | EPoison => fail CheckFailed
  | _ => fail TypeConfusion
  end.

(** A new signal of [obj], without listeners. *)
Definition new_signal (obj : loc) (name : di_string) : M sid :=
  owner ← di_weakly_ref_object obj;
  i ← fresh_id;
  wr_sig i (Signal name 0 (Some owner) []);;
  upd obj (λ o, with_signals (o_signals o ++ [(key_of name, i)]) o);;
  mret i.

(** The signal of [di_listen_to]: found, or created and announced to the
    handler ["__new_signal"]. *)
Definition get_signal (obj : loc) (name : di_string) : M sid :=
  o ← rd obj;
  match find_signal (key_of name) (o_signals o) with
  | Some i => mret i
  | None =>
      i ← new_signal obj name;
      (if di_is_internal name then mret tt
       else call_handler_with_fallback obj "__new_signal" name None false;; mret tt);;
      mret i
  end.

(** [di_listen_to]; [list_add] puts the new listener first. *)
Definition di_listen_to (obj : loc) (name : di_string) (h : loc) : M loc :=
  o ← rd obj;
  check (negb (o_destroyed o));;
  i ← get_signal obj name;
  lh ← di_new_object_with_type ENone;
  rc ← di_set_type lh "deai:ListenHandle";
  check (Z.eqb rc 0);;
  w ← di_weakly_ref_object lh;
  di_set_object_dtor lh (Some DtorListenHandle);;
  set_ext lh (EListenHandle i);;
  _ ← di_add_member_clonev lh (Some "__handler"%string) (VObject h);
  g ← rd_sig i;
  wr_sig i (with_listeners (S (sg_nlisteners g)) (w :: sg_listeners g) g);;
  mret lh.

(** [di_call_objectt]: the [call] pointer is not checked. *)
Definition di_call_objectt (obj : loc) (args : list value) : M (Z + value) :=
  o ← rd obj;
  match o_call o with
  | None => fail NullCall
  | Some _ => call_object obj args
  end.

(** What [di_emitn] does with the result of a handler. *)
Definition emit_result (r : Z + value) : M unit :=
  match r with
  | inl _ => emit_event "log: failed to call a listener callback" []
  | inr v =>
      match v with
      | VObject o =>
          e ← di_getxt o (Some "errmsg"%string) DI_TYPE_STRING;
          match e with
          | inr w => emit_event "log: error arose when calling signal handler" [];; di_free_value w
          | inl _ => mret tt
          end
      | _ => mret tt
      end;;
      di_free_value v
  end.

(** One handle of [di_emitn].  The weak reference to a handle that has been
    dropped is not released. *)
Definition emit_to (args : list value) (w : loc) : M unit :=
  handle ← di_upgrade_weak_ref w;
  match handle with
  | None => leak [Weak w]
  | Some h =>
      r ← di_getxt h (Some "__handler"%string) DI_TYPE_OBJECT;
      match r with
      | inr (VObject handler) =>
          unref_object h;;
          res ← di_call_objectt handler args;
          unref_object handler;;
          di_drop_weak_ref w;;
          emit_result res
      | inr _ => fail TypeConfusion
      | inl _ => fail CheckFailed
      end
  end.

(** [di_emitn]: the handles are copied before the first handler runs, into an
    array of [nlisteners] elements. *)
Definition di_emitn (o : loc) (name : di_string) (args : list value) : M Z :=
  if Nat.ltb MAX_NARGS (length args) then mret E2BIG
  else
    x ← rd o;
    match find_signal (key_of name) (o_signals x) with
    | None => mret 0%Z
    | Some i =>
        g ← rd_sig i;
        (if Nat.ltb (sg_nlisteners g) (length (sg_listeners g)) then fail OutOfBounds else mret tt);;
        all_handle ← collect di_weakly_ref_object (sg_listeners g);
        check (Nat.eqb (length all_handle) (sg_nlisteners g));;
        for_each (emit_to args) all_handle;;
        mret 0%Z
    end.
End signals.

(** ** Memory safety and reference accounting *)

Lemma rd_sig_ok E i :
  spec (Inv E) (rd_sig i) (λ g s, Inv E s ∧ s_sigs s !! i = Some g).
Proof. intros s HI. unfold rd_sig. destruct (s_sigs s !! i) eqn:Hi; simpl; [auto|tolerate]. Qed.

Lemma wr_sig_ok E E' i g g' :
  (∀ r, cnt r (sig_refs g') + cnt r E' = cnt r (sig_refs g) + cnt r E) →
  spec (λ s, Inv E s ∧ s_sigs s !! i = Some g) (wr_sig i g') (λ _, Inv E').
Proof.
  intros Hr s [HI Hi]. unfold wr_sig, modify, set_sigs.
  apply (Inv_sigs E E' s _ (s_leaked s) HI).
  - intros r. pose proof (total_insert sig_refs r _ _ _ g' Hi). specialize (Hr r). lia.
  - intros j Hj. rewrite lookup_insert_ne; [apply (inv_fresh _ _ HI j Hj)|].
    intros ->. destruct (inv_fresh _ _ HI j Hj). congruence.
Qed.

Lemma wr_new_sig_ok E E' i g' :
  (∀ r, cnt r (sig_refs g') + cnt r E' = cnt r E) →
  spec (λ s, Inv E s ∧ s_sigs s !! i = None ∧ i < s_next s) (wr_sig i g') (λ _, Inv E').
Proof.
  intros Hr s (HI & Hi & Hlt). unfold wr_sig, modify, set_sigs.
  apply (Inv_sigs E E' s _ (s_leaked s) HI).
  - intros r. rewrite (total_insert_new sig_refs r _ _ g' Hi). specialize (Hr r). lia.
  - intros j Hj. rewrite lookup_insert_ne by lia. apply (inv_fresh _ _ HI j Hj).
Qed.

Lemma fresh_sig_ok E :
  spec (Inv E) fresh_id (λ i s, Inv E s ∧ s_sigs s !! i = None ∧ i < s_next s).
Proof.
  intros s HI. unfold fresh_id. split; [apply Inv_next; [lia|exact HI]|]. simpl.
  split; [|lia]. apply (inv_fresh _ _ HI). lia.
Qed.

Lemma free_sig_ok E i : spec (Inv E) (free_sig i) (λ _, Inv E).
Proof.
  intros s HI. unfold free_sig. destruct (s_sigs s !! i) as [g|] eqn:Hi; [|tolerate].
  apply (Inv_sigs E E s _ _ HI).
  - intros r. rewrite (total_delete sig_refs r _ _ _ Hi). count_lia.
  - intros j Hj. apply lookup_delete_None. right. apply (inv_fresh _ _ HI j Hj).
Qed.

Lemma del_listener_cnt h l l' r :
  del_listener h l = Some l' → cnt r (map Weak l) = cnt r (map Weak l') + cnt r [Weak h].
Proof.
  revert l'. induction l as [|x l IH]; intros l'; simpl; [discriminate|].
  destruct (Nat.eqb_spec x h) as [->|Hne].
  - intros [= ->]. lia.
  - destruct (del_listener h l) as [k|]; [|discriminate]. intros [= <-].
    specialize (IH k eq_refl). simpl in *. lia.
Qed.

Lemma concat_map_singleton {A B} (f : A → B) l : concat (map (λ x, [f x]) l) = map f l.
Proof. induction l as [|x l IH]; simpl; [reflexivity|]. f_equal. exact IH. Qed.

Lemma from_opt_spec {A} c (o : option A) P :
  tolerated c → spec P (from_opt c o) (λ a s, P s ∧ o = Some a).
Proof. apply triple_from_opt. Qed.

(** What a signal points to has not been freed. *)
Lemma Inv_sig_held E s i g r :
  Inv E s → s_sigs s !! i = Some g → r ∈ sig_refs g → held s r.
Proof.
  intros HI Hg Hr%cnt_elem_of. pose proof (total_ge sig_refs r _ _ _ Hg) as Hc.
  assert (0 < hcnt r s) as Hh by (unfold hcnt; lia). destruct r as [x|x]; simpl.
  - destruct (s_heap s !! x) as [o|] eqn:Hx.
    + exists o. split; [reflexivity|]. rewrite (inv_strong _ _ HI x o Hx). lia.
    + destruct (inv_dom _ _ HI x Hx). lia.
  - destruct (s_heap s !! x) as [o|] eqn:Hx; [eauto|]. destruct (inv_dom _ _ HI x Hx). lia.
Qed.

Section specs.
Context {K : Kernel} {KO : KernelOk K}.

Lemma drop_owner_ok E i : spec (Inv E) (drop_owner i) (λ _, Inv E).
Proof.
  unfold drop_owner. step (rd_sig_ok E i). intros g. destruct (sg_owner g) as [o|] eqn:Ho.
  - step (wr_sig_ok E (Weak o :: E) i g (with_owner None g)).
    + intros r. unfold sig_refs. simpl. rewrite Ho. by_count.
    + intros ?. apply drop_weak_ref_ok.
  - crash.
Qed.

Lemma handler_unit_ok o prefix name E :
  Strong o ∈ E →
  spec (Inv E) (call_handler_with_fallback o prefix name None false;; mret tt) (λ _, Inv E).
Proof.
  intros HE. step (call_handler_drop_ok o prefix name None E HE); [simpl; set_solver|].
  intros ?. ret.
Qed.

Lemma free_signal_ok E i : spec (Inv E) (free_signal i) (λ _, Inv E).
Proof.
  unfold free_signal. step (rd_sig_ok E i). intros g.
  step (from_opt_spec (A := loc)); [tolerate|]. intros o.
  eapply triple_bind with (R := λ r, Inv (match r with Some x => [Strong x] | None => [] end ++ E)).
  - intros s [[HI Hg] Ho]. unfold di_upgrade_weak_ref. case_decide; [exact HI|].
    destruct (Inv_sig_held E s i g (Weak o) HI Hg) as [x Hx].
    { unfold sig_refs. rewrite Ho. left. }
    unfold mbind, ST_bind, rd. rewrite Hx. destruct (Nat.ltb_spec 0 (o_rc x)); [|exact HI].
    unfold di_ref_object, rd, mbind, ST_bind. rewrite Hx. simpl. apply Inv_ref; assumption.
  - intros owner. eapply triple_bind with (R := λ _, Inv (match owner with Some x => [Strong x] | None => [] end ++ E)).
    + destruct owner as [ow|]; [|ret]. cbn [app].
      assert (Strong ow ∈ Strong ow :: E) as HE by left.
      step (rd_ok (Strong ow :: E) ow HE). intros x.
      step (from_opt_spec (A := list (string * sid))); [tolerate|]. intros sigs.
      eapply spec_pre; [intros s [Hs _]; exact Hs|].
      step (wr_ok (Strong ow :: E) ow x (with_signals sigs x)); [done..|]. intros ?.
      destruct (di_is_internal _); [ret|]. apply handler_unit_ok, HE.
    + intros ?. step (drop_owner_ok (match owner with Some x => [Strong x] | None => [] end ++ E) i).
      intros ?. step (free_sig_ok (match owner with Some x => [Strong x] | None => [] end ++ E) i).
      intros ?. destruct owner as [ow|]; [apply unref_ok|ret].
Qed.

(** The destructor of a listen handle.  The caller keeps the object alive. *)
Lemma listen_handle_dtor_ok E h :
  Strong h ∈ E → spec (Inv E) (di_listen_handle_dtor h) (λ _, Inv E).
Proof.
  intros HE. unfold di_listen_handle_dtor. step (rd_ok E h HE). intros x.
  eapply spec_pre; [intros s [HI _]; exact HI|]. destruct (o_ext x); try crash.
  step (rd_sig_ok E signal). intros g.
  destruct (del_listener h (sg_listeners g)) as [l|] eqn:Hl; [|crash].
  eapply triple_bind with (R := λ l' s, l' = l ∧ Inv E s ∧ s_sigs s !! signal = Some g).
  { apply triple_ret. auto. }
  intros l'. apply triple_pure. intros ->.
  step (wr_sig_ok E (Weak h :: E) signal g (with_listeners (pred (sg_nlisteners g)) l g)).
  - intros r. pose proof (del_listener_cnt _ _ _ r Hl). unfold sig_refs. simpl in *. count_lia.
  - intros ?. eapply triple_bind with (R := λ _, Inv (Weak h :: E)).
    + destruct l; [apply free_signal_ok|ret].
    + intros ?. step (set_ext_ok (Weak h :: E) h EPoison); [set_solver|].
      intros ?. apply drop_weak_ref_ok.
Qed.

Lemma new_signal_ok E obj name :
  Strong obj ∈ E → spec (Inv E) (new_signal obj name) (λ _, Inv E).
Proof.
  intros HE. unfold new_signal.
  step (weakly_ref_object_ok E obj); [auto|]. intros w.
  apply spec_pre with (P' := λ s, w = obj ∧ Inv (Weak obj :: E) s); [naive_solver|].
  apply triple_pure. intros ->.
  step (fresh_sig_ok (Weak obj :: E)). intros i.
  step (wr_new_sig_ok (Weak obj :: E) E i (Signal name 0 (Some obj) [])).
  { intros r. unfold sig_refs. simpl. case_decide; reflexivity. }
  intros ?.
  step (upd_ok E obj (λ o, with_signals (o_signals o ++ [(key_of name, i)]) o)); [done|exact HE|].
  intros ?. ret.
Qed.

Lemma get_signal_ok E obj name :
  Strong obj ∈ E → spec (Inv E) (get_signal obj name) (λ _, Inv E).
Proof.
  intros HE. unfold get_signal. step (rd_ok E obj HE). intros o.
  eapply spec_pre; [intros s [HI _]; exact HI|].
  destruct (find_signal _ _) as [i|]; [ret|].
  step (new_signal_ok E obj name HE). intros i.
  eapply triple_bind with (R := λ _, Inv E); [|intros ?; ret].
  destruct (di_is_internal name); [ret|]. apply handler_unit_ok, HE.
Qed.

Lemma listen_to_ok E obj name h :
  Strong obj ∈ E → Strong h ∈ E →
  spec (Inv E) (di_listen_to obj name h) (λ lh, Inv (Strong lh :: E)).
Proof.
  intros HE Hh. unfold di_listen_to. step (rd_ok E obj HE). intros o.
  eapply spec_pre; [intros s [HI _]; exact HI|]. skip.
  step (get_signal_ok E obj name HE). intros i.
  step (new_object_with_type_ok E ENone). intros lh.
  assert (Strong lh ∈ Strong lh :: E) as Hl by left.
  step (set_type_ok lh "deai:ListenHandle" _ Hl). intros rc. skip.
  step (weakly_ref_object_ok (Strong lh :: E) lh); [auto|]. intros w.
  apply spec_pre with (P' := λ s, w = lh ∧ Inv (Weak lh :: Strong lh :: E) s); [naive_solver|].
  apply triple_pure. intros ->.
  assert (Strong lh ∈ Weak lh :: Strong lh :: E) as Hl' by set_solver.
  step (upd_ok (Weak lh :: Strong lh :: E) lh (with_dtor (Some DtorListenHandle))); [done|exact Hl'|].
  intros ?. step (set_ext_ok (Weak lh :: Strong lh :: E) lh (EListenHandle i) Hl'). intros ?.
  step (add_member_clonev_ok lh (Some "__handler"%string) (VObject h) _ Hl'); [simpl; set_solver|].
  intros ?. step (rd_sig_ok (Weak lh :: Strong lh :: E) i). intros g.
  step (wr_sig_ok (Weak lh :: Strong lh :: E) (Strong lh :: E) i g
          (with_listeners (S (sg_nlisteners g)) (lh :: sg_listeners g) g)).
  - intros r. unfold sig_refs. simpl. by_count.
  - intros ?. ret.
Qed.

Lemma emit_result_ok E r : spec (Inv (rc_refs r ++ E)) (emit_result r) (λ _, Inv E).
Proof.
  unfold emit_result. destruct r as [rc|v]; [apply emit_event_ok|].
  eapply triple_bind with (R := λ _, Inv (refs v ++ E)); [|intros ?; apply free_value_ok].
  destruct v; try ret.
  step (getxt_ok l (Some "errmsg"%string) DI_TYPE_STRING (refs (VObject l) ++ E)); [left|].
  intros [rc|w]; [ret|]. step (emit_event_ok (refs w ++ refs (VObject l) ++ E)). intros ?.
  apply free_value_ok.
Qed.

Lemma call_objectt_ok E obj args :
  Strong obj ∈ E → (∀ r, r ∈ refs_of_list args → r ∈ E) →
  spec (Inv E) (di_call_objectt obj args) (λ r, Inv (rc_refs r ++ E)).
Proof.
  intros HE Ha. unfold di_call_objectt. step (rd_ok E obj HE). intros o.
  eapply spec_pre; [intros s [HI _]; exact HI|]. destruct (o_call o); [|crash].
  apply call_ok; assumption.
Qed.

Lemma emit_to_ok E args w :
  (∀ r, r ∈ refs_of_list args → r ∈ E) →
  spec (Inv (Weak w :: E)) (emit_to args w) (λ _, Inv E).
Proof.
  intros Ha. unfold emit_to. step (upgrade_weak_ref_ok (Weak w :: E) w); [right; left|].
  intros [h|]; [|apply (leak_ok E [Weak w])].
  apply spec_pre with (P' := λ s, h = w ∧ Inv (Strong w :: Weak w :: E) s); [naive_solver|].
  apply triple_pure. intros ->.
  step (getxt_ok w (Some "__handler"%string) DI_TYPE_OBJECT (Strong w :: Weak w :: E)); [left|].
  intros [rc|v]; [crash|]. destruct v; try crash. cbn [rc_refs refs app].
  eapply triple_bind.
  { eapply spec_perm; [|apply (unref_ok w (Strong l :: Weak w :: E))]. by_count. }
  intros ?. step (call_objectt_ok (Strong l :: Weak w :: E) l args); [left|set_solver|].
  intros res. eapply triple_bind.
  { eapply spec_perm; [|apply (unref_ok l (Weak w :: rc_refs res ++ E))]. by_count. }
  intros ?. step (drop_weak_ref_ok (rc_refs res ++ E) w). intros ?. apply emit_result_ok.
Qed.

Lemma emit_all_ok E args ws :
  (∀ r, r ∈ refs_of_list args → r ∈ E) →
  spec (Inv (map Weak ws ++ E)) (for_each (emit_to args) ws) (λ _, Inv E).
Proof.
  intros Ha. apply (triple_for_each tolerated (emit_to args) (λ ws, Inv (map Weak ws ++ E))).
  intros w ws'. apply emit_to_ok. set_solver.
Qed.

Lemma emitn_ok E o name args :
  Strong o ∈ E → (∀ r, r ∈ refs_of_list args → r ∈ E) →
  spec (Inv E) (di_emitn o name args) (λ _, Inv E).
Proof.
  intros HE Ha. unfold di_emitn. destruct (Nat.ltb _ _); [ret|].
  step (rd_ok E o HE). intros x. eapply spec_pre; [intros s [HI _]; exact HI|].
  destruct (find_signal _ _) as [i|]; [|ret].
  step (rd_sig_ok E i). intros g.
  eapply triple_bind with (R := λ _ s, Inv E s ∧ s_sigs s !! i = Some g).
  { destruct (Nat.ltb _ _); [crash|ret]. }
  intros ?. eapply triple_bind with (R := λ ws s, Inv (map Weak ws ++ E) s).
  - eapply triple_conseq;
      [apply (collect_refs di_weakly_ref_object (λ w, [Weak w]) (λ w, [Weak w])
                (map Weak (sg_listeners g)) E (sg_listeners g))|..].
    + intros r. rewrite concat_map_singleton. auto.
    + intros w E' Hw _. eapply spec_post; [apply weakly_ref_object_held|].
      * left. apply (list_elem_of_fmap_2 Weak). exact Hw.
      * intros y s (-> & _ & ? & ?). auto.
    + intros s [HI Hg]. split; [exact HI|]. apply Forall_forall. intros r Hr.
      apply (Inv_sig_held _ _ _ _ _ HI Hg). unfold sig_refs. rewrite elem_of_app. auto.
    + intros ws s [HI _]. rewrite concat_map_singleton in HI. exact HI.
  - intros ws. skip. step (emit_all_ok E args ws Ha). intros ?. ret.
Qed.
End specs.
