(* ===== verification/Callable.v ===== *)
(** * Closures (callable.c)

    A closure is an object that wraps a C function with captured values and the
    expected types of its arguments.  The functions themselves are outside the
    model: [World] gives what a call through libffi does. *)

From S2P Require Import Prelude DiTypes Conv Heap Account Object ObjectSpec.

(** Code outside the model, which may use every operation of the kernel:
    - [w_fn n captures args]: [di_try] of [ffi_call] of the function [n]; [inl]
      is the error object it threw;
    - [w_call], [w_dtor]: call functions and destructors of other files;
    - [ffi_prep_ok]: whether [ffi_prep_cif] answers [FFI_OK]. *)
Class World := {
  w_fn : Kernel → nat → list value → list value → M (loc + value);
  w_call : Kernel → nat → loc → list value → M (Z + value);
  w_dtor : Kernel → nat → loc → M unit;
  ffi_prep_ok : list ffi_type → ffi_type → bool
}.

(** [ERR_PTR] or a pointer. *)
Abbreviation err_or A := (Z + A)%type (only parsing).

Section callable.
Context {K : Kernel} {W : World}.

(** One argument of [_di_typed_trampoline]: the value that is passed and
    whether the trampoline owns it. *)
Definition convert_arg (v : value) (t : di_type) : M (Z + value * bool) :=
  _ ← sizeof_is_zero t;
  r ← di_type_conversion v t true;
  match r with
  | inr x => mret (inr x)
  | inl rc =>
      match v, t with
      | VNil, DI_TYPE_OBJECT => l ← di_new_object_with_type ENone; mret (inr (VObject l, true))
      | VNil, DI_TYPE_WEAK_OBJECT => mret (inr (VWeak DEAD, false))
      | VNil, DI_TYPE_POINTER => mret (inr (VPointer 0, false))
      | VNil, DI_TYPE_ARRAY => mret (inr (VArray DI_TYPE_ANY true [], false))
      | VNil, DI_TYPE_TUPLE => mret (inr (VTuple [], false))
      | VNil, (DI_TYPE_ANY | DI_LAST_TYPE) => fail CheckFailed
      | _, _ => mret (inl rc)
      end
  end.

(** The loop over the arguments: the error code, 0 if all were converted, and
    the converted arguments before the one that failed. *)
Fixpoint convert_args (vars : list value) (fnats : list di_type)
  : M (Z * list (value * bool)) :=
  match vars, fnats with
  | v :: vars', t :: fnats' =>
      r ← convert_arg v t;
      match r with
      | inl rc => mret (rc, [])
      | inr x => rest ← convert_args vars' fnats'; mret (rest.1, x :: rest.2)
      end
  | [], _ => mret (0%Z, [])
  | _ :: _, [] => fail OutOfBounds
  end.

Definition free_cloned (x : value * bool) : M unit :=
  if x.2 then di_free_value x.1 else mret tt.

(** What follows [ffi_call]: an exception is printed and dropped; [rc] stays 0
    and the result is not written. *)
Definition ffi_result (rtype : di_type) (res : loc + value) : M (Z + value) :=
  match res with
  | inr v => if bool_decide (type_of v = rtype) then mret (inr v) else fail TypeConfusion
  | inl errobj =>
      e ← di_getxt errobj (Some "errmsg"%string) DI_TYPE_STRING;
      match e with
      | inl _ => fail Uninit
      | inr err => emit_event "log: caught error from di closure" [];; di_free_value err
      end;;
      unref_object errobj;;
      if bool_decide (rtype = DI_TYPE_NIL) then mret (inr VNil) else fail Uninit
  end.

(** [_di_typed_trampoline] *)
Definition _di_typed_trampoline (fn : nat) (rtype : di_type) (fnats : list di_type)
    (args0 args : list value) : M (Z + value) :=
  check (Nat.leb (length args + length args0) MAX_NARGS);;
  conv ← convert_args args fnats;
  r ← (if Z.eqb conv.1 0 then
         res ← w_fn K fn args0 (map fst conv.2); ffi_result rtype res
       else mret (inl conv.1));
  for_each free_cloned conv.2;;
  mret r.

(** [closure_trampoline] *)
Definition closure_trampoline (o : loc) (t : list value) : M (Z + value) :=
  ok ← di_check_type o "deai:closure";
  if (ok : bool) then
    x ← rd o;
    match o_ext x with
    | EClosure fn captures atypes rtype =>
        if Nat.eqb (length t) (length atypes) then
          _di_typed_trampoline fn rtype atypes captures t
        else mret (inl EINVAL)
    | _ => fail TypeConfusion
    end
  else mret (inl EINVAL).

(** [free_closure]; from here on [cargs] dangles. *)
Definition free_closure (o : loc) : M unit :=
  ok ← di_check_type o "deai:closure";
  check ok;;
  x ← rd o;
  match o_ext x with
  | EClosure _ captures _ _ =>
      wr o (with_ext EPoison x);;
      for_each di_free_value captures
  | _ => fail TypeConfusion
  end.

(** Whether some type of a list has size 0. *)
Fixpoint has_void (ts : list di_type) : M bool :=
  match ts with
  | [] => mret false
  | t :: ts' => z ← sizeof_is_zero t; if (z : bool) then mret true else has_void ts'
  end.

(** [di_ffi_prep_cif]: a tag without a descriptor fails an [assert]. *)
Definition di_ffi_prep_cif (rtype : di_type) (atypes : list di_type) : M bool :=
  r ← from_opt CheckFailed (di_type_to_ffi rtype);
  l ← from_opt CheckFailed (mapM di_type_to_ffi atypes);
  mret (ffi_prep_ok l r).

(** The [di_new_object] of [di_create_closure], with its call function and
    destructor. *)
Definition new_closure_struct : M loc :=
  cl ← di_new_object_with_type ENone;
  di_set_object_call cl (Some CallClosure);;
  di_set_object_dtor cl (Some DtorClosure);;
  mret cl.

(** [di_create_closure]; the captured values are copied. *)
Definition di_create_closure (fn : nat) (rtype : di_type) (captures : list value)
    (atypes : list di_type) : M (err_or loc) :=
  if Nat.ltb MAX_NARGS (length captures + length atypes) then mret (inl E2BIG)
  else
    z ← has_void (map type_of captures ++ atypes);
    if (z : bool) then mret (inl EINVAL)
    else
      cl ← new_closure_struct;
      ok ← di_ffi_prep_cif rtype (map type_of captures ++ atypes);
      if negb ok then free_obj cl;; mret (inl EINVAL)
      else
        cargs ← collect di_copy_value captures;
        set_ext cl (EClosure fn cargs atypes rtype);;
        rc ← di_set_type cl "deai:closure";
        if Z.eqb rc 0 then mret (inr cl) else leak [Strong cl];; mret (inl rc).

(** [di_add_method].  What [di_create_closure] returns is not checked: an
    error pointer becomes a member. *)
Definition di_add_method (o : loc) (name : di_string) (fn : nat) (rtype : di_type)
    (ats : list di_type) : M Z :=
  if Nat.ltb MAX_NARGS (length ats + 1) then mret EINVAL
  else if existsb (λ t, bool_decide (t = DI_TYPE_NIL)) ats then mret EINVAL
  else
    f ← di_create_closure fn rtype [] (DI_TYPE_OBJECT :: ats);
    match f with
    | inr cl => di_add_member_move o name (VObject cl)
    | inl _ => fail TypeConfusion
    end.

(** The arguments of a variadic call, up to [DI_LAST_TYPE]. *)
Fixpoint va_values (ap : list value) : list value :=
  match ap with
  | [] => []
  | VBottom :: _ => []
  | v :: ap' => v :: va_values ap'
  end.

(** [di_call_objectv], and [di_call_object] *)
Definition di_call_objectv (obj : loc) (ap : list value) : M (Z + value) :=
  o ← rd obj;
  match o_call o with
  | None => mret (inl EINVAL)
  | Some _ =>
      z ← has_void (map type_of (va_values ap));
      if (z : bool) then mret (inl EINVAL)
      else
        tu ← collect va_arg_with_di_type (va_values ap);
        call_object obj tu
  end.
End callable.

(** ** Field getters

    What the struct of an object holds in a field, for the fields that have getters:
    numbers and strings, without references.  An offset is the name of its field. *)
Class ObjectFields := {
  field_at : loc → string → di_type → state → value;
  field_at_plain o offset t s : refs (field_at o offset t s) = []
}.

Definition CALL_FIELD_GETTER : call_kind := CallExt 1.

(** [di_new_field_getter] *)
Definition di_new_field_getter {K : Kernel} (type : di_type) (offset : string) : M loc :=
  ret ← di_new_object_with_type ENone;
  set_ext ret (EFields (FFieldGetter type offset));;
  di_set_object_call ret (Some CALL_FIELD_GETTER);;
  _ ← di_set_type ret "deai:FieldGetter";
  mret ret.

(** [di_field_getter_call]; the number of arguments is not checked. *)
Definition di_field_getter_call {K : Kernel} {F : ObjectFields} (getter : loc) (args : list value) : M (Z + value) :=
  ok ← di_check_type getter "deai:FieldGetter";
  check ok;;
  match args with
  | [] => fail OutOfBounds
  | VObject object :: _ =>
      g ← rd getter;
      match o_ext g with
      | EFields (FFieldGetter type offset) =>
          x ← rd object;
          ((λ s, Done (inr (field_at object offset type s)) s) : M (Z + value))
      | _ => fail TypeConfusion
      end
  | _ :: _ => fail CheckFailed
  end.

(** ** Memory safety and reference accounting *)

(** The references a foreign function returns. *)
Definition fn_refs (r : loc + value) : list ref :=
  match r with inl e => [Strong e] | inr v => refs v end.

(** The contract of foreign code.  A function may use its captures as long as
    nothing has dropped them; what it returns it owns. *)
Class WorldOk (W : World) : Prop := {
  w_fn_ok (K : Kernel) n caps args E :
    KernelOk K → (∀ r, r ∈ refs_of_list args → r ∈ E) →
    spec (λ s, Inv E s ∧ Forall (held s) (refs_of_list caps)) (w_fn K n caps args)
         (λ r, Inv (fn_refs r ++ E));
  w_call_ok (K : Kernel) n l args E :
    KernelOk K → Strong l ∈ E → (∀ r, r ∈ refs_of_list args → r ∈ E) →
    spec (Inv E) (w_call K n l args) (λ r, Inv (rc_refs r ++ E));
  w_dtor_ok (K : Kernel) n l E :
    KernelOk K → Strong l ∈ E → spec (Inv E) (w_dtor K n l) (λ _, Inv E)
}.

(** The references of the arguments that were cloned. *)
Definition cloned_refs (xs : list (value * bool)) : list ref :=
  concat (map (λ x, if x.2 : bool then refs x.1 else []) xs).

Section specs.
Context {K : Kernel} {KO : KernelOk K} {W : World} {WO : WorldOk W}.

Definition closure_struct : obj :=
  Obj [] [] (Some DtorClosure) (Some CallClosure) 1 1 false ENone.

(** An argument is either cloned, or borrows references of the input. *)
Definition arg_post (A H : list ref) (r : Z + value * bool) (E : list ref) (s : state) : Prop :=
  Forall (held s) H ∧
  match r with
  | inl _ => Inv E s
  | inr (w, true) => Inv (refs w ++ E) s
  | inr (w, false) => Inv E s ∧ ∀ r, r ∈ refs w → r ∈ A
  end.

Lemma held_alloc E s o r :
  Inv E s → held s r →
  held (set_heap (<[s_next s := o]> (s_heap s))
          (State (s_heap s) (s_sigs s) (S (s_next s)) (s_leaked s) (s_trace s))) r.
Proof.
  intros HI. destruct (inv_fresh _ _ HI (s_next s)) as [Hn _]; [lia|].
  destruct r as [l|l]; simpl; intros (x & Hx & Hr) || intros (x & Hx);
    rewrite lookup_insert_ne by congruence; eauto.
Qed.

(** A new object with its call function and destructor. *)
Lemma new_plain_held E H :
  spec (λ s, Inv E s ∧ Forall (held s) H) (di_new_object_with_type ENone)
    (λ l s, Inv (Strong l :: E) s ∧ Forall (held s) H ∧ s_heap s !! l = Some fresh_object).
Proof.
  intros s [HI HH]. unfold di_new_object_with_type, di_new_object, from_opt, upd, rd, wr, modify.
  unfold mbind, ST_bind; simpl. rewrite lookup_insert_eq. simpl. unfold set_heap; simpl.
  rewrite insert_insert_eq. split; [|split].
  - apply (Inv_alloc E s fresh_object); [exact HI|reflexivity|reflexivity].
  - eapply Forall_impl; [exact HH|]. intros r. apply (held_alloc E s fresh_object r HI).
  - apply lookup_insert_eq.
Qed.

Lemma new_closure_struct_ok E :
  spec (Inv E) new_closure_struct
    (λ l s, Inv (Strong l :: E) s ∧ s_heap s !! l = Some closure_struct).
Proof.
  intros s HI. unfold new_closure_struct, di_new_object_with_type, di_new_object, from_opt,
    di_set_object_call, di_set_object_dtor, upd, rd, wr, modify.
  unfold mbind, ST_bind; simpl. do 3 (rewrite lookup_insert_eq; simpl). unfold set_heap; simpl.
  rewrite !insert_insert_eq. split; [|apply lookup_insert_eq].
  apply (Inv_alloc E s closure_struct); [exact HI|reflexivity|reflexivity].
Qed.

Lemma convert_arg_ok H E v t :
  (∀ r, r ∈ refs v → r ∈ H) →
  spec (λ s, Inv E s ∧ Forall (held s) H) (convert_arg v t) (λ r, arg_post (refs v) H r E).
Proof.
  intros HH. unfold convert_arg. skip.
  step (type_conversion_held H v t true E HH). intros [rc|[w c]].
  - assert (∀ rc, spec (λ s, Inv E s ∧ Forall (held s) H) (mret (inl rc))
                    (λ r, arg_post (refs v) H r E)) as Herr.
    { intros x. apply triple_ret. intros s [HI Hh]. exact (conj Hh HI). }
    assert (∀ w, refs w = [] → spec (λ s, Inv E s ∧ Forall (held s) H) (mret (inr (w, false)))
                    (λ r, arg_post (refs v) H r E)) as Hplain.
    { intros w Hw. apply triple_ret. intros s [HI Hh]. split; [exact Hh|]. split; [exact HI|].
      rewrite Hw. intros r Hr. inversion Hr. }
    cbn [conv_post]. destruct v; try apply Herr.
    destruct t; first [apply Herr | apply Hplain; reflexivity | crash | idtac].
    step (new_plain_held E H). intros l. apply triple_ret. intros s (HI & Hh & _). exact (conj Hh HI).
  - apply triple_ret. unfold arg_post. intros s [Hc Hh]. split; [exact Hh|].
    destruct c; simpl in *; [exact Hc|]. destruct Hc as [HI Hw]. split; [exact HI|].
    rewrite Hw. case_bool_decide; [set_solver|auto].
Qed.

Definition args_post (A H E : list ref) (xs : list (value * bool)) (s : state) : Prop :=
  Forall (held s) H ∧ Inv (cloned_refs xs ++ E) s ∧
  ∀ r, r ∈ refs_of_list (map fst xs) → r ∈ A ++ cloned_refs xs.

Lemma cloned_refs_cons w (c : bool) xs :
  cloned_refs ((w, c) :: xs) = (if c then refs w else []) ++ cloned_refs xs.
Proof. reflexivity. Qed.

Lemma convert_args_ok H E vars fnats :
  (∀ r, r ∈ refs_of_list vars → r ∈ H) →
  spec (λ s, Inv E s ∧ Forall (held s) H) (convert_args vars fnats)
    (λ r, args_post (refs_of_list vars) H E r.2).
Proof.
  revert fnats E. induction vars as [|v vars IH]; intros fnats E HH.
  - cbn [convert_args]. apply triple_ret. intros s [HI Hh]. unfold args_post. simpl.
    split; [exact Hh|]. split; [exact HI|]. intros r Hr. inversion Hr.
  - destruct fnats as [|t fnats]; [crash|]. cbn [convert_args].
    rewrite refs_of_list_cons in HH |- *.
    step (convert_arg_ok H E v t). { intros r Hr. apply HH, elem_of_app. auto. }
    intros [rc|[w c]].
    + apply triple_ret. intros s [Hh HI]. split; [exact Hh|]. split; [exact HI|].
      intros r Hr. inversion Hr.
    + eapply spec_pre with (P' := λ s, (c = false → ∀ r, r ∈ refs w → r ∈ refs v) ∧
          Inv ((if c then refs w else []) ++ E) s ∧ Forall (held s) H).
      { intros s [Hh Hc]. destruct c; simpl in *; naive_solver. }
      apply triple_pure. intros Hc.
      step (IH fnats ((if c then refs w else []) ++ E)).
      { intros r Hr. apply HH, elem_of_app. auto. }
      intros [rc xs].
      apply triple_ret. unfold args_post. cbn [fst snd]. intros s (Hh & HI & Hx).
      split; [exact Hh|]. rewrite cloned_refs_cons. split.
      * eapply Inv_perm; [|exact HI]. by_count.
      * intros r. cbn [map fst]. rewrite refs_of_list_cons. specialize (Hx r).
        rewrite !elem_of_app in *. destruct c; [|specialize (Hc eq_refl r)]; tauto.
Qed.

Lemma free_cloned_ok E xs :
  spec (Inv (cloned_refs xs ++ E)) (for_each free_cloned xs) (λ _, Inv E).
Proof.
  apply (triple_for_each tolerated free_cloned (λ xs, Inv (cloned_refs xs ++ E))).
  intros [w c] xs'. rewrite cloned_refs_cons. unfold free_cloned. cbn [fst snd]. destruct c; [|ret].
  rewrite <- app_assoc. apply free_value_ok.
Qed.

Lemma ffi_result_ok E rtype res :
  spec (Inv (fn_refs res ++ E)) (ffi_result rtype res) (λ r, Inv (rc_refs r ++ E)).
Proof.
  unfold ffi_result. destruct res as [e|v]; cbn [fn_refs].
  - step (getxt_ok e (Some "errmsg"%string) DI_TYPE_STRING ([Strong e] ++ E)); [left|].
    intros r. eapply triple_bind with (R := λ _, Inv ([Strong e] ++ E)).
    + destruct r as [rc|w]; [crash|].
      step (emit_event_ok (refs w ++ [Strong e] ++ E)). intros ?. apply free_value_ok.
    + intros ?. step (unref_ok e E). intros ?. case_bool_decide; [ret|crash].
  - case_bool_decide; [ret|crash].
Qed.

Lemma typed_trampoline_ok E fn rtype fnats caps args :
  (∀ r, r ∈ refs_of_list args → r ∈ E) →
  spec (λ s, Inv E s ∧ Forall (held s) (refs_of_list caps))
    (_di_typed_trampoline fn rtype fnats caps args) (λ r, Inv (rc_refs r ++ E)).
Proof.
  intros Ha. unfold _di_typed_trampoline. skip.
  set (H := refs_of_list args ++ refs_of_list caps).
  eapply triple_bind.
  { eapply spec_pre; [|apply (convert_args_ok H E args fnats)].
    - intros s [HI Hc]. split; [exact HI|]. apply Forall_app. split; [|exact Hc].
      apply (Inv_held_all _ _ _ HI). exact Ha.
    - intros r Hr. apply elem_of_app. auto. }
  intros [rc xs]. cbn [fst snd].
  eapply triple_bind with (R := λ r, Inv (cloned_refs xs ++ rc_refs r ++ E)).
  - destruct (Z.eqb rc 0).
    + apply spec_pre with (P' := λ s, (∀ r, r ∈ refs_of_list (map fst xs) → r ∈ cloned_refs xs ++ E) ∧
          Inv (cloned_refs xs ++ E) s ∧ Forall (held s) (refs_of_list caps)).
      { intros s (Hh & HI & Hx). split; [|split; [exact HI|]].
        - intros r Hr. specialize (Hx r Hr). rewrite elem_of_app in *. specialize (Ha r). tauto.
        - apply Forall_app in Hh. apply Hh. }
      apply triple_pure. intros Hx.
      step (w_fn_ok K fn caps (map fst xs) (cloned_refs xs ++ E) KO Hx). intros res.
      eapply spec_post; [apply ffi_result_ok|].
      intros r s. apply Inv_perm. by_count.
    + ret. unfold args_post in *. tauto.
  - intros r. step (free_cloned_ok (rc_refs r ++ E) xs). intros ?. ret.
Qed.

Lemma closure_trampoline_ok E o args :
  Strong o ∈ E → (∀ r, r ∈ refs_of_list args → r ∈ E) →
  spec (Inv E) (closure_trampoline o args) (λ r, Inv (rc_refs r ++ E)).
Proof.
  intros HE Ha. unfold closure_trampoline. step (check_type_ok o "deai:closure" E HE).
  intros ok. destruct ok; [|ret]. step (rd_ok E o HE). intros x.
  destruct (o_ext x) as [|fn caps ats rt| | | |] eqn:Hx; try crash.
  destruct (Nat.eqb _ _); [|ret; tauto].
  eapply spec_pre; [|apply (typed_trampoline_ok E fn rt ats caps args Ha)].
  intros s [HI Ho]. split; [exact HI|]. apply Forall_forall. intros r Hr.
  apply (Inv_stored_held _ _ _ _ _ HI Ho). unfold obj_refs. rewrite Hx, elem_of_app. auto.
Qed.

Lemma free_closure_ok E o : Strong o ∈ E → spec (Inv E) (free_closure o) (λ _, Inv E).
Proof.
  intros HE. unfold free_closure. step (check_type_ok o "deai:closure" E HE). intros ok. skip.
  step (rd_ok E o HE). intros x. destruct (o_ext x) as [|fn caps ats rt| | | |] eqn:Hx; try crash.
  step (wr_refs_ok E (refs_of_list caps ++ E) o x (with_ext EPoison x)); [reflexivity..| |].
  - intros r. unfold obj_refs. simpl. rewrite Hx. simpl. by_count.
  - intros ?. apply for_each_free, Forall_forall. intros v _ E'. apply free_value_ok.
Qed.

Lemma has_void_ok P ts : spec P (has_void ts) (λ _, P).
Proof.
  induction ts as [|t ts IH]; cbn [has_void]; [ret|]. skip. destruct a; [ret|exact IH].
Qed.

Lemma ffi_prep_cif_ok P rt ats : spec P (di_ffi_prep_cif rt ats) (λ _, P).
Proof.
  unfold di_ffi_prep_cif. destruct (di_type_to_ffi rt); [|intros s _; simpl; tolerate].
  destruct (mapM di_type_to_ffi ats); [|intros s _; simpl; tolerate]. ret.
Qed.

(** [free] of an object that nothing refers to yet. *)
Lemma free_fresh_ok E l o :
  o_rc o = 1 → o_wrc o = 1 → obj_refs o = [] →
  spec (λ s, Inv (Strong l :: E) s ∧ s_heap s !! l = Some o) (free_obj l) (λ _, Inv E).
Proof.
  intros Hrc Hwrc Hr s [HI Hl]. unfold free_obj. rewrite Hl.
  pose proof (inv_strong _ _ HI l o Hl) as Hs. pose proof (inv_weak _ _ HI l o Hl) as Hw.
  unfold implicit_weak in Hw. rewrite Hrc, Hwrc in *. cbn [cnt] in *.
  apply (Inv_free (Strong l :: E) E s l o HI Hl).
  - intros x Hx. by_count.
  - repeat case_decide; simplify_eq; lia.
  - repeat case_decide; simplify_eq; lia.
Qed.

Lemma create_closure_ok E fn rt caps ats :
  (∀ r, r ∈ refs_of_list caps → r ∈ E) →
  spec (Inv E) (di_create_closure fn rt caps ats)
    (λ r, Inv (match r with inr l => [Strong l] | inl _ => [] end ++ E)).
Proof.
  intros Hc. unfold di_create_closure. destruct (Nat.ltb _ _); [ret|].
  step (has_void_ok (Inv E)). intros z. destruct z; [ret|].
  step (new_closure_struct_ok E). intros l.
  step (ffi_prep_cif_ok (λ s, Inv (Strong l :: E) s ∧ s_heap s !! l = Some closure_struct)).
  intros ok. destruct ok; cbn [negb].
  - eapply spec_pre; [intros s [HI _]; exact HI|].
    eapply triple_bind with (R := λ ws, Inv (refs_of_list ws ++ Strong l :: E)).
    { eapply triple_conseq;
        [apply (collect_refs di_copy_value refs refs (refs_of_list caps) (Strong l :: E) caps)|..].
      - auto.
      - intros x E' _ Hx. apply copy_value_held, Hx.
      - intros s HI. split; [exact HI|]. apply (Inv_held_all _ _ _ HI).
        intros r Hr. right. exact (Hc r Hr).
      - intros ws s [HI _]. exact HI. }
    intros ws. step (set_ext_ok (Strong l :: E) l (EClosure fn ws ats rt)); [left|]. intros ?.
    step (set_type_ok l "deai:closure" (Strong l :: E)); [left|]. intros rc.
    destruct (Z.eqb rc 0); [ret|]. step (leak_ok E [Strong l]). intros ?. ret.
  - step (free_fresh_ok E l closure_struct); [reflexivity..|]. intros ?. ret.
Qed.

Lemma add_method_ok E o name fn rt ats :
  Strong o ∈ E → spec (Inv E) (di_add_method o name fn rt ats) (λ _, Inv E).
Proof.
  intros HE. unfold di_add_method. destruct (Nat.ltb _ _); [ret|]. destruct (existsb _ _); [ret|].
  step (create_closure_ok E fn rt [] (DI_TYPE_OBJECT :: ats)).
  { intros r Hr. inversion Hr. }
  intros [rc|cl]; [crash|]. apply (add_member_move_ok o name (VObject cl) E HE).
Qed.

Lemma va_values_refs ap r : r ∈ refs_of_list (va_values ap) → r ∈ refs_of_list ap.
Proof.
  induction ap as [|v ap IH]; [auto|]. destruct v; cbn [va_values];
    rewrite ?refs_of_list_cons, ?elem_of_app; try tauto.
Qed.

Lemma collect_va P vs : spec P (collect va_arg_with_di_type vs) (λ ws s, P s ∧ ws = vs).
Proof.
  induction vs as [|v vs IH]; cbn [collect]; [ret; auto|].
  eapply triple_bind with (R := λ w s, P s ∧ w = v).
  - destruct v; try crash; apply triple_ret; auto.
  - intros w. apply spec_pre with (P' := λ s, w = v ∧ P s); [tauto|]. apply triple_pure. intros ->.
    step IH. intros ws. apply triple_ret. intros s [HP ->]. auto.
Qed.

Lemma call_objectv_ok E o ap :
  Strong o ∈ E → (∀ r, r ∈ refs_of_list ap → r ∈ E) →
  spec (Inv E) (di_call_objectv o ap) (λ r, Inv (rc_refs r ++ E)).
Proof.
  intros HE Ha. unfold di_call_objectv. step (rd_ok E o HE). intros x.
  eapply spec_pre; [intros s [HI _]; exact HI|]. destruct (o_call x); [|ret].
  step (has_void_ok (Inv E)). intros z. destruct z; [ret|].
  step (collect_va (Inv E)). intros ws.
  apply spec_pre with (P' := λ s, ws = va_values ap ∧ Inv E s); [tauto|].
  apply triple_pure. intros ->. apply call_ok; [exact HE|].
  intros r Hr. apply Ha, va_values_refs, Hr.
Qed.
End specs.
