(* ===== verification/Roots.v ===== *)
(** * The roots registry and program exit (main.c)

    The roots object keeps other objects alive: named roots are its members,
    anonymous roots a table in its private fields. *)

From S2P Require Import Prelude DiTypes Heap Account Object ObjectSpec.

(** [HASH_FIND] and [HASH_DEL] in the table of anonymous roots. *)
Fixpoint find_anon (id : Z) (l : list (Z * loc)) : option loc :=
  match l with
  | [] => None
  | (i, o) :: l' => if Z.eqb i id then Some o else find_anon id l'
  end.

Fixpoint del_anon (id : Z) (l : list (Z * loc)) : list (Z * loc) :=
  match l with
  | [] => []
  | (i, o) :: l' => if Z.eqb i id then l' else (i, o) :: del_anon id l'
  end.

Section roots.
Context {K : Kernel}.

Definition root_prefix : string := "__root_".

(** The name ["__root_%.*s"]. *)
Definition root_name (key : di_string) : di_string :=
  Some (root_prefix +:+ till_nul (default EmptyString key)).

(** [di_add_root], [di_remove_root] *)
Definition di_add_root (di : loc) (key : di_string) (obj : loc) : M bool :=
  rc ← di_add_member_clonev di (root_name key) (VObject obj);
  mret (Z.eqb rc 0).

Definition di_remove_root (di : loc) (key : di_string) : M bool :=
  rc ← di_remove_member_raw di (root_name key);
  mret (Z.eqb rc 0).

(** One iteration of the [HASH_ITER] of [di_clear_roots]: the successor of the
    member is read first. *)
Definition clear_step (di : loc) (id : nat) : M (option nat) :=
  o ← rd di;
  match take_member id (o_members o) with
  | None => fail StaleIter
  | Some (i, _) =>
      let tmp := next_member id (o_members o) in
      (if starts_with root_prefix (m_name i) then
         _ ← di_remove_member_raw di (Some (m_name i)); mret tt
       else mret tt);;
      mret (m_id <$> tmp)
  end.

(** [di_clear_roots] *)
Definition di_clear_roots (di : loc) : M unit :=
  o ← rd di;
  match head (o_members o) with
  | None => mret tt
  | Some i => while_some loop_fuel (clear_step di) (m_id i)
  end.

(** [di_add_anonymous_root]; the counter has 64 bits and 0 marks overflow. *)
Definition di_add_anonymous_root (roots root : loc) : M Z :=
  o ← rd roots;
  match o_ext o with
  | ERoots next anon =>
      check (negb (Z.eqb next 0));;
      _ ← di_ref_object root;
      o ← rd roots;
      wr roots (with_ext (ERoots (wrap_u 64 (next + 1)) (anon ++ [(next, root)])) o);;
      mret next
  | _ => fail TypeConfusion
  end.

(** [di_remove_anonymous_root] *)
Definition di_remove_anonymous_root (roots : loc) (root_handle : Z) : M unit :=
  o ← rd roots;
  match o_ext o with
  | ERoots next anon =>
      match find_anon root_handle anon with
      | Some root =>
          wr roots (with_ext (ERoots next (del_anon root_handle anon)) o);;
          unref_object root
      | None => mret tt
      end
  | _ => fail TypeConfusion
  end.

(** [di_roots_dtor]: the table is emptied before the first object is dropped. *)
Definition di_roots_dtor (obj : loc) : M unit :=
  o ← rd obj;
  match o_ext o with
  | ERoots next anon =>
      wr obj (with_ext (ERoots next []) o);;
      for_each unref_object (map snd anon)
  | _ => fail TypeConfusion
  end.

(** [di_roots_getter]: the global [roots] with a new reference. *)
Definition di_roots_getter (roots : loc) : M loc := di_ref_object roots.

(** [di_prepare_exit] and [di_prepare_quit]: dropping all roots stops the
    program; the exit code is written to a variable of [main]. *)
Definition di_prepare_exit (roots : loc) (ec : Z) : M unit :=
  emit_event "exit_code" [VNInt ec];;
  di_finalize_object roots.
Definition di_prepare_quit (roots : loc) : M unit := di_prepare_exit roots 0.

(** [di_register_module], and the method of the same name, which does not
    consume the reference. *)
Definition di_register_module (p : loc) (name : di_string) (m : loc) : M Z :=
  di_add_member_move p name (VObject m).
Definition di_register_module_method (p : loc) (name : di_string) (m : loc) : M Z :=
  di_add_member_clonev p name (VObject m).
End roots.

(** ** Memory safety and reference accounting *)

Definition anon_refs (l : list (Z * loc)) : list ref := map (λ p, Strong p.2) l.

Lemma find_del_anon id l o r :
  find_anon id l = Some o →
  cnt r (anon_refs l) = cnt r (anon_refs (del_anon id l)) + cnt r [Strong o].
Proof.
  unfold anon_refs. induction l as [|[i x] l IH]; simpl; [discriminate|].
  destruct (Z.eqb i id); simpl.
  - intros [= ->]. lia.
  - intros Hf. specialize (IH Hf). simpl in IH. lia.
Qed.

Section specs.
Context {K : Kernel} {KO : KernelOk K}.

Lemma add_root_ok E di key obj :
  Strong di ∈ E → Strong obj ∈ E → spec (Inv E) (di_add_root di key obj) (λ _, Inv E).
Proof.
  intros Hd Ho. unfold di_add_root.
  step (add_member_clonev_ok di (root_name key) (VObject obj) E Hd); [simpl; set_solver|].
  intros rc. ret.
Qed.

Lemma remove_root_ok E di key :
  Strong di ∈ E → spec (Inv E) (di_remove_root di key) (λ _, Inv E).
Proof.
  intros Hd. unfold di_remove_root. step (remove_member_raw_ok di (root_name key) E Hd).
  intros rc. ret.
Qed.

Lemma clear_step_ok E di id : Strong di ∈ E → spec (Inv E) (clear_step di id) (λ _, Inv E).
Proof.
  intros Hd. unfold clear_step. step (rd_ok E di Hd). intros o.
  destruct (take_member id (o_members o)) as [[i ms]|]; [|crash].
  eapply spec_pre; [intros s [HI _]; exact HI|].
  eapply triple_bind with (R := λ _, Inv E); [|intros ?; ret].
  destruct (starts_with _ _); [|ret].
  step (remove_member_raw_ok di (Some (m_name i)) E Hd). intros ?. ret.
Qed.

Lemma clear_roots_ok E di : Strong di ∈ E → spec (Inv E) (di_clear_roots di) (λ _, Inv E).
Proof.
  intros Hd. unfold di_clear_roots. step (rd_ok E di Hd). intros o.
  eapply spec_pre; [intros s [HI _]; exact HI|].
  destruct (head (o_members o)) as [i|]; [|ret].
  apply (triple_while_some tolerated loop_fuel (clear_step di) (λ _, Inv E) (Inv E)).
  intros id. eapply spec_post; [apply (clear_step_ok E di id Hd)|]. intros [?|]; auto.
Qed.

Lemma add_anonymous_root_ok E roots root :
  Strong roots ∈ E → Strong root ∈ E →
  spec (Inv E) (di_add_anonymous_root roots root) (λ _, Inv E).
Proof.
  intros Hr Ho s HI. destruct (Inv_strong_alive _ _ _ HI Hr) as (o & Hl & _).
  destruct (Inv_strong_alive _ _ _ HI Ho) as (x & Hx & Hxr).
  unfold di_add_anonymous_root, rd, mbind, ST_bind. rewrite Hl.
  destruct (o_ext o) as [| | |next anon| |] eqn:He; try (simpl; tolerate).
  destruct (Z.eqb next 0); [simpl; tolerate|]. simpl.
  unfold di_ref_object, rd, mbind, ST_bind. rewrite Hx. cbn [s_heap set_heap wr modify mret ST_ret].
  pose proof (Inv_ref E s root x HI Hx Hxr) as HI1.
  assert (∃ o', <[root := with_rc (S (o_rc x)) x]> (s_heap s) !! roots = Some o' ∧ o_ext o' = o_ext o)
    as (o' & Ho' & He').
  { destruct (decide (root = roots)) as [->|Hne].
    - rewrite lookup_insert_eq. eexists. split; [reflexivity|]. simpl. congruence.
    - rewrite lookup_insert_ne by exact Hne. eauto. }
  cbn. rewrite Ho'.
  apply (Inv_wr_refs (Strong root :: E) E _ roots o' _ HI1 Ho'); try reflexivity.
  intros r. unfold obj_refs. simpl. rewrite He', He. simpl. rewrite map_app. cbn [map snd]. by_count.
Qed.

Lemma remove_anonymous_root_ok E roots handle :
  Strong roots ∈ E → spec (Inv E) (di_remove_anonymous_root roots handle) (λ _, Inv E).
Proof.
  intros Hr. unfold di_remove_anonymous_root. step (rd_ok E roots Hr). intros o.
  destruct (o_ext o) as [| | |next anon| |] eqn:He; try crash.
  destruct (find_anon handle anon) as [root|] eqn:Hf; [|ret; tauto].
  step (wr_refs_ok E (Strong root :: E) roots o
          (with_ext (ERoots next (del_anon handle anon)) o)); [reflexivity..| |].
  - intros r. pose proof (find_del_anon _ _ _ r Hf). unfold obj_refs, anon_refs in *. simpl in *.
    rewrite He. simpl. count_lia.
  - intros ?. apply unref_ok.
Qed.

Lemma unref_all_ok E ls :
  spec (Inv (map Strong ls ++ E)) (for_each unref_object ls) (λ _, Inv E).
Proof.
  apply (triple_for_each tolerated unref_object (λ ls, Inv (map Strong ls ++ E))).
  intros l ls'. apply unref_ok.
Qed.

Lemma roots_dtor_ok E obj : Strong obj ∈ E → spec (Inv E) (di_roots_dtor obj) (λ _, Inv E).
Proof.
  intros Hr. unfold di_roots_dtor. step (rd_ok E obj Hr). intros o.
  destruct (o_ext o) as [| | |next anon| |] eqn:He; try crash.
  step (wr_refs_ok E (map Strong (map snd anon) ++ E) obj o (with_ext (ERoots next []) o));
    [reflexivity..| |].
  - intros r. unfold obj_refs. simpl. rewrite He. simpl. rewrite map_map. by_count.
  - intros ?. apply unref_all_ok.
Qed.

Lemma prepare_exit_ok E roots ec :
  Strong roots ∈ E → spec (Inv E) (di_prepare_exit roots ec) (λ _, Inv E).
Proof.
  intros Hr. unfold di_prepare_exit. step (emit_event_ok E). intros ?.
  apply finalize_object_ok, Hr.
Qed.
End specs.
