(* ===== verification/Helper.v ===== *)
(** * Errors and proxied signals (helper.c) *)

From S2P Require Import Prelude DiTypes Heap Account Object ObjectSpec Signals Callable.

Section helper.
Context {K : Kernel} {W : World}.

(** [di_new_error]; [msg] is the formatted message. *)
Definition di_new_error (msg : string) : M loc :=
  err ← di_new_object_with_type ENone;
  _ ← di_set_type err "deai:Error";
  _ ← di_add_member_move err (Some "errmsg"%string) (VString (Some msg));
  mret err.

(** [emit_proxied_signal].  The weak reference [weak] is not dropped, the name
    is fetched as a string literal and freed, and the result is never
    written. *)
Definition emit_proxied_signal (o : loc) (t : list value) : M (Z + value) :=
  signal ← di_getxt o (Some "___new_signal_name"%string) DI_TYPE_STRING_LITERAL;
  weak ← di_getxt o (Some "__proxy_object"%string) DI_TYPE_WEAK_OBJECT;
  match weak with
  | inr (VWeak w) =>
      proxy ← di_upgrade_weak_ref w;
      match proxy with
      | Some p =>
          match signal with
          | inr (VStringLiteral s) => _ ← di_emitn p (Some s) t; mret tt
          | _ => fail NullDeref
          end
      | None => mret tt
      end;;
      leak (refs (VWeak w));;
      match signal with
      | inr _ => fail BadFree
      | inl _ => mret tt
      end;;
      match proxy with Some p => unref_object p | None => mret tt end;;
      fail Uninit
  | _ => fail NullDeref
  end.

(** The member names of a proxied signal. *)
Definition proxy_name (prefix : string) (proxysig : di_string) (suffix : string) : di_string :=
  Some (prefix +:+ till_nul (default EmptyString proxysig) +:+ suffix).
Definition listen_handle_name (p : di_string) := proxy_name "__proxy_" p "_listen_handle".
Definition event_source_name (p : di_string) := proxy_name "__proxy_" p "_event_source".
Definition del_signal_name (p : di_string) := proxy_name "__del_signal_" p "".

(** [del_proxied_signal] *)
Definition del_proxied_signal (proxysig : di_string) (proxy : loc) : M unit :=
  _ ← di_remove_member_raw proxy (listen_handle_name proxysig);
  _ ← di_remove_member_raw proxy (event_source_name proxysig);
  _ ← di_remove_member_raw proxy (del_signal_name proxysig);
  mret tt.

(** The number of [del_proxied_signal] as the function of a closure. *)
Definition FN_DEL_PROXIED_SIGNAL : nat := 0.

(** [di_has_member] *)
Definition di_has_member (o : loc) (name : di_string) : M bool :=
  r ← di_lookup o name; mret (match r with Some _ => true | None => false end).

(** The condition [a || b || c] on the three names. *)
Definition has_proxy_member (proxy : loc) (proxysig : di_string) : M bool :=
  a ← di_has_member proxy (listen_handle_name proxysig);
  if (a : bool) then mret true
  else
    b ← di_has_member proxy (event_source_name proxysig);
    if (b : bool) then mret true else di_has_member proxy (del_signal_name proxysig).

(** [di_proxy_signal]: the reference [c] is dropped when the function
    returns; [weak_proxy] is copied into the member and not dropped. *)
Definition di_proxy_signal (src : loc) (srcsig : di_string) (proxy : loc) (proxysig : di_string)
  : M Z :=
  if starts_with "__" (default EmptyString srcsig) then mret EPERM
  else
    e ← has_proxy_member proxy proxysig;
    if (e : bool) then mret EEXIST
    else
      c ← di_new_object_with_type ENone;
      _ ← di_add_member_clonev c (Some "___new_signal_name"%string) (VString proxysig);
      weak_proxy ← di_weakly_ref_object proxy;
      _ ← di_add_member_clonev c (Some "__proxy_object"%string) (VWeak weak_proxy);
      di_set_object_call c (Some CallProxiedSignal);;
      listen_handle ← di_listen_to src srcsig c;
      _ ← di_add_member_move proxy (listen_handle_name proxysig) (VObject listen_handle);
      _ ← di_add_member_clonev proxy (event_source_name proxysig) (VObject src);
      cl ← di_create_closure FN_DEL_PROXIED_SIGNAL DI_TYPE_NIL [VString proxysig] [DI_TYPE_OBJECT];
      match cl with
      | inl _ => fail TypeConfusion
      | inr cl =>
          ret ← di_add_member_move proxy (del_signal_name proxysig) (VObject cl);
          leak [Weak weak_proxy];;
          unref_object c;;
          mret ret
      end.
End helper.

(** ** Memory safety and reference accounting *)

Section specs.
Context {K : Kernel} {KO : KernelOk K} {W : World} {WO : WorldOk W}.

Lemma new_error_ok E msg : spec (Inv E) (di_new_error msg) (λ l, Inv (Strong l :: E)).
Proof.
  unfold di_new_error. step (new_object_with_type_ok E ENone). intros l.
  step (set_type_ok l "deai:Error" (Strong l :: E)); [left|]. intros ?.
  step (add_member_move_ok l (Some "errmsg"%string) (VString (Some msg)) (Strong l :: E)); [left|].
  intros ?. ret.
Qed.

Lemma emit_proxied_signal_ok E o args :
  Strong o ∈ E → (∀ r, r ∈ refs_of_list args → r ∈ E) →
  spec (Inv E) (emit_proxied_signal o args) (λ r, Inv (rc_refs r ++ E)).
Proof.
  intros HE Ha. unfold emit_proxied_signal.
  step (getxt_ok o (Some "___new_signal_name"%string) DI_TYPE_STRING_LITERAL E HE). intros sg.
  step (getxt_ok o (Some "__proxy_object"%string) DI_TYPE_WEAK_OBJECT (rc_refs sg ++ E)); [set_solver|].
  intros [rc|v]; [crash|]. destruct v as [| | | | | | | | |w| | | | | |]; try crash.
  cbn [rc_refs]. set (F := refs (VWeak w) ++ rc_refs sg ++ E).
  assert (∀ r, r ∈ E → r ∈ F) as HF by (intros r Hr; unfold F; rewrite !elem_of_app; auto).
  step (upgrade_weak_ref_ok F w).
  { destruct (decide (w = DEAD)) as [|Hd]; [auto|]. right. unfold F. cbn [refs].
    rewrite decide_False by exact Hd. left. }
  intros proxy. set (P := match proxy with Some x => [Strong x] | None => [] end).
  apply spec_pre with (P' := Inv (P ++ F)); [destruct proxy; naive_solver|].
  eapply triple_bind with (R := λ _, Inv (P ++ F)).
  { destruct proxy as [p|]; [|ret]. destruct sg as [rc|v]; [crash|]. destruct v; try crash.
    step (emitn_ok (P ++ F) p (Some s) args); [left| |].
    - intros r Hr. right. apply HF, Ha, Hr.
    - intros ?. ret. }
  intros ?. eapply triple_bind.
  { eapply spec_perm; [|apply (leak_ok (P ++ rc_refs sg ++ E) (refs (VWeak w)))].
    unfold F. by_count. }
  intros ?. eapply triple_bind with (R := λ _, Inv (P ++ rc_refs sg ++ E)).
  { destruct sg; [ret|crash]. }
  intros ?. eapply triple_bind with (R := λ _, Inv (rc_refs sg ++ E)).
  { destruct proxy; [apply unref_ok|ret]. }
  intros ?. crash.
Qed.

Lemma del_proxied_signal_ok E sg proxy :
  Strong proxy ∈ E → spec (Inv E) (del_proxied_signal sg proxy) (λ _, Inv E).
Proof.
  intros HE. unfold del_proxied_signal.
  do 3 (eapply triple_bind; [apply (remove_member_raw_ok _ _ E HE)|]; intros ?). ret.
Qed.

Lemma has_member_ok E o name :
  Strong o ∈ E → spec (Inv E) (di_has_member o name) (λ _, Inv E).
Proof.
  intros HE. unfold di_has_member. step (lookup_ok o name E HE). intros r. ret. tauto.
Qed.

Lemma has_proxy_member_ok E proxy sg :
  Strong proxy ∈ E → spec (Inv E) (has_proxy_member proxy sg) (λ _, Inv E).
Proof.
  intros HE. unfold has_proxy_member. step (has_member_ok E proxy (listen_handle_name sg) HE).
  intros a. destruct a; [ret|]. step (has_member_ok E proxy (event_source_name sg) HE).
  intros b. destruct b; [ret|]. apply has_member_ok, HE.
Qed.
End specs.

(** [di_proxy_signal] passes its signal name, a [struct di_string], through a
    variadic function that reads one pointer: unless it refuses to proxy, it
    uses an indeterminate length. *)
Theorem proxy_signal_uninit {K : Kernel} {W : World} src srcsig proxy proxysig s s' :
  starts_with "__" (default EmptyString srcsig) = false →
  has_proxy_member proxy proxysig s = Done false s' →
  di_proxy_signal src srcsig proxy proxysig s = Crash Uninit.
Proof.
  intros Hs Hm. unfold di_proxy_signal. rewrite Hs. unfold mbind, ST_bind. rewrite Hm.
  unfold di_new_object_with_type, di_new_object, from_opt, upd, rd, wr, modify, mbind, ST_bind.
  simpl. rewrite lookup_insert_eq. reflexivity.
Qed.

(** An object without members, as source and proxy, with no code to run. *)
Lemma proxy_signal_uninit_witness :
  let K : Kernel := {| loop_fuel := 0; unref_object _ := out_of_fuel; call_object _ _ := out_of_fuel; run_dtor _ _ := out_of_fuel |} in
  let W : World := {| w_fn _ _ _ _ := mret (inr VNil); w_call _ _ _ _ := mret (inr VNil); w_dtor _ _ _ := mret tt; ffi_prep_ok _ _ := true |} in
  let s := State {[1 := Obj [] [] None None 1 1 false ENone]} ∅ 2 [] [] in
  di_proxy_signal (K := K) (W := W) 1 (Some "tick"%string) 1 (Some "tock"%string) s = Crash Uninit.
Proof. intros K W s. eapply proxy_signal_uninit; vm_compute; reflexivity. Defined.
