(* ===== verification/Knot.v ===== *)
(** * The closed system

    [kern n] ties the mutual recursion between dropping references, calls and
    destructors, to depth [n].  At every depth it satisfies the contract of the
    kernel, so that every operation of the object system is memory safe and
    accounts for references exactly. *)

From S2P Require Import Prelude DiTypes Heap Account Object ObjectSpec Signals Callable Roots Helper.

Section knot.
Context {W : World}.

(** A call through the [call] pointer of an object. *)
Definition call_body (K : Kernel) (l : loc) (args : list value) : M (Z + value) :=
  o ← rd l;
  match o_call o with
  | None => fail NullCall
  | Some CallClosure => closure_trampoline l args
  | Some CallProxiedSignal => emit_proxied_signal l args
  | Some (CallExt n) => w_call K n l args
  end.

(** A call of a destructor. *)
Definition dtor_body (K : Kernel) (d : dtor_kind) (l : loc) : M unit :=
  match d with
  | DtorListenHandle => di_listen_handle_dtor l
  | DtorClosure => free_closure l
  | DtorRoots => di_roots_dtor l
  | DtorExt n => w_dtor K n l
  end.

Fixpoint kern (n : nat) : Kernel :=
  match n with
  | O => {| loop_fuel := 0;
            unref_object := λ _, out_of_fuel;
            call_object := λ _ _, out_of_fuel;
            run_dtor := λ _ _, out_of_fuel |}
  | S n' => let K := kern n' in
            {| loop_fuel := n;
               unref_object := unref_body (K := K);
               call_object := call_body K;
               run_dtor := dtor_body K |}
  end.

Context {WO : WorldOk W}.

Lemma call_body_ok K l args E :
  KernelOk K → Strong l ∈ E → (∀ r, r ∈ refs_of_list args → r ∈ E) →
  spec (Inv E) (call_body K l args) (λ r, Inv (rc_refs r ++ E)).
Proof.
  intros KO HE Ha. unfold call_body. step (rd_ok E l HE). intros o.
  eapply spec_pre; [intros s [HI _]; exact HI|]. destruct (o_call o) as [[| |n]|]; [..|crash].
  - apply closure_trampoline_ok; assumption.
  - apply emit_proxied_signal_ok; assumption.
  - apply w_call_ok; assumption.
Qed.

Lemma dtor_body_ok K d l E :
  KernelOk K → Strong l ∈ E → spec (Inv E) (dtor_body K d l) (λ _, Inv E).
Proof.
  intros KO HE. destruct d; cbn [dtor_body].
  - apply listen_handle_dtor_ok, HE.
  - apply free_closure_ok, HE.
  - apply roots_dtor_ok, HE.
  - apply w_dtor_ok; assumption.
Qed.

#[export] Instance kern_ok n : KernelOk (kern n).
Proof.
  induction n as [|n IH]; constructor; intros; cbn [kern unref_object call_object run_dtor];
    try apply triple_out_of_fuel.
  - apply unref_body_ok.
  - apply call_body_ok; assumption.
  - apply dtor_body_ok; assumption.
Qed.
End knot.

(** ** Foreign code that does nothing

    A concrete world, for examples: functions return nil, and destructors of
    other files do nothing. *)
Definition idle_world : World := {|
  w_fn := λ _ _ _ _, mret (inr VNil);
  w_call := λ _ _ _ _, mret (inr VNil);
  w_dtor := λ _ _ _, mret tt;
  ffi_prep_ok := λ _ _, true
|}.

#[export] Instance idle_world_ok : WorldOk idle_world.
Proof.
  constructor; intros; cbn.
  - apply triple_ret. intros s [HI _]. exact HI.
  - apply triple_ret. auto.
  - apply triple_ret. auto.
Qed.

(** The empty heap; address 0 is taken by [DEAD]. *)
Definition empty_state : state := State ∅ ∅ 1 [] [].

Lemma Inv_empty : Inv [] empty_state.
Proof.
  constructor; simpl.
  - intros l o Hl. rewrite lookup_empty in Hl. discriminate.
  - intros l o Hl. rewrite lookup_empty in Hl. discriminate.
  - intros l _. unfold hcnt. simpl. rewrite !total_empty. auto.
  - intros l _. rewrite !lookup_empty. auto.
  - apply lookup_empty.
  - unfold DEAD. lia.
  - intros l o Hl. rewrite lookup_empty in Hl. discriminate.
  - intros l o Hl. rewrite lookup_empty in Hl. discriminate.
Qed.
