(* ===== verification/Tables.v ===== *)
(** * Well-formed tables

    The structural invariant of objects and signals: in every table names are
    unique, no member has a reserved name, and a signal counts its listeners.
    It is kept by every operation, whatever the foreign code does. *)

From S2P Require Import Prelude DiTypes Heap Account Object ObjectSpec Signals Callable Roots Helper Knot.

(** ** The invariant *)

Definition name_ok (n : string) : Prop := starts_with "__" (real_name n) = false.

Record wf_obj (o : obj) : Prop := {
  wf_names : NoDup (map m_name (o_members o));
  wf_reserved : ∀ m, m ∈ o_members o → name_ok (m_name m);
  wf_signals : NoDup (map fst (o_signals o))
}.

Definition wf_sig (g : signal) : Prop := sg_nlisteners g = length (sg_listeners g).

Record WF (s : state) : Prop := {
  wf_heap : ∀ l o, s_heap s !! l = Some o → wf_obj o;
  wf_sigs : ∀ i g, s_sigs s !! i = Some g → wf_sig g
}.

(** [pres m φ]: [m] keeps the invariant and its result satisfies [φ]. *)
Definition any_crash (c : crash) : Prop := True.
Definition pres {A} (m : M A) (φ : A → Prop) : Prop :=
  triple any_crash WF m (λ a s, φ a ∧ WF s).
Abbreviation keeps m := (pres m (λ _, True)).

Create HintDb pres.

Lemma pres_ret {A} (a : A) (φ : A → Prop) : φ a → pres (mret a) φ.
Proof. intros H. apply triple_ret. auto. Qed.

Lemma pres_bind {A B} (m : M A) (f : A → M B) φ ψ :
  pres m φ → (∀ a, φ a → pres (f a) ψ) → pres (m ≫= f) ψ.
Proof.
  intros Hm Hf. eapply triple_bind; [exact Hm|]. intros a. apply triple_pure. intros Ha.
  exact (Hf a Ha).
Qed.

Lemma pres_fail {A} c (φ : A → Prop) : pres (fail c) φ.
Proof. apply triple_fail. exact I. Qed.
Lemma pres_out_of_fuel {A} (φ : A → Prop) : pres out_of_fuel φ.
Proof. apply triple_out_of_fuel. Qed.
Lemma pres_check b : keeps (check b).
Proof. destruct b; [apply pres_ret; exact I|apply pres_fail]. Qed.
Lemma pres_from_opt {A} c (o : option A) : pres (from_opt c o) (λ a, o = Some a).
Proof. destruct o; [apply pres_ret; reflexivity|apply pres_fail]. Qed.
Lemma pres_weaken {A} (m : M A) φ : pres m φ → keeps m.
Proof. intros H s Hs. specialize (H s Hs). destruct (m s); naive_solver. Qed.

Lemma pres_for_each {A} (f : A → M unit) l : (∀ x, keeps (f x)) → keeps (for_each f l).
Proof.
  intros Hf. induction l as [|x l IH]; cbn [for_each]; [apply pres_ret; exact I|].
  eapply pres_bind; [apply Hf|]. auto.
Qed.

Lemma pres_collect {A B} (f : A → M B) l : (∀ x, keeps (f x)) → keeps (collect f l).
Proof.
  intros Hf. induction l as [|x l IH]; cbn [collect]; [apply pres_ret; exact I|].
  eapply pres_bind; [apply Hf|]. intros y _. eapply pres_bind; [exact IH|].
  intros ys _. apply pres_ret. exact I.
Qed.

Lemma pres_for_each_in {A} (f : A → M unit) l : (∀ x, x ∈ l → keeps (f x)) → keeps (for_each f l).
Proof.
  intros Hf. induction l as [|x l IH]; cbn [for_each]; [apply pres_ret; exact I|].
  eapply pres_bind; [apply Hf; left|]. intros _ _. apply IH. intros y Hy. apply Hf. right. exact Hy.
Qed.

Lemma pres_collect_in {A B} (f : A → M B) l : (∀ x, x ∈ l → keeps (f x)) → keeps (collect f l).
Proof.
  intros Hf. induction l as [|x l IH]; cbn [collect]; [apply pres_ret; exact I|].
  eapply pres_bind; [apply Hf; left|]. intros y _. eapply pres_bind.
  - apply IH. intros z Hz. apply Hf. right. exact Hz.
  - intros ys _. apply pres_ret. exact I.
Qed.

Lemma pres_while {A} k (step : A → M (option A)) a :
  (∀ a, keeps (step a)) → keeps (while_some k step a).
Proof.
  intros Hs. revert a. induction k as [|k IH]; intros a; cbn [while_some]; [apply pres_out_of_fuel|].
  eapply pres_bind; [apply Hs|]. intros [a'|] _; [apply IH|apply pres_ret; exact I].
Qed.

(** ** Memory accesses *)

Lemma pres_rd l : pres (rd l) wf_obj.
Proof.
  intros s Hs. unfold rd. destruct (s_heap s !! l) as [o|] eqn:Hl; [|exact I].
  split; [apply (wf_heap s Hs l o Hl)|exact Hs].
Qed.

Lemma pres_wr l o : wf_obj o → keeps (wr l o).
Proof.
  intros Ho s Hs. split; [exact I|]. constructor; simpl; [|apply Hs].
  intros l' o' [[<- <-]|[_ Hl']]%lookup_insert_Some; [exact Ho|apply (wf_heap s Hs _ _ Hl')].
Qed.

Lemma pres_upd l f : (∀ o, wf_obj o → wf_obj (f o)) → keeps (upd l f).
Proof. intros Hf. eapply pres_bind; [apply pres_rd|]. intros o Ho. apply pres_wr, Hf, Ho. Qed.

Lemma pres_rd_sig i : pres (rd_sig i) wf_sig.
Proof.
  intros s Hs. unfold rd_sig. destruct (s_sigs s !! i) as [g|] eqn:Hi; [|exact I].
  split; [apply (wf_sigs s Hs i g Hi)|exact Hs].
Qed.

Lemma pres_wr_sig i g : wf_sig g → keeps (wr_sig i g).
Proof.
  intros Hg s Hs. split; [exact I|]. constructor; simpl; [apply Hs|].
  intros i' g' [[<- <-]|[_ Hi']]%lookup_insert_Some; [exact Hg|apply (wf_sigs s Hs _ _ Hi')].
Qed.

Lemma pres_modify f : (∀ s, WF s → WF (f s)) → keeps (modify f).
Proof. intros Hf s Hs. split; [exact I|apply Hf, Hs]. Qed.

Lemma pres_fresh : keeps fresh_id.
Proof. intros s Hs. split; [exact I|]. destruct Hs. constructor; assumption. Qed.
Lemma pres_emit w a : keeps (emit_event w a).
Proof. apply pres_modify. intros s []. constructor; assumption. Qed.
Lemma pres_leak rs : keeps (leak rs).
Proof. apply pres_modify. intros s []. constructor; assumption. Qed.

Lemma pres_free_obj l : keeps (free_obj l).
Proof.
  intros s Hs. unfold free_obj. destruct (s_heap s !! l); [|exact I]. split; [exact I|].
  constructor; simpl; [|apply Hs]. intros l' o' [_ Hl']%lookup_delete_Some. apply (wf_heap s Hs _ _ Hl').
Qed.

Lemma pres_free_sig i : keeps (free_sig i).
Proof.
  intros s Hs. unfold free_sig. destruct (s_sigs s !! i); [|exact I]. split; [exact I|].
  constructor; simpl; [apply Hs|]. intros i' g' [_ Hi']%lookup_delete_Some. apply (wf_sigs s Hs _ _ Hi').
Qed.

(** Updates that do not touch the tables. *)
Lemma wf_obj_same o o' :
  o_members o' = o_members o → o_signals o' = o_signals o → wf_obj o → wf_obj o'.
Proof. intros Hm Hs [H1 H2 H3]. constructor; rewrite ?Hm, ?Hs; assumption. Qed.

#[export] Hint Resolve pres_fail pres_out_of_fuel pres_check pres_fresh pres_emit pres_leak
  pres_free_obj pres_free_sig : pres.
#[export] Hint Extern 1 (wf_obj _) =>
  match goal with H : wf_obj ?o |- _ => solve [apply (wf_obj_same o); [reflexivity|reflexivity|exact H]] end
  : pres.

(** Step through an operation. *)
Ltac pres_step :=
  match goal with
  | |- pres (mret _) _ => apply pres_ret; exact I
  | |- pres (fail _) _ => apply pres_fail
  | |- pres (rd _ ≫= _) _ => eapply pres_bind; [apply pres_rd|intros ? ?]
  | |- pres (rd_sig _ ≫= _) _ => eapply pres_bind; [apply pres_rd_sig|intros ? ?]
  | |- pres (from_opt _ _ ≫= _) _ => eapply pres_bind; [apply pres_from_opt|cbv beta; intros ? ?]
  | |- pres (upd _ _) _ => apply pres_upd; intros ? ?
  | |- pres (wr _ _) _ => apply pres_wr
  | |- pres (wr_sig _ _) _ => apply pres_wr_sig
  | |- pres (for_each _ _) _ => apply pres_for_each; intros ?
  | |- pres (while_some _ _ _) _ => apply pres_while; intros ?
  | |- pres (collect _ _) _ => apply pres_collect; intros ?
  | |- pres (_ ≫= _) _ => eapply (pres_bind _ _ (λ _, True)); [|intros ? _]
  | |- pres (match ?x with _ => _ end) _ => destruct x eqn:?
  | |- pres _ (λ _, True) => solve [auto with pres]
  end.
Ltac pres := repeat (cbv beta iota zeta; pres_step); auto with pres.

(** ** Tables *)

Lemma find_member_none n ms : find_member n ms = None → n ∉ map m_name ms.
Proof.
  induction ms as [|m ms IH]; simpl; [intros _ H; inversion H|].
  destruct (String.eqb_spec (m_name m) n); [discriminate|].
  intros Hn [?|?]%elem_of_cons; [congruence|]. apply IH; assumption.
Qed.

Lemma find_signal_none n sg : find_signal n sg = None → n ∉ map fst sg.
Proof.
  induction sg as [|[k i] sg IH]; simpl; [intros _ H; inversion H|].
  destruct (String.eqb_spec k n); [discriminate|].
  intros Hn [?|?]%elem_of_cons; [congruence|]. apply IH; assumption.
Qed.

Lemma NoDup_snoc {A} (x : A) l : NoDup l → x ∉ l → NoDup (l ++ [x]).
Proof.
  intros Hl Hx. apply NoDup_app. split; [exact Hl|]. split; [|apply NoDup_singleton].
  intros y Hy ->%list_elem_of_singleton. contradiction.
Qed.

Lemma check_new_member_ok o n :
  check_new_member o n = 0%Z → (n ∉ map m_name (o_members o)) ∧ name_ok n.
Proof.
  unfold check_new_member. destruct (find_member _ _) eqn:Hf; [discriminate|].
  destruct (starts_with _ _) eqn:Hs; [discriminate|]. intros _. split; [|exact Hs].
  apply find_member_none, Hf.
Qed.

Lemma wf_add_member o m :
  wf_obj o → check_new_member o (m_name m) = 0%Z → wf_obj (with_members (o_members o ++ [m]) o).
Proof.
  intros [H1 H2 H3] [Hn Hr]%check_new_member_ok. constructor; simpl.
  - rewrite map_app. apply NoDup_snoc; assumption.
  - intros m' [Hm| ->%list_elem_of_singleton]%elem_of_app; auto.
  - exact H3.
Qed.

(** Removing or overwriting members: the names form a sublist. *)
Lemma take_member_sublist id ms m ms' : take_member id ms = Some (m, ms') → sublist ms' ms.
Proof.
  revert ms'. induction ms as [|x ms IH]; intros ms'; simpl; [discriminate|].
  destruct (Nat.eqb _ _); [intros [= -> ->]; apply sublist_cons; reflexivity|].
  destruct (take_member id ms) as [[y ys]|]; [|discriminate]. intros [= <- <-].
  apply sublist_skip. auto.
Qed.

Lemma wf_sub_members o ms : wf_obj o → sublist ms (o_members o) → wf_obj (with_members ms o).
Proof.
  intros [H1 H2 H3] Hs. constructor; simpl; [| |exact H3].
  - eapply sublist_NoDup; [exact H1|]. apply (fmap_sublist _), Hs.
  - intros m Hm. apply H2. eapply elem_of_sublist; [exact Hm|exact Hs].
Qed.

Lemma swap_member_names id v ms old ms' :
  swap_member id v ms = Some (old, ms') → map m_name ms' = map m_name ms.
Proof.
  revert ms'. induction ms as [|x ms IH]; intros ms'; simpl; [discriminate|].
  destruct (Nat.eqb _ _); [intros [= <- <-]; reflexivity|].
  destruct (swap_member id v ms) as [[y ys]|]; [|discriminate]. intros [= <- <-].
  simpl. f_equal. auto.
Qed.

Lemma wf_same_names o ms :
  wf_obj o → map m_name ms = map m_name (o_members o) → wf_obj (with_members ms o).
Proof.
  intros [H1 H2 H3] Hn. constructor; simpl; [rewrite Hn; exact H1| |exact H3].
  intros m Hm. assert (m_name m ∈ map m_name ms) as Hin by (apply (list_elem_of_fmap_2 m_name), Hm).
  rewrite Hn in Hin. apply list_elem_of_fmap in Hin as (m' & -> & Hm'). auto.
Qed.

Lemma del_signal_sublist i sg sg' : del_signal i sg = Some sg' → sublist sg' sg.
Proof.
  revert sg'. induction sg as [|[n j] sg IH]; intros sg'; simpl; [discriminate|].
  destruct (Nat.eqb _ _); [intros [= ->]; apply sublist_cons; reflexivity|].
  destruct (del_signal i sg); [|discriminate]. intros [= <-]. apply sublist_skip. auto.
Qed.

Lemma wf_sub_signals o sg : wf_obj o → sublist sg (o_signals o) → wf_obj (with_signals sg o).
Proof.
  intros [H1 H2 H3] Hs. constructor; simpl; [exact H1|exact H2|].
  eapply sublist_NoDup; [exact H3|]. apply (fmap_sublist _), Hs.
Qed.

Lemma wf_add_signal o n i :
  wf_obj o → find_signal n (o_signals o) = None →
  wf_obj (with_signals (o_signals o ++ [(n, i)]) o).
Proof.
  intros [H1 H2 H3] Hf%find_signal_none. constructor; simpl; [exact H1|exact H2|].
  rewrite map_app. apply NoDup_snoc; assumption.
Qed.

Lemma del_listener_length h l l' : del_listener h l = Some l' → length l = S (length l').
Proof.
  revert l'. induction l as [|x l IH]; intros l'; simpl; [discriminate|].
  destruct (Nat.eqb _ _); [intros [= ->]; reflexivity|].
  destruct (del_listener h l) as [k|]; [|discriminate]. intros [= <-]. simpl. f_equal. auto.
Qed.

(** ** Every operation keeps the tables well formed *)

Class PresKernel (K : Kernel) : Prop := {
  pres_unref l : keeps (unref_object l);
  pres_call l args : keeps (call_object l args);
  pres_dtor d l : keeps (run_dtor d l)
}.
#[export] Hint Resolve pres_unref pres_call pres_dtor : pres.

Section ops.
Context {K : Kernel} {PK : PresKernel K}.

Lemma pres_sizeof t : keeps (sizeof_is_zero (S := state) t).
Proof. unfold sizeof_is_zero. pres. Qed.
Lemma pres_ref l : keeps (di_ref_object l).
Proof. unfold di_ref_object. pres. Qed.
Lemma pres_weakly_ref l : keeps (di_weakly_ref_object l).
Proof. unfold di_weakly_ref_object. pres. Qed.
Hint Resolve pres_sizeof pres_ref pres_weakly_ref : pres.
Lemma pres_upgrade l : keeps (di_upgrade_weak_ref l).
Proof. unfold di_upgrade_weak_ref. pres. Qed.
Lemma pres_decrement l : keeps (di_decrement_weak_ref_count l).
Proof. unfold di_decrement_weak_ref_count. pres. Qed.
Hint Resolve pres_upgrade pres_decrement : pres.
Lemma pres_drop_weak l : keeps (di_drop_weak_ref l).
Proof. unfold di_drop_weak_ref. pres. Qed.
Hint Resolve pres_drop_weak : pres.
Lemma pres_new_object sz al : keeps (di_new_object sz al).
Proof. unfold di_new_object. pres. constructor; try apply NoDup_nil_2. intros m Hm. inversion Hm. Qed.
Hint Resolve pres_new_object : pres.
Lemma pres_new_with_type x : keeps (di_new_object_with_type x).
Proof. unfold di_new_object_with_type. pres. Qed.
Lemma pres_set_ext l x : keeps (set_ext l x).
Proof. unfold set_ext. pres. Qed.
Hint Resolve pres_new_with_type pres_set_ext : pres.

Lemma pres_free_value v : keeps (di_free_value v).
Proof.
  induction v as [v Hv|t b l IH|l IH|v IH] using value_ind'.
  - destruct v; try destruct Hv; cbn [di_free_value]; pres.
  - cbn [di_free_value]. destruct l as [|v l]; [pres|].
    eapply pres_bind; [apply pres_sizeof|]. intros _ _. apply pres_for_each_in.
    rewrite Forall_forall in IH. exact IH.
  - cbn [di_free_value]. apply pres_for_each_in. rewrite Forall_forall in IH. exact IH.
  - exact IH.
Qed.

Lemma pres_copy_value v : keeps (di_copy_value v).
Proof.
  induction v as [v Hv|t b l IH|l IH|v IH] using value_ind'.
  - destruct v; try destruct Hv; cbn [di_copy_value]; pres.
  - cbn [di_copy_value]. rewrite Forall_forall in IH.
    eapply pres_bind; [apply pres_sizeof|intros z _].
    eapply pres_bind; [apply pres_check|intros _ _].
    eapply pres_bind; [apply pres_collect_in, IH|intros ? _]. pres.
  - cbn [di_copy_value]. rewrite Forall_forall in IH.
    eapply pres_bind; [apply pres_collect_in, IH|intros ? _]. pres.
  - cbn [di_copy_value]. pres.
Qed.
Hint Resolve pres_free_value pres_copy_value : pres.

Lemma pres_conversion v t b : keeps (di_type_conversion v t b).
Proof.
  induction v as [v Hv|t' b' l IH|l IH|v IH] using value_ind'.
  - destruct v; try destruct Hv; cbn [di_type_conversion]; pres.
  - cbn [di_type_conversion]; pres.
  - cbn [di_type_conversion]; pres.
  - cbn [di_type_conversion]; pres.
Qed.
Hint Resolve pres_conversion : pres.

Lemma pres_lookup l n : keeps (di_lookup l n).
Proof. unfold di_lookup. pres. Qed.
Lemma pres_insert l m : keeps (di_insert_member l m).
Proof. unfold di_insert_member. pres. apply wf_add_member; [assumption|]. apply Z.eqb_eq. assumption. Qed.
Hint Resolve pres_lookup pres_insert : pres.
Lemma pres_add_member l n v : keeps (di_add_member l n v).
Proof. unfold di_add_member. pres. Qed.
Hint Resolve pres_add_member : pres.
Lemma pres_add_clone l n v : keeps (di_add_member_clone l n v).
Proof. unfold di_add_member_clone. pres. Qed.
Lemma pres_va v : keeps (va_arg_with_di_type v).
Proof. unfold va_arg_with_di_type. pres. Qed.
Hint Resolve pres_add_clone pres_va : pres.
Lemma pres_add_clonev l n v : keeps (di_add_member_clonev l n v).
Proof. unfold di_add_member_clonev. pres. Qed.
Lemma pres_add_move l n v : keeps (di_add_member_move l n v).
Proof. unfold di_add_member_move. pres. Qed.
Lemma pres_remove_impl l id : keeps (di_remove_member_raw_impl l id).
Proof.
  unfold di_remove_member_raw_impl. pres. subst.
  eapply wf_sub_members; [assumption|eapply take_member_sublist; eassumption].
Qed.
Hint Resolve pres_add_clonev pres_add_move pres_remove_impl : pres.
Lemma pres_remove_raw l n : keeps (di_remove_member_raw l n).
Proof. unfold di_remove_member_raw. pres. Qed.
Lemma pres_rawgetx l n : keeps (di_rawgetx l n).
Proof. unfold di_rawgetx. pres. Qed.
Lemma pres_tfunc g t : keeps g → keeps (gen_tfunc g t).
Proof. intros Hg. unfold gen_tfunc. pres. Qed.
Hint Resolve pres_remove_raw pres_rawgetx pres_tfunc : pres.
Lemma pres_rawgetxt l n t : keeps (di_rawgetxt l n t).
Proof. unfold di_rawgetxt. pres. Qed.
Lemma pres_call_internal a b c : keeps (di_call_internal a b c).
Proof. unfold di_call_internal. pres. Qed.
Hint Resolve pres_rawgetxt pres_call_internal : pres.
Lemma pres_callx g a b : keeps g → keeps (gen_callx g a b).
Proof. intros Hg. unfold gen_callx. pres. Qed.
Hint Resolve pres_callx : pres.
Lemma pres_rawcallxn a n b : keeps (di_rawcallxn a n b).
Proof. unfold di_rawcallxn. pres. Qed.
Hint Resolve pres_rawcallxn : pres.
Lemma pres_handler a b c d e : keeps (call_handler_with_fallback a b c d e).
Proof. unfold call_handler_with_fallback. pres. Qed.
Hint Resolve pres_handler : pres.
Lemma pres_getx a b : keeps (di_getx a b).
Proof. unfold di_getx. pres. Qed.
Hint Resolve pres_getx : pres.
Lemma pres_getxt a b t : keeps (di_getxt a b t).
Proof. unfold di_getxt. pres. Qed.
Hint Resolve pres_getxt : pres.
Lemma pres_di_callx a b c : keeps (di_callx a b c).
Proof. unfold di_callx. pres. Qed.
Lemma pres_store a b c : keeps (store_member a b c).
Proof.
  unfold store_member. pres. subst.
  eapply wf_same_names; [assumption|eapply swap_member_names; eassumption].
Qed.
Hint Resolve pres_di_callx pres_store : pres.
Lemma pres_setx a b c : keeps (di_setx a b c).
Proof. unfold di_setx. pres. Qed.
Lemma pres_remove a b : keeps (di_remove_member a b).
Proof. unfold di_remove_member. pres. Qed.
Lemma pres_set_type a b : keeps (di_set_type a b).
Proof. unfold di_set_type. pres. Qed.
Lemma pres_get_type a : keeps (di_get_type a).
Proof. unfold di_get_type. pres. Qed.
Hint Resolve pres_setx pres_remove pres_set_type pres_get_type : pres.
Lemma pres_check_type a b : keeps (di_check_type a b).
Proof. unfold di_check_type. pres. Qed.
Lemma pres_finalize_step a b : keeps (finalize_step a b).
Proof. unfold finalize_step. pres. Qed.
Hint Resolve pres_check_type pres_finalize_step : pres.
Lemma pres_finalize_impl a : keeps (finalize_object_impl a).
Proof. unfold finalize_object_impl. pres. Qed.
Hint Resolve pres_finalize_impl : pres.
Lemma pres_finalize a : keeps (di_finalize_object a).
Proof. unfold di_finalize_object. pres. Qed.
Lemma pres_destroy a : keeps (di_destroy_object a).
Proof.
  unfold di_destroy_object. pres.
  apply wf_sub_signals; [assumption|apply sublist_nil_l].
Qed.
Hint Resolve pres_finalize pres_destroy : pres.
Lemma pres_unref_body a : keeps (unref_body a).
Proof. unfold unref_body. pres. Qed.
Lemma pres_new_module a b c : keeps (di_new_module_with_size a b c).
Proof. unfold di_new_module_with_size. pres. Qed.
Hint Resolve pres_unref_body pres_new_module : pres.

(** *** Signals *)

Lemma pres_drop_owner i : keeps (drop_owner i).
Proof. unfold drop_owner. pres. Qed.
Hint Resolve pres_drop_owner : pres.
Lemma pres_free_signal i : keeps (free_signal i).
Proof.
  unfold free_signal. pres. eapply wf_sub_signals; [eassumption|eapply del_signal_sublist; eassumption].
Qed.
Hint Resolve pres_free_signal : pres.
Lemma pres_listen_dtor h : keeps (di_listen_handle_dtor h).
Proof.
  unfold di_listen_handle_dtor. pres.
  all: unfold wf_sig in *; simpl in *; subst.
  all: match goal with H : del_listener _ _ = Some _ |- _ => apply del_listener_length in H end.
  all: simpl in *; lia.
Qed.
(** A new signal gets a name that is not in the table. *)
Lemma new_signal_wf o n x :
  find_signal (key_of n) (o_signals x) = None →
  triple any_crash (λ s, s_heap s !! o = Some x ∧ WF s) (new_signal o n) (λ _ s, True ∧ WF s).
Proof.
  intros Hf s [Hx Hs].
  unfold new_signal, di_weakly_ref_object, upd, fresh_id, wr_sig, wr, rd, modify, mbind, ST_bind.
  case_decide; [exact I|]. rewrite Hx. cbn [mret ST_ret s_heap s_sigs s_next set_heap set_sigs].
  rewrite lookup_insert_eq. cbn [o_signals with_wrc]. split; [exact I|]. constructor; cbn.
  - intros l y [[<- <-]|[_ [[<- <-]|[_ Hy]]%lookup_insert_Some]]%lookup_insert_Some.
    + apply (wf_add_signal (with_wrc (S (o_wrc x)) x)); [|exact Hf].
      apply (wf_obj_same x); [reflexivity..|apply (wf_heap s Hs _ _ Hx)].
    + apply (wf_obj_same x); [reflexivity..|apply (wf_heap s Hs _ _ Hx)].
    + apply (wf_heap s Hs _ _ Hy).
  - intros i g [[<- <-]|[_ Hg]]%lookup_insert_Some; [reflexivity|apply (wf_sigs s Hs _ _ Hg)].
Qed.

Lemma pres_get_signal o n : keeps (get_signal o n).
Proof.
  unfold get_signal. eapply triple_bind with (R := λ x s, s_heap s !! o = Some x ∧ WF s).
  { intros s Hs. unfold rd. destruct (s_heap s !! o) eqn:Hx; [auto|exact I]. }
  intros x. destruct (find_signal _ _) as [i|] eqn:Hf.
  { apply triple_ret. tauto. }
  eapply triple_bind; [apply new_signal_wf, Hf|]. intros i. apply triple_pure. intros _.
  change (keeps ((if di_is_internal n then mret tt
    else call_handler_with_fallback o "__new_signal" n None false;; mret tt);; mret i)). pres.
Qed.
Hint Resolve pres_listen_dtor pres_get_signal : pres.
Lemma pres_listen_to o n h : keeps (di_listen_to o n h).
Proof. unfold di_listen_to, di_set_object_dtor. pres; unfold wf_sig in *; simpl; congruence. Qed.
Lemma pres_objectt o a : keeps (di_call_objectt o a).
Proof. unfold di_call_objectt. pres. Qed.
Lemma pres_emit_result r : keeps (emit_result r).
Proof. unfold emit_result. pres. Qed.
Hint Resolve pres_listen_to pres_objectt pres_emit_result : pres.
Lemma pres_emit_to a w : keeps (emit_to a w).
Proof. unfold emit_to. pres. Qed.
Hint Resolve pres_emit_to : pres.
Lemma pres_emitn o n a : keeps (di_emitn o n a).
Proof. unfold di_emitn. pres. Qed.
Hint Resolve pres_emitn : pres.

(** *** Roots *)

Lemma pres_add_root a b c : keeps (di_add_root a b c).
Proof. unfold di_add_root. pres. Qed.
Lemma pres_remove_root a b : keeps (di_remove_root a b).
Proof. unfold di_remove_root. pres. Qed.
Lemma pres_clear_step a b : keeps (clear_step a b).
Proof. unfold clear_step. pres. Qed.
Hint Resolve pres_clear_step : pres.
Lemma pres_clear_roots a : keeps (di_clear_roots a).
Proof. unfold di_clear_roots. pres. Qed.
Lemma pres_add_anon a b : keeps (di_add_anonymous_root a b).
Proof. unfold di_add_anonymous_root. pres. Qed.
Lemma pres_remove_anon a b : keeps (di_remove_anonymous_root a b).
Proof. unfold di_remove_anonymous_root. pres. Qed.
Lemma pres_roots_dtor a : keeps (di_roots_dtor a).
Proof. unfold di_roots_dtor. pres. Qed.
Lemma pres_exit a b : keeps (di_prepare_exit a b).
Proof. unfold di_prepare_exit. pres. Qed.
End ops.
#[export] Hint Resolve pres_sizeof pres_ref pres_weakly_ref pres_upgrade pres_decrement
  pres_drop_weak pres_new_object pres_new_with_type pres_set_ext pres_free_value pres_copy_value
  pres_conversion pres_lookup pres_add_member pres_add_clone pres_va pres_add_clonev pres_add_move
  pres_remove_raw pres_rawgetx pres_getx pres_getxt pres_di_callx pres_setx pres_remove
  pres_set_type pres_get_type pres_check_type pres_finalize pres_destroy pres_unref_body
  pres_new_module pres_listen_dtor pres_listen_to pres_emitn pres_add_root pres_remove_root
  pres_clear_roots pres_add_anon pres_remove_anon pres_roots_dtor pres_exit : pres.

(** *** Closures *)

Class PresWorld (W : World) : Prop := {
  pres_w_fn (K : Kernel) n caps args : PresKernel K → keeps (w_fn K n caps args);
  pres_w_call (K : Kernel) n l args : PresKernel K → keeps (w_call K n l args);
  pres_w_dtor (K : Kernel) n l : PresKernel K → keeps (w_dtor K n l)
}.
#[export] Hint Resolve pres_w_fn pres_w_call pres_w_dtor : pres.

Section closures.
Context {K : Kernel} {PK : PresKernel K} {W : World} {PW : PresWorld W}.

Lemma pres_convert_arg v t : keeps (convert_arg v t).
Proof. unfold convert_arg. pres. Qed.
Hint Resolve pres_convert_arg : pres.
Lemma pres_convert_args vs ts : keeps (convert_args vs ts).
Proof.
  revert ts. induction vs as [|v vs IH]; intros ts; cbn [convert_args]; [pres|].
  destruct ts as [|t ts]; [pres|]. eapply pres_bind; [apply pres_convert_arg|].
  intros [rc|x] _; [pres|]. eapply pres_bind; [apply IH|]. intros rest _. pres.
Qed.
Hint Resolve pres_convert_args : pres.
Lemma pres_ffi_result t r : keeps (ffi_result t r).
Proof. unfold ffi_result. pres. Qed.
Lemma pres_free_cloned x : keeps (free_cloned x).
Proof. unfold free_cloned. pres. Qed.
Hint Resolve pres_ffi_result pres_free_cloned : pres.
Lemma pres_trampoline a b c d e : keeps (_di_typed_trampoline a b c d e).
Proof. unfold _di_typed_trampoline. pres. Qed.
Hint Resolve pres_trampoline : pres.
Lemma pres_closure_trampoline a b : keeps (closure_trampoline a b).
Proof. unfold closure_trampoline. pres. Qed.
Lemma pres_free_closure a : keeps (free_closure a).
Proof. unfold free_closure. pres. Qed.
Lemma pres_has_void ts : keeps (has_void ts).
Proof. induction ts as [|t ts IH]; cbn [has_void]; pres. Qed.
Lemma pres_prep a b : keeps (di_ffi_prep_cif a b).
Proof. unfold di_ffi_prep_cif. pres. Qed.
Lemma pres_new_closure : keeps new_closure_struct.
Proof. unfold new_closure_struct, di_set_object_call, di_set_object_dtor. pres. Qed.
Hint Resolve pres_has_void pres_prep pres_new_closure : pres.
Lemma pres_create_closure a b c d : keeps (di_create_closure a b c d).
Proof. unfold di_create_closure. pres. Qed.
Hint Resolve pres_create_closure : pres.
Lemma pres_add_method a b c d e : keeps (di_add_method a b c d e).
Proof. unfold di_add_method. pres. Qed.
Lemma pres_objectv a b : keeps (di_call_objectv a b).
Proof. unfold di_call_objectv. pres. Qed.
Lemma pres_new_error m : keeps (di_new_error m).
Proof. unfold di_new_error. pres. Qed.
Lemma pres_emit_proxied a b : keeps (emit_proxied_signal a b).
Proof. unfold emit_proxied_signal. pres. Qed.
End closures.
#[export] Hint Resolve pres_closure_trampoline pres_free_closure pres_create_closure
  pres_add_method pres_objectv pres_new_error pres_emit_proxied : pres.

(** ** The closed system *)

#[export] Instance pres_kern {W : World} {PW : PresWorld W} n : PresKernel (kern n).
Proof.
  induction n as [|n IH]; constructor; intros; cbn [kern unref_object call_object run_dtor];
    try apply pres_out_of_fuel.
  - apply pres_unref_body.
  - unfold call_body. pres.
  - destruct d; cbn [dtor_body]; pres.
Qed.

#[export] Instance pres_idle : PresWorld idle_world.
Proof. constructor; intros; cbn; pres. Qed.

Lemma WF_empty : WF empty_state.
Proof.
  constructor; simpl.
  - intros l o Hl. rewrite lookup_empty in Hl. discriminate.
  - intros i g Hi. rewrite lookup_empty in Hi. discriminate.
Qed.
