(* ===== verification/Mono.v ===== *)
(** * The depth of nesting does not matter

    [kern n] cuts the recursion off at depth [n] with [NoFuel].  A run that is
    not cut off has the same outcome at every greater depth, so that the
    outcome of an operation does not depend on the depth chosen. *)

From S2P Require Import Prelude DiTypes Heap Account Object ObjectSpec Signals Callable Roots Helper Knot.

(** ** Approximation *)

Definition approx {A} (m1 m2 : M A) : Prop := ∀ s, m1 s = NoFuel ∨ m1 s = m2 s.
Infix "⊑ₘ" := approx (at level 70).

#[export] Instance approx_preorder {A} : PreOrder (@approx A).
Proof.
  split; [intros m s; auto|]. intros m1 m2 m3 H1 H2 s.
  destruct (H1 s) as [H| ->]; [auto|]. apply H2.
Qed.

Lemma approx_bind {A B} (m1 m2 : M A) (f1 f2 : A → M B) :
  m1 ⊑ₘ m2 → (∀ a, f1 a ⊑ₘ f2 a) → (m1 ≫= f1) ⊑ₘ (m2 ≫= f2).
Proof.
  intros Hm Hf s. unfold mbind, ST_bind. destruct (Hm s) as [-> | ->]; [auto|].
  destruct (m2 s); auto. apply Hf.
Qed.

Lemma approx_out {A} (m : M A) : out_of_fuel ⊑ₘ m.
Proof. intros s. auto. Qed.

Lemma approx_for_each {A} (f1 f2 : A → M unit) l :
  (∀ x, x ∈ l → f1 x ⊑ₘ f2 x) → for_each f1 l ⊑ₘ for_each f2 l.
Proof.
  intros Hf. induction l as [|x l IH]; cbn [for_each]; [reflexivity|].
  apply approx_bind; [apply Hf; left|]. intros _. apply IH. intros y Hy. apply Hf. right. exact Hy.
Qed.

Lemma approx_while {A} k1 k2 (f1 f2 : A → M (option A)) a :
  k1 ≤ k2 → (∀ a, f1 a ⊑ₘ f2 a) → while_some k1 f1 a ⊑ₘ while_some k2 f2 a.
Proof.
  intros Hk Hf. revert k2 a Hk. induction k1 as [|k1 IH]; intros k2 a Hk; cbn [while_some].
  - apply approx_out.
  - destruct k2 as [|k2]; [lia|]. cbn [while_some]. apply approx_bind; [apply Hf|].
    intros [a'|]; [apply IH; lia|reflexivity].
Qed.

Class KLe (K1 K2 : Kernel) : Prop := {
  le_fuel : loop_fuel (Kernel := K1) ≤ loop_fuel (Kernel := K2);
  le_unref l : unref_object (Kernel := K1) l ⊑ₘ unref_object (Kernel := K2) l;
  le_call l args : call_object (Kernel := K1) l args ⊑ₘ call_object (Kernel := K2) l args;
  le_dtor d l : run_dtor (Kernel := K1) d l ⊑ₘ run_dtor (Kernel := K2) d l
}.

Create HintDb mono.
#[export] Hint Extern 0 (?m ⊑ₘ ?m) => reflexivity : mono.
#[export] Hint Resolve le_fuel le_unref le_call le_dtor approx_out : mono.

(** Compare two runs of one operation step by step. *)
Ltac mono_step :=
  match goal with
  | |- ?m ⊑ₘ ?m => reflexivity
  | |- (_ ≫= _) ⊑ₘ (_ ≫= _) => apply approx_bind; [|intros ?]
  | |- for_each _ _ ⊑ₘ for_each _ _ => apply approx_for_each; intros ? ?
  | |- while_some _ _ _ ⊑ₘ while_some _ _ _ => apply approx_while; [|intros ?]
  | |- match ?x with _ => _ end ⊑ₘ _ => destruct x
  | |- _ ⊑ₘ _ => solve [auto with mono]
  end.
Ltac mono := repeat (cbv beta iota zeta; mono_step); auto with mono.

(** ** The operations *)

Section ops.
Context {K1 K2 : Kernel} {HK : KLe K1 K2}.

Lemma mono_free_value v : @di_free_value K1 v ⊑ₘ @di_free_value K2 v.
Proof.
  induction v as [v Hv|t b l IH|l IH|v IH] using value_ind'.
  - destruct v; try destruct Hv; cbn [di_free_value]; mono.
  - cbn [di_free_value]. rewrite Forall_forall in IH. destruct l; mono.
  - cbn [di_free_value]. rewrite Forall_forall in IH. mono.
  - exact IH.
Qed.
Hint Resolve mono_free_value : mono.
Lemma mono_add_member l n v : @di_add_member K1 l n v ⊑ₘ @di_add_member K2 l n v.
Proof. unfold di_add_member. mono. Qed.
Hint Resolve mono_add_member : mono.
Lemma mono_add_clone l n v : @di_add_member_clone K1 l n v ⊑ₘ @di_add_member_clone K2 l n v.
Proof. unfold di_add_member_clone. mono. Qed.
Hint Resolve mono_add_clone : mono.
Lemma mono_add_clonev l n v : @di_add_member_clonev K1 l n v ⊑ₘ @di_add_member_clonev K2 l n v.
Proof. unfold di_add_member_clonev. mono. Qed.
Lemma mono_add_move l n v : @di_add_member_move K1 l n v ⊑ₘ @di_add_member_move K2 l n v.
Proof. unfold di_add_member_move. mono. Qed.
Lemma mono_remove_impl l i : @di_remove_member_raw_impl K1 l i ⊑ₘ @di_remove_member_raw_impl K2 l i.
Proof. unfold di_remove_member_raw_impl. mono. Qed.
Hint Resolve mono_add_clonev mono_add_move mono_remove_impl : mono.
Lemma mono_remove_raw l n : @di_remove_member_raw K1 l n ⊑ₘ @di_remove_member_raw K2 l n.
Proof. unfold di_remove_member_raw. mono. Qed.
Lemma mono_tfunc g1 g2 t : g1 ⊑ₘ g2 → @gen_tfunc K1 g1 t ⊑ₘ @gen_tfunc K2 g2 t.
Proof. intros Hg. unfold gen_tfunc. mono. Qed.
Hint Resolve mono_remove_raw mono_tfunc : mono.
Lemma mono_rawgetxt l n t : @di_rawgetxt K1 l n t ⊑ₘ @di_rawgetxt K2 l n t.
Proof. unfold di_rawgetxt. mono. Qed.
Lemma mono_call_internal a b c : @di_call_internal K1 a b c ⊑ₘ @di_call_internal K2 a b c.
Proof. unfold di_call_internal. mono. Qed.
Hint Resolve mono_rawgetxt mono_call_internal : mono.
Lemma mono_callx g1 g2 a b : g1 ⊑ₘ g2 → @gen_callx K1 g1 a b ⊑ₘ @gen_callx K2 g2 a b.
Proof. intros Hg. unfold gen_callx. mono. Qed.
Hint Resolve mono_callx : mono.
Lemma mono_rawcallxn a n b : @di_rawcallxn K1 a n b ⊑ₘ @di_rawcallxn K2 a n b.
Proof. unfold di_rawcallxn. mono. Qed.
Hint Resolve mono_rawcallxn : mono.
Lemma mono_handler a b c d e :
  @call_handler_with_fallback K1 a b c d e ⊑ₘ @call_handler_with_fallback K2 a b c d e.
Proof. unfold call_handler_with_fallback. mono. Qed.
Hint Resolve mono_handler : mono.
Lemma mono_getx a b : @di_getx K1 a b ⊑ₘ @di_getx K2 a b.
Proof. unfold di_getx. mono. Qed.
Hint Resolve mono_getx : mono.
Lemma mono_getxt a b t : @di_getxt K1 a b t ⊑ₘ @di_getxt K2 a b t.
Proof. unfold di_getxt. mono. Qed.
Hint Resolve mono_getxt : mono.
Lemma mono_di_callx a b c : @di_callx K1 a b c ⊑ₘ @di_callx K2 a b c.
Proof. unfold di_callx. mono. Qed.
Lemma mono_setx a b c : @di_setx K1 a b c ⊑ₘ @di_setx K2 a b c.
Proof. unfold di_setx. mono. Qed.
Lemma mono_remove a b : @di_remove_member K1 a b ⊑ₘ @di_remove_member K2 a b.
Proof. unfold di_remove_member. mono. Qed.
Lemma mono_set_type a b : @di_set_type K1 a b ⊑ₘ @di_set_type K2 a b.
Proof. unfold di_set_type. mono. Qed.
Lemma mono_get_type a : @di_get_type K1 a ⊑ₘ @di_get_type K2 a.
Proof. unfold di_get_type. mono. Qed.
Hint Resolve mono_di_callx mono_setx mono_remove mono_set_type mono_get_type : mono.
Lemma mono_check_type a b : @di_check_type K1 a b ⊑ₘ @di_check_type K2 a b.
Proof. unfold di_check_type. mono. Qed.
Lemma mono_finalize_step a b : @finalize_step K1 a b ⊑ₘ @finalize_step K2 a b.
Proof. unfold finalize_step. mono. Qed.
Hint Resolve mono_check_type mono_finalize_step : mono.
Lemma mono_finalize_impl a : @finalize_object_impl K1 a ⊑ₘ @finalize_object_impl K2 a.
Proof. unfold finalize_object_impl. mono. Qed.
Hint Resolve mono_finalize_impl : mono.
Lemma mono_finalize a : @di_finalize_object K1 a ⊑ₘ @di_finalize_object K2 a.
Proof. unfold di_finalize_object. mono. Qed.
Lemma mono_destroy a : @di_destroy_object K1 a ⊑ₘ @di_destroy_object K2 a.
Proof. unfold di_destroy_object. mono. Qed.
Hint Resolve mono_finalize mono_destroy : mono.
Lemma mono_unref_body a : @unref_body K1 a ⊑ₘ @unref_body K2 a.
Proof. unfold unref_body. mono. Qed.
Hint Resolve mono_unref_body : mono.

Lemma mono_free_signal a : @free_signal K1 a ⊑ₘ @free_signal K2 a.
Proof. unfold free_signal. mono. Qed.
Hint Resolve mono_free_signal : mono.
Lemma mono_listen_dtor a : @di_listen_handle_dtor K1 a ⊑ₘ @di_listen_handle_dtor K2 a.
Proof. unfold di_listen_handle_dtor. mono. Qed.
Lemma mono_get_signal a b : @get_signal K1 a b ⊑ₘ @get_signal K2 a b.
Proof. unfold get_signal. mono. Qed.
Hint Resolve mono_get_signal : mono.
Lemma mono_listen_to a b c : @di_listen_to K1 a b c ⊑ₘ @di_listen_to K2 a b c.
Proof. unfold di_listen_to. mono. Qed.
Lemma mono_objectt a b : @di_call_objectt K1 a b ⊑ₘ @di_call_objectt K2 a b.
Proof. unfold di_call_objectt. mono. Qed.
Lemma mono_emit_result a : @emit_result K1 a ⊑ₘ @emit_result K2 a.
Proof. unfold emit_result. mono. Qed.
Hint Resolve mono_objectt mono_emit_result : mono.
Lemma mono_emit_to a b : @emit_to K1 a b ⊑ₘ @emit_to K2 a b.
Proof. unfold emit_to. mono. Qed.
Hint Resolve mono_emit_to : mono.
Lemma mono_emitn a b c : @di_emitn K1 a b c ⊑ₘ @di_emitn K2 a b c.
Proof. unfold di_emitn. mono. Qed.
Hint Resolve mono_emitn : mono.
Lemma mono_emit_proxied a b : @emit_proxied_signal K1 a b ⊑ₘ @emit_proxied_signal K2 a b.
Proof. unfold emit_proxied_signal. mono. Qed.
Lemma mono_roots_dtor a : @di_roots_dtor K1 a ⊑ₘ @di_roots_dtor K2 a.
Proof. unfold di_roots_dtor. mono. Qed.
Lemma mono_add_root a b c : @di_add_root K1 a b c ⊑ₘ @di_add_root K2 a b c.
Proof. unfold di_add_root. mono. Qed.
Lemma mono_remove_root a b : @di_remove_root K1 a b ⊑ₘ @di_remove_root K2 a b.
Proof. unfold di_remove_root. mono. Qed.
Lemma mono_clear_step a b : @clear_step K1 a b ⊑ₘ @clear_step K2 a b.
Proof. unfold clear_step. mono. Qed.
Hint Resolve mono_clear_step : mono.
Lemma mono_clear_roots a : @di_clear_roots K1 a ⊑ₘ @di_clear_roots K2 a.
Proof. unfold di_clear_roots. mono. Qed.
Lemma mono_remove_anon a b : @di_remove_anonymous_root K1 a b ⊑ₘ @di_remove_anonymous_root K2 a b.
Proof. unfold di_remove_anonymous_root. mono. Qed.
Lemma mono_exit a b : @di_prepare_exit K1 a b ⊑ₘ @di_prepare_exit K2 a b.
Proof. unfold di_prepare_exit. mono. Qed.
Lemma mono_new_module a : @di_new_module K1 a ⊑ₘ @di_new_module K2 a.
Proof. unfold di_new_module, di_new_module_with_size. mono. Qed.
Lemma mono_new_error a : @di_new_error K1 a ⊑ₘ @di_new_error K2 a.
Proof. unfold di_new_error. mono. Qed.
End ops.
#[export] Hint Resolve mono_free_value mono_add_clone mono_add_move mono_remove_raw mono_getxt
  mono_di_callx mono_setx mono_remove mono_set_type mono_check_type mono_finalize mono_destroy
  mono_unref_body mono_listen_dtor mono_listen_to mono_emitn mono_emit_proxied mono_roots_dtor
  mono_add_root mono_remove_root mono_clear_roots mono_remove_anon mono_exit mono_new_module
  mono_new_error : mono.

(** Foreign code does not observe the depth either. *)
Class MonoWorld (W : World) : Prop := {
  mono_w_fn (K1 K2 : Kernel) n caps args : KLe K1 K2 → w_fn K1 n caps args ⊑ₘ w_fn K2 n caps args;
  mono_w_call (K1 K2 : Kernel) n l args : KLe K1 K2 → w_call K1 n l args ⊑ₘ w_call K2 n l args;
  mono_w_dtor (K1 K2 : Kernel) n l : KLe K1 K2 → w_dtor K1 n l ⊑ₘ w_dtor K2 n l
}.
#[export] Hint Resolve mono_w_fn mono_w_call mono_w_dtor : mono.

Section closures.
Context {K1 K2 : Kernel} {HK : KLe K1 K2} {W : World} {MW : MonoWorld W}.

Lemma mono_ffi_result a b : @ffi_result K1 a b ⊑ₘ @ffi_result K2 a b.
Proof. unfold ffi_result. mono. Qed.
Lemma mono_free_cloned a : @free_cloned K1 a ⊑ₘ @free_cloned K2 a.
Proof. unfold free_cloned. mono. Qed.
Hint Resolve mono_ffi_result mono_free_cloned : mono.
Lemma mono_trampoline a b c d e :
  @_di_typed_trampoline K1 W a b c d e ⊑ₘ @_di_typed_trampoline K2 W a b c d e.
Proof. unfold _di_typed_trampoline. mono. Qed.
Hint Resolve mono_trampoline : mono.
Lemma mono_closure_trampoline a b : @closure_trampoline K1 W a b ⊑ₘ @closure_trampoline K2 W a b.
Proof. unfold closure_trampoline. mono. Qed.
Lemma mono_free_closure a : @free_closure K1 a ⊑ₘ @free_closure K2 a.
Proof. unfold free_closure. mono. Qed.
Lemma mono_create_closure a b c d : @di_create_closure K1 W a b c d ⊑ₘ @di_create_closure K2 W a b c d.
Proof. unfold di_create_closure. mono. Qed.
Hint Resolve mono_create_closure : mono.
Lemma mono_add_method a b c d e : @di_add_method K1 W a b c d e ⊑ₘ @di_add_method K2 W a b c d e.
Proof. unfold di_add_method. mono. Qed.
Lemma mono_objectv a b : @di_call_objectv K1 a b ⊑ₘ @di_call_objectv K2 a b.
Proof. unfold di_call_objectv. mono. Qed.
End closures.
#[export] Hint Resolve mono_closure_trampoline mono_free_closure mono_create_closure mono_add_method
  mono_objectv : mono.

(** ** The closed system *)

#[export] Instance mono_kern {W : World} {MW : MonoWorld W} n m : n ≤ m → KLe (kern n) (kern m).
Proof.
  revert m. induction n as [|n IH]; intros m Hle.
  - constructor; [cbn; lia|intros; apply approx_out..].
  - destruct m as [|m]; [lia|]. specialize (IH m ltac:(lia)).
    constructor; intros; cbn [kern loop_fuel unref_object call_object run_dtor].
    + exact Hle.
    + mono.
    + unfold call_body. mono.
    + destruct d; cbn [dtor_body]; mono.
Qed.

#[export] Instance mono_idle : MonoWorld idle_world.
Proof. constructor; intros; cbn; reflexivity. Qed.
