(* ===== verification/Deai.v ===== *)
(** * Calling members, and the reference to deai (helper.h)

    The call macros of helper.h, and the member ["__deai"]: a strong reference
    while an object may produce events, a weak one while it cannot. *)

From S2P Require Import Prelude DiTypes Conv Heap Account Object ObjectSpec.

Section deai.
Context {K : Kernel}.

(** [di_call] *)
Definition di_call (o : loc) (name : string) (args : list value) : M Z :=
  r ← di_callx o (Some name) args;
  match r.2 with
  | inl rc => mret rc
  | inr v => di_free_value v;; mret 0%Z
  end.

(** [di_callr], with the type of the variable for the result. *)
Definition di_callr (o : loc) (name : string) (rtype : di_type) (args : list value) : M (Z + value) :=
  r ← di_callx o (Some name) args;
  match r.2 with
  | inl rc => mret (inl rc)
  | inr v =>
      if bool_decide (type_of v = rtype) then mret (inr v)
      else di_free_value v;; mret (inl EINVAL)
  end.

Definition DEAI_MEMBER_NAME : di_string := Some "__deai"%string.

(** [di_member] *)
Definition di_member (o : loc) (name : string) (v : value) : M Z :=
  di_add_member_move o (Some name) v.

Definition unref_opt (o : option loc) : M unit :=
  match o with Some l => unref_object l | None => mret tt end.

(** [di_object_get_deai_weak]; also [di_module_get_deai]. *)
Definition di_object_get_deai_weak (o : loc) : M (option loc) :=
  r ← di_getxt o DEAI_MEMBER_NAME DI_TYPE_WEAK_OBJECT;
  match r with
  | inl _ => mret None
  | inr (VWeak weak) =>
      strong ← di_upgrade_weak_ref weak;
      di_drop_weak_ref weak;;
      mret strong
  | inr _ => fail TypeConfusion
  end.

Definition di_module_get_deai (o : loc) : M (option loc) := di_object_get_deai_weak o.

(** [di_object_get_deai_strong] *)
Definition di_object_get_deai_strong (o : loc) : M (option loc) :=
  r ← di_getxt o DEAI_MEMBER_NAME DI_TYPE_OBJECT;
  match r with
  | inl _ => mret None
  | inr (VObject d) => mret (Some d)
  | inr _ => fail TypeConfusion
  end.

(** [di_object_downgrade_deai] *)
Definition di_object_downgrade_deai (o : loc) : M unit :=
  di_obj ← di_object_get_deai_strong o;
  match di_obj with
  | None => mret tt
  | Some d =>
      weak ← di_weakly_ref_object d;
      di_remove_member_raw o DEAI_MEMBER_NAME;;
      di_member o "__deai" (VWeak weak);;
      unref_object d
  end.

(** [di_object_upgrade_deai] *)
Definition di_object_upgrade_deai (o : loc) : M unit :=
  r ← di_getxt o DEAI_MEMBER_NAME DI_TYPE_WEAK_OBJECT;
  match r with
  | inl _ => mret tt
  | inr (VWeak weak) =>
      strong ← di_upgrade_weak_ref weak;
      di_remove_member_raw o DEAI_MEMBER_NAME;;
      match strong with
      | Some d => di_member o "__deai" (VObject d);; mret tt
      | None => mret tt
      end;;
      di_drop_weak_ref weak
  | inr _ => fail TypeConfusion
  end.
End deai.

Definition opt_refs (o : option loc) : list ref := match o with Some l => [Strong l] | None => [] end.

(** Specifications. *)
Section specs.
Context {K : Kernel} {KO : KernelOk K}.

Lemma call_ok' o name args E :
  Strong o ∈ E → (∀ r, r ∈ refs_of_list args → r ∈ E) →
  spec (Inv E) (di_call o name args) (λ _, Inv E).
Proof.
  intros HE Ha. unfold di_call. step (callx_ok o (Some name) args E HE Ha). intros [c r].
  eapply spec_pre; [intros s [HI _]; exact HI|]. cbn [snd].
  destruct r as [rc|v]; [ret|]. step (free_value_ok v E). intros ?. ret.
Qed.

Lemma callr_ok o name t args E :
  Strong o ∈ E → (∀ r, r ∈ refs_of_list args → r ∈ E) →
  spec (Inv E) (di_callr o name t args) (λ r, Inv (rc_refs r ++ E)).
Proof.
  intros HE Ha. unfold di_callr. step (callx_ok o (Some name) args E HE Ha). intros [c r].
  eapply spec_pre; [intros s [HI _]; exact HI|]. cbn [snd].
  destruct r as [rc|v]; [ret|]. case_bool_decide; [ret|].
  step (free_value_ok v E). intros ?. ret.
Qed.

Lemma weak_cases w E : w = DEAD ∨ Weak w ∈ refs (VWeak w) ++ E.
Proof. cbn [refs]. case_decide; [auto|]. right. left. Qed.

(** The reference a local variable holds to a weak object is dropped. *)
Lemma drop_weak_value_ok w E : spec (Inv (refs (VWeak w) ++ E)) (di_drop_weak_ref w) (λ _, Inv E).
Proof. exact (free_value_ok (VWeak w) E). Qed.

Lemma upgrade_value_ok w E :
  spec (Inv (refs (VWeak w) ++ E)) (di_upgrade_weak_ref w)
    (λ r, Inv (opt_refs r ++ refs (VWeak w) ++ E)).
Proof.
  eapply spec_post; [apply (upgrade_weak_ref_ok (refs (VWeak w) ++ E) w), weak_cases|].
  intros [d|] s; cbn; naive_solver.
Qed.

Lemma get_deai_weak_ok o E :
  Strong o ∈ E → spec (Inv E) (di_object_get_deai_weak o) (λ r, Inv (opt_refs r ++ E)).
Proof.
  intros HE. unfold di_object_get_deai_weak. step (getxt_ok o DEAI_MEMBER_NAME DI_TYPE_WEAK_OBJECT E HE).
  intros [rc|v]; [ret|]. destruct v; try crash. cbn [rc_refs].
  step (upgrade_value_ok l E). intros r. eapply triple_bind.
  - eapply spec_perm; [|apply (drop_weak_value_ok l (opt_refs r ++ E))]. by_count.
  - intros ?. ret.
Qed.

Lemma get_deai_strong_ok o E :
  Strong o ∈ E → spec (Inv E) (di_object_get_deai_strong o) (λ r, Inv (opt_refs r ++ E)).
Proof.
  intros HE. unfold di_object_get_deai_strong. step (getxt_ok o DEAI_MEMBER_NAME DI_TYPE_OBJECT E HE).
  intros [rc|v]; [ret|]. destruct v; try crash. ret.
Qed.

Lemma member_ok o name v E :
  Strong o ∈ E → spec (Inv (refs v ++ E)) (di_member o name v) (λ _, Inv E).
Proof. intros HE. apply add_member_move_ok, HE. Qed.

Lemma downgrade_deai_ok o E : Strong o ∈ E → spec (Inv E) (di_object_downgrade_deai o) (λ _, Inv E).
Proof.
  intros HE. unfold di_object_downgrade_deai. step (get_deai_strong_ok o E HE).
  intros [d|]; cbn [opt_refs app]; [|ret].
  step (weakly_ref_object_ok (Strong d :: E) d); [right; left|]. intros w.
  apply triple_pure; intros ->. apply triple_pure; intros Hd.
  step (remove_member_raw_ok o DEAI_MEMBER_NAME (Weak d :: Strong d :: E)); [set_solver|]. intros ?.
  assert (Strong o ∈ Strong d :: E) as HE' by set_solver.
  pose proof (member_ok o "__deai" (VWeak d) (Strong d :: E) HE') as Hm.
  cbn [refs] in Hm. rewrite decide_False in Hm by exact Hd.
  step Hm. intros ?. apply unref_ok.
Qed.

Lemma upgrade_deai_ok o E : Strong o ∈ E → spec (Inv E) (di_object_upgrade_deai o) (λ _, Inv E).
Proof.
  intros HE. unfold di_object_upgrade_deai.
  step (getxt_ok o DEAI_MEMBER_NAME DI_TYPE_WEAK_OBJECT E HE).
  intros [rc|v]; [ret|]. destruct v; try crash. cbn [rc_refs].
  step (upgrade_value_ok l E). intros r.
  step (remove_member_raw_ok o DEAI_MEMBER_NAME (opt_refs r ++ refs (VWeak l) ++ E)); [set_solver|]. intros ?.
  eapply triple_bind with (R := λ _, Inv (refs (VWeak l) ++ E)).
  - destruct r as [d|]; cbn [opt_refs app]; [|ret].
    step (member_ok o "__deai" (VObject d) (refs (VWeak l) ++ E)); [set_solver|]. intros ?. ret.
  - intros ?. apply drop_weak_value_ok.
Qed.
End specs.
