(* ===== verification/Event.v ===== *)
(** * The event module (event.c)

    File descriptor events, timers and periodic events.  The watchers of libev
    are fields of the objects; a watcher that is active is in the loop.  An
    object whose watcher is active refers to deai strongly, through its member
    ["__deai"], and weakly otherwise.  Calls of the callbacks by the loop are
    inputs. *)

From S2P Require Import Prelude DiTypes Conv Heap Account Object ObjectSpec Signals Callable Roots Helper Knot Deai.

(** What libev defines: the bits of its event masks, and whether a timer is
    active after [ev_timer_again], from its [repeat] and whether it was. *)
Class EvLib := {
  EV_READ : Z;
  EV_WRITE : Z;
  ev_timer_again_active : double → bool → bool
}.

(** [enum di_ioev_type] *)
Definition IOEV_READ : Z := 1.
Definition IOEV_WRITE : Z := 2.

Definition has_bit (mask bit : Z) : bool := negb (Z.eqb (Z.land mask bit) 0).

(** The functions and destructors of this file, by number. *)
Definition FN_START_IOEV : nat := 1.
Definition FN_STOP_IOEV : nat := 2.
Definition FN_TOGGLE_IOEV : nat := 3.
Definition FN_MODIFY_IOEV : nat := 4.
Definition FN_FINALIZE : nat := 5.
Definition FN_TIMER_AGAIN : nat := 6.
Definition FN_TIMER_STOP : nat := 7.
Definition FN_TIMER_SET : nat := 8.
Definition FN_PERIODIC_SET : nat := 9.
Definition FN_CREATE_IOEV : nat := 10.
Definition FN_CREATE_TIMER : nat := 11.
Definition FN_CREATE_PERIODIC : nat := 12.
Definition FN_NEW_SIGNAL_PREPARE : nat := 13.
Definition FN_DEL_SIGNAL_PREPARE : nat := 14.
Definition DTOR_STOP_IOEV : dtor_kind := DtorExt 0.
Definition DTOR_TIMER_STOP : dtor_kind := DtorExt 1.
Definition DTOR_PERIODIC : dtor_kind := DtorExt 2.

Section event.
Context {K : Kernel} {W : World} {V : EvLib}.

(** ** Fields *)

Definition get_fields (l : loc) : M fields :=
  o ← rd l;
  match o_ext o with EFields f => mret f | _ => fail TypeConfusion end.

(** A write to the fields of an object. *)
Definition upd_fields (l : loc) (f : fields → fields) : M unit :=
  x ← get_fields l; set_ext l (EFields (f x)).

Definition ioev_running (f : fields) : bool := match f with FIoev _ _ _ r => r | _ => false end.
Definition ev_active (f : fields) : bool :=
  match f with FIoev _ _ a _ | FTimer _ a | FPeriodic _ _ a => a | _ => false end.
Definition set_active (b : bool) (f : fields) : fields :=
  match f with
  | FIoev fd fl _ r => FIoev fd fl b r
  | FTimer rep _ => FTimer rep b
  | FPeriodic i o _ => FPeriodic i o b
  | f => f
  end.
Definition set_running (b : bool) (f : fields) : fields :=
  match f with FIoev fd fl a _ => FIoev fd fl a b | f => f end.

(** [ev_..._start(di->loop, w)] and [ev_..._stop(di->loop, w)] *)
Definition ev_start (di l : loc) : M unit := _ ← rd di; upd_fields l (set_active true).
Definition ev_stop (di l : loc) : M unit := _ ← rd di; upd_fields l (set_active false).

(** ** File descriptor events *)

Definition ioev_flags (t : Z) : Z :=
  let flags := if has_bit t IOEV_READ then Z.lor 0 EV_READ else 0%Z in
  if has_bit t IOEV_WRITE then Z.lor flags EV_WRITE else flags.

(** [di_ioev_callback] *)
Definition di_ioev_callback (ev : loc) (revents : Z) : M unit :=
  obj ← di_ref_object ev;
  (if has_bit revents EV_READ then _ ← di_emitn ev (Some "read"%string) []; mret tt else mret tt);;
  (if has_bit revents EV_WRITE then _ ← di_emitn ev (Some "write"%string) []; mret tt else mret tt);;
  let dt := if has_bit revents EV_READ then Z.lor 0 IOEV_READ else 0%Z in
  let dt := if has_bit revents EV_WRITE then Z.lor dt IOEV_WRITE else dt in
  _ ← di_emitn ev (Some "io"%string) [VNInt dt];
  unref_object obj.

(** [di_start_ioev]; nothing drops the reference [di_obj]. *)
Definition di_start_ioev (obj : loc) : M unit :=
  ev ← get_fields obj;
  if ioev_running ev then mret tt
  else
    di_obj ← di_object_get_deai_weak obj;
    match di_obj with
    | None => mret tt
    | Some di =>
        ev_start di obj;;
        upd_fields obj (set_running true);;
        di_object_upgrade_deai obj;;
        leak [Strong di]
    end.

(** [di_stop_ioev] *)
Definition di_stop_ioev (obj : loc) : M unit :=
  ev ← get_fields obj;
  if negb (ioev_running ev) then mret tt
  else
    di_obj ← di_object_get_deai_strong obj;
    match di_obj with
    | None => mret tt
    | Some di =>
        ev_stop di obj;;
        upd_fields obj (set_running false);;
        di_object_downgrade_deai obj;;
        unref_object di
    end.

(** [di_toggle_ioev] *)
Definition di_toggle_ioev (obj : loc) : M unit :=
  ev ← get_fields obj;
  if ioev_running ev then di_stop_ioev obj else di_start_ioev obj.

(** [di_modify_ioev] *)
Definition di_modify_ioev (obj : loc) (events : Z) : M unit :=
  if Z.eqb events 0 then di_stop_ioev obj
  else
    upd_fields obj (λ f, match f with FIoev fd _ a r => FIoev fd (ioev_flags events) a r | f => f end).

(** [di_create_ioev]; when deai is gone the new object is lost. *)
Definition di_create_ioev (em : loc) (fd t : Z) : M loc :=
  ret ← di_new_object_with_type (EFields (FIoev 0 0 false false));
  _ ← di_set_type ret "deai.builtin.event:IoEv";
  di_obj ← di_module_get_deai em;
  match di_obj with
  | None => leak [Strong ret];; di_new_error "deai is shutting down..."
  | Some di =>
      upd_fields ret (λ _, FIoev fd (ioev_flags t) false false);;
      ev_start di ret;;
      _ ← di_member ret "__deai" (VObject di);
      _ ← di_add_method ret (Some "start"%string) FN_START_IOEV DI_TYPE_NIL [];
      _ ← di_add_method ret (Some "stop"%string) FN_STOP_IOEV DI_TYPE_NIL [];
      _ ← di_add_method ret (Some "toggle"%string) FN_TOGGLE_IOEV DI_TYPE_NIL [];
      _ ← di_add_method ret (Some "modify"%string) FN_MODIFY_IOEV DI_TYPE_NIL [DI_TYPE_NINT];
      _ ← di_add_method ret (Some "close"%string) FN_FINALIZE DI_TYPE_NIL [];
      di_set_object_dtor ret (Some DTOR_STOP_IOEV);;
      upd_fields ret (set_running true);;
      mret ret
  end.

(** ** Timers *)

(** [ev_timer_again(di->loop, t)] *)
Definition ev_timer_again (di l : loc) : M unit :=
  _ ← rd di;
  upd_fields l (λ f, match f with FTimer rep a => FTimer rep (ev_timer_again_active rep a) | f => f end).

(** [di_timer_callback]; [now] is [ev_now]. *)
Definition di_timer_callback (d : loc) (now : double) : M unit :=
  obj ← di_ref_object d;
  di_obj ← di_object_get_deai_strong d;
  match di_obj with
  | None => fail CheckFailed
  | Some di =>
      ev_stop di d;;
      _ ← di_emitn d (Some "elapsed"%string) [VFloat now];
      di_object_downgrade_deai d;;
      unref_object di;;
      unref_object obj
  end.

(** [di_timer_stop] *)
Definition di_timer_stop (obj : loc) : M unit :=
  di_obj ← di_object_get_deai_strong obj;
  match di_obj with
  | None => ev ← get_fields obj; check (negb (ev_active ev))
  | Some di =>
      ev_stop di obj;;
      di_object_downgrade_deai obj;;
      unref_object di
  end.

(** [di_timer_again]; nothing drops the reference [di_obj]. *)
Definition di_timer_again (obj : loc) : M unit :=
  di_obj ← di_object_get_deai_weak obj;
  match di_obj with
  | None => mret tt
  | Some di =>
      ev_timer_again di obj;;
      di_object_upgrade_deai obj;;
      leak [Strong di]
  end.

(** [di_timer_set] *)
Definition di_timer_set (obj : loc) (t : double) : M unit :=
  di_timer_stop obj;;
  upd_fields obj (λ f, match f with FTimer _ a => FTimer t a | f => f end);;
  di_timer_again obj.

(** [di_create_timer]; when deai is gone the new object is lost. *)
Definition di_create_timer (em : loc) (timeout zero : double) : M loc :=
  ret ← di_new_object_with_type (EFields (FTimer zero false));
  _ ← di_set_type ret "deai.builtin.event:Timer";
  di_obj ← di_module_get_deai em;
  match di_obj with
  | None => leak [Strong ret];; di_new_error "deai is shutting down..."
  | Some di =>
      di_set_object_dtor ret (Some DTOR_TIMER_STOP);;
      _ ← di_add_method ret (Some "again"%string) FN_TIMER_AGAIN DI_TYPE_NIL [];
      _ ← di_add_method ret (Some "stop"%string) FN_TIMER_STOP DI_TYPE_NIL [];
      _ ← di_add_method ret (Some "__set_timeout"%string) FN_TIMER_SET DI_TYPE_NIL [DI_TYPE_FLOAT];
      upd_fields ret (λ _, FTimer timeout false);;
      ev_timer_again di ret;;
      _ ← di_member ret "__deai" (VObject di);
      mret ret
  end.

(** ** Periodic events *)

(** [di_periodic_callback] *)
Definition di_periodic_callback (p : loc) (now : double) : M unit :=
  obj ← di_ref_object p;
  _ ← di_emitn p (Some "triggered"%string) [VFloat now];
  unref_object obj.

(** [periodic_dtor]; [di->loop] is read without a test. *)
Definition periodic_dtor (p : loc) : M unit :=
  di_obj ← di_object_get_deai_strong p;
  match di_obj with
  | None => fail NullDeref
  | Some di => ev_stop di p;; unref_object di
  end.

(** [periodic_set]; [ev_periodic_again] leaves the watcher active. *)
Definition periodic_set (p : loc) (interval offset : double) : M unit :=
  di_obj ← di_object_get_deai_strong p;
  match di_obj with
  | None => fail CheckFailed
  | Some di =>
      upd_fields p (λ f, match f with FPeriodic _ _ a => FPeriodic interval offset a | f => f end);;
      ev_start di p;;
      unref_object di
  end.

(** [di_create_periodic] *)
Definition di_create_periodic (evm : loc) (interval offset zero : double) : M loc :=
  ret ← di_new_object_with_type (EFields (FPeriodic zero zero false));
  _ ← di_set_type ret "deai.builtin.event:Periodic";
  di_obj ← di_module_get_deai evm;
  di_set_object_dtor ret (Some DTOR_PERIODIC);;
  _ ← di_add_method ret (Some "set"%string) FN_PERIODIC_SET DI_TYPE_NIL [DI_TYPE_FLOAT; DI_TYPE_FLOAT];
  upd_fields ret (λ _, FPeriodic interval offset false);;
  match di_obj with
  | None => fail NullDeref
  | Some di =>
      ev_start di ret;;
      _ ← di_member ret "__deai" (VObject di);
      mret ret
  end.

(** ** The module *)

(** [di_prepare], in a build without TRACK_OBJECTS. *)
Definition di_prepare (evm : loc) : M unit :=
  obj ← di_ref_object evm;
  _ ← di_emitn evm (Some "prepare"%string) [];
  unref_object obj.

(** [di_new_signal_prepare]; a null [di] would be made a member. *)
Definition di_new_signal_prepare (eventm : loc) : M unit :=
  di ← di_object_get_deai_weak eventm;
  match di with
  | None => fail NullDeref
  | Some d => _ ← di_member eventm "___prepare_event_source" (VObject d); mret tt
  end.

(** [di_del_signal_prepare] *)
Definition di_del_signal_prepare (eventm : loc) : M unit :=
  _ ← di_remove_member_raw eventm (Some "___prepare_event_source"%string); mret tt.

(** [di_init_event] *)
Definition di_init_event (di : loc) : M unit :=
  r ← di_new_module di;
  em ← from_opt NullDeref r;
  _ ← di_add_method em (Some "fdevent"%string) FN_CREATE_IOEV DI_TYPE_OBJECT [DI_TYPE_NINT; DI_TYPE_NINT];
  _ ← di_add_method em (Some "timer"%string) FN_CREATE_TIMER DI_TYPE_OBJECT [DI_TYPE_FLOAT];
  _ ← di_add_method em (Some "periodic"%string) FN_CREATE_PERIODIC DI_TYPE_OBJECT [DI_TYPE_FLOAT; DI_TYPE_FLOAT];
  _ ← di_add_method em (Some "__new_signal_prepare"%string) FN_NEW_SIGNAL_PREPARE DI_TYPE_NIL [];
  _ ← di_add_method em (Some "__del_signal_prepare"%string) FN_DEL_SIGNAL_PREPARE DI_TYPE_NIL [];
  _ ← rd di;
  _ ← di_register_module di (Some "event"%string) em;
  mret tt.
End event.

(** ** Memory safety and reference accounting *)

Section specs.
Context {K : Kernel} {KO : KernelOk K} {W : World} {WO : WorldOk W} {V : EvLib}.

Lemma get_fields_ok E l : Strong l ∈ E → spec (Inv E) (get_fields l) (λ _, Inv E).
Proof.
  intros HE. unfold get_fields. step (rd_ok E l HE). intros o.
  eapply spec_pre; [intros s [HI _]; exact HI|]. destruct (o_ext o); try crash. ret.
Qed.

Lemma upd_fields_ok E l f : Strong l ∈ E → spec (Inv E) (upd_fields l f) (λ _, Inv E).
Proof.
  intros HE. unfold upd_fields. step (get_fields_ok E l HE). intros x.
  exact (set_ext_ok E l (EFields (f x)) HE).
Qed.

Lemma ev_switch_ok E di l f :
  Strong di ∈ E → Strong l ∈ E → spec (Inv E) (_ ← rd di; upd_fields l f) (λ _, Inv E).
Proof.
  intros Hd HE. step (rd_ok E di Hd). intros o.
  eapply spec_pre; [intros s [HI _]; exact HI|]. apply upd_fields_ok, HE.
Qed.

Lemma emit_step E o name args {A} (k : M A) Q :
  Strong o ∈ E → (∀ r, r ∈ refs_of_list args → r ∈ E) → spec (Inv E) k Q →
  spec (Inv E) (_ ← di_emitn o (Some name) args; k) Q.
Proof. intros HE Ha Hk. step (emitn_ok E o (Some name) args HE Ha). intros ?. exact Hk. Qed.

Lemma start_ioev_ok E obj : Strong obj ∈ E → spec (Inv E) (di_start_ioev obj) (λ _, Inv E).
Proof.
  intros HE. unfold di_start_ioev. step (get_fields_ok E obj HE). intros ev.
  destruct (ioev_running ev); [ret|]. step (get_deai_weak_ok obj E HE).
  intros [di|]; cbn [opt_refs app]; [|ret].
  assert (Strong obj ∈ Strong di :: E) as HE' by set_solver.
  step (ev_switch_ok (Strong di :: E) di obj); [left|exact HE'|]. intros ?.
  step (upd_fields_ok (Strong di :: E) obj (set_running true) HE'). intros ?.
  step (upgrade_deai_ok obj (Strong di :: E) HE'). intros ?. apply (leak_ok E [Strong di]).
Qed.

Lemma stop_ioev_ok E obj : Strong obj ∈ E → spec (Inv E) (di_stop_ioev obj) (λ _, Inv E).
Proof.
  intros HE. unfold di_stop_ioev. step (get_fields_ok E obj HE). intros ev.
  destruct (negb _); [ret|]. step (get_deai_strong_ok obj E HE).
  intros [di|]; cbn [opt_refs app]; [|ret].
  assert (Strong obj ∈ Strong di :: E) as HE' by set_solver.
  step (ev_switch_ok (Strong di :: E) di obj); [left|exact HE'|]. intros ?.
  step (upd_fields_ok (Strong di :: E) obj (set_running false) HE'). intros ?.
  step (downgrade_deai_ok obj (Strong di :: E) HE'). intros ?. apply unref_ok.
Qed.

Lemma toggle_ioev_ok E obj : Strong obj ∈ E → spec (Inv E) (di_toggle_ioev obj) (λ _, Inv E).
Proof.
  intros HE. unfold di_toggle_ioev. step (get_fields_ok E obj HE). intros ev.
  destruct (ioev_running ev); [apply stop_ioev_ok|apply start_ioev_ok]; exact HE.
Qed.

Lemma modify_ioev_ok E obj n : Strong obj ∈ E → spec (Inv E) (di_modify_ioev obj n) (λ _, Inv E).
Proof.
  intros HE. unfold di_modify_ioev. destruct (Z.eqb n 0); [apply stop_ioev_ok|apply upd_fields_ok]; exact HE.
Qed.

Lemma ioev_callback_ok E ev n : Strong ev ∈ E → spec (Inv E) (di_ioev_callback ev n) (λ _, Inv E).
Proof.
  intros HE. unfold di_ioev_callback. step (ref_object_ok E ev); [auto|]. intros obj.
  apply triple_pure; intros ->.
  assert (Strong ev ∈ Strong ev :: E) as HE' by left.
  eapply triple_bind with (R := λ _, Inv (Strong ev :: E)).
  { destruct (has_bit n EV_READ); [|ret]. apply emit_step; [exact HE'|set_solver|ret]. }
  intros ?. eapply triple_bind with (R := λ _, Inv (Strong ev :: E)).
  { destruct (has_bit n EV_WRITE); [|ret]. apply emit_step; [exact HE'|set_solver|ret]. }
  intros ?. apply emit_step; [exact HE'|set_solver|]. apply unref_ok.
Qed.

Lemma add_method_step E o name fn rt ats {A} (k : M A) Q :
  Strong o ∈ E → spec (Inv E) k Q → spec (Inv E) (_ ← di_add_method o (Some name) fn rt ats; k) Q.
Proof. intros HE Hk. step (add_method_ok E o (Some name) fn rt ats HE). intros ?. exact Hk. Qed.

Lemma set_type_step E o ty {A} (k : M A) Q :
  Strong o ∈ E → spec (Inv E) k Q → spec (Inv E) (_ ← di_set_type o ty; k) Q.
Proof. intros HE Hk. step (set_type_ok o ty E HE). intros ?. exact Hk. Qed.

Lemma upd_fields_step E o f {A} (k : M A) Q :
  Strong o ∈ E → spec (Inv E) k Q → spec (Inv E) (upd_fields o f;; k) Q.
Proof. intros HE Hk. step (upd_fields_ok E o f HE). intros ?. exact Hk. Qed.

Lemma set_dtor_step E o d {A} (k : M A) Q :
  Strong o ∈ E → spec (Inv E) k Q → spec (Inv E) (di_set_object_dtor o d;; k) Q.
Proof.
  intros HE Hk. unfold di_set_object_dtor. eapply triple_bind; [apply upd_ok; [|exact HE]|].
  - intros o'. unfold obj_refs. auto.
  - intros ?. exact Hk.
Qed.

(** The member ["__deai"] takes over the reference of a local variable. *)
Lemma deai_member_step E o name d {A} (k : M A) Q :
  Strong o ∈ E → spec (Inv E) k Q → spec (Inv (Strong d :: E)) (_ ← di_member o name (VObject d); k) Q.
Proof. intros HE Hk. step (member_ok o name (VObject d) E HE). intros ?. exact Hk. Qed.

Lemma create_ioev_ok E em fd t :
  Strong em ∈ E → spec (Inv E) (di_create_ioev em fd t) (λ l, Inv (Strong l :: E)).
Proof.
  intros HE. unfold di_create_ioev.
  step (new_object_with_type_ok E (EFields (FIoev 0 0 false false))). intros l.
  apply set_type_step; [left|]. step (get_deai_weak_ok em (Strong l :: E)); [set_solver|].
  intros [di|]; cbn [opt_refs app].
  - assert (Strong l ∈ Strong di :: Strong l :: E) as HE' by set_solver.
    apply upd_fields_step; [exact HE'|].
    step (ev_switch_ok (Strong di :: Strong l :: E) di l); [left|exact HE'|]. intros ?.
    apply deai_member_step; [left|]. do 5 (apply add_method_step; [left|]).
    apply set_dtor_step; [left|]. apply upd_fields_step; [left|]. ret.
  - step (leak_ok E [Strong l]). intros ?. apply new_error_ok.
Qed.

Lemma timer_callback_ok E d now : Strong d ∈ E → spec (Inv E) (di_timer_callback d now) (λ _, Inv E).
Proof.
  intros HE. unfold di_timer_callback. step (ref_object_ok E d HE). intros obj.
  apply triple_pure; intros ->. step (get_deai_strong_ok d (Strong d :: E)); [left|].
  intros [di|]; cbn [opt_refs app]; [|crash].
  assert (Strong d ∈ Strong di :: Strong d :: E) as HE' by set_solver.
  step (ev_switch_ok (Strong di :: Strong d :: E) di d); [left|exact HE'|]. intros ?.
  apply emit_step; [exact HE'|set_solver|].
  step (downgrade_deai_ok d (Strong di :: Strong d :: E) HE'). intros ?.
  step (unref_ok di (Strong d :: E)). intros ?. apply unref_ok.
Qed.

Lemma timer_stop_ok E d : Strong d ∈ E → spec (Inv E) (di_timer_stop d) (λ _, Inv E).
Proof.
  intros HE. unfold di_timer_stop. step (get_deai_strong_ok d E HE).
  intros [di|]; cbn [opt_refs app].
  - assert (Strong d ∈ Strong di :: E) as HE' by set_solver.
    step (ev_switch_ok (Strong di :: E) di d); [left|exact HE'|]. intros ?.
    step (downgrade_deai_ok d (Strong di :: E) HE'). intros ?. apply unref_ok.
  - step (get_fields_ok E d HE). intros ev. apply check_skip.
Qed.

Lemma timer_again_ok E d : Strong d ∈ E → spec (Inv E) (di_timer_again d) (λ _, Inv E).
Proof.
  intros HE. unfold di_timer_again. step (get_deai_weak_ok d E HE).
  intros [di|]; cbn [opt_refs app]; [|ret].
  assert (Strong d ∈ Strong di :: E) as HE' by set_solver.
  step (ev_switch_ok (Strong di :: E) di d); [left|exact HE'|]. intros ?.
  step (upgrade_deai_ok d (Strong di :: E) HE'). intros ?. apply (leak_ok E [Strong di]).
Qed.

Lemma timer_set_ok E d t : Strong d ∈ E → spec (Inv E) (di_timer_set d t) (λ _, Inv E).
Proof.
  intros HE. unfold di_timer_set. step (timer_stop_ok E d HE). intros ?.
  apply upd_fields_step; [exact HE|]. apply timer_again_ok, HE.
Qed.

Lemma create_timer_ok E em timeout zero :
  Strong em ∈ E → spec (Inv E) (di_create_timer em timeout zero) (λ l, Inv (Strong l :: E)).
Proof.
  intros HE. unfold di_create_timer.
  step (new_object_with_type_ok E (EFields (FTimer zero false))). intros l.
  apply set_type_step; [left|]. step (get_deai_weak_ok em (Strong l :: E)); [set_solver|].
  intros [di|]; cbn [opt_refs app].
  - assert (Strong l ∈ Strong di :: Strong l :: E) as HE' by set_solver.
    apply set_dtor_step; [exact HE'|]. do 3 (apply add_method_step; [exact HE'|]).
    apply upd_fields_step; [exact HE'|].
    step (ev_switch_ok (Strong di :: Strong l :: E) di l); [left|exact HE'|]. intros ?.
    apply deai_member_step; [left|]. ret.
  - step (leak_ok E [Strong l]). intros ?. apply new_error_ok.
Qed.

Lemma periodic_callback_ok E p now : Strong p ∈ E → spec (Inv E) (di_periodic_callback p now) (λ _, Inv E).
Proof.
  intros HE. unfold di_periodic_callback. step (ref_object_ok E p HE). intros obj.
  apply triple_pure; intros ->. apply emit_step; [left|set_solver|]. apply unref_ok.
Qed.

Lemma periodic_dtor_ok E p : Strong p ∈ E → spec (Inv E) (periodic_dtor p) (λ _, Inv E).
Proof.
  intros HE. unfold periodic_dtor. step (get_deai_strong_ok p E HE).
  intros [di|]; cbn [opt_refs app]; [|crash].
  step (ev_switch_ok (Strong di :: E) di p); [left|set_solver|]. intros ?. apply unref_ok.
Qed.

Lemma periodic_set_ok E p i o : Strong p ∈ E → spec (Inv E) (periodic_set p i o) (λ _, Inv E).
Proof.
  intros HE. unfold periodic_set. step (get_deai_strong_ok p E HE).
  intros [di|]; cbn [opt_refs app]; [|crash]. apply upd_fields_step; [set_solver|].
  step (ev_switch_ok (Strong di :: E) di p); [left|set_solver|]. intros ?. apply unref_ok.
Qed.

Lemma create_periodic_ok E em i o zero :
  Strong em ∈ E → spec (Inv E) (di_create_periodic em i o zero) (λ l, Inv (Strong l :: E)).
Proof.
  intros HE. unfold di_create_periodic.
  step (new_object_with_type_ok E (EFields (FPeriodic zero zero false))). intros l.
  apply set_type_step; [left|]. step (get_deai_weak_ok em (Strong l :: E)); [set_solver|].
  intros di. assert (Strong l ∈ opt_refs di ++ Strong l :: E) as HE' by set_solver.
  apply set_dtor_step; [exact HE'|]. apply add_method_step; [exact HE'|].
  apply upd_fields_step; [exact HE'|]. destruct di as [di|]; cbn [opt_refs app]; [|crash].
  step (ev_switch_ok (Strong di :: Strong l :: E) di l); [left|exact HE'|]. intros ?.
  apply deai_member_step; [left|]. ret.
Qed.

Lemma prepare_ok E evm : Strong evm ∈ E → spec (Inv E) (di_prepare evm) (λ _, Inv E).
Proof.
  intros HE. unfold di_prepare. step (ref_object_ok E evm HE). intros obj.
  apply triple_pure; intros ->. apply emit_step; [left|set_solver|]. apply unref_ok.
Qed.

Lemma new_signal_prepare_ok E em : Strong em ∈ E → spec (Inv E) (di_new_signal_prepare em) (λ _, Inv E).
Proof.
  intros HE. unfold di_new_signal_prepare. step (get_deai_weak_ok em E HE).
  intros [d|]; cbn [opt_refs app]; [|crash]. apply deai_member_step; [exact HE|]. ret.
Qed.

Lemma del_signal_prepare_ok E em : Strong em ∈ E → spec (Inv E) (di_del_signal_prepare em) (λ _, Inv E).
Proof.
  intros HE. unfold di_del_signal_prepare. step (remove_member_raw_ok em (Some "___prepare_event_source"%string) E HE).
  intros ?. ret.
Qed.

Lemma init_event_ok E di : Strong di ∈ E → spec (Inv E) (di_init_event di) (λ _, Inv E).
Proof.
  intros HE. unfold di_init_event. step (new_module_with_size_ok di 184 ENone E HE).
  intros [em|]; [|crash].
  change (from_opt NullDeref (Some em)) with (mret (M := M) em).
  eapply triple_bind with (R := λ l, Inv (Strong l :: E)); [ret|]. intros l.
  do 5 (apply add_method_step; [left|]).
  step (rd_ok (Strong l :: E) di); [set_solver|]. intros o.
  eapply spec_pre; [intros s [HI _]; exact HI|].
  step (add_member_move_ok di (Some "event"%string) (VObject l) E HE). intros ?. ret.
Qed.
End specs.

(** ** The module as foreign code

    The functions and destructors of this file, called through closures, in
    front of the rest of the program. *)

Definition nil_result (m : M unit) : M (loc + value) := m;; mret (inr VNil).
Definition object_result (m : M loc) : M (loc + value) := l ← m; mret (inr (VObject l)).

Definition event_fn (V : EvLib) (zero : double) (W : World) (K : Kernel) (n : nat) (args : list value)
    : option (M (loc + value)) :=
  match args with
  | VObject o :: args' =>
      if Nat.eqb n FN_START_IOEV then Some (nil_result (di_start_ioev o))
      else if Nat.eqb n FN_STOP_IOEV then Some (nil_result (di_stop_ioev o))
      else if Nat.eqb n FN_TOGGLE_IOEV then Some (nil_result (di_toggle_ioev o))
      else if Nat.eqb n FN_FINALIZE then Some (nil_result (di_finalize_object o))
      else if Nat.eqb n FN_TIMER_AGAIN then Some (nil_result (di_timer_again o))
      else if Nat.eqb n FN_TIMER_STOP then Some (nil_result (di_timer_stop o))
      else if Nat.eqb n FN_NEW_SIGNAL_PREPARE then Some (nil_result (di_new_signal_prepare o))
      else if Nat.eqb n FN_DEL_SIGNAL_PREPARE then Some (nil_result (di_del_signal_prepare o))
      else
        match args' with
        | [VNInt k] =>
            if Nat.eqb n FN_MODIFY_IOEV then Some (nil_result (di_modify_ioev o k)) else None
        | [VNInt fd; VNInt t] =>
            if Nat.eqb n FN_CREATE_IOEV then Some (object_result (di_create_ioev o fd t)) else None
        | [VFloat t] =>
            if Nat.eqb n FN_TIMER_SET then Some (nil_result (di_timer_set o t))
            else if Nat.eqb n FN_CREATE_TIMER then Some (object_result (di_create_timer o t zero))
            else None
        | [VFloat i; VFloat f] =>
            if Nat.eqb n FN_PERIODIC_SET then Some (nil_result (periodic_set o i f))
            else if Nat.eqb n FN_CREATE_PERIODIC then Some (object_result (di_create_periodic o i f zero))
            else None
        | _ => None
        end
  | _ => None
  end.

Definition event_dtor (K : Kernel) (n : nat) (l : loc) : option (M unit) :=
  if bool_decide (DtorExt n = DTOR_STOP_IOEV) then Some (di_stop_ioev l)
  else if bool_decide (DtorExt n = DTOR_TIMER_STOP) then Some (di_timer_stop l)
  else if bool_decide (DtorExt n = DTOR_PERIODIC) then Some (periodic_dtor l)
  else None.

Definition event_world (V : EvLib) (zero : double) (rest : World) : World := {|
  w_fn K n caps args :=
    match event_fn V zero rest K n args with Some m => m | None => w_fn (World := rest) K n caps args end;
  w_call := w_call (World := rest);
  w_dtor K n l := match event_dtor K n l with Some m => m | None => w_dtor (World := rest) K n l end;
  ffi_prep_ok := ffi_prep_ok (World := rest)
|}.

Section world.
Context {K : Kernel} {KO : KernelOk K} {W : World} {WO : WorldOk W}.

Lemma nil_result_ok E m : spec (Inv E) m (λ _, Inv E) → spec (Inv E) (nil_result m) (λ r, Inv (fn_refs r ++ E)).
Proof. intros Hm. unfold nil_result. step Hm. intros ?. apply triple_ret. auto. Qed.

Lemma object_result_ok E m :
  spec (Inv E) m (λ l, Inv (Strong l :: E)) → spec (Inv E) (object_result m) (λ r, Inv (fn_refs r ++ E)).
Proof. intros Hm. unfold object_result. step Hm. intros l. apply triple_ret. auto. Qed.

Lemma event_fn_ok V zero n args m E :
  event_fn V zero W K n args = Some m → (∀ r, r ∈ refs_of_list args → r ∈ E) →
  spec (Inv E) m (λ r, Inv (fn_refs r ++ E)).
Proof.
  intros Hm Ha. unfold event_fn in Hm. destruct args as [|v args]; [discriminate|].
  destruct v; try discriminate.
  assert (Strong l ∈ E) as HE by (apply Ha; rewrite refs_of_list_cons; left). clear Ha.
  repeat match type of Hm with
    | (if Nat.eqb n ?c then _ else _) = _ =>
        destruct (Nat.eqb n c);
        [injection Hm as <-; apply nil_result_ok;
         first [apply start_ioev_ok|apply stop_ioev_ok|apply toggle_ioev_ok|apply finalize_object_ok
               |apply timer_again_ok|apply timer_stop_ok|apply new_signal_prepare_ok|apply del_signal_prepare_ok];
         exact HE|]
    end.
  destruct args as [|[] [|[] []]]; try discriminate;
    repeat match type of Hm with
    | (if ?b then _ else _) = _ => destruct b
    end; try discriminate; injection Hm as <-;
    (apply nil_result_ok || apply object_result_ok);
    first [apply modify_ioev_ok|apply timer_set_ok|apply periodic_set_ok|apply create_ioev_ok
          |apply create_timer_ok|apply create_periodic_ok]; exact HE.
Qed.

Lemma event_dtor_ok n l m E :
  event_dtor K n l = Some m → Strong l ∈ E → spec (Inv E) m (λ _, Inv E).
Proof.
  intros Hm HE. unfold event_dtor in Hm.
  repeat match type of Hm with (if ?b then _ else _) = _ => destruct b; [injection Hm as <-|] end.
  - apply stop_ioev_ok, HE.
  - apply timer_stop_ok, HE.
  - apply periodic_dtor_ok, HE.
  - discriminate.
Qed.
End world.

(** C36. The event module keeps the contract of foreign code: whatever libev
    defines, its functions and destructors, called from anywhere with valid
    references, neither touch a freed object nor drop a reference they do not
    have, and every reference is accounted for when they return.  So the
    theorems about clients hold for programs that use the module. *)
Theorem event_world_ok (V : EvLib) (zero : double) (rest : World) (HW : WorldOk rest) :
  WorldOk (event_world V zero rest).
Proof.
  constructor.
  - intros K n caps args E HK Ha. cbn [w_fn event_world].
    destruct (event_fn V zero rest K n args) as [m|] eqn:Hm; [|apply (w_fn_ok (WorldOk := HW)); assumption].
    eapply spec_pre; [intros s [HI _]; exact HI|]. exact (event_fn_ok _ _ _ _ _ _ Hm Ha).
  - intros K n l args E HK. apply (w_call_ok (WorldOk := HW)), HK.
  - intros K n l E HK HE. cbn [w_dtor event_world].
    destruct (event_dtor K n l) as [m|] eqn:Hm; [|apply (w_dtor_ok (WorldOk := HW)); assumption].
    exact (event_dtor_ok _ _ _ _ Hm HE).
Qed.

(** ** The reference that starting an event leaks *)

(** [di_start_ioev] upgrades the member ["__deai"], and the strong
    reference to deai it used for that is never dropped: whenever it starts a
    watcher, deai is left with one reference that nothing can drop. *)
Theorem start_ioev_leaks {K : Kernel} (obj di : loc) (f : fields) (s s1 s' : state)
    (Hf : get_fields obj s = Done f s) (Hrun : ioev_running f = false)
    (Hdi : di_object_get_deai_weak obj s = Done (Some di) s1)
    (Hstart : di_start_ioev obj s = Done tt s') :
  Strong di ∈ s_leaked s'.
Proof.
  unfold di_start_ioev, mbind, ST_bind in Hstart. rewrite Hf, Hrun, Hdi in Hstart.
  destruct (ev_start di obj s1) as [[] s2| |]; [|discriminate..].
  destruct (upd_fields obj (set_running true) s2) as [[] s3| |]; [|discriminate..].
  destruct (di_object_upgrade_deai obj s3) as [[] s4| |]; [|discriminate..].
  injection Hstart as <-. cbn [s_leaked]. left.
Qed.

(** A program: an event on descriptor 0 that has been stopped again. *)
Definition demo_lib : EvLib := {| EV_READ := 1; EV_WRITE := 2; ev_timer_again_active _ _ := true |}.
Definition demo_world : World := event_world demo_lib (SpecFloat.S754_zero false) idle_world.
Definition demo_kernel : Kernel := kern (W := demo_world) 6.

Definition stopped_ioev : M (loc * loc) :=
  let V := demo_lib in let W := demo_world in let K := demo_kernel in
  di ← di_new_object_with_type ENone;
  r ← di_new_module di;
  em ← from_opt NullDeref r;
  io ← di_create_ioev em 0 1;
  di_stop_ioev io;;
  mret (di, io).

Lemma event_world_ok_witness : WorldOk demo_world.
Proof. exact (event_world_ok demo_lib (SpecFloat.S754_zero false) idle_world idle_world_ok). Defined.

Lemma start_ioev_leaks_witness :
  match stopped_ioev empty_state with
  | Done (di, io) s =>
      match di_start_ioev (K := demo_kernel) io s with Done _ s' => Strong di ∈ s_leaked s' | _ => False end
  | _ => False
  end.
Proof.
  destruct (stopped_ioev empty_state) as [[di io] s| |] eqn:E; [|vm_compute in E; discriminate..].
  vm_compute in E. injection E as <- <- <-.
  match goal with |- context [di_start_ioev ?io ?s] => destruct (di_start_ioev (K := demo_kernel) io s) as [[] s'| |] eqn:Hstart end;
    [|vm_compute in Hstart; discriminate..].
  eapply (start_ioev_leaks (K := demo_kernel)); [| | |exact Hstart]; vm_compute; reflexivity.
Defined.
