(* ===== verification/Log.v ===== *)
(** * The log module (log.c)

    Log levels and their names, the call handler of the module, and the file
    targets. *)

From S2P Require Import Prelude Text DiTypes Strings Conv Heap Account Object ObjectSpec Deai.

(** ** Levels *)

Definition DI_LOG_ERROR : Z := 0.
Definition DI_LOG_WARN : Z := 1.
Definition DI_LOG_INFO : Z := 2.
Definition DI_LOG_DEBUG : Z := 3.

(** [level_lookup]; [None] would be a read past the end of the buffer. *)
Definition level_lookup (l : di_string) : option Z :=
  let s := default EmptyString l in
  let n := String.length s in
  e ← strncasecmp0 n s "error";
  if (e : bool) then Some DI_LOG_ERROR
  else
    w ← strncasecmp0 n s "warn";
    if (w : bool) then Some DI_LOG_WARN
    else
      i ← strncasecmp0 n s "info";
      if (i : bool) then Some DI_LOG_INFO
      else
        d ← strncasecmp0 n s "debug";
        if (d : bool) then Some DI_LOG_DEBUG else Some (DI_LOG_DEBUG + 1)%Z.

(** [level_tostring] *)
Definition level_tostring (log_level : Z) : option string :=
  if Z.eqb log_level DI_LOG_DEBUG then Some "debug"%string
  else if Z.eqb log_level DI_LOG_INFO then Some "info"%string
  else if Z.eqb log_level DI_LOG_WARN then Some "warn"%string
  else if Z.eqb log_level DI_LOG_ERROR then Some "error"%string
  else None.

(** [get_log_level], on the field [log_level]; [strdup] of a null pointer is
    [None]. *)
Definition get_log_level (log_level : Z) : option string := level_tostring log_level.

(** [set_log_level]: the result, and the new level. *)
Definition set_log_level (log_level : Z) (ll : di_string) : option (Z * Z) :=
  nll ← level_lookup ll;
  Some (if (nll <=? DI_LOG_DEBUG)%Z then (0%Z, nll) else ((-1)%Z, log_level)).

(** [di_set_log_level] *)
Definition di_set_log_level (old log_level : Z) : Z * Z :=
  if (DI_LOG_DEBUG <? log_level)%Z then ((-1)%Z, old) else (0%Z, log_level).

(** [di_log_va]: whether the message is printed. *)
Definition di_log_va (threshold log_level : Z) : bool := negb (threshold <? log_level)%Z.

(** ** The call handler *)

Section log.
Context {K : Kernel}.

(** A string or string literal argument. *)
Definition str_arg (v : value) : option di_string :=
  match v with
  | VString s => Some s
  | VStringLiteral s => Some (Some s)
  | _ => None
  end.

(** [di_log]; [indet] is what the result holds when a message is below the
    level of the module, which the code does not set. *)
Definition di_log (indet : Z) (o : loc) (t : list value) : M (Z + value) :=
  match t with
  | [_; a; b] =>
      match str_arg a, str_arg b with
      | Some log_level, Some str =>
          x ← rd o;
          level ← match o_ext x with EFields (FLog n) => mret n | _ => fail TypeConfusion end;
          l ← from_opt OutOfBounds (level_lookup log_level);
          if (level <? l)%Z then mret (inr (VNInt indet))
          else
            r ← di_getxt o (Some "log_target"%string) DI_TYPE_OBJECT;
            match r with
            | inl _ => mret (inr (VNInt 0))
            | inr (VObject ltgt) =>
                w ← di_callr ltgt "write" DI_TYPE_NINT [VString str];
                unref_object ltgt;;
                match w with
                | inl rc => mret (inr (VNInt rc))
                | inr v => mret (inr v)
                end
            | inr _ => fail TypeConfusion
            end
      | _, _ => mret (inl EINVAL)
      end
  | _ => mret (inl EINVAL)
  end.
End log.

(** ** File targets *)

(** [file_target_write]: what is appended to the file, and the result; all
    bytes are written. *)
Definition file_target_write (log : di_string) : ST string Z :=
  let data := default EmptyString log in
  modify (λ out, out +:+ data);;
  match String.length data with
  | O => fail OutOfBounds
  | S n =>
      c ← from_opt OutOfBounds (String.get n data);
      (if Ascii.eqb c (chr 10) then mret tt else modify (λ out, out +:+ String (chr 10) EmptyString));;
      mret (Z.of_nat (S n))
  end.

(** The outcomes of the calls of [file_target], and how many files it leaves
    open. *)
Record file_calls := FileCalls { fc_fopen : bool; fc_fileno : bool; fc_fcntl : bool }.

Inductive target_result : Type :=
  | TargetError (msg : string)
  | TargetObject.

(** [file_target]; one message passes a [struct di_string] where the format
    expects a pointer to a C string. *)
Definition file_target (filename : di_string) (calls : file_calls) : ST nat target_result :=
  if Nat.ltb PATH_MAX (S (String.length (default EmptyString filename)))
  then mret (TargetError "Filename too long for file target")
  else if negb (fc_fopen calls) then fail Uninit
  else
    modify S;;
    if negb (fc_fileno calls) then
      modify pred;; mret (TargetError "Can't get the file descriptor")
    else if negb (fc_fcntl calls) then
      modify pred;; mret (TargetError "Can't set cloexec")
    else mret TargetObject.

(** ** Properties *)

Definition level_name (s name : string) : bool := starts_with (lower s) name.

(** A level name is looked up by its first letters, in any case: the level
    is the first of error, warn, info and debug that the name abbreviates, so
    that the empty name means error; anything else is refused and leaves the
    level as it was. *)
Theorem set_level_by_prefix (old : Z) (s : string) (Hs : has_char Ascii.zero s = false) :
  set_log_level old (Some s) = Some
    (if level_name s "error" then (0%Z, DI_LOG_ERROR)
     else if level_name s "warn" then (0%Z, DI_LOG_WARN)
     else if level_name s "info" then (0%Z, DI_LOG_INFO)
     else if level_name s "debug" then (0%Z, DI_LOG_DEBUG)
     else ((-1)%Z, old)).
Proof.
  unfold set_log_level, level_lookup, level_name. cbn [default].
  rewrite !strncasecmp0_prefix by exact Hs. cbn [mbind option_bind].
  change (lower "error") with "error"%string. change (lower "warn") with "warn"%string.
  change (lower "info") with "info"%string. change (lower "debug") with "debug"%string.
  destruct (starts_with _ "error"); [reflexivity|]. destruct (starts_with _ "warn"); [reflexivity|].
  destruct (starts_with _ "info"); [reflexivity|]. destruct (starts_with _ "debug"); reflexivity.
Qed.

Lemma level_lookup_total l : ∃ n, level_lookup l = Some n ∧ (0 ≤ n)%Z.
Proof.
  unfold level_lookup.
  repeat match goal with
  | |- context [strncasecmp0 _ ?a ?b] =>
      destruct (strncasecmp0_total a b) as [[] ->]; cbn [mbind option_bind]
  end; eexists; (split; [reflexivity|]); cbv; discriminate.
Qed.

(** The level of the module stays one of the four levels, whatever names it
    is set to; and setting it to the name of a level that was read gives back
    the level. *)
Theorem log_level_roundtrip (old level : Z) (ll : di_string)
    (Hold : (DI_LOG_ERROR ≤ old ≤ DI_LOG_DEBUG)%Z) (Hlevel : (DI_LOG_ERROR ≤ level ≤ DI_LOG_DEBUG)%Z) :
  (∃ rc new, set_log_level old ll = Some (rc, new) ∧ (DI_LOG_ERROR ≤ new ≤ DI_LOG_DEBUG)%Z) ∧
  ∃ name, get_log_level level = Some name ∧ set_log_level old (Some name) = Some (0%Z, level).
Proof.
  unfold DI_LOG_ERROR, DI_LOG_DEBUG in *. split.
  - unfold set_log_level. destruct (level_lookup_total ll) as (n & -> & Hn). cbn [mbind option_bind].
    unfold DI_LOG_DEBUG. destruct (Z.leb_spec n 3); do 2 eexists; (split; [reflexivity|lia]).
  - assert (level = 0 ∨ level = 1 ∨ level = 2 ∨ level = 3)%Z as [->|[->|[->| ->]]] by lia;
      eexists; (split; [reflexivity|reflexivity]).
Qed.

(** [file_target] leaves a file open if and only if it returns a target;
    when the file cannot be opened, building the error message uses an argument
    of the wrong type. *)
Theorem file_target_closes (filename : di_string) (calls : file_calls) (n : nat) :
  match file_target filename calls n with
  | Done TargetObject n' => n' = S n ∧ fc_fopen calls = true
  | Done (TargetError _) n' => n' = n
  | Crash c => c = Uninit ∧ fc_fopen calls = false
  | NoFuel => False
  end.
Proof.
  unfold file_target. destruct (Nat.ltb _ _); [reflexivity|].
  destruct calls as [[] [] []]; repeat split.
Qed.

Lemma set_level_by_prefix_witness :
  set_log_level DI_LOG_WARN (Some "Inf"%string) = Some (0%Z, DI_LOG_INFO) ∧
  set_log_level DI_LOG_WARN (Some ""%string) = Some (0%Z, DI_LOG_ERROR) ∧
  set_log_level DI_LOG_WARN (Some "information"%string) = Some ((-1)%Z, DI_LOG_WARN).
Proof.
  rewrite (set_level_by_prefix DI_LOG_WARN "Inf"), (set_level_by_prefix DI_LOG_WARN ""),
    (set_level_by_prefix DI_LOG_WARN "information") by reflexivity.
  repeat split.
Defined.

Lemma log_level_roundtrip_witness :
  ∃ name, get_log_level DI_LOG_INFO = Some name ∧ set_log_level DI_LOG_DEBUG (Some name) = Some (0%Z, DI_LOG_INFO).
Proof.
  apply (log_level_roundtrip DI_LOG_DEBUG DI_LOG_INFO None); unfold DI_LOG_ERROR, DI_LOG_DEBUG, DI_LOG_INFO; lia.
Defined.

Section specs.
Context {K : Kernel} {KO : KernelOk K}.

Lemma str_arg_refs v s : str_arg v = Some s → refs (VString s) = [].
Proof. reflexivity. Qed.

(** The call handler of the module. *)
Lemma log_ok E indet o t :
  Strong o ∈ E → spec (Inv E) (di_log indet o t) (λ r, Inv (rc_refs r ++ E)).
Proof.
  intros HE. unfold di_log. destruct t as [|v0 [|a [|b [|]]]]; try ret.
  destruct (str_arg a); [|ret]. destruct (str_arg b) as [str|]; [|ret].
  step (rd_ok E o HE). intros x. eapply spec_pre; [intros s [HI _]; exact HI|].
  eapply triple_bind with (R := λ _, Inv E).
  { destruct (o_ext x) as [| | | |[]|]; try crash. ret. }
  intros level. eapply triple_bind with (R := λ _, Inv E).
  { destruct (level_lookup _); [ret|crash]. }
  intros l. destruct (level <? l)%Z; [ret|].
  step (getxt_ok o (Some "log_target"%string) DI_TYPE_OBJECT E HE). intros [rc|v]; [ret|].
  destruct v; try crash. cbn [rc_refs refs app].
  step (callr_ok l0 "write" DI_TYPE_NINT [VString str] (Strong l0 :: E)); [left|set_solver|].
  intros w. eapply triple_bind.
  { eapply spec_perm; [|apply (unref_ok l0 (rc_refs w ++ E))]. by_count. }
  intros ?. destruct w; ret.
Qed.
End specs.
