(* ===== verification/Modules.v ===== *)
(** * The builtin modules (log.c, os.c, spawn.c)

    What registering them does to the core object.  The functions behind their
    methods are foreign code, called by number; Log, Os and Spawn say what they
    do. *)

From S2P Require Import Prelude DiTypes Heap Account Object ObjectSpec Callable Roots Deai Event Log.

Definition FN_LOG_WRITE : nat := 20.
Definition FN_FILE_TARGET : nat := 21.
Definition FN_STDERR_TARGET : nat := 22.
Definition FN_GET_LOG_LEVEL : nat := 23.
Definition FN_SET_LOG_LEVEL : nat := 24.
Definition CALL_LOG : call_kind := CallExt 0.
Definition FN_ENV_GET : nat := 25.
Definition FN_ENV_SET : nat := 26.
Definition FN_ENV_UNSET : nat := 27.
Definition FN_GET_HOSTNAME : nat := 28.
Definition FN_SPAWN_RUN : nat := 29.

Section modules.
Context {K : Kernel} {W : World}.

(** [stderr_target] *)
Definition stderr_target : M loc :=
  ls ← di_new_object_with_type ENone;
  _ ← di_set_type ls "deai.builtin.log:StderrTarget";
  di_set_object_dtor ls None;;
  _ ← di_add_method ls (Some "write"%string) FN_LOG_WRITE DI_TYPE_NINT [DI_TYPE_STRING];
  mret ls.

(** [di_init_log]; 192 is [sizeof(struct di_log)]. *)
Definition di_init_log (di : loc) : M unit :=
  r ← di_new_module_with_size di 192 (EFields (FLog 0));
  match r with
  | None => mret tt
  | Some l =>
      _ ← di_set_type l "deai.builtin:LogModule";
      upd_fields l (λ _, FLog DI_LOG_WARN);;
      dtgt ← stderr_target;
      _ ← di_add_member_move l (Some "log_target"%string) (VObject dtgt);
      di_set_object_call l (Some CALL_LOG);;
      _ ← di_add_method l (Some "file_target"%string) FN_FILE_TARGET DI_TYPE_OBJECT [DI_TYPE_STRING; DI_TYPE_BOOL];
      _ ← di_add_method l (Some "stderr_target"%string) FN_STDERR_TARGET DI_TYPE_OBJECT [];
      _ ← di_add_method l (Some "__get_log_level"%string) FN_GET_LOG_LEVEL DI_TYPE_STRING_LITERAL [];
      _ ← di_add_method l (Some "__set_log_level"%string) FN_SET_LOG_LEVEL DI_TYPE_NINT [DI_TYPE_STRING];
      _ ← di_register_module di (Some "log"%string) l;
      mret tt
  end.

(** [di_init_os] *)
Definition di_init_os (di : loc) : M unit :=
  r ← di_new_module di;
  m ← from_opt NullDeref r;
  o ← di_new_object_with_type ENone;
  _ ← di_set_type o "deai.builtin.os:Env";
  _ ← di_add_method o (Some "__get"%string) FN_ENV_GET DI_TYPE_VARIANT [DI_TYPE_STRING];
  _ ← di_add_method o (Some "__set"%string) FN_ENV_SET DI_TYPE_NIL [DI_TYPE_STRING; DI_TYPE_STRING];
  _ ← di_add_method o (Some "__delete"%string) FN_ENV_UNSET DI_TYPE_NIL [DI_TYPE_STRING];
  _ ← di_member m "env" (VObject o);
  _ ← di_add_method m (Some "__get_hostname"%string) FN_GET_HOSTNAME DI_TYPE_STRING_LITERAL [];
  _ ← di_register_module di (Some "os"%string) m;
  mret tt.

(** [di_init_spawn]; [subreaper] is the answer of [prctl].  192 is
    [sizeof(struct di_spawn)]. *)
Definition di_init_spawn (subreaper : Z) (di : loc) : M unit :=
  if negb (Z.eqb subreaper 0) then mret tt
  else
    r ← di_new_module_with_size di 192 ENone;
    m ← from_opt NullDeref r;
    _ ← di_add_method m (Some "run"%string) FN_SPAWN_RUN DI_TYPE_OBJECT [DI_TYPE_ARRAY; DI_TYPE_BOOL];
    _ ← di_register_module di (Some "spawn"%string) m;
    mret tt.
End modules.

(** ** Memory safety and reference accounting *)

Section specs.
Context {K : Kernel} {KO : KernelOk K} {W : World} {WO : WorldOk W}.

Lemma set_call_step E o c {A} (k : M A) Q :
  Strong o ∈ E → spec (Inv E) k Q → spec (Inv E) (di_set_object_call o c;; k) Q.
Proof.
  intros HE Hk. unfold di_set_object_call. eapply triple_bind; [apply upd_ok; [|exact HE]|].
  - intros o'. unfold obj_refs. auto.
  - intros ?. exact Hk.
Qed.

(** A local variable is moved into a member. *)
Lemma move_object_step E o name l {A} (k : M A) Q :
  Strong o ∈ E → spec (Inv E) k Q → spec (Inv (Strong l :: E)) (_ ← di_add_member_move o name (VObject l); k) Q.
Proof. intros HE Hk. step (add_member_move_ok o name (VObject l) E HE). intros ?. exact Hk. Qed.

Lemma emit_event_step E what args {A} (k : M A) Q :
  spec (Inv E) k Q → spec (Inv E) (emit_event what args;; k) Q.
Proof. intros Hk. step (emit_event_ok E). intros ?. exact Hk. Qed.

Lemma new_module_step E di size x {A} (k : loc → M A) Q :
  Strong di ∈ E → ext_refs x = [] →
  (∀ m, spec (Inv (Strong m :: E)) (k m) Q) →
  spec (Inv E) (r ← di_new_module_with_size di size x; m ← from_opt NullDeref r; k m) Q.
Proof.
  intros HE Hx Hk. eapply triple_bind.
  - pose proof (new_module_with_size_ok di size x E HE) as H. rewrite Hx in H. exact H.
  - intros [m|]; [exact (Hk m)|crash].
Qed.

Lemma stderr_target_ok E : spec (Inv E) stderr_target (λ l, Inv (Strong l :: E)).
Proof.
  unfold stderr_target. step (new_object_with_type_ok E ENone). intros l.
  apply set_type_step; [left|]. apply set_dtor_step; [left|]. apply add_method_step; [left|]. ret.
Qed.

Lemma init_log_ok E di : Strong di ∈ E → spec (Inv E) (di_init_log di) (λ _, Inv E).
Proof.
  intros HE. unfold di_init_log. step (new_module_with_size_ok di 192 (EFields (FLog 0)) E HE).
  intros [l|]; [|ret]. apply set_type_step; [left|]. apply upd_fields_step; [left|].
  step (stderr_target_ok (Strong l :: E)). intros d. apply move_object_step; [left|].
  apply set_call_step; [left|]. do 4 (apply add_method_step; [left|]).
  apply move_object_step; [exact HE|]. ret.
Qed.

Lemma init_os_ok E di : Strong di ∈ E → spec (Inv E) (di_init_os di) (λ _, Inv E).
Proof.
  intros HE. apply new_module_step; [exact HE|reflexivity|]. intros m.
  step (new_object_with_type_ok (Strong m :: E) ENone). intros o.
  apply set_type_step; [left|]. do 3 (apply add_method_step; [left|]).
  apply move_object_step; [left|]. apply add_method_step; [left|].
  apply move_object_step; [exact HE|]. ret.
Qed.

Lemma init_spawn_ok E subreaper di : Strong di ∈ E → spec (Inv E) (di_init_spawn subreaper di) (λ _, Inv E).
Proof.
  intros HE. unfold di_init_spawn. destruct (negb _); [ret|].
  apply new_module_step; [exact HE|reflexivity|]. intros m.
  apply add_method_step; [left|]. apply move_object_step; [exact HE|]. ret.
Qed.
End specs.
