(* ===== verification/Sedes.v ===== *)
(** * Type signatures and serialization of D-Bus messages (plugins/dbus/sedes.c)

    The type signature of a value is computed twice, first its length and then
    its characters, into a buffer of that length; the serializer then reads,
    and temporarily overwrites, the buffer.  The calls to libdbus are a trace.
    Reading messages is in Deser. *)

From S2P Require Import Prelude DiTypes.

Local Open Scope Z_scope.

(** ** What libdbus defines *)

(** The type codes, which are characters, and [dbus_type_is_basic]. *)
Class Dbus := {
  DBUS_TYPE_BOOLEAN : Z; DBUS_TYPE_INT16 : Z; DBUS_TYPE_INT32 : Z; DBUS_TYPE_INT64 : Z;
  DBUS_TYPE_UINT16 : Z; DBUS_TYPE_UINT32 : Z; DBUS_TYPE_UINT64 : Z; DBUS_TYPE_DOUBLE : Z;
  DBUS_TYPE_STRING : Z; DBUS_TYPE_UNIX_FD : Z; DBUS_TYPE_ARRAY : Z; DBUS_TYPE_STRUCT : Z;
  DBUS_TYPE_INVALID : Z;
  dbus_type_is_basic : Z → bool
}.

(** What the code relies on. *)
Class DbusOk (D : Dbus) : Prop := {
  basic_codes : ∀ c, c ∈ [DBUS_TYPE_BOOLEAN; DBUS_TYPE_INT32; DBUS_TYPE_INT64; DBUS_TYPE_UINT32;
    DBUS_TYPE_UINT64; DBUS_TYPE_DOUBLE; DBUS_TYPE_STRING] → dbus_type_is_basic c = true;
  container_codes : ∀ c, c ∈ [DBUS_TYPE_ARRAY; DBUS_TYPE_STRUCT; DBUS_TYPE_INVALID] → dbus_type_is_basic c = false;
  string_code : ∀ c, c ∈ [DBUS_TYPE_BOOLEAN; DBUS_TYPE_INT32; DBUS_TYPE_INT64; DBUS_TYPE_UINT32;
    DBUS_TYPE_UINT64; DBUS_TYPE_DOUBLE] → c ≠ DBUS_TYPE_STRING;
  array_code : DBUS_TYPE_ARRAY = 97;
  char_codes : ∀ c, dbus_type_is_basic c = true → c ≠ 41 ∧ c ≠ 0
}.

(** The values of the D-Bus specification. *)
Definition dbus_spec : Dbus := {|
  DBUS_TYPE_BOOLEAN := 98; DBUS_TYPE_INT16 := 110; DBUS_TYPE_INT32 := 105; DBUS_TYPE_INT64 := 120;
  DBUS_TYPE_UINT16 := 113; DBUS_TYPE_UINT32 := 117; DBUS_TYPE_UINT64 := 116; DBUS_TYPE_DOUBLE := 100;
  DBUS_TYPE_STRING := 115; DBUS_TYPE_UNIX_FD := 104; DBUS_TYPE_ARRAY := 97; DBUS_TYPE_STRUCT := 114;
  DBUS_TYPE_INVALID := 0;
  dbus_type_is_basic c := bool_decide (c ∈ [98; 110; 105; 120; 113; 117; 116; 100; 115; 104; 111; 103; 121])
|}.

Lemma dbus_spec_ok : DbusOk dbus_spec.
Proof.
  constructor; [| | |reflexivity|intros c Hc; split; intros ->; discriminate]; intros c Hc;
    repeat (apply elem_of_cons in Hc as [->|Hc]; [first [reflexivity|discriminate]|]); inversion Hc.
Qed.

(** A buffer from [malloc]: [None] is a byte that has not been written. *)
Abbreviation buffer := (list (option Z)) (only parsing).

(** ** Types *)

Section types.
Context {D : Dbus}.

(** [dbus_type_to_di] *)
Definition dbus_type_to_di (type : Z) : di_type :=
  if type =? DBUS_TYPE_BOOLEAN then DI_TYPE_BOOL
  else if (type =? DBUS_TYPE_INT16) || (type =? DBUS_TYPE_INT32) || (type =? DBUS_TYPE_INT64) then DI_TYPE_INT
  else if (type =? DBUS_TYPE_UINT16) || (type =? DBUS_TYPE_UINT32) || (type =? DBUS_TYPE_UINT64) then DI_TYPE_UINT
  else if type =? DBUS_TYPE_DOUBLE then DI_TYPE_FLOAT
  else if type =? DBUS_TYPE_STRING then DI_TYPE_STRING
  else if type =? DBUS_TYPE_UNIX_FD then DI_TYPE_INT
  else if (type =? DBUS_TYPE_ARRAY) || (type =? DBUS_TYPE_STRUCT) then DI_TYPE_ARRAY
  else DI_LAST_TYPE.

(** [di_type_to_dbus_basic]: [DI_PANIC] for the types no value has. *)
Definition di_type_to_dbus_basic {S} (type : di_type) : ST S Z :=
  match type with
  | DI_TYPE_BOOL => mret DBUS_TYPE_BOOLEAN
  | DI_TYPE_INT => mret DBUS_TYPE_INT64
  | DI_TYPE_UINT => mret DBUS_TYPE_UINT64
  | DI_TYPE_NINT => mret DBUS_TYPE_INT32
  | DI_TYPE_NUINT => mret DBUS_TYPE_UINT32
  | DI_TYPE_FLOAT => mret DBUS_TYPE_DOUBLE
  | DI_TYPE_STRING | DI_TYPE_STRING_LITERAL => mret DBUS_TYPE_STRING
  | DI_TYPE_ARRAY => mret DBUS_TYPE_ARRAY
  | DI_TYPE_TUPLE => mret DBUS_TYPE_STRUCT
  | DI_TYPE_ANY | DI_LAST_TYPE => fail CheckFailed
  | DI_TYPE_NIL | DI_TYPE_POINTER | DI_TYPE_OBJECT | DI_TYPE_WEAK_OBJECT | DI_TYPE_VARIANT =>
      mret DBUS_TYPE_INVALID
  end.

(** ** The length of a signature *)

(** What [type_signature_length_of_di_value] does with a pointer past the end of
    an array, or into a null array: a basic type is not read. *)
Definition length_unread {S} (type : di_type) : ST S Z :=
  dtype ← di_type_to_dbus_basic type;
  if dbus_type_is_basic dtype then mret 1
  else match type with
       | DI_TYPE_ARRAY | DI_TYPE_TUPLE => fail OutOfBounds
       | _ => mret (-1)
       end.

(** The loop that compares the other elements with the first: one of them may
    have another length. *)
Fixpoint same_length {S} (v0 : Z) (vs : list (ST S Z)) : ST S bool :=
  match vs with
  | [] => mret true
  | m :: vs' => v ← m; if v =? v0 then same_length v0 vs' else mret false
  end.

(** The sum of the lengths of the elements of a tuple, or the first error. *)
Fixpoint sum_lengths {S} (ret : Z) (vs : list (ST S Z)) : ST S (Z + Z) :=
  match vs with
  | [] => mret (inr ret)
  | m :: vs' => tmp ← m; if tmp <? 0 then mret (inl tmp) else sum_lengths (ret + tmp) vs'
  end.

(** [type_signature_length_of_di_value].  The loop over the elements of an array
    is bounded by the number of the element type, [arr->elem_type], instead of
    the length of the array. *)
Fixpoint type_signature_length_of_di_value {S} (v : value) : ST S Z :=
  dtype ← di_type_to_dbus_basic (type_of v);
  if dbus_type_is_basic dtype then mret 1
  else
    match v with
    | VArray t _ l =>
        let elem (i : nat) : ST S Z :=
          nth i (map type_signature_length_of_di_value l) (length_unread t) in
        v0 ← elem O;
        _ ← from_opt CheckFailed (di_sizeof_type t);
        same ← same_length v0 (map elem (seq 1 (type_code t - 1)));
        mret (if (same : bool) then 1 + v0 else -1)
    | VTuple l =>
        ret ← sum_lengths 0 (map type_signature_length_of_di_value l);
        mret (match ret with inl tmp => tmp | inr n => n + 2 end)
    | _ => mret (-1)
    end.

(** ** The characters of a signature *)

Definition rd_raw (p : nat) : ST buffer (option Z) := λ b,
  match b !! p with Some c => Done c b | None => Crash OutOfBounds end.
Definition rd_char (p : nat) : ST buffer Z := c ← rd_raw p; from_opt Uninit c.
Definition wr_raw (p : nat) (c : option Z) : ST buffer unit := λ b,
  match b !! p with Some _ => Done tt (<[p := c]> b) | None => Crash OutOfBounds end.
Definition wr_char (p : nat) (c : Z) : ST buffer unit := wr_raw p (Some c).

Definition CHAR_a : Z := 97.
Definition CHAR_open : Z := 40.
Definition CHAR_close : Z := 41.

(** [verify_type_signature] on a pointer that must not be read. *)
Definition verify_unread (type : di_type) (signature : nat) : ST buffer (option nat) :=
  dtype ← di_type_to_dbus_basic type;
  if dbus_type_is_basic dtype then
    c ← rd_char signature; mret (if dtype =? c then Some (S signature) else None)
  else match type with DI_TYPE_ARRAY => fail OutOfBounds | _ => mret None end.

(** All elements of an array match. *)
Fixpoint verify_all (vs : list (ST buffer (option nat))) : ST buffer bool :=
  match vs with
  | [] => mret true
  | m :: vs' =>
      r ← m;
      match r with Some _ => verify_all vs' | None => mret false end
  end.

(** The loop over an array of variants. *)
Fixpoint verify_variants (vs : list (nat → ST buffer (option nat))) (curr : nat) : ST buffer (option nat) :=
  match vs with
  | [] => mret (Some curr)
  | m :: vs' =>
      next ← m curr;
      match next with Some c => verify_variants vs' c | None => mret None end
  end.

(** [verify_type_signature]; the branch for arrays of variants ends without
    returning what it found. *)
Fixpoint verify_type_signature (v : value) (signature : nat) : ST buffer (option nat) :=
  dtype ← di_type_to_dbus_basic (type_of v);
  if dbus_type_is_basic dtype then
    c ← rd_char signature; mret (if dtype =? c then Some (S signature) else None)
  else
    match v with
    | VArray t _ l =>
        c ← rd_char signature;
        if bool_decide (t = DI_TYPE_VARIANT) then
          if negb (c =? CHAR_open) then mret None
          else
            r ← verify_variants
                  (map (λ x, match x with VVariant w => verify_type_signature w | _ => λ _, fail TypeConfusion end) l)
                  signature;
            match r with
            | None => mret None
            | Some curr => _ ← rd_char curr; mret None
            end
        else if negb (c =? CHAR_a) then mret None
        else
          _ ← from_opt CheckFailed (di_sizeof_type t);
          let elems := map (λ x, verify_type_signature x (S signature)) l in
          ret ← match elems with m :: _ => m | [] => verify_unread t (S signature) end;
          ok ← verify_all (tl elems);
          mret (if (ok : bool) then ret else None)
    | _ => mret None
    end.

(** [struct dbus_signature]: [None] is a null [current], with the error in
    [length]. *)
Inductive dbus_signature : Type :=
  DSig (current : option nat) (length : Z) (child : list dbus_signature).

Definition sig_current (s : dbus_signature) : option nat := match s with DSig c _ _ => c end.
Definition sig_length (s : dbus_signature) : Z := match s with DSig _ n _ => n end.
Definition sig_child (s : dbus_signature) : list dbus_signature := match s with DSig _ _ l => l end.
Definition sig_error : dbus_signature := DSig None EINVAL [].

(** [type_signature_of_di_value_to_buffer] on a pointer that must not be read. *)
Definition sig_unread (type : di_type) (p : nat) : ST buffer dbus_signature :=
  dtype ← di_type_to_dbus_basic type;
  if dbus_type_is_basic dtype then wr_char p dtype;; mret (DSig (Some p) 1 [])
  else match type with
       | DI_TYPE_ARRAY => wr_char p CHAR_a;; fail OutOfBounds
       | DI_TYPE_TUPLE => wr_char p CHAR_open;; fail OutOfBounds
       | _ => mret sig_error
       end.

(** The loop over the elements of a tuple: the signatures, their total length
    and the end, or the first one that failed. *)
Fixpoint sig_elements (ms : list (nat → ST buffer dbus_signature)) (curr : nat) (len : Z)
    : ST buffer (dbus_signature + list dbus_signature * Z * nat) :=
  match ms with
  | [] => mret (inr ([], len, curr))
  | m :: ms' =>
      s ← m curr;
      match sig_current s with
      | None => mret (inl s)
      | Some _ =>
          r ← sig_elements ms' (curr + Z.to_nat (sig_length s))%nat (len + sig_length s);
          mret (match r with
                | inl e => inl e
                | inr (ss, n, c) => inr (s :: ss, n, c)
                end)
      end
  end.

(** [type_signature_of_di_value_to_buffer] *)
Fixpoint to_buffer (v : value) (p : nat) : ST buffer dbus_signature :=
  dtype ← di_type_to_dbus_basic (type_of v);
  if dbus_type_is_basic dtype then wr_char p dtype;; mret (DSig (Some p) 1 [])
  else
    match v with
    | VArray t null l =>
        wr_char p CHAR_a;;
        res ← match l with x :: _ => to_buffer x (S p) | [] => sig_unread t (S p) end;
        ok ← verify_type_signature v p;
        match ok with
        | None => mret sig_error
        | Some _ => mret (DSig (Some p) (sig_length res + 1) [res])
        end
    | VTuple l =>
        wr_char p CHAR_open;;
        r ← sig_elements (map to_buffer l) (S p) 2;
        match r with
        | inl e => mret e
        | inr (ss, len, curr) => wr_char curr CHAR_close;; mret (DSig (Some p) len ss)
        end
    | _ => mret sig_error
    end.

(** [type_signature_of_di_value]: the signature and the buffer it is in. *)
Definition type_signature_of_di_value (v : value) : ST buffer dbus_signature :=
  len ← type_signature_length_of_di_value v;
  if len <? 0 then mret sig_error
  else put (replicate (Z.to_nat (len + 1)) None);; to_buffer v O.
End types.

(** ** Serialization *)

(** Calls to libdbus that write to the message. *)
Inductive dbus_call : Type :=
  | AppendBasic (dtype : Z) (v : value)
  | OpenContainer (dtype : Z) (contained : option (list Z))
  | AppendFixed (atype : Z) (elems : list value)
  | CloseContainer.

(** The signature buffer, the calls made so far, the results of the calls to
    [dbus_message_iter_open_container] to come (true when the list ends), and
    whether the signature has been freed. *)
Record ser := Ser { se_buf : buffer; se_calls : list dbus_call; se_opens : list bool; se_freed : bool }.

Definition on_sig {A} (m : ST buffer A) : ST ser A := λ s,
  match m (se_buf s) with
  | Done a b => Done a (Ser b (se_calls s) (se_opens s) (se_freed s))
  | Crash c => Crash c
  | NoFuel => NoFuel
  end.

Definition dbus_write (c : dbus_call) : ST ser unit :=
  modify (λ s, Ser (se_buf s) (se_calls s ++ [c]) (se_opens s) (se_freed s)).

Definition open_container (dtype : Z) (contained : option (list Z)) : ST ser bool := λ s,
  match se_opens s with
  | false :: o => Done false (Ser (se_buf s) (se_calls s) o (se_freed s))
  | o => Done true (Ser (se_buf s) (se_calls s ++ [OpenContainer dtype contained]) (tl o) (se_freed s))
  end.

(** The C string at [p]. *)
Fixpoint read_cstr (fuel p : nat) : ST buffer (list Z) :=
  match fuel with
  | O => fail OutOfBounds
  | S k =>
      c ← rd_char p;
      if c =? 0 then mret [] else rest ← read_cstr k (S p); mret (c :: rest)
  end.

Definition cur (si : dbus_signature) : ST ser nat := from_opt NullDeref (sig_current si).

(** [si.current[n] ] *)
Definition sig_char (si : dbus_signature) : ST ser Z := p ← cur si; on_sig (rd_char p).

(** A loop that stops at the first error. *)
Fixpoint until_error (ms : list (ST ser Z)) : ST ser Z :=
  match ms with
  | [] => mret 0
  | m :: ms' => ret ← m; if ret <? 0 then mret ret else until_error ms'
  end.

(** Each of [ms] on the child signature of its index. *)
Definition with_children (si : dbus_signature) (ms : list (dbus_signature → ST ser Z)) : list (ST ser Z) :=
  imap (λ i m, m (nth i (sig_child si) sig_error)) ms.

Section serialize.
Context {D : Dbus}.

(** [dbus_serialize_with_signature].  The character that is restored after the
    container is opened is taken [si.length] bytes into the signature of the
    elements, one byte after the one that was overwritten. *)
Fixpoint dbus_serialize_with_signature (v : value) (si : dbus_signature) : ST ser Z :=
  dtype ← di_type_to_dbus_basic (type_of v);
  if dbus_type_is_basic dtype then
    c ← sig_char si;
    check (dtype =? c);;
    dbus_write (AppendBasic dtype v);;
    mret 0
  else
    match v with
    | VArray t _ l =>
        if bool_decide (t = DI_TYPE_VARIANT) then
          check (dtype =? DBUS_TYPE_STRUCT);;
          c ← sig_char si;
          check (c =? CHAR_open);;
          check (sig_length si =? Z.of_nat (length l));;
          ok ← open_container dtype None;
          if negb ok then mret ENOMEM
          else
            ret ← until_error (with_children si
              (map (λ x, match x with
                         | VVariant w => dbus_serialize_with_signature w
                         | _ => λ _, fail TypeConfusion
                         end) l));
            mret (if ret <? 0 then ret else EINVAL)
        else
          check (dtype =? DBUS_TYPE_ARRAY);;
          c ← sig_char si;
          check (dtype =? c);;
          atype ← di_type_to_dbus_basic t;
          si2 ← match sig_child si with [s] => mret s | _ => fail CheckFailed end;
          if dbus_type_is_basic atype && negb (atype =? DBUS_TYPE_STRING) then
            c2 ← sig_char si2;
            check (atype =? c2);;
            ok ← open_container dtype (Some [atype]);
            if negb ok then mret ENOMEM
            else dbus_write (AppendFixed atype l);; dbus_write CloseContainer;; mret 0
          else
            p ← cur si2;
            tmp ← on_sig (rd_raw (p + Z.to_nat (sig_length si)));
            on_sig (wr_char (p + Z.to_nat (sig_length si2)) 0);;
            _ ← from_opt CheckFailed (di_sizeof_type t);
            contained ← on_sig (λ b, read_cstr (length b) p b);
            ok ← open_container dtype (Some contained);
            on_sig (wr_raw (p + Z.to_nat (sig_length si2)) tmp);;
            if negb ok then mret ENOMEM
            else
              ret ← until_error (map (λ x, dbus_serialize_with_signature x si2) l);
              if ret <? 0 then mret ret else dbus_write CloseContainer;; mret 0
    | _ => mret EINVAL
    end.

(** [_dbus_serialize_struct]; the signature is not freed after an error. *)
Definition _dbus_serialize_struct (t : list value) : ST ser Z :=
  sig ← on_sig (type_signature_of_di_value (VTuple t));
  match sig_current sig with
  | None => mret (sig_length sig)
  | Some _ =>
      ret ← until_error (with_children sig (map dbus_serialize_with_signature t));
      if ret <? 0 then mret ret
      else modify (λ s, Ser (se_buf s) (se_calls s) (se_opens s) true);; mret 0
  end.
End serialize.

Definition no_calls : ser := Ser [] [] [] false.

(** ** The signature of a value *)

Section signature.
Context {D : Dbus} {DO : DbusOk D}.

(** The code of a basic type. *)
Definition basic_code (t : di_type) : option Z :=
  match t with
  | DI_TYPE_BOOL => Some DBUS_TYPE_BOOLEAN
  | DI_TYPE_INT => Some DBUS_TYPE_INT64
  | DI_TYPE_UINT => Some DBUS_TYPE_UINT64
  | DI_TYPE_NINT => Some DBUS_TYPE_INT32
  | DI_TYPE_NUINT => Some DBUS_TYPE_UINT32
  | DI_TYPE_FLOAT => Some DBUS_TYPE_DOUBLE
  | DI_TYPE_STRING | DI_TYPE_STRING_LITERAL => Some DBUS_TYPE_STRING
  | _ => None
  end.

Lemma basic_dbus {S} t c (s : S) :
  basic_code t = Some c → di_type_to_dbus_basic t s = Done c s ∧ dbus_type_is_basic c = true.
Proof.
  destruct t; try discriminate; intros [= <-]; (split; [reflexivity|apply basic_codes; set_solver]).
Qed.

(** The signature of the values that can be sent: basic values, arrays of them,
    and tuples of sendable values. *)
Fixpoint sig_str (v : value) : option (list Z) :=
  match v with
  | VArray t _ l =>
      c ← basic_code t;
      if forallb (λ x, bool_decide (type_of x = t)) l then Some [CHAR_a; c] else None
  | VTuple l =>
      cs ← (fix go l := match l with
                        | [] => Some []
                        | x :: l' => a ← sig_str x; b ← go l'; Some (a ++ b)
                        end) l;
      Some (CHAR_open :: cs ++ [CHAR_close])
  | v => c ← basic_code (type_of v); Some [c]
  end.

Fixpoint sig_strs (l : list value) : option (list Z) :=
  match l with
  | [] => Some []
  | x :: l' => a ← sig_str x; b ← sig_strs l'; Some (a ++ b)
  end.

Lemma sig_str_tuple l : sig_str (VTuple l) = cs ← sig_strs l; Some (CHAR_open :: cs ++ [CHAR_close]).
Proof. cbn [sig_str]. f_equal. Qed.

(** The offsets and lengths of the parts of a signature. *)
Fixpoint sig_tree (v : value) (p : nat) : dbus_signature :=
  match v with
  | VArray _ _ _ => DSig (Some p) 2 [DSig (Some (S p)) 1 []]
  | VTuple l =>
      let r := (fix go l p := match l with
                              | [] => ([], p)
                              | x :: l' =>
                                  let s := sig_tree x p in
                                  let r := go l' (p + Z.to_nat (sig_length s))%nat in
                                  (s :: r.1, r.2)
                              end) l (S p) in
      DSig (Some p) (Z.of_nat (S r.2 - p)) r.1
  | _ => DSig (Some p) 1 []
  end.

Fixpoint sig_trees (l : list value) (p : nat) : list dbus_signature * nat :=
  match l with
  | [] => ([], p)
  | x :: l' =>
      let s := sig_tree x p in
      let r := sig_trees l' (p + Z.to_nat (sig_length s))%nat in
      (s :: r.1, r.2)
  end.

Lemma sig_tree_tuple l p :
  sig_tree (VTuple l) p =
    DSig (Some p) (Z.of_nat (S (sig_trees l (S p)).2 - p)) (sig_trees l (S p)).1.
Proof. reflexivity. Qed.

(** *** The length *)

Lemma length_basic {S} t c v (s : S) :
  basic_code t = Some c → type_of v = t → type_signature_length_of_di_value v s = Done 1 s.
Proof.
  intros Hc <-. destruct (basic_dbus _ _ s Hc) as [E1 E2].
  destruct v; cbn [type_signature_length_of_di_value]; unfold mbind, ST_bind; rewrite E1, E2; reflexivity.
Qed.

Lemma length_unread_basic {S} t c (s : S) :
  basic_code t = Some c → length_unread t s = Done 1 s.
Proof.
  intros Hc. destruct (basic_dbus _ _ s Hc) as [E1 E2].
  unfold length_unread, mbind, ST_bind. rewrite E1, E2. reflexivity.
Qed.

Lemma same_length_all {S} v0 ms (s : S) :
  (∀ m, m ∈ ms → m s = Done v0 s) → same_length v0 ms s = Done true s.
Proof.
  induction ms as [|m ms IH]; intros Hm; [reflexivity|].
  cbn [same_length]. unfold mbind, ST_bind. rewrite (Hm m) by left. rewrite Z.eqb_refl.
  apply IH. intros m' Hm'. apply Hm. right. exact Hm'.
Qed.

(** An element of an array of a basic type, in bounds or not. *)
Lemma elem_length {S} t c l i (s : S) :
  basic_code t = Some c → (∀ x, x ∈ l → type_of x = t) →
  nth i (map type_signature_length_of_di_value l) (length_unread t) s = Done 1 s.
Proof.
  intros Hc Hl. destruct (decide (i < length l)%nat) as [Hi|Hi].
  - rewrite (nth_indep _ _ (type_signature_length_of_di_value VNil)) by (rewrite length_map; exact Hi).
    rewrite map_nth. apply (length_basic t c); [exact Hc|]. apply Hl, list_elem_of_In, nth_In. exact Hi.
  - rewrite nth_overflow by (rewrite length_map; lia). exact (length_unread_basic t c s Hc).
Qed.

Lemma basic_sizeof t c : basic_code t = Some c → is_Some (di_sizeof_type t).
Proof. destruct t; try discriminate; cbn; eauto. Qed.

Lemma array_dbus {S} (s : S) :
  di_type_to_dbus_basic DI_TYPE_ARRAY s = Done DBUS_TYPE_ARRAY s ∧ dbus_type_is_basic DBUS_TYPE_ARRAY = false.
Proof. split; [reflexivity|apply container_codes; set_solver]. Qed.

Lemma tuple_dbus {S} (s : S) :
  di_type_to_dbus_basic DI_TYPE_TUPLE s = Done DBUS_TYPE_STRUCT s ∧ dbus_type_is_basic DBUS_TYPE_STRUCT = false.
Proof. split; [reflexivity|apply container_codes; set_solver]. Qed.

Lemma forallb_types t l : forallb (λ x, bool_decide (type_of x = t)) l = true → ∀ x, x ∈ l → type_of x = t.
Proof.
  rewrite forallb_forall. intros H x Hx%list_elem_of_In. specialize (H x Hx). case_bool_decide; congruence.
Qed.

Lemma length_array {S} t null l c (s : S) :
  basic_code t = Some c → (∀ x, x ∈ l → type_of x = t) →
  type_signature_length_of_di_value (VArray t null l) s = Done 2 s.
Proof.
  intros Hc Hl. cbn [type_signature_length_of_di_value type_of]. unfold mbind, ST_bind.
  destruct (array_dbus s) as [E1 E2]. rewrite E1, E2.
  rewrite (elem_length t c) by assumption. destruct (basic_sizeof t c Hc) as [n ->]. cbn [from_opt mret ST_ret].
  rewrite same_length_all; [reflexivity|]. intros m Hm.
  apply list_elem_of_In, in_map_iff in Hm as (i & <- & _). exact (elem_length t c l i s Hc Hl).
Qed.

Lemma sum_lengths_ok {S} l cs n (s : S) :
  sig_strs l = Some cs →
  Forall (λ v, ∀ cs (s : S), sig_str v = Some cs →
    type_signature_length_of_di_value v s = Done (Z.of_nat (length cs)) s) l →
  sum_lengths n (map type_signature_length_of_di_value l) s = Done (inr (n + Z.of_nat (length cs))) s.
Proof.
  revert n cs. induction l as [|x l IH]; intros n cs Hcs Hl.
  - injection Hcs as <-. cbn. unfold mret, ST_ret. do 2 f_equal. lia.
  - cbn [sig_strs] in Hcs. destruct (sig_str x) as [a|] eqn:Ea; [|discriminate]. cbn [mbind option_bind] in Hcs.
    destruct (sig_strs l) as [b|] eqn:Eb; [|discriminate]. injection Hcs as <-.
    inversion Hl as [|? ? Hx Hl' E1]; subst. cbn [map sum_lengths]. unfold mbind, ST_bind.
    rewrite (Hx a s Ea). rewrite (proj2 (Z.ltb_ge _ _)) by lia.
    rewrite (IH _ b eq_refl Hl'), length_app. do 2 f_equal. lia.
Qed.

Lemma length_ok v : ∀ {S} cs (s : S),
  sig_str v = Some cs → type_signature_length_of_di_value v s = Done (Z.of_nat (length cs)) s.
Proof.
  induction v as [v Hv|t null l IH|l IH|v IH] using value_ind'; intros S cs s Hcs.
  - assert (∃ c, basic_code (type_of v) = Some c ∧ cs = [c]) as (c & Hc & ->).
    { destruct v; try destruct Hv; cbn in Hcs; simplify_eq; eauto. }
    exact (length_basic _ _ _ s Hc eq_refl).
  - cbn [sig_str] in Hcs. destruct (basic_code t) as [c|] eqn:Hc; [|discriminate]. cbn [mbind option_bind] in Hcs.
    destruct (forallb _ l) eqn:Hl; [|discriminate]. injection Hcs as <-.
    exact (length_array t null l c s Hc (forallb_types t l Hl)).
  - rewrite sig_str_tuple in Hcs. destruct (sig_strs l) as [ss|] eqn:Es; [|discriminate]. injection Hcs as <-.
    cbn [type_signature_length_of_di_value type_of]. unfold mbind, ST_bind.
    destruct (tuple_dbus s) as [E1 E2]. rewrite E1, E2.
    rewrite (sum_lengths_ok l ss 0 s Es).
    + cbn [mret ST_ret length]. unfold mret, ST_ret. rewrite length_app. cbn [length]. f_equal. lia.
    + eapply Forall_impl; [exact IH|]. intros x Hx cs' s'. exact (Hx S cs' s').
  - discriminate.
Qed.

(** *** The characters *)

(** [b'] is [b] with [cs] written at [p]. *)
Definition written (p : nat) (cs : list Z) (b b' : buffer) : Prop :=
  length b' = length b ∧
  ∀ j, b' !! j = if decide (p ≤ j < p + length cs)%nat then Some <$> cs !! (j - p)%nat else b !! j.

Lemma written_nil p b : written p [] b b.
Proof. split; [reflexivity|]. intros j. rewrite decide_False by (cbn; lia). reflexivity. Qed.

Lemma written_app p cs1 cs2 b b1 b2 :
  written p cs1 b b1 → written (p + length cs1) cs2 b1 b2 → written p (cs1 ++ cs2) b b2.
Proof.
  intros [L1 H1] [L2 H2]. split; [congruence|]. intros j. rewrite H2, length_app.
  case_decide as E2.
  - rewrite decide_True by lia. rewrite lookup_app_r by lia. do 2 f_equal. lia.
  - rewrite H1. case_decide as E1.
    + rewrite decide_True by lia. rewrite lookup_app_l by lia. reflexivity.
    + rewrite decide_False by lia. reflexivity.
Qed.

Lemma wr_char_written p c b :
  (p < length b)%nat → ∃ b', wr_char p c b = Done tt b' ∧ written p [c] b b'.
Proof.
  intros Hp. unfold wr_char, wr_raw. destruct (lookup_lt_is_Some_2 b p Hp) as [x ->].
  eexists. split; [reflexivity|]. split; [apply length_insert|]. intros j. cbn [length].
  case_decide as E.
  - replace j with p by lia. rewrite Nat.sub_diag, list_lookup_insert_eq by exact Hp. reflexivity.
  - apply list_lookup_insert_ne. lia.
Qed.

Lemma written_char p cs b b' i c :
  written p cs b b' → cs !! i = Some c → b' !! (p + i)%nat = Some (Some c).
Proof.
  intros [_ H] Hi. rewrite H. rewrite decide_True by (apply lookup_lt_Some in Hi; lia).
  replace (p + i - p)%nat with i by lia. rewrite Hi. reflexivity.
Qed.

Lemma rd_char_at p c b : b !! p = Some (Some c) → rd_char p b = Done c b.
Proof. intros H. unfold rd_char, rd_raw, mbind, ST_bind. rewrite H. reflexivity. Qed.

Lemma to_buffer_basic v p b c :
  basic_code (type_of v) = Some c → (p < length b)%nat →
  ∃ b', to_buffer v p b = Done (DSig (Some p) 1 []) b' ∧ written p [c] b b'.
Proof.
  intros Hc Hp. destruct (wr_char_written p c b Hp) as (b' & E & Hw). exists b'. split; [|exact Hw].
  destruct (basic_dbus _ _ b Hc) as [E1 E2].
  destruct v; cbn [to_buffer]; unfold mbind, ST_bind; rewrite E1, E2, E; reflexivity.
Qed.

Lemma verify_basic v p b c :
  basic_code (type_of v) = Some c → b !! p = Some (Some c) →
  verify_type_signature v p b = Done (Some (S p)) b.
Proof.
  intros Hc Hp. destruct (basic_dbus _ _ b Hc) as [E1 E2].
  destruct v; cbn [verify_type_signature]; unfold mbind, ST_bind; rewrite E1, E2, (rd_char_at p c b Hp);
    cbn [mret ST_ret]; rewrite Z.eqb_refl; reflexivity.
Qed.

Lemma verify_all_basic l p b t c :
  basic_code t = Some c → (∀ x, x ∈ l → type_of x = t) → b !! p = Some (Some c) →
  verify_all (map (λ x, verify_type_signature x p) l) b = Done true b.
Proof.
  intros Hc Hl Hp. induction l as [|x l IH]; [reflexivity|]. cbn [map verify_all]. unfold mbind, ST_bind.
  rewrite (verify_basic x p b c); [|rewrite (Hl x) by left; exact Hc|exact Hp].
  apply IH. intros y Hy. apply Hl. right. exact Hy.
Qed.

Lemma verify_array t null l p b c :
  basic_code t = Some c → (∀ x, x ∈ l → type_of x = t) →
  b !! p = Some (Some CHAR_a) → b !! S p = Some (Some c) →
  verify_type_signature (VArray t null l) p b = Done (Some (S (S p))) b.
Proof.
  intros Hc Hl Hp Hp'. destruct (array_dbus b) as [E1 E2]. destruct (basic_dbus t c b Hc) as [E3 E4].
  assert (t ≠ DI_TYPE_VARIANT) as Ht by (intros ->; discriminate).
  assert (∀ x, x ∈ tl l → type_of x = t) as Htl by (intros x Hx; apply Hl; destruct l; [inversion Hx|right; exact Hx]).
  pose proof (verify_all_basic (tl l) (S p) b t c Hc Htl Hp') as Hall. destruct (basic_sizeof t c Hc) as [n En].
  cbn [verify_type_signature type_of]. unfold mbind, ST_bind. rewrite E1, E2, (rd_char_at _ _ _ Hp).
  rewrite bool_decide_false, Z.eqb_refl, En by exact Ht. cbn [negb from_opt mret ST_ret].
  destruct l as [|x l]; cbn [map tl] in *.
  - unfold verify_unread, mbind, ST_bind. rewrite E3, E4, (rd_char_at _ _ _ Hp'). cbn [mret ST_ret].
    rewrite Z.eqb_refl. cbn [mret ST_ret]. rewrite Hall. reflexivity.
  - rewrite (verify_basic x (S p) b c); [|rewrite (Hl x) by left; exact Hc|exact Hp']. rewrite Hall. reflexivity.
Qed.

Lemma to_buffer_array t null l p b c :
  basic_code t = Some c → (∀ x, x ∈ l → type_of x = t) → (S p < length b)%nat →
  ∃ b', to_buffer (VArray t null l) p b = Done (sig_tree (VArray t null l) p) b' ∧ written p [CHAR_a; c] b b'.
Proof.
  intros Hc Hl Hp. destruct (wr_char_written p CHAR_a b) as (b1 & E1 & W1); [lia|].
  assert (∃ b2, match l with x :: _ => to_buffer x (S p) | [] => sig_unread t (S p) end b1
                = Done (DSig (Some (S p)) 1 []) b2 ∧ written (S p) [c] b1 b2) as (b2 & E2 & W2).
  { pose proof (proj1 W1) as Hlen. destruct l as [|x l].
    - destruct (wr_char_written (S p) c b1) as (b2 & E2 & W2); [lia|]. exists b2. split; [|exact W2].
      destruct (basic_dbus t c b1 Hc) as [E3 E4]. unfold sig_unread, mbind, ST_bind. rewrite E3, E4, E2. reflexivity.
    - apply to_buffer_basic; [rewrite (Hl x) by left; exact Hc|lia]. }
  assert (written p [CHAR_a; c] b b2) as W.
  { apply (written_app p [CHAR_a] [c] b b1 b2 W1). rewrite Nat.add_comm. exact W2. }
  exists b2. split; [|exact W]. destruct (array_dbus b) as [E3 E4].
  cbn [to_buffer type_of sig_tree]. unfold mbind, ST_bind. rewrite E3, E4, E1, E2.
  rewrite (verify_array t null l p b2 c Hc Hl).
  - reflexivity.
  - rewrite <- (Nat.add_0_r p). exact (written_char _ _ _ _ 0 CHAR_a W eq_refl).
  - replace (S p) with (p + 1)%nat by lia. exact (written_char _ _ _ _ 1 c W eq_refl).
Qed.

Definition writes (v : value) : Prop := ∀ p b cs,
  sig_str v = Some cs → (p + length cs ≤ length b)%nat →
  ∃ b', to_buffer v p b = Done (sig_tree v p) b' ∧ written p cs b b' ∧
        sig_length (sig_tree v p) = Z.of_nat (length cs) ∧ is_Some (sig_current (sig_tree v p)).

Lemma sig_elements_ok l : Forall writes l → ∀ p b cs n,
  sig_strs l = Some cs → (p + length cs ≤ length b)%nat →
  ∃ b', sig_elements (map to_buffer l) p n b =
          Done (inr ((sig_trees l p).1, n + Z.of_nat (length cs), (p + length cs)%nat)) b' ∧
        written p cs b b' ∧ (sig_trees l p).2 = (p + length cs)%nat.
Proof.
  induction 1 as [|x l Hx Hl IH]; intros p b cs n Hcs Hb.
  - injection Hcs as <-. exists b. cbn. rewrite Nat.add_0_r. split; [|split; [apply written_nil|reflexivity]].
    replace (n + Z.of_nat 0) with n by lia. reflexivity.
  - cbn [sig_strs] in Hcs. destruct (sig_str x) as [a|] eqn:Ea; [|discriminate]. cbn [mbind option_bind] in Hcs.
    destruct (sig_strs l) as [c|] eqn:Ec; [|discriminate]. injection Hcs as <-. rewrite length_app in Hb.
    destruct (Hx p b a Ea) as (b1 & E1 & W1 & L1 & [q Cq]); [lia|]. pose proof (proj1 W1) as Hlen.
    destruct (IH (p + length a)%nat b1 c (n + Z.of_nat (length a)) eq_refl) as (b2 & E2 & W2 & T2); [lia|].
    exists b2. split; [|split].
    + cbn [map sig_elements sig_trees]. unfold mbind, ST_bind. rewrite E1, Cq, L1, Nat2Z.id, E2.
      cbn [mret ST_ret fst snd]. unfold mret, ST_ret. rewrite length_app, Nat2Z.inj_add, Z.add_assoc, Nat.add_assoc.
      reflexivity.
    + exact (written_app _ _ _ _ _ _ W1 W2).
    + cbn [sig_trees snd]. rewrite L1, Nat2Z.id, T2, length_app. lia.
Qed.

Lemma to_buffer_ok v : writes v.
Proof.
  induction v as [v Hv|t null l IH|l IH|v IH] using value_ind'; intros p b cs Hcs Hb.
  - assert (∃ c, basic_code (type_of v) = Some c ∧ cs = [c] ∧ sig_tree v p = DSig (Some p) 1 []) as (c & Hc & -> & ->).
    { destruct v; try destruct Hv; cbn in Hcs; simplify_eq; cbn; eauto. }
    destruct (to_buffer_basic v p b c Hc) as (b' & E & W); [cbn in Hb; lia|].
    exists b'. cbn. split; [exact E|]. eauto.
  - cbn [sig_str] in Hcs. destruct (basic_code t) as [c|] eqn:Hc; [|discriminate]. cbn [mbind option_bind] in Hcs.
    destruct (forallb _ l) eqn:Hl; [|discriminate]. injection Hcs as <-. cbn [length] in Hb.
    destruct (to_buffer_array t null l p b c Hc (forallb_types t l Hl)) as (b' & E & W); [lia|].
    exists b'. cbn [sig_tree sig_length sig_current length]. eauto.
  - rewrite sig_str_tuple in Hcs. destruct (sig_strs l) as [ss|] eqn:Es; [|discriminate]. injection Hcs as <-.
    cbn [length] in Hb. rewrite length_app in Hb. cbn [length] in Hb.
    destruct (wr_char_written p CHAR_open b) as (b1 & E1 & W1); [lia|]. pose proof (proj1 W1) as L1.
    destruct (sig_elements_ok l IH (S p) b1 ss 2 Es) as (b2 & E2 & W2 & T2); [lia|]. pose proof (proj1 W2) as L2.
    destruct (wr_char_written (S p + length ss) CHAR_close b2) as (b3 & E3 & W3); [lia|].
    exists b3. rewrite sig_tree_tuple. cbn [sig_length sig_current]. rewrite T2.
    assert (Z.of_nat (S (S p + length ss) - p) = 2 + Z.of_nat (length ss)) as EL by lia.
    split; [|split; [|split]].
    + destruct (tuple_dbus b) as [E4 E5]. cbn [to_buffer type_of]. unfold mbind, ST_bind.
      rewrite E4, E5, E1, E2, E3, EL. reflexivity.
    + apply (written_app p [CHAR_open] _ b b1 b3 W1). cbn [length]. rewrite Nat.add_comm.
      exact (written_app _ _ _ _ _ _ W2 W3).
    + cbn [length]. rewrite length_app. cbn [length]. lia.
    + eauto.
  - discriminate.
Qed.

Lemma signature_ok (v : value) (cs : list Z) (b : buffer) : sig_str v = Some cs →
  type_signature_of_di_value v b = Done (sig_tree v O) ((Some <$> cs) ++ [None]) ∧
  sig_length (sig_tree v O) = Z.of_nat (length cs).
Proof.
  intros Hv.
  set (b0 := replicate (Z.to_nat (Z.of_nat (length cs) + 1)) (@None Z)).
  assert (length b0 = S (length cs)) as Lb by (unfold b0; rewrite length_replicate; lia).
  destruct (to_buffer_ok v O b0 cs Hv) as (b' & E & [Lb' W] & L & _); [lia|].
  split; [|exact L]. unfold type_signature_of_di_value, put, mbind, ST_bind. rewrite (length_ok v cs b Hv).
  rewrite (proj2 (Z.ltb_ge _ _)) by lia. fold b0. rewrite E. f_equal.
  apply list_eq. intros j. rewrite W. cbn [plus]. case_decide as Ej.
  - rewrite Nat.sub_0_r, lookup_app_l by (rewrite length_fmap; lia). rewrite list_lookup_fmap. reflexivity.
  - rewrite lookup_app_r by (rewrite length_fmap; lia). rewrite length_fmap.
    destruct (decide (j = length cs)) as [->|Hj].
    + rewrite Nat.sub_diag. unfold b0. apply lookup_replicate_2. lia.
    + rewrite lookup_ge_None_2 by lia. symmetry. apply lookup_ge_None_2. cbn. lia.
Qed.

(** For every value made of basic values, arrays of basic values and tuples
    of such, the two passes over the value agree: the computed length is the
    length of its D-Bus type signature, the buffer of that size is filled with
    exactly the signature, and the tree of parts has the right offsets. *)
Theorem type_signature_correct (v : value) (cs : list Z) (b : buffer) (Hv : sig_str v = Some cs) :
  type_signature_of_di_value v b = Done (sig_tree v O) ((Some <$> cs) ++ [None]) ∧
  sig_length (sig_tree v O) = Z.of_nat (length cs).
Proof. exact (signature_ok v cs b Hv). Qed.

(** *** Serialization *)

(** Basic values, and arrays of basic types other than strings. *)
Definition fixed_code (t : di_type) : option Z :=
  match t with DI_TYPE_STRING | DI_TYPE_STRING_LITERAL => None | _ => basic_code t end.

Definition fixed_size (v : value) : bool :=
  match v with
  | VArray t _ l =>
      match fixed_code t with Some _ => forallb (λ x, bool_decide (type_of x = t)) l | None => false end
  | v => match basic_code (type_of v) with Some _ => true | None => false end
  end.

(** The calls that write such a value. *)
Definition calls (v : value) : list dbus_call :=
  match v with
  | VArray t _ l =>
      match basic_code t with
      | Some c => [OpenContainer DBUS_TYPE_ARRAY (Some [c]); AppendFixed c l; CloseContainer]
      | None => []
      end
  | v => match basic_code (type_of v) with Some c => [AppendBasic c v] | None => [] end
  end.

(** The signature [cs] is in the buffer at [p]. *)
Definition holds (p : nat) (cs : list Z) (b : buffer) : Prop :=
  ∀ i c, cs !! i = Some c → b !! (p + i)%nat = Some (Some c).

Definition add_calls (s : ser) (l : list dbus_call) : ser := Ser (se_buf s) (se_calls s ++ l) (se_opens s) (se_freed s).

Lemma add_calls_app s l1 l2 : add_calls (add_calls s l1) l2 = add_calls s (l1 ++ l2).
Proof. unfold add_calls. cbn. rewrite app_assoc. reflexivity. Qed.

Lemma sig_char_at p n l c s :
  se_buf s !! p = Some (Some c) → sig_char (DSig (Some p) n l) s = Done c s.
Proof.
  intros H. unfold sig_char, cur, mbind, ST_bind. cbn [sig_current from_opt mret ST_ret]. unfold on_sig.
  rewrite (rd_char_at p c _ H). destruct s. reflexivity.
Qed.

Lemma serialize_basic v p n l c s :
  basic_code (type_of v) = Some c → se_buf s !! p = Some (Some c) →
  dbus_serialize_with_signature v (DSig (Some p) n l) s = Done 0 (add_calls s [AppendBasic c v]).
Proof.
  intros Hc Hp. destruct (basic_dbus _ _ s Hc) as [E1 E2].
  destruct v; cbn [dbus_serialize_with_signature]; unfold mbind, ST_bind;
    rewrite E1, E2, (sig_char_at p n l c s Hp), Z.eqb_refl; reflexivity.
Qed.

Lemma fixed_basic t c : fixed_code t = Some c → basic_code t = Some c ∧ c ≠ DBUS_TYPE_STRING.
Proof. destruct t; try discriminate; intros [= <-]; (split; [reflexivity|apply string_code; set_solver]). Qed.

Lemma serialize_fixed_array t null l p c s :
  fixed_code t = Some c → holds p [CHAR_a; c] (se_buf s) → se_opens s = [] →
  dbus_serialize_with_signature (VArray t null l) (sig_tree (VArray t null l) p) s =
    Done 0 (add_calls s [OpenContainer DBUS_TYPE_ARRAY (Some [c]); AppendFixed c l; CloseContainer]).
Proof.
  intros [Hc Hs]%fixed_basic Hp Ho. destruct (array_dbus s) as [E1 E2]. destruct (basic_dbus t c s Hc) as [E3 E4].
  assert (t ≠ DI_TYPE_VARIANT) as Ht by (intros ->; discriminate).
  cbn [dbus_serialize_with_signature type_of sig_tree]. unfold mbind, ST_bind.
  rewrite E1, E2, bool_decide_false, Z.eqb_refl by exact Ht. cbn [check mret ST_ret].
  pose proof (Hp O CHAR_a eq_refl) as H0. rewrite Nat.add_0_r in H0.
  pose proof (Hp 1%nat c eq_refl) as H1. rewrite Nat.add_1_r in H1.
  rewrite (sig_char_at p _ _ _ s H0). rewrite array_code. cbn [Z.eqb check mret ST_ret CHAR_a Pos.eqb].
  rewrite E3. cbn [sig_child mret ST_ret].
  rewrite E4, (proj2 (Z.eqb_neq _ _) Hs). cbn [negb andb].
  rewrite (sig_char_at (S p) _ _ _ s H1), Z.eqb_refl. cbn [check mret ST_ret].
  unfold open_container. rewrite Ho. cbn [negb]. unfold dbus_write, modify, add_calls. cbn.
  rewrite <- !app_assoc. destruct s. cbn in *. subst. reflexivity.
Qed.

Lemma serialize_fixed v p cs s :
  fixed_size v = true → sig_str v = Some cs → holds p cs (se_buf s) → se_opens s = [] →
  dbus_serialize_with_signature v (sig_tree v p) s = Done 0 (add_calls s (calls v)).
Proof.
  intros Hf Hcs Hp Ho.
  assert (∀ c, basic_code (type_of v) = Some c → sig_tree v p = DSig (Some p) 1 [] → cs = [c] →
    calls v = [AppendBasic c v] →
    dbus_serialize_with_signature v (sig_tree v p) s = Done 0 (add_calls s (calls v))) as Hbasic.
  { intros c Hc -> -> ->. apply serialize_basic; [exact Hc|].
    pose proof (Hp O c eq_refl) as H0. rewrite Nat.add_0_r in H0. exact H0. }
  destruct v; try discriminate; try (cbn in Hcs; injection Hcs as <-; eapply Hbasic; reflexivity).
  cbn [fixed_size] in Hf. destruct (fixed_code elem_type) as [c|] eqn:Hc; [|discriminate].
  cbn [sig_str] in Hcs. destruct (fixed_basic _ _ Hc) as [Hb _]. rewrite Hb, Hf in Hcs. injection Hcs as <-.
  cbn [calls]. rewrite Hb. apply serialize_fixed_array; assumption.
Qed.

Lemma serialize_children l p cs s :
  forallb fixed_size l = true → sig_strs l = Some cs → holds p cs (se_buf s) → se_opens s = [] →
  until_error (imap (λ i m, m (nth i (sig_trees l p).1 sig_error)) (map dbus_serialize_with_signature l)) s =
    Done 0 (add_calls s (concat (map calls l))).
Proof.
  revert p cs s. induction l as [|x l IH]; intros p cs s Hf Hcs Hp Ho.
  - cbn. unfold mret, ST_ret, add_calls. rewrite app_nil_r. destruct s. reflexivity.
  - apply andb_prop in Hf as [Hx Hf]. cbn [sig_strs] in Hcs.
    destruct (sig_str x) as [a|] eqn:Ea; [|discriminate]. cbn [mbind option_bind] in Hcs.
    destruct (sig_strs l) as [b|] eqn:Eb; [|discriminate]. injection Hcs as <-.
    cbn [map imap until_error sig_trees fst nth concat]. unfold mbind, ST_bind.
    rewrite (serialize_fixed x p a s Hx Ea).
    + cbn [Z.ltb Z.compare]. rewrite <- add_calls_app.
      assert (sig_length (sig_tree x p) = Z.of_nat (length a)) as ->.
      { destruct (to_buffer_ok x p (replicate (p + length a) None) a Ea) as (_ & _ & _ & L & _); [|exact L].
        rewrite length_replicate. lia. }
      rewrite Nat2Z.id. apply (IH (p + length a)%nat b); [exact Hf|reflexivity| |exact Ho].
      intros i c Hi. rewrite <- Nat.add_assoc. apply Hp. rewrite lookup_app_r by lia. rewrite <- Hi. f_equal. lia.
    + intros i c Hi. apply Hp. apply lookup_app_l_Some. exact Hi.
    + exact Ho.
Qed.

(** Basic values and arrays of basic values other than strings are
    serialized in their order, each array as one container of its elements,
    under the signature of their types; no assertion fails, the signature is
    freed and 0 is returned. *)
Theorem serialize_struct_correct (t : list value) (cs : list Z) (s : ser)
    (Hfixed : forallb fixed_size t = true) (Hsig : sig_strs t = Some cs) (Hopens : se_opens s = []) :
  ∃ b, _dbus_serialize_struct t s = Done 0 (Ser b (se_calls s ++ concat (map calls t)) [] true) ∧
       b = (Some <$> CHAR_open :: cs ++ [CHAR_close]) ++ [None].
Proof.
  assert (sig_str (VTuple t) = Some (CHAR_open :: cs ++ [CHAR_close])) as Hv
    by (rewrite sig_str_tuple, Hsig; reflexivity).
  destruct (signature_ok _ _ (se_buf s) Hv) as [E _]. eexists. split; [|reflexivity].
  unfold _dbus_serialize_struct, on_sig, mbind, ST_bind. rewrite E, sig_tree_tuple. cbn [sig_current sig_child].
  unfold with_children. cbn [sig_child].
  rewrite (serialize_children t 1 cs _ Hfixed Hsig); [|intros i c Hi|exact Hopens].
  - cbn [Z.ltb Z.compare]. unfold modify, add_calls. cbn. rewrite Hopens. reflexivity.
  - cbn [se_buf]. rewrite lookup_app_l, list_lookup_fmap.
    + change ((CHAR_open :: cs ++ [CHAR_close]) !! (1 + i)%nat) with ((cs ++ [CHAR_close]) !! i).
      rewrite lookup_app_l, Hi by (apply lookup_lt_Some in Hi; exact Hi). reflexivity.
    + apply lookup_lt_Some in Hi. rewrite length_fmap. cbn [length]. rewrite length_app. cbn [length]. lia.
Qed.

(** *** What goes wrong *)

Lemma serialize_strings l p n ch s :
  (∀ x, x ∈ l → type_of x = DI_TYPE_STRING) → se_buf s !! p = Some (Some DBUS_TYPE_STRING) →
  until_error (map (λ x, dbus_serialize_with_signature x (DSig (Some p) n ch)) l) s =
    Done 0 (add_calls s (map (AppendBasic DBUS_TYPE_STRING) l)).
Proof.
  revert s. induction l as [|x l IH]; intros s Hl Hp.
  - cbn. unfold mret, ST_ret, add_calls. rewrite app_nil_r. destruct s. reflexivity.
  - cbn [map until_error]. unfold mbind, ST_bind.
    rewrite (serialize_basic x p n ch DBUS_TYPE_STRING s); [|rewrite (Hl x) by left; reflexivity|exact Hp].
    cbn [Z.ltb Z.compare]. rewrite IH; [|intros y Hy; apply Hl; right; exact Hy|exact Hp].
    rewrite add_calls_app. reflexivity.
Qed.

Lemma serialize_string_array null l s a b c d :
  (∀ x, x ∈ l → type_of x = DI_TYPE_STRING) → se_opens s = [] →
  se_buf s = [a; Some CHAR_a; Some DBUS_TYPE_STRING; b; c; d] →
  ∃ s', dbus_serialize_with_signature (VArray DI_TYPE_STRING null l) (sig_tree (VArray DI_TYPE_STRING null l) 1) s
          = Done 0 s' ∧ se_buf s' = [a; Some CHAR_a; Some DBUS_TYPE_STRING; c; c; d].
Proof.
  intros Hl Ho Hb. destruct (array_dbus s) as [E1 E2].
  assert (dbus_type_is_basic DBUS_TYPE_STRING = true) as Hs by (apply basic_codes; set_solver).
  destruct (char_codes _ Hs) as [_ Hs0].
  cbn [dbus_serialize_with_signature type_of sig_tree]. unfold mbind, ST_bind. rewrite E1, E2.
  rewrite bool_decide_false, Z.eqb_refl by discriminate. cbn [check mret ST_ret].
  rewrite (sig_char_at 1 _ _ CHAR_a s) by (rewrite Hb; reflexivity). rewrite array_code.
  cbn [Z.eqb CHAR_a Pos.eqb check mret ST_ret di_type_to_dbus_basic sig_child].
  rewrite Hs, Z.eqb_refl. cbn [negb andb cur sig_current from_opt mret ST_ret].
  cbn [sig_length]. change (Z.to_nat 1) with 1%nat. change (Z.to_nat 2) with 2%nat.
  unfold on_sig, rd_raw, wr_char, wr_raw. rewrite Hb. cbn.
  unfold rd_char, rd_raw, mbind, ST_bind. cbn.
  rewrite (proj2 (Z.eqb_neq _ _) Hs0). cbn. unfold open_container. cbn. rewrite Ho. cbn.
  rewrite serialize_strings; [|exact Hl|reflexivity]. eexists. split; [reflexivity|]. reflexivity.
Qed.

(** Serializing an array of strings corrupts the signature that follows it:
    a message body of an array of strings and one basic value, which has a valid
    signature, stops the program at an assertion. *)
Theorem string_array_corrupts (null : bool) (l : list value) (v : value) (c : Z) (s : ser)
    (Hl : ∀ x, x ∈ l → type_of x = DI_TYPE_STRING) (Hv : basic_code (type_of v) = Some c)
    (Hopens : se_opens s = []) :
  _dbus_serialize_struct [VArray DI_TYPE_STRING null l; v] s = Crash CheckFailed.
Proof.
  assert (sig_str v = Some [c] ∧ sig_tree v 3 = DSig (Some 3%nat) 1 []) as [Ev Et].
  { destruct v; try discriminate Hv; cbn in Hv |- *; simplify_eq; auto. }
  assert (sig_strs [VArray DI_TYPE_STRING null l; v] = Some [CHAR_a; DBUS_TYPE_STRING; c]) as Hsig.
  { cbn [sig_strs]. rewrite Ev. cbn [sig_str basic_code mbind option_bind].
    assert (forallb (λ x, bool_decide (type_of x = DI_TYPE_STRING)) l = true) as ->; [|reflexivity].
    apply forallb_forall. intros x Hx%list_elem_of_In. apply bool_decide_eq_true, Hl, Hx. }
  assert (sig_str (VTuple [VArray DI_TYPE_STRING null l; v]) =
          Some [CHAR_open; CHAR_a; DBUS_TYPE_STRING; c; CHAR_close]) as Ht
    by (rewrite sig_str_tuple, Hsig; reflexivity).
  destruct (signature_ok _ _ (se_buf s) Ht) as [E _]. cbn [fmap list_fmap app] in E.
  unfold _dbus_serialize_struct, on_sig, mbind, ST_bind. rewrite E, sig_tree_tuple. cbn [sig_current sig_child].
  unfold with_children. cbn [sig_child map imap sig_trees fst snd nth until_error].
  set (s1 := Ser _ _ _ _).
  destruct (serialize_string_array null l s1 (Some CHAR_open) (Some c) (Some CHAR_close) None Hl Hopens eq_refl)
    as (s2 & E2 & B2).
  unfold mbind, ST_bind. rewrite E2. cbn [Z.ltb Z.compare].
  change (1 + Z.to_nat (sig_length (sig_tree (VArray DI_TYPE_STRING null l) 1)))%nat with 3%nat. rewrite Et.
  destruct (basic_dbus _ _ s2 Hv) as [E3 E4]. destruct (char_codes _ E4) as [H41 _].
  assert (dbus_serialize_with_signature v (DSig (Some 3%nat) 1 []) s2 = Crash CheckFailed) as E5; [|cbn; rewrite E5; reflexivity].
  destruct v; try discriminate Hv; cbn [dbus_serialize_with_signature]; unfold mbind, ST_bind; rewrite E3, E4;
    rewrite (sig_char_at 3 _ _ CHAR_close s2) by (rewrite B2; reflexivity);
    rewrite (proj2 (Z.eqb_neq c CHAR_close) H41); reflexivity.
Qed.

Lemma same_length_crash {S} v0 ms m ms' (s : S) e :
  (∀ m, m ∈ ms → m s = Done v0 s) → m s = Crash e → same_length v0 (ms ++ m :: ms') s = Crash e.
Proof.
  intros Hms Hm. induction ms as [|m0 ms IH]; cbn [app same_length]; unfold mbind, ST_bind.
  - rewrite Hm. reflexivity.
  - rewrite (Hms m0) by left. rewrite Z.eqb_refl. apply IH. intros m' Hm'. apply Hms. right. exact Hm'.
Qed.

(** The length of the signature of an array of arrays is computed with a
    loop bound that is the number of the element type, 13, not the length of the
    array: for fewer than 13 inner arrays it reads past the end of the array. *)
Theorem nested_array_overrun (null : bool) (l : list value) (s : unit)
    (Hl : ∀ x, x ∈ l → ∃ t b xs c, x = VArray t b xs ∧ basic_code t = Some c ∧ ∀ y, y ∈ xs → type_of y = t)
    (Hlen : (0 < length l < 13)%nat) :
  type_signature_length_of_di_value (VArray DI_TYPE_ARRAY null l) s = Crash OutOfBounds.
Proof.
  destruct (array_dbus s) as [E1 E2].
  set (elem := λ i, nth i (map type_signature_length_of_di_value l) (length_unread (S := unit) DI_TYPE_ARRAY)).
  assert (∀ i, (i < length l)%nat → elem i s = Done 2 s) as Hin.
  { intros i Hi. unfold elem.
    rewrite (nth_indep _ _ (type_signature_length_of_di_value VNil)) by (rewrite length_map; exact Hi).
    rewrite map_nth. destruct (Hl (nth i l VNil)) as (t & b & xs & c & -> & Hc & Hxs).
    - apply list_elem_of_In, nth_In. exact Hi.
    - exact (length_array t b xs c s Hc Hxs). }
  assert (elem (length l) s = Crash OutOfBounds) as Hout.
  { unfold elem. rewrite nth_overflow by (rewrite length_map; lia).
    unfold length_unread, mbind, ST_bind. rewrite E1, E2. reflexivity. }
  assert (type_signature_length_of_di_value (VArray DI_TYPE_ARRAY null l) s =
    (v0 ← elem O; _ ← from_opt CheckFailed (di_sizeof_type DI_TYPE_ARRAY);
     same ← same_length v0 (map elem (seq 1 (type_code DI_TYPE_ARRAY - 1)));
     mret (if (same : bool) then 1 + v0 else -1)) s) as ->.
  { cbn [type_signature_length_of_di_value type_of]. unfold mbind at 1, ST_bind at 1. rewrite E1.
    unfold mbind at 1, ST_bind at 1. rewrite E2. reflexivity. }
  unfold mbind at 1, ST_bind at 1. rewrite (Hin O) by lia.
  unfold mbind, ST_bind. cbn [di_sizeof_type from_opt mret ST_ret].
  assert (seq 1 (type_code DI_TYPE_ARRAY - 1) = seq 1 (length l - 1) ++ length l :: seq (S (length l)) (12 - length l)) as ->.
  { change (type_code DI_TYPE_ARRAY - 1)%nat with 12%nat.
    replace 12%nat with ((length l - 1) + S (12 - length l))%nat at 1 by lia.
    rewrite seq_app. f_equal. cbn [seq]. f_equal; [lia|f_equal; lia]. }
  rewrite map_app. cbn [map]. rewrite (same_length_crash 2 _ (elem (length l)) _ s OutOfBounds); [reflexivity| |exact Hout].
  intros m Hm. apply list_elem_of_In, in_map_iff in Hm as (i & <- & Hi%in_seq). apply Hin. lia.
Qed.
End signature.

(** ** Examples, with the codes of the D-Bus specification *)

Definition point : value := VTuple [VInt 1; VArray DI_TYPE_UINT false [VUInt 2; VUInt 3]; VString (Some "p"%string)].

Lemma type_signature_correct_witness :
  type_signature_of_di_value (D := dbus_spec) point [] =
    Done (sig_tree point O) ((Some <$> [40; 120; 97; 116; 115; 41]) ++ [None]).
Proof. apply (type_signature_correct (DO := dbus_spec_ok) point). vm_compute. reflexivity. Defined.

Lemma serialize_struct_correct_witness :
  let t := [VInt 1; VArray DI_TYPE_UINT false [VUInt 2; VUInt 3]; VString (Some "p"%string)] in
  ∃ b, _dbus_serialize_struct (D := dbus_spec) t (Ser [] [] [] false) =
         Done 0 (Ser b ([] ++ concat (map (calls (D := dbus_spec)) t)) [] true) ∧
       b = (Some <$> [40; 120; 97; 116; 115; 41]) ++ [None].
Proof.
  intros t. apply (serialize_struct_correct (DO := dbus_spec_ok) t [120; 97; 116; 115] (Ser [] [] [] false));
    vm_compute; reflexivity.
Defined.

Lemma string_array_corrupts_witness :
  _dbus_serialize_struct (D := dbus_spec)
    [VArray DI_TYPE_STRING false [VString (Some "a"%string)]; VInt 1] (Ser [] [] [] false) = Crash CheckFailed.
Proof.
  apply (string_array_corrupts (DO := dbus_spec_ok) false [VString (Some "a"%string)] (VInt 1) 120);
    [|vm_compute; reflexivity..].
  intros x ->%list_elem_of_singleton. reflexivity.
Defined.

Lemma nested_array_overrun_witness :
  type_signature_length_of_di_value (D := dbus_spec)
    (VArray DI_TYPE_ARRAY false [VArray DI_TYPE_INT false [VInt 1]]) tt = Crash OutOfBounds.
Proof.
  apply (nested_array_overrun (DO := dbus_spec_ok)); [|cbn; lia].
  intros x ->%list_elem_of_singleton. exists DI_TYPE_INT, false, [VInt 1], 120.
  split; [reflexivity|]. split; [vm_compute; reflexivity|].
  intros y ->%list_elem_of_singleton. reflexivity.
Defined.
