(* ===== verification/Deser.v ===== *)
(** * Reading D-Bus messages (plugins/dbus/sedes.c)

    A message is a tree, which the iterators of libdbus walk.  Reading it makes
    deai values, and an object for a dictionary with string keys. *)

From S2P Require Import Prelude Text DiTypes Strings Heap Account Object ObjectSpec Sedes.

Local Open Scope Z_scope.

(** ** What libdbus delivers *)

(** The codes Sedes does not use, and [dbus_type_is_fixed]. *)
Class DbusTypes := {
  DBUS_TYPE_DICT_ENTRY : Z;
  DBUS_TYPE_VARIANT : Z;
  dbus_type_is_fixed : Z → bool
}.

(** What [dbus_message_iter_get_basic] writes. *)
Inductive basic : Type :=
  | BInt (z : Z)
  | BDouble (f : double)
  | BString (s : string).

Inductive dbus_value : Type :=
  | DBasic (type : Z) (b : basic)
  | DArray (elems : list dbus_value)
  | DStruct (l : list dbus_value)
  | DDict (k v : dbus_value)
  | DVariant (v : dbus_value).

Section deserialize.
Context {D : Dbus} {T : DbusTypes} {K : Kernel}.

(** [dbus_message_iter_get_arg_type] *)
Definition get_arg_type (d : dbus_value) : Z :=
  match d with
  | DBasic c _ => c
  | DArray _ => DBUS_TYPE_ARRAY
  | DStruct _ => DBUS_TYPE_STRUCT
  | DDict _ _ => DBUS_TYPE_DICT_ENTRY
  | DVariant _ => DBUS_TYPE_VARIANT
  end.

(** [dbus_deserialize_basic], with the type it writes to [otype]. *)
Definition dbus_deserialize_basic (b : basic) (type : Z) : M (di_type * value) :=
  if type =? DBUS_TYPE_BOOLEAN then
    match b with BInt z => mret (DI_TYPE_BOOL, VBool (negb (z =? 0))) | _ => fail TypeConfusion end
  else if (type =? DBUS_TYPE_INT16) || (type =? DBUS_TYPE_INT32) || (type =? DBUS_TYPE_UNIX_FD) || (type =? DBUS_TYPE_INT64) then
    match b with BInt z => mret (DI_TYPE_INT, VInt z) | _ => fail TypeConfusion end
  else if (type =? DBUS_TYPE_UINT16) || (type =? DBUS_TYPE_UINT32) || (type =? DBUS_TYPE_UINT64) then
    match b with BInt z => mret (DI_TYPE_UINT, VUInt z) | _ => fail TypeConfusion end
  else if type =? DBUS_TYPE_DOUBLE then
    match b with BDouble f => mret (DI_TYPE_FLOAT, VFloat f) | _ => fail TypeConfusion end
  else if type =? DBUS_TYPE_STRING then
    match b with BString s => mret (DI_TYPE_STRING, VString (di_string_dup s)) | _ => fail TypeConfusion end
  else fail CheckFailed.

(** The loop of [_dbus_deserialize_struct] over the elements, given by their
    types and what [dbus_deserialize_one] does with them; that is [None] when
    nothing is written. *)
Fixpoint struct_elements (ds : list (Z * M (option (di_type * value)))) : M (list value) :=
  match ds with
  | [] => mret []
  | (type, m) :: ds' =>
      let t := dbus_type_to_di type in
      _ ← from_opt CheckFailed (di_sizeof_type t);
      r ← m;
      r ← from_opt Uninit r;
      let t := if bool_decide (r.1 = DI_TYPE_OBJECT) && bool_decide (t = DI_TYPE_ARRAY) then r.1 else t in
      check (bool_decide (r.1 = t));;
      rest ← struct_elements ds';
      mret (r.2 :: rest)
  end.

(** The loop of [dbus_deserialize_array]; the slots of the array have the size
    of its element type. *)
Fixpoint array_elements (elem_type : di_type) (ms : list (M (option (di_type * value)))) : M (list value) :=
  match ms with
  | [] => mret []
  | m :: ms' =>
      r ← m;
      r ← from_opt Uninit r;
      if bool_decide (r.1 = elem_type) then
        rest ← array_elements elem_type ms';
        mret (r.2 :: rest)
      else fail TypeConfusion
  end.

(** [dbus_deserialize_array]: the element type of an array of a fixed type is
    never written. *)
Definition dbus_deserialize_array (type : Z) (ms : list (M (option (di_type * value)))) : M value :=
  if dbus_type_is_fixed type then fail Uninit
  else
    let elem_type := dbus_type_to_di type in
    _ ← from_opt CheckFailed (di_sizeof_type elem_type);
    if bool_decide (elem_type = DI_LAST_TYPE) then mret DI_ARRAY_INIT
    else vs ← array_elements elem_type ms; mret (VArray elem_type false vs).

(** One iteration of [dbus_deserialize_dict]: the fields of an entry. *)
Definition dict_entry (o : loc) (t : list value) : M unit :=
  match t with
  | [VString k; v] => _ ← di_add_member_move o k v; mret tt
  | _ => fail CheckFailed
  end.

(** [dbus_deserialize_dict] *)
Definition dbus_deserialize_dict (entries : list (M (list value))) : M loc :=
  o ← di_new_object_with_type ENone;
  for_each (λ entry, t ← entry; dict_entry o t) entries;;
  mret o.

(** [dbus_deserialize_one] *)
Fixpoint dbus_deserialize_one (d : dbus_value) : M (option (di_type * value)) :=
  match d with
  | DBasic type b =>
      if dbus_type_is_basic type then r ← dbus_deserialize_basic b type; mret (Some r) else mret None
  | DArray elems =>
      match elems with
      | [] => mret (Some (DI_TYPE_ARRAY, DI_ARRAY_INIT))
      | DDict k _ :: _ =>
          if get_arg_type k =? DBUS_TYPE_STRING then
            o ← dbus_deserialize_dict (map (λ e,
                  match e with
                  | DDict k v => struct_elements [(get_arg_type k, dbus_deserialize_one k); (get_arg_type v, dbus_deserialize_one v)]
                  | _ => fail TypeConfusion
                  end) elems);
            mret (Some (DI_TYPE_OBJECT, VObject o))
          else
            v ← dbus_deserialize_array DBUS_TYPE_DICT_ENTRY (map dbus_deserialize_one elems);
            mret (Some (DI_TYPE_ARRAY, v))
      | e :: _ =>
          v ← dbus_deserialize_array (get_arg_type e) (map dbus_deserialize_one elems);
          mret (Some (DI_TYPE_ARRAY, v))
      end
  | DStruct l =>
      vs ← struct_elements (map (λ e, (get_arg_type e, dbus_deserialize_one e)) l);
      mret (Some (DI_TYPE_TUPLE, VTuple vs))
  | DDict k v =>
      vs ← struct_elements [(get_arg_type k, dbus_deserialize_one k); (get_arg_type v, dbus_deserialize_one v)];
      mret (Some (DI_TYPE_TUPLE, VTuple vs))
  | DVariant _ => mret None
  end.

(** [_dbus_deserialize_struct] *)
Definition _dbus_deserialize_struct (l : list dbus_value) : M value :=
  vs ← struct_elements (map (λ e, (get_arg_type e, dbus_deserialize_one e)) l);
  mret (VTuple vs).
End deserialize.

(** ** What the code relies on *)

Class DbusTypesOk (D : Dbus) (T : DbusTypes) : Prop := {
  codes_distinct : NoDup [DBUS_TYPE_BOOLEAN; DBUS_TYPE_INT16; DBUS_TYPE_INT32; DBUS_TYPE_INT64; DBUS_TYPE_UINT16;
    DBUS_TYPE_UINT32; DBUS_TYPE_UINT64; DBUS_TYPE_DOUBLE; DBUS_TYPE_STRING; DBUS_TYPE_UNIX_FD; DBUS_TYPE_ARRAY;
    DBUS_TYPE_STRUCT; DBUS_TYPE_DICT_ENTRY; DBUS_TYPE_VARIANT];
  fixed_types : ∀ c, dbus_type_is_fixed c = true ↔ c ∈ [DBUS_TYPE_BOOLEAN; DBUS_TYPE_INT16; DBUS_TYPE_INT32; DBUS_TYPE_INT64;
    DBUS_TYPE_UINT16; DBUS_TYPE_UINT32; DBUS_TYPE_UINT64; DBUS_TYPE_DOUBLE; DBUS_TYPE_UNIX_FD]
}.

Definition spec_types : DbusTypes := {|
  DBUS_TYPE_DICT_ENTRY := 101; DBUS_TYPE_VARIANT := 118;
  dbus_type_is_fixed c := bool_decide (c ∈ [98; 110; 105; 120; 113; 117; 116; 100; 104])
|}.

#[export] Instance spec_types_ok : DbusTypesOk dbus_spec spec_types.
Proof. constructor; [vm_decide|]. intros c. apply bool_decide_eq_true. Qed.

(** The codes of two types differ. *)
Ltac distinct := first [assumption | apply not_eq_sym; assumption].
Ltac in_list := solve [repeat first [left | right]].
Ltac codes := let H := fresh in
  pose proof codes_distinct as H; rewrite !NoDup_cons, !not_elem_of_cons in H; destruct_and? H.
Ltac code_tests := repeat (rewrite ?Z.eqb_refl, ?orb_true_r; cbn [orb];
  try match goal with |- context [?a =? ?b] => rewrite (proj2 (Z.eqb_neq a b)) by distinct end).

(** ** Values as messages *)

Section values.
Context {D : Dbus} {T : DbusTypes} {K : Kernel} {DO : DbusOk D} {TO : DbusTypesOk D T}.

(** The message of a value that can be read back: basic values, and arrays of
    strings, nested to any depth. *)
Fixpoint marshal (v : value) : option dbus_value :=
  match v with
  | VBool b => Some (DBasic DBUS_TYPE_BOOLEAN (BInt (if b then 1 else 0)))
  | VInt z => Some (DBasic DBUS_TYPE_INT64 (BInt z))
  | VUInt z => Some (DBasic DBUS_TYPE_UINT64 (BInt z))
  | VNInt z => Some (DBasic DBUS_TYPE_INT32 (BInt z))
  | VNUInt z => Some (DBasic DBUS_TYPE_UINT32 (BInt z))
  | VFloat f => Some (DBasic DBUS_TYPE_DOUBLE (BDouble f))
  | VString (Some s) | VStringLiteral s => if nul_free s then Some (DBasic DBUS_TYPE_STRING (BString s)) else None
  | VArray t _ l =>
      if forallb (λ x, bool_decide (type_of x = t)) l &&
         bool_decide (t ∈ [DI_TYPE_STRING; DI_TYPE_STRING_LITERAL; DI_TYPE_ARRAY; DI_TYPE_ANY])
      then DArray <$> foldr (λ x r, d ← marshal x; ds ← r; Some (d :: ds)) (Some []) l
      else None
  | _ => None
  end.

(** What is read back: integers with 64 bits, strings with their length. *)
Fixpoint widen (v : value) : value :=
  match v with
  | VNInt z => VInt z
  | VNUInt z => VUInt z
  | VStringLiteral s => VString (Some s)
  | VArray t _ l =>
      match l with
      | [] => DI_ARRAY_INIT
      | _ => VArray (match t with DI_TYPE_STRING_LITERAL => DI_TYPE_STRING | _ => t end) false (map widen l)
      end
  | v => v
  end.

Lemma to_di c t :
  (c, t) ∈ [(DBUS_TYPE_BOOLEAN, DI_TYPE_BOOL); (DBUS_TYPE_INT64, DI_TYPE_INT); (DBUS_TYPE_INT32, DI_TYPE_INT);
            (DBUS_TYPE_UINT64, DI_TYPE_UINT); (DBUS_TYPE_UINT32, DI_TYPE_UINT); (DBUS_TYPE_DOUBLE, DI_TYPE_FLOAT);
            (DBUS_TYPE_STRING, DI_TYPE_STRING); (DBUS_TYPE_ARRAY, DI_TYPE_ARRAY); (DBUS_TYPE_STRUCT, DI_TYPE_ARRAY);
            (DBUS_TYPE_DICT_ENTRY, DI_LAST_TYPE); (DBUS_TYPE_VARIANT, DI_LAST_TYPE)] → dbus_type_to_di c = t.
Proof.
  intros Hc. codes.
  repeat (apply elem_of_cons in Hc as [[= -> ->]|Hc]; [unfold dbus_type_to_di; code_tests; reflexivity|]).
  inversion Hc.
Qed.

Lemma nul_free_till s : nul_free s = true → di_string_dup s = Some s.
Proof. intros Hs. unfold di_string_dup. rewrite (till_nul_free s Hs). reflexivity. Qed.

(** A list of elements, marshalled one by one. *)
Lemma marshal_list l ds :
  foldr (λ x r, d ← marshal x; ds ← r; Some (d :: ds)) (Some []) l = Some ds ↔ Forall2 (λ x d, marshal x = Some d) l ds.
Proof.
  revert ds. induction l as [|x l IH]; intros ds; cbn [foldr].
  - split; [intros [= <-]; constructor|intros H; inversion H; reflexivity].
  - split.
    + destruct (marshal x) as [d|] eqn:Hx; [|discriminate]. destruct (foldr _ _ l) as [ds'|]; [|discriminate].
      intros [= <-]. constructor; [exact Hx|]. apply IH. reflexivity.
    + intros H. inversion H as [|? d ? ds' Hx Hl]; subst. apply IH in Hl. rewrite Hx, Hl. reflexivity.
Qed.

(** The type in a message, and the type it is read as. *)
Lemma marshal_type v d :
  marshal v = Some d → dbus_type_to_di (get_arg_type d) = type_of (widen v) ∧
  (type_of v ∈ [DI_TYPE_STRING; DI_TYPE_STRING_LITERAL] → get_arg_type d = DBUS_TYPE_STRING) ∧
  (type_of v = DI_TYPE_ARRAY → get_arg_type d = DBUS_TYPE_ARRAY).
Proof.
  destruct v as [|b|z|z|z|z|f|p|l|l|[s|]|s|t n l|l|v|]; cbn [marshal]; try discriminate;
    try (intros [= <-]; (split; [apply to_di; set_solver|split; [set_solver|discriminate]])).
  - destruct (nul_free s); [|discriminate]. intros [= <-]. split; [apply to_di; set_solver|]. split; [reflexivity|discriminate].
  - destruct (nul_free s); [|discriminate]. intros [= <-]. split; [apply to_di; set_solver|]. split; [reflexivity|discriminate].
  - destruct (_ && _); [|discriminate]. intros H. apply fmap_Some in H as (ds & _ & ->). split; [|split; [set_solver|reflexivity]].
    destruct l; apply to_di; set_solver.
Qed.

Lemma marshal_shape v d : marshal v = Some d → match d with DBasic _ _ | DArray _ => True | _ => False end.
Proof.
  destruct v as [|b|z|z|z|z|f|p|l|l|[s|]|s|t n l|l|v|]; cbn [marshal]; try discriminate; try (intros [= <-]; exact I).
  - destruct (nul_free s); [|discriminate]. intros [= <-]. exact I.
  - destruct (nul_free s); [|discriminate]. intros [= <-]. exact I.
  - destruct (_ && _); [|discriminate]. intros H. apply fmap_Some in H as (ds & _ & ->). exact I.
Qed.

(** [d] is read as the value of [v]. *)
Definition reads (v : value) (d : dbus_value) : Prop :=
  ∀ s, dbus_deserialize_one d s = Done (Some (type_of (widen v), widen v)) s.

Lemma array_elements_ok t l ds s :
  Forall2 reads l ds → (∀ x, x ∈ l → type_of (widen x) = t) →
  array_elements t (map dbus_deserialize_one ds) s = Done (map widen l) s.
Proof.
  induction 1 as [|x d l ds Hd Hds IH]; intros Ht; [reflexivity|]. cbn [map array_elements].
  unfold mbind, ST_bind. rewrite (Hd s). cbn [from_opt mret ST_ret]. unfold mret, ST_ret. cbn [fst snd].
  rewrite bool_decide_true by (apply Ht; left). rewrite IH by (intros y Hy; apply Ht; right; exact Hy). reflexivity.
Qed.

Lemma widen_type x t :
  type_of x = t → t ∈ [DI_TYPE_STRING; DI_TYPE_STRING_LITERAL; DI_TYPE_ARRAY; DI_TYPE_ANY] →
  type_of (widen x) = match t with DI_TYPE_STRING_LITERAL => DI_TYPE_STRING | _ => t end ∧
  type_of (widen x) ∈ [DI_TYPE_STRING; DI_TYPE_ARRAY].
Proof.
  intros <- Ht. destruct x as [| | | | | | | | | | | |t n [|y l]| | |]; cbn in *;
    first [split; [reflexivity|set_solver] | exfalso; set_solver].
Qed.

Lemma not_fixed t d : dbus_type_to_di (get_arg_type d) = t → t ∈ [DI_TYPE_STRING; DI_TYPE_ARRAY] →
  dbus_type_is_fixed (get_arg_type d) = false.
Proof.
  intros <- Ht. destruct (dbus_type_is_fixed _) eqn:Hf; [|reflexivity]. exfalso. apply fixed_types in Hf.
  codes. revert Ht. unfold dbus_type_to_di.
  repeat (apply elem_of_cons in Hf as [->|Hf];
    [code_tests; intros Ht; repeat (apply elem_of_cons in Ht as [Ht|Ht]; [discriminate|]); inversion Ht|]).
  inversion Hf.
Qed.

Lemma read_basic c b r s :
  dbus_type_is_basic c = true → dbus_deserialize_basic b c s = Done r s →
  dbus_deserialize_one (DBasic c b) s = Done (Some r) s.
Proof. intros Hc H. cbn [dbus_deserialize_one]. rewrite Hc. unfold mbind, ST_bind. rewrite H. reflexivity. Qed.

Lemma read_marshal v : ∀ d, marshal v = Some d → reads v d.
Proof.
  induction v as [v Hv|t n l IH|l IH|v IH] using value_ind'; intros d Hd; [|..|discriminate Hd|discriminate Hd].
  - codes. destruct v as [|b|z|z|z|z|f|p|l|l|[str|]|str|t n l|l|v|]; try destruct Hv; cbn [marshal] in Hd; try discriminate;
      try (injection Hd as <-; intros s; apply read_basic; [apply basic_codes; in_list|]; unfold dbus_deserialize_basic;
           code_tests; try destruct b; reflexivity).
    all: destruct (nul_free str) eqn:Hn; [|discriminate]; injection Hd as <-; intros s;
      apply read_basic; [apply basic_codes; in_list|]; unfold dbus_deserialize_basic;
      code_tests; rewrite (nul_free_till str Hn); reflexivity.
  - cbn [marshal] in Hd. destruct (_ && _) eqn:Hl; [|discriminate]. apply andb_prop in Hl as [Hl Ht].
    apply bool_decide_eq_true in Ht. apply fmap_Some in Hd as (ds & Hds%marshal_list & ->). intros s.
    assert (Forall2 reads l ds) as Hr.
    { clear -IH Hds. induction Hds as [|x d l ds Hx Hds IHl]; constructor; apply Forall_cons in IH as [Hx' IH]; auto. }
    destruct Hds as [|x d l ds Hx Hds]; [reflexivity|].
    assert (∀ y, y ∈ x :: l → type_of (widen y) = match t with DI_TYPE_STRING_LITERAL => DI_TYPE_STRING | _ => t end ∧
      type_of (widen y) ∈ [DI_TYPE_STRING; DI_TYPE_ARRAY]) as Hty.
    { intros y Hy. apply widen_type; [|exact Ht]. rewrite forallb_forall in Hl. apply list_elem_of_In in Hy.
      specialize (Hl y Hy). apply bool_decide_eq_true in Hl. exact Hl. }
    destruct (Hty x) as [Htx Hin]; [left|]. destruct (marshal_type x d Hx) as (Hdi & _ & _).
    assert (dbus_deserialize_array (get_arg_type d) (map dbus_deserialize_one (d :: ds)) s =
            Done (VArray (type_of (widen x)) false (map widen (x :: l))) s) as E.
    { unfold dbus_deserialize_array. rewrite (not_fixed _ _ Hdi Hin), Hdi.
      assert (∃ z, di_sizeof_type (type_of (widen x)) = Some z) as [z ->].
      { repeat (apply elem_of_cons in Hin as [->|Hin]; [eexists; reflexivity|]). inversion Hin. }
      unfold mbind, ST_bind. cbn [from_opt]. unfold mret, ST_ret.
      rewrite bool_decide_false by (intros E; rewrite E in Hin; set_solver).
      rewrite (array_elements_ok (type_of (widen x)) (x :: l)); [reflexivity|exact Hr|].
      intros y Hy. rewrite Htx. apply Hty, Hy. }
    assert (dbus_deserialize_one (DArray (d :: ds)) s =
            (v ← dbus_deserialize_array (get_arg_type d) (map dbus_deserialize_one (d :: ds));
             mret (Some (DI_TYPE_ARRAY, v))) s) as ->.
    { pose proof (marshal_shape x d Hx) as Hs. destruct d; try destruct Hs; reflexivity. }
    unfold mbind, ST_bind. rewrite E, Htx. reflexivity.
Qed.

(** The fields of a struct are read one by one. *)
Lemma struct_elements_ok t ds s :
  Forall2 (λ v d, marshal v = Some d) t ds →
  struct_elements (map (λ e, (get_arg_type e, dbus_deserialize_one e)) ds) s = Done (map widen t) s.
Proof.
  induction 1 as [|v d t ds Hd Hds IH]; [reflexivity|]. cbn [map struct_elements].
  destruct (marshal_type v d Hd) as [Ht _]. rewrite Ht.
  assert (∃ z, di_sizeof_type (type_of (widen v)) = Some z) as [z ->].
  { destruct v as [|b|z|z|z|z|f|p|l|l|[str|]|str|ty n [|y l]|l|v|]; cbn [marshal] in Hd; try discriminate; eexists; reflexivity. }
  unfold mbind, ST_bind. cbn [from_opt]. unfold mret, ST_ret. rewrite (read_marshal v d Hd s). cbn [from_opt fst snd].
  unfold mret, ST_ret. cbn [fst snd].
  assert (bool_decide (type_of (widen v) = DI_TYPE_OBJECT) = false) as ->.
  { apply bool_decide_eq_false. destruct v as [|b|z'|z'|z'|z'|f|p|l|l|[str|]|str|ty n [|y l]|l|v|]; cbn [marshal] in Hd; discriminate. }
  cbn [andb]. rewrite bool_decide_true by reflexivity. cbn [check]. unfold mret, ST_ret. rewrite IH. reflexivity.
Qed.

(** ** Writing and reading back *)

(** What libdbus reads from the pointer it is given for a basic value; from the
    one byte of a [bool] it would read four. *)
Definition payload (v : value) : option basic :=
  match v with
  | VInt z | VUInt z | VNInt z | VNUInt z => Some (BInt z)
  | VFloat f => Some (BDouble f)
  | VString (Some s) | VStringLiteral s => Some (BString (till_nul s))
  | _ => None
  end.

(** The message after a sequence of calls: the law is the documentation of
    [dbus_message_iter_append_basic]. *)
Class DbusMessage (message : list dbus_call → option (list dbus_value)) : Prop := {
  message_nil : message [] = Some [];
  message_basic c v b cs ds :
    payload v = Some b → message cs = Some ds → message (AppendBasic c v :: cs) = Some (DBasic c b :: ds)
}.

Definition sendable (v : value) : bool :=
  match v with
  | VInt _ | VUInt _ | VNInt _ | VNUInt _ | VFloat _ => true
  | VString (Some s) | VStringLiteral s => nul_free s
  | _ => false
  end.

Lemma sendable_calls v : sendable v = true →
  ∃ c b, basic_code (type_of v) = Some c ∧ payload v = Some b ∧ marshal v = Some (DBasic c b) ∧
         fixed_size v = true ∧ sig_str v = Some [c] ∧ calls v = [AppendBasic c v].
Proof.
  destruct v as [|b|z|z|z|z|f|p|l|l|[str|]|str|ty n l|l|v|]; try discriminate; cbn [sendable];
    intros H; eexists _, _; repeat split; cbn [marshal payload]; rewrite ?H, ?(till_nul_free _ H); reflexivity.
Qed.

Lemma sendable_list t : forallb sendable t = true →
  ∃ cs ds, forallb fixed_size t = true ∧ sig_strs t = Some cs ∧ Forall2 (λ v d, marshal v = Some d) t ds ∧
    ∀ message, DbusMessage message → message (concat (map calls t)) = Some ds.
Proof.
  induction t as [|v t IH]; cbn [forallb].
  - intros _. exists [], []. repeat split; [constructor|]. intros m Hm. apply message_nil.
  - intros [Hv Ht]%andb_prop. destruct (IH Ht) as (cs & ds & Hf & Hs & Hm & Hmsg).
    destruct (sendable_calls v Hv) as (c & b & Hc & Hb & Hd & Hfv & Hsv & Hcv).
    exists (c :: cs), (DBasic c b :: ds). rewrite Hfv, Hf. split; [reflexivity|].
    split; [cbn [sig_strs]; rewrite Hsv, Hs; reflexivity|]. split; [constructor; assumption|].
    intros m HM. cbn [map concat]. rewrite Hcv. cbn [app]. apply (message_basic c v b); [exact Hb|]. exact (Hmsg m HM).
Qed.
End values.

(** C12. Writing a list of numbers and strings to a message and reading the message
    back gives the same list, with numbers widened to 64 bits and strings with
    their length; the heap does not change. *)
Theorem struct_roundtrip {D : Dbus} {T : DbusTypes} {K : Kernel} {DO : DbusOk D} {TO : DbusTypesOk D T}
    (message : list dbus_call → option (list dbus_value)) (t : list value) (s : state)
    (Hmessage : DbusMessage message) (Ht : forallb sendable t = true) :
  ∃ b cs ds, _dbus_serialize_struct t no_calls = Done 0 (Ser b cs [] true) ∧ message cs = Some ds ∧
    _dbus_deserialize_struct ds s = Done (VTuple (map widen t)) s.
Proof.
  destruct (sendable_list t Ht) as (cs & ds & Hf & Hs & Hm & Hmsg).
  destruct (serialize_struct_correct t cs no_calls Hf Hs eq_refl) as (b & E & _).
  exists b, (concat (map calls t)), ds. split; [exact E|]. split; [exact (Hmsg message Hmessage)|].
  unfold _dbus_deserialize_struct, mbind, ST_bind. rewrite (struct_elements_ok t ds s Hm). reflexivity.
Qed.

(** A reader for which every call that is not a basic value is unknown. *)
Fixpoint read_calls (cs : list dbus_call) : option (list dbus_value) :=
  match cs with
  | [] => Some []
  | AppendBasic c v :: cs' => b ← payload v; ds ← read_calls cs'; Some (DBasic c b :: ds)
  | _ => None
  end.

#[export] Instance read_calls_ok : DbusMessage read_calls.
Proof. constructor; [reflexivity|]. intros c v b cs ds Hb Hds. cbn [read_calls]. rewrite Hb, Hds. reflexivity. Qed.

(** A kernel for code that does not call into the object system. *)
Definition no_kernel : Kernel :=
  {| loop_fuel := 0; unref_object _ := out_of_fuel; call_object _ _ := out_of_fuel; run_dtor _ _ := out_of_fuel |}.

Lemma struct_roundtrip_witness :
  ∃ ds, read_calls [AppendBasic 105 (VNInt (-1)); AppendBasic 115 (VStringLiteral "a")]%string = Some ds ∧
    _dbus_deserialize_struct (D := dbus_spec) (T := spec_types) (K := no_kernel) ds (State ∅ ∅ 1 [] []) =
    Done (VTuple [VInt (-1); VString (Some "a"%string)]) (State ∅ ∅ 1 [] []).
Proof.
  destruct (struct_roundtrip (D := dbus_spec) (T := spec_types) (K := no_kernel) (DO := dbus_spec_ok) read_calls
    [VNInt (-1); VStringLiteral "a"]%string (State ∅ ∅ 1 [] []) read_calls_ok eq_refl) as (b & cs & ds & E & Hr & Hd).
  vm_compute in E. injection E as <- <-. exists ds. split; [exact Hr|exact Hd].
Defined.

(** ** Dictionaries *)

Section dict.
Context {D : Dbus} {T : DbusTypes} {K : Kernel} {DO : DbusOk D} {TO : DbusTypesOk D T}.

Definition entry_of (kd : string * dbus_value) : dbus_value := DDict (DBasic DBUS_TYPE_STRING (BString kd.1)) kd.2.

(** A key that can be the name of a member. *)
Definition key_ok (k : string) : bool := nul_free k && negb (starts_with "__" (real_name k)).

Definition member_view (o : obj) : list (string * value) := map (λ m, (m_name m, m_val m)) (o_members o).

(** [l] is an object with the members [kvs]; the rest of the heap is that of [s]. *)
Definition built (l : loc) (kvs : list (string * value)) (s s1 : state) : Prop :=
  (∃ o, s_heap s1 !! l = Some o ∧ member_view o = kvs) ∧ ∀ l', l' ≠ l → s_heap s1 !! l' = s_heap s !! l'.

Lemma find_member_fresh k ms : k ∉ map m_name ms → find_member k ms = None.
Proof.
  induction ms as [|m ms IH]; [reflexivity|]. cbn [map find_member]. intros [Hk Hms]%not_elem_of_cons.
  rewrite (proj2 (String.eqb_neq _ _)) by congruence. exact (IH Hms).
Qed.

Lemma add_built l kvs k v s s1 :
  built l kvs s s1 → key_ok k = true → k ∉ kvs.*1 → (∃ z, di_sizeof_type (type_of v) = Some z ∧ z ≠ 0) →
  ∃ s2, di_add_member_move l (Some k) v s1 = Done 0 s2 ∧ built l (kvs ++ [(k, v)]) s s2.
Proof.
  intros [(o & Ho & Hv) Hrest] Hk Hn (z & Hz & Hz0). unfold di_add_member_move, sizeof_is_zero. rewrite Hz.
  unfold mbind, ST_bind, mret, ST_ret. rewrite (proj2 (Z.eqb_neq _ _) Hz0). cbn [di_add_member].
  unfold fresh_id, di_insert_member, rd, mbind, ST_bind. cbn [s_heap]. rewrite Ho.
  assert (check_new_member o k = 0) as Hc.
  { unfold check_new_member. rewrite find_member_fresh.
    - unfold key_ok in Hk. apply andb_prop in Hk as [_ ->%negb_true_iff]. reflexivity.
    - rewrite <- Hv in Hn. unfold member_view in Hn. rewrite <- list_fmap_compose in Hn. exact Hn. }
  cbn [m_name]. rewrite Hc. cbn [Z.eqb]. unfold wr, modify, mret, ST_ret. eexists. split; [reflexivity|]. split.
  - eexists. split; [apply lookup_insert_eq|]. unfold member_view. cbn [o_members with_members].
    rewrite map_app. unfold member_view in Hv. rewrite Hv. reflexivity.
  - intros l' Hl. cbn [s_heap set_heap]. rewrite lookup_insert_ne by congruence. exact (Hrest l' Hl).
Qed.

Lemma widen_size v d : marshal v = Some d → ∃ z, di_sizeof_type (type_of (widen v)) = Some z ∧ z ≠ 0.
Proof.
  destruct v as [|b|z|z|z|z|f|p|l|l|[str|]|str|ty n [|y l]|l|v|]; cbn [marshal]; try discriminate; intros _;
    eexists; (split; [reflexivity|discriminate]).
Qed.

(** The entries of a dictionary become members, one after the other. *)
Lemma entries_built l s : ∀ (kvs : list (string * value)) (kds : list (string * dbus_value)) done s1,
  Forall2 (λ kv kd, kv.1 = kd.1 ∧ marshal kv.2 = Some kd.2) kvs kds →
  forallb (λ kv, key_ok kv.1) kvs = true → NoDup ((done ++ kvs).*1) → built l done s s1 →
  ∃ s2, for_each (λ entry, t ← entry; dict_entry l t) (map (λ e,
          match e with
          | DDict k v => struct_elements [(get_arg_type k, dbus_deserialize_one k); (get_arg_type v, dbus_deserialize_one v)]
          | _ => fail TypeConfusion
          end) (map entry_of kds)) s1 = Done tt s2 ∧ built l (done ++ map (prod_map (λ k, k) widen) kvs) s s2.
Proof.
  induction kvs as [|[k v] kvs IH]; intros kds done s1 HF Hk Hnd HB; inversion HF as [|? [k' d] ? kds' [Hkk Hd] HF']; subst.
  - exists s1. rewrite app_nil_r. split; [reflexivity|exact HB].
  - cbn [fst snd] in *. subst k'. cbn [forallb] in Hk. apply andb_prop in Hk as [Hk Hks]. cbn [map for_each entry_of fst snd get_arg_type].
    assert (nul_free k = true) as Hn by (apply andb_prop in Hk; apply Hk).
    pose proof (struct_elements_ok [VStringLiteral k; v] [DBasic DBUS_TYPE_STRING (BString k); d] s1) as Hs.
    cbn [map get_arg_type] in Hs. unfold mbind at 1, ST_bind at 1. unfold mbind at 1, ST_bind at 1.
    rewrite Hs; [|constructor; [cbn [marshal]; rewrite Hn; reflexivity|constructor; [exact Hd|constructor]]].
    cbn [widen dict_entry]. destruct (add_built l done k (widen v) s s1 HB Hk) as (s2 & E & HB2).
    { rewrite fmap_app in Hnd. apply NoDup_app in Hnd as (_ & Hx & _). intros Hin. apply (Hx k Hin). left. }
    { exact (widen_size v d Hd). }
    unfold mbind at 1, ST_bind at 1. rewrite E. unfold mret, ST_ret.
    destruct (IH kds' (done ++ [(k, widen v)]) s2 HF' Hks) as (s3 & E3 & HB3); [|exact HB2|].
    + rewrite <- app_assoc, !fmap_app in *. exact Hnd.
    + exists s3. split; [exact E3|]. rewrite <- app_assoc in HB3. exact HB3.
Qed.
End dict.

(** A dictionary whose keys are strings is read as a new object with a member
    for each entry, in order; no other object changes. *)
Theorem dict_object {D : Dbus} {T : DbusTypes} {K : Kernel} {DO : DbusOk D} {TO : DbusTypesOk D T}
    (kvs : list (string * value)) (kds : list (string * dbus_value)) (s : state) :
  kvs ≠ [] → Forall2 (λ kv kd, kv.1 = kd.1 ∧ marshal kv.2 = Some kd.2) kvs kds →
  forallb (λ kv, key_ok kv.1) kvs = true → NoDup kvs.*1 →
  ∃ s' o, dbus_deserialize_one (DArray (map entry_of kds)) s = Done (Some (DI_TYPE_OBJECT, VObject (s_next s))) s' ∧
    s_heap s' !! s_next s = Some o ∧ member_view o = map (prod_map (λ k, k) widen) kvs ∧
    ∀ l, l ≠ s_next s → s_heap s' !! l = s_heap s !! l.
Proof.
  intros Hne HF Hk Hnd.
  assert (∃ s1, di_new_object_with_type ENone s = Done (s_next s) s1 ∧ built (s_next s) [] s s1) as (s1 & E1 & HB1).
  { eexists. split.
    - unfold di_new_object_with_type, di_new_object, fresh_id, wr, upd, rd, modify, mret, ST_ret, mbind, ST_bind.
      cbn [Z.ltb Z.compare Pos.compare Pos.compare_cont from_opt]. unfold mret, ST_ret. cbn [s_heap set_heap].
      rewrite lookup_insert_eq. reflexivity.
    - split; [eexists; split; [apply lookup_insert_eq|reflexivity]|].
      intros l Hl. cbn [s_heap set_heap]. rewrite !lookup_insert_ne by congruence. reflexivity. }
  destruct (entries_built (s_next s) s kvs kds [] s1 HF Hk Hnd HB1) as (s2 & E2 & (o & Ho & Hv) & Hrest).
  exists s2, o. split; [|auto]. destruct HF as [|[k v] [k' d] kvs kds [Hkk Hd] HF]; [contradiction|].
  cbn [map entry_of fst snd dbus_deserialize_one get_arg_type] in *. rewrite Z.eqb_refl.
  unfold dbus_deserialize_dict. unfold mbind at 1 2, ST_bind at 1 2. rewrite E1.
  unfold mbind at 1, ST_bind at 1. cbn [map entry_of] in E2. rewrite E2. reflexivity.
Qed.

Lemma dict_object_witness :
  match dbus_deserialize_one (D := dbus_spec) (T := spec_types) (K := no_kernel)
          (DArray [DDict (DBasic 115 (BString "a")) (DBasic 105 (BInt 1)); DDict (DBasic 115 (BString "b")) (DBasic 98 (BInt 1))])%string
          (State ∅ ∅ 1 [] []) with
  | Done r s' => r = Some (DI_TYPE_OBJECT, VObject 1) ∧
      member_view <$> s_heap s' !! 1%nat = Some [("a", VInt 1); ("b", VBool true)]%string
  | _ => False
  end.
Proof.
  destruct (dict_object (D := dbus_spec) (T := spec_types) (K := no_kernel) (DO := dbus_spec_ok)
    [("a", VNInt 1); ("b", VBool true)]%string [("a", DBasic 105 (BInt 1)); ("b", DBasic 98 (BInt 1))]%string
    (State ∅ ∅ 1 [] [])) as (s' & o & E & Ho & Hv & _).
  - discriminate.
  - repeat constructor.
  - reflexivity.
  - vm_decide.
  - match goal with |- match ?c with _ => _ end => change c with (dbus_deserialize_one (D := dbus_spec) (T := spec_types)
      (K := no_kernel) (DArray (map (entry_of (D := dbus_spec)) [("a", DBasic 105 (BInt 1)); ("b", DBasic 98 (BInt 1))]%string))
      (State ∅ ∅ 1 [] [])) end.
    rewrite E. split; [reflexivity|]. change (s_next (State ∅ ∅ 1 [] [])) with 1%nat in Ho.
    rewrite Ho. cbn. rewrite Hv. reflexivity.
Defined.

(** *** What cannot be read *)

(** Reading a message crashes on an array of numbers, whose element type is
    never set; on a variant, also as the value of a dictionary; and on a struct
    in a struct, which is expected to be an array. *)
Theorem unreadable_messages {D : Dbus} {T : DbusTypes} {K : Kernel} {TO : DbusTypesOk D T}
    (c : Z) (b : basic) (v : dbus_value) (inner rest : list dbus_value) (vs : list value) (s s' : state) :
  dbus_type_is_fixed c = true →
  struct_elements (map (λ e, (get_arg_type e, dbus_deserialize_one e)) inner) s = Done vs s' →
  dbus_deserialize_one (DArray (DBasic c b :: rest)) s = Crash Uninit ∧
  _dbus_deserialize_struct (DVariant v :: rest) s = Crash CheckFailed ∧
  _dbus_deserialize_struct (DStruct inner :: rest) s = Crash CheckFailed.
Proof.
  intros Hc Hi. split; [|split].
  - cbn [dbus_deserialize_one get_arg_type]. unfold dbus_deserialize_array. rewrite Hc. reflexivity.
  - unfold _dbus_deserialize_struct. cbn [map struct_elements get_arg_type].
    rewrite (to_di DBUS_TYPE_VARIANT DI_LAST_TYPE) by in_list. reflexivity.
  - unfold _dbus_deserialize_struct. cbn [map struct_elements get_arg_type dbus_deserialize_one].
    rewrite (to_di DBUS_TYPE_STRUCT DI_TYPE_ARRAY) by in_list. unfold mbind, ST_bind. cbn [di_sizeof_type from_opt].
    unfold mret, ST_ret. rewrite Hi. reflexivity.
Qed.

Lemma unreadable_messages_witness :
  dbus_deserialize_one (D := dbus_spec) (T := spec_types) (K := no_kernel) (DArray [DBasic 105 (BInt 1)]) (State ∅ ∅ 1 [] []) =
    Crash Uninit ∧
  _dbus_deserialize_struct (D := dbus_spec) (T := spec_types) (K := no_kernel) [DStruct [DBasic 105 (BInt 1)]] (State ∅ ∅ 1 [] []) =
    Crash CheckFailed.
Proof.
  destruct (unreadable_messages (D := dbus_spec) (T := spec_types) (K := no_kernel) 105 (BInt 1) (DBasic 105 (BInt 1))
    [DBasic 105 (BInt 1)] [] [VInt 1] (State ∅ ∅ 1 [] []) (State ∅ ∅ 1 [] []) eq_refl eq_refl) as (H1 & _ & H3).
  split; assumption.
Defined.
