(* ===== verification/Client.v ===== *)
(** * Clients of the object system

    A client owns references and performs operations; an operation uses some of
    its references, consumes some, and gives it new ones.  Every state a client
    can reach accounts for all references, and no operation of it touches a
    freed object or lets a count underflow. *)

From S2P Require Import Prelude DiTypes Heap Account Object ObjectSpec Signals Callable Roots Helper Knot Tables Mono.

Inductive op : Type :=
  | OpNew (sz alignment : Z)
  | OpNewModule (di : loc)
  | OpNewError (msg : string)
  | OpNewRoots
  | OpRef (l : loc)
  | OpWeak (l : loc)
  | OpUpgrade (l : loc)
  | OpUnref (l : loc)
  | OpDropWeak (l : loc)
  | OpFreeValue (v : value)
  | OpCopyValue (v : value)
  | OpAddMove (o : loc) (name : di_string) (v : value)
  | OpAddClone (o : loc) (name : di_string) (v : value)
  | OpGet (o : loc) (name : di_string) (t : di_type)
  | OpRawGet (o : loc) (name : di_string)
  | OpSet (o : loc) (name : di_string) (v : value)
  | OpRemove (o : loc) (name : di_string)
  | OpSetType (o : loc) (type : string)
  | OpCall (o : loc) (name : di_string) (args : list value)
  | OpCallObject (o : loc) (args : list value)
  | OpListen (o : loc) (name : di_string) (h : loc)
  | OpEmit (o : loc) (name : di_string) (args : list value)
  | OpClosure (fn : nat) (rt : di_type) (caps : list value) (ats : list di_type)
  | OpAddMethod (o : loc) (name : di_string) (fn : nat) (rt : di_type) (ats : list di_type)
  | OpSetDtor (o : loc) (d : option dtor_kind)
  | OpFinalize (o : loc)
  | OpDestroy (o : loc)
  | OpAddRoot (roots : loc) (key : di_string) (o : loc)
  | OpRemoveRoot (roots : loc) (key : di_string)
  | OpClearRoots (roots : loc)
  | OpAddAnonRoot (roots o : loc)
  | OpRemoveAnonRoot (roots : loc) (handle : Z)
  | OpExit (roots : loc) (ec : Z).

(** The references an operation needs, and those it takes from the client. *)
Definition uses (p : op) : list ref :=
  match p with
  | OpNewModule di => [Strong di]
  | OpRef l | OpWeak l => [Strong l]
  | OpUpgrade l => [Weak l]
  | OpCopyValue v => refs v
  | OpAddMove o _ _ => [Strong o]
  | OpAddClone o _ v | OpSet o _ v => Strong o :: refs v
  | OpGet o _ _ | OpRawGet o _ | OpRemove o _ | OpSetType o _ => [Strong o]
  | OpCall o _ args | OpCallObject o args | OpEmit o _ args => Strong o :: refs_of_list args
  | OpListen o _ h => [Strong o; Strong h]
  | OpClosure _ _ caps _ => refs_of_list caps
  | OpAddMethod o _ _ _ _ | OpSetDtor o _ | OpFinalize o | OpDestroy o => [Strong o]
  | OpAddRoot r _ o | OpAddAnonRoot r o => [Strong r; Strong o]
  | OpRemoveRoot r _ | OpClearRoots r | OpRemoveAnonRoot r _ | OpExit r _ => [Strong r]
  | _ => []
  end.

Definition consumes (p : op) : list ref :=
  match p with
  | OpUnref l => [Strong l]
  | OpDropWeak l => [Weak l]
  | OpFreeValue v | OpAddMove _ _ v => refs v
  | _ => []
  end.

Section client.
Context {K : Kernel} {W : World}.

(** The operation, with the references it gives to the client. *)
Definition run_op (p : op) : M (list ref) :=
  match p with
  | OpNew sz al => r ← di_new_object sz al; mret (match r with Some l => [Strong l] | None => [] end)
  | OpNewModule di => r ← di_new_module di; mret (match r with Some l => [Strong l] | None => [] end)
  | OpNewError msg => l ← di_new_error msg; mret [Strong l]
  | OpNewRoots => l ← di_new_object_with_type (ERoots 1 []); mret [Strong l]
  | OpRef l => r ← di_ref_object l; mret [Strong r]
  | OpWeak l => r ← di_weakly_ref_object l; mret [Weak r]
  | OpUpgrade l => r ← di_upgrade_weak_ref l; mret (match r with Some l => [Strong l] | None => [] end)
  | OpUnref l => unref_object l;; mret []
  | OpDropWeak l => di_drop_weak_ref l;; mret []
  | OpFreeValue v => di_free_value v;; mret []
  | OpCopyValue v => w ← di_copy_value v; mret (refs w)
  | OpAddMove o name v => _ ← di_add_member_move o name v; mret []
  | OpAddClone o name v => _ ← di_add_member_clone o name v; mret []
  | OpGet o name t => r ← di_getxt o name t; mret (rc_refs r)
  | OpRawGet o name => r ← di_rawgetx o name; mret (rc_refs r)
  | OpSet o name v => _ ← di_setx o name v; mret []
  | OpRemove o name => _ ← di_remove_member o name; mret []
  | OpSetType o type => _ ← di_set_type o type; mret []
  | OpCall o name args => r ← di_callx o name args; mret (rc_refs r.2)
  | OpCallObject o args => r ← di_call_objectv o args; mret (rc_refs r)
  | OpListen o name h => l ← di_listen_to o name h; mret [Strong l]
  | OpEmit o name args => _ ← di_emitn o name args; mret []
  | OpClosure fn rt caps ats =>
      r ← di_create_closure fn rt caps ats; mret (match r with inr l => [Strong l] | inl _ => [] end)
  | OpAddMethod o name fn rt ats => _ ← di_add_method o name fn rt ats; mret []
  | OpSetDtor o d => di_set_object_dtor o d;; mret []
  | OpFinalize o => di_finalize_object o;; mret []
  | OpDestroy o => di_destroy_object o;; mret []
  | OpAddRoot r key o => _ ← di_add_root r key o; mret []
  | OpRemoveRoot r key => _ ← di_remove_root r key; mret []
  | OpClearRoots r => di_clear_roots r;; mret []
  | OpAddAnonRoot r o => _ ← di_add_anonymous_root r o; mret []
  | OpRemoveAnonRoot r h => di_remove_anonymous_root r h;; mret []
  | OpExit r ec => di_prepare_exit r ec;; mret []
  end.

Context {KO : KernelOk K} {WO : WorldOk W}.

Lemma run_op_ok p E :
  (∀ r, r ∈ uses p → r ∈ E) →
  spec (Inv (consumes p ++ E)) (run_op p) (λ g, Inv (g ++ E)).
Proof.
  intros HU.
  assert (∀ l, Strong l ∈ uses p → Strong l ∈ E) as HS by auto.
  destruct p; cbn [run_op consumes uses app] in *.
  - step (new_object_ok E). intros [l|]; ret; tauto.
  - step (new_module_with_size_ok di 184 ENone E); [apply HS; left|]. intros [l|]; ret.
  - step (new_error_ok E msg). intros l. ret.
  - step (new_object_with_type_ok E (ERoots 1 [])). intros l. ret.
  - step (ref_object_ok E l); [apply HS; left|]. intros x. apply triple_ret. intros s [-> HI]. exact HI.
  - step (weakly_ref_object_ok E l); [right; apply HS; left|]. intros x.
    apply triple_ret. intros s (-> & _ & HI). exact HI.
  - step (upgrade_weak_ref_ok E l); [right; apply HU; left|]. intros [x|]; [|ret].
    apply triple_ret. intros s [-> HI]. exact HI.
  - step (unref_ok l E). intros ?. ret.
  - step (drop_weak_ref_ok E l). intros ?. ret.
  - step (free_value_ok v E). intros ?. ret.
  - step (copy_value_ok v E HU). intros w. ret.
  - step (add_member_move_ok o name v E); [apply HS; left|]. intros ?. ret.
  - step (add_member_clone_ok o name v E); [apply HS; left|intros r Hr; apply HU; right; exact Hr|].
    intros ?. ret.
  - step (getxt_ok o name t E); [apply HS; left|]. intros r. ret.
  - step (rawgetx_ok o name E); [apply HS; left|]. intros r. ret.
  - step (setx_ok o name v E); [apply HS; left|intros r Hr; apply HU; right; exact Hr|].
    intros ?. ret.
  - step (remove_member_ok o name E); [apply HS; left|]. intros ?. ret.
  - step (set_type_ok o type E); [apply HS; left|]. intros ?. ret.
  - step (callx_ok o name args E); [apply HS; left|intros r Hr; apply HU; right; exact Hr|].
    intros r. apply triple_ret. intros s [HI _]. exact HI.
  - step (call_objectv_ok E o args); [apply HS; left|intros r Hr; apply HU; right; exact Hr|].
    intros r. ret.
  - step (listen_to_ok E o name h); [apply HS; left|apply HS; right; left|]. intros l. ret.
  - step (emitn_ok E o name args); [apply HS; left|intros r Hr; apply HU; right; exact Hr|].
    intros ?. ret.
  - step (create_closure_ok E fn rt caps ats HU). intros [?|?]; ret.
  - step (add_method_ok E o name fn rt ats); [apply HS; left|]. intros ?. ret.
  - step (upd_ok E o (with_dtor d)); [done|apply HS; left|]. intros ?. ret.
  - step (finalize_object_ok o E); [apply HS; left|]. intros ?. ret.
  - step (destroy_object_ok o E); [apply HS; left|]. intros ?. ret.
  - step (add_root_ok E roots key o); [apply HS; left|apply HS; right; left|]. intros ?. ret.
  - step (remove_root_ok E roots key); [apply HS; left|]. intros ?. ret.
  - step (clear_roots_ok E roots); [apply HS; left|]. intros ?. ret.
  - step (add_anonymous_root_ok E roots o); [apply HS; left|apply HS; right; left|]. intros ?. ret.
  - step (remove_anonymous_root_ok E roots handle); [apply HS; left|]. intros ?. ret.
  - step (prepare_exit_ok E roots ec); [apply HS; left|]. intros ?. ret.
Qed.
End client.

Lemma pres_run_op {K : Kernel} {PK : PresKernel K} {W : World} {PW : PresWorld W} p :
  keeps (run_op p).
Proof. destruct p; cbn [run_op]; unfold di_new_module, di_set_object_dtor; pres. Qed.

Lemma mono_run_op {K1 K2 : Kernel} {HK : KLe K1 K2} {W : World} {MW : MonoWorld W} p :
  run_op (K := K1) p ⊑ₘ run_op (K := K2) p.
Proof. destruct p; cbn [run_op]; mono. Qed.

(** ** Holders *)

Lemma total_elem {B} (f : B → list ref) r (h : gmap nat B) :
  0 < total f r h → ∃ l o, h !! l = Some o ∧ r ∈ f o.
Proof.
  induction h as [|l o h Hl IH] using map_ind; [rewrite total_empty; lia|].
  rewrite total_insert_new by exact Hl. intros Hc.
  destruct (decide (r ∈ f o)) as [Hr|Hr].
  - exists l, o. rewrite lookup_insert_eq. auto.
  - apply cnt_not_elem_of in Hr. destruct IH as (l' & o' & Hl' & Hr'); [lia|].
    exists l', o'. split; [|exact Hr']. rewrite lookup_insert_ne by congruence. exact Hl'.
Qed.

Lemma map_rank_bound {B} (rank : nat → nat) (h : gmap nat B) :
  ∃ b, ∀ l o, h !! l = Some o → rank l ≤ b.
Proof.
  induction h as [|l o h Hl [b Hb]] using map_ind.
  - exists 0. intros l o Hl. rewrite lookup_empty in Hl. discriminate.
  - exists (rank l + b). intros l' o' [[<- _]|[_ Hl']]%lookup_insert_Some; [lia|].
    specialize (Hb l' o' Hl'). lia.
Qed.

(** A live object is held by the client, by an object, or is lost. *)
Lemma strong_holder E s l o :
  Inv E s → s_heap s !! l = Some o → 0 < o_rc o → s_leaked s = [] → Strong l ∉ E →
  ∃ h oh, s_heap s !! h = Some oh ∧ Strong l ∈ obj_refs oh.
Proof.
  intros HI Hl Hrc Hlk HE%cnt_not_elem_of. rewrite (inv_strong _ _ HI l o Hl), HE in Hrc.
  unfold hcnt in Hrc. rewrite Hlk in Hrc. cbn [cnt] in Hrc.
  destruct (decide (0 < total obj_refs (Strong l) (s_heap s))) as [Ho|Ho].
  - apply total_elem in Ho. exact Ho.
  - assert (0 < total sig_refs (Strong l) (s_sigs s)) as Hs by lia.
    apply total_elem in Hs as (i & g & _ & Hg). exfalso.
    unfold sig_refs in Hg. apply elem_of_app in Hg as [Hg|Hg].
    + destruct (sg_owner g); [|inversion Hg]. apply list_elem_of_singleton in Hg. discriminate.
    + apply list_elem_of_fmap in Hg as (x & Hx & _). discriminate.
Qed.

(** ** Reachable states *)

Section reachable.
Context {W : World}.

(** [reachable n E s]: a client that owns [E] can be in the state [s], where
    calls nest at most [n] deep. *)
Inductive reachable (n : nat) : list ref → state → Prop :=
  | reach_start : reachable n [] empty_state
  | reach_op E E0 s p g s' :
      reachable n E s →
      E ≡ₚ consumes p ++ E0 →
      (∀ r, r ∈ uses p → r ∈ E0) →
      run_op (K := kern n) p s = Done g s' →
      reachable n (g ++ E0) s'.

Context {WO : WorldOk W}.

Lemma reachable_inv n E s : reachable n E s → Inv E s.
Proof.
  induction 1 as [|E E0 s p g s' _ IH HE HU Hrun]; [apply Inv_empty|].
  rewrite HE in IH. pose proof (run_op_ok (K := kern n) p E0 HU s IH) as Hp.
  rewrite Hrun in Hp. exact Hp.
Qed.




End reachable.

(** C6. In every reachable state the tables are well formed: the members of an
    object have different names, none of which is reserved, its signals have
    different names, and every signal counts its listeners exactly. *)
Theorem reachable_tables {W : World} {PW : PresWorld W} n E s :
  reachable n E s →
  (∀ l o, s_heap s !! l = Some o →
     NoDup (map m_name (o_members o)) ∧
     (∀ m, m ∈ o_members o → starts_with "__" (real_name (m_name m)) = false) ∧
     NoDup (map fst (o_signals o))) ∧
  (∀ i g, s_sigs s !! i = Some g → sg_nlisteners g = length (sg_listeners g)).
Proof.
  intros HR. assert (WF s) as Hs.
  { induction HR as [|E E0 s p g s' _ IH _ _ Hrun]; [apply WF_empty|].
    pose proof (pres_run_op (K := kern n) p s IH) as Hp. rewrite Hrun in Hp. apply Hp. }
  split; [|exact (wf_sigs s Hs)]. intros l o Hl. destruct (wf_heap s Hs l o Hl). auto.
Qed.

(** The outcome of an operation does not depend on the depth at which the
    recursion is cut off: a run that is not cut off has the same result, the
    same final state or the same crash at every greater depth. *)
Theorem run_op_depth {W : World} {MW : MonoWorld W} n m p s :
  n ≤ m → run_op (K := kern n) p s ≠ NoFuel →
  run_op (K := kern m) p s = run_op (K := kern n) p s.
Proof.
  intros Hle Hn. pose proof (mono_kern n m Hle) as HK.
  destruct (mono_run_op (K1 := kern n) (K2 := kern m) p s) as [H|H]; congruence.
Qed.

(** ** A client at work

    [run_client] runs a list of operations of a client that begins with nothing
    and stops it when it lacks a reference; the states it ends in are the
    reachable ones the examples use. *)

(** [E] without one occurrence of each reference of [rs], if it has them. *)
Fixpoint take_ref (r : ref) (E : list ref) : option (list ref) :=
  match E with
  | [] => None
  | x :: E' => if decide (x = r) then Some E' else cons x <$> take_ref r E'
  end.

Fixpoint take_refs (rs E : list ref) : option (list ref) :=
  match rs with
  | [] => Some E
  | r :: rs' => E' ← take_ref r E; take_refs rs' E'
  end.

Lemma take_ref_perm r E : ∀ E', take_ref r E = Some E' → E ≡ₚ r :: E'.
Proof.
  induction E as [|x E IH]; cbn [take_ref]; [discriminate|]. intros E'.
  case_decide as Hx; [intros [= <-]; rewrite Hx; reflexivity|].
  destruct (take_ref r E) as [E1|]; [|discriminate]. intros [= <-].
  rewrite (IH E1 eq_refl). apply Permutation_swap.
Qed.

Lemma take_refs_perm rs : ∀ E E', take_refs rs E = Some E' → E ≡ₚ rs ++ E'.
Proof.
  induction rs as [|r rs IH]; cbn [take_refs app]; intros E E'; [intros [= <-]; reflexivity|].
  destruct (take_ref r E) as [E1|] eqn:H1; [|discriminate]. intros H2.
  rewrite (take_ref_perm _ _ _ H1). f_equiv. exact (IH _ _ H2).
Qed.

Section run_client.
Context {W : World}.

Definition client_step (n : nat) (p : op) (c : list ref * state) : option (list ref * state) :=
  E0 ← take_refs (consumes p) c.1;
  if forallb (λ r, bool_decide (r ∈ E0)) (uses p) then
    match run_op (K := kern n) p c.2 with
    | Done g s' => Some (g ++ E0, s')
    | _ => None
    end
  else None.

Fixpoint run_client (n : nat) (ps : list op) (c : list ref * state) : option (list ref * state) :=
  match ps with
  | [] => Some c
  | p :: ps' => c' ← client_step n p c; run_client n ps' c'
  end.

Lemma client_step_reachable n p E s c' :
  reachable n E s → client_step n p (E, s) = Some c' → reachable n c'.1 c'.2.
Proof.
  intros HR. unfold client_step. cbn [fst snd].
  destruct (take_refs (consumes p) E) as [E0|] eqn:HE; [|discriminate].
  cbn [mbind option_bind]. apply take_refs_perm in HE.
  destruct (forallb _ _) eqn:HU; [|discriminate]. rewrite forallb_forall in HU.
  destruct (run_op p s) as [g s'| |] eqn:Hrun; try discriminate. intros [= <-].
  apply (reach_op n E E0 s p g s' HR HE); [|exact Hrun].
  intros r Hr%list_elem_of_In. exact (bool_decide_eq_true_1 _ (HU r Hr)).
Qed.

Lemma run_client_reachable n ps E s c' :
  reachable n E s → run_client n ps (E, s) = Some c' → reachable n c'.1 c'.2.
Proof.
  revert E s. induction ps as [|p ps IH]; intros E s HR; cbn [run_client].
  - intros [= <-]. exact HR.
  - destruct (client_step n p (E, s)) as [[E1 s1]|] eqn:Hp; [|discriminate].
    apply IH, (client_step_reachable n p E s (E1, s1) HR Hp).
Qed.
End run_client.

(** Two objects: the first has the second as the member ["child"] and an array
    ["log"], and a closure [handler] listens to its signal ["tick"]. *)
Definition family : list op :=
  [OpNew 128 8; OpNew 128 8; OpAddClone 1 (Some "child"%string) (VObject 2);
   OpAddMove 1 (Some "log"%string) (VArray DI_TYPE_INT false [VInt 1%Z; VInt 2%Z]);
   OpClosure 0 DI_TYPE_NIL [VObject 2] []].

Definition family_listening : list op :=
  family ++ [OpListen 1 (Some "tick"%string) 5; OpUnref 2; OpEmit 1 (Some "tick"%string) []].

Definition after (ps : list op) : list ref * state :=
  default ([], empty_state) (run_client (W := idle_world) 6 ps ([], empty_state)).

Definition runs (ps : list op) : bool :=
  match run_client (W := idle_world) 6 ps ([], empty_state) with Some _ => true | None => false end.

Definition demo_op (p : op) : M (list ref) := run_op (K := kern (W := idle_world) 6) (W := idle_world) p.

Lemma after_reachable (ps : list op) :
  runs ps = true → reachable (W := idle_world) 6 (after ps).1 (after ps).2.
Proof.
  unfold runs, after. destruct (run_client (W := idle_world) 6 ps ([], empty_state)) as [c|] eqn:Hc; [|discriminate].
  intros _. exact (run_client_reachable 6 ps [] empty_state c (reach_start (W := idle_world) 6) Hc).
Qed.

(** The client drops everything it has: only the objects' own references are left. *)
Definition family_dropped : list op :=
  family_listening ++ [OpUnref 8; OpUnref 5; OpUnref 1].





Lemma reachable_tables_witness :
  match s_heap (after family_listening).2 !! 1 with
  | Some o => NoDup (map m_name (o_members o)) ∧ length (o_members o) = 2
  | None => False
  end ∧
  match s_sigs (after family_listening).2 !! 7 with
  | Some g => sg_nlisteners g = length (sg_listeners g)
  | None => False
  end.
Proof.
  destruct (reachable_tables (W := idle_world) 6 (after family_listening).1 (after family_listening).2
              (after_reachable family_listening ltac:(vm_compute; reflexivity))) as [Ho Hs].
  split.
  - destruct (s_heap (after family_listening).2 !! 1) as [o|] eqn:E; [|vm_compute in E; discriminate].
    split; [apply (Ho 1 o E)|]. vm_compute in E. injection E as <-. reflexivity.
  - destruct (s_sigs (after family_listening).2 !! 7) as [g|] eqn:E; [|vm_compute in E; discriminate].
    exact (Hs 7 g E).
Defined.

Lemma run_op_depth_witness :
  run_op (K := kern (W := idle_world) 50) (W := idle_world) (OpUnref 1) (after family_listening).2 =
  demo_op (OpUnref 1) (after family_listening).2.
Proof. apply (run_op_depth (W := idle_world) 6 50); [lia|]. vm_compute. discriminate. Defined.
