(* ===== verification/Members.v ===== *)
(** * Members as a finite map

    For values that hold no references, the raw operations on the members of an
    object implement a finite map from names to values: the abstract
    specification of an object as a property store. *)

From S2P Require Import Prelude DiTypes Heap Account Object ObjectSpec Signals Callable Roots Helper Knot Tables.

(** ** The abstract specification *)

(** Values without references or storage that can be missing. *)
Definition scalar (v : value) : bool :=
  match v with
  | VBool _ | VNInt _ | VNUInt _ | VInt _ | VUInt _ | VFloat _ | VPointer _
  | VString _ | VStringLiteral _ => true
  | _ => false
  end.

(** A copy of a string is never null. *)
Definition copied (v : value) : value :=
  match v with VString s => VString (Some (default EmptyString s)) | v => v end.

Inductive raw_op : Type :=
  | RAdd (name : string) (v : value)
  | RAddClone (name : string) (v : value)
  | RGet (name : string)
  | RRemove (name : string).

Abbreviation store := (gmap string value).

(** Adding refuses a name that is taken or reserved; what is refused does not
    change the store. *)
Definition spec_add (name : string) (v : value) (m : store) : (Z + value) * store :=
  match m !! name with
  | Some _ => (inl EEXIST, m)
  | None => if starts_with "__" (real_name name) then (inl EINVAL, m) else (inr VNil, <[name := v]> m)
  end.

Definition spec_raw (p : raw_op) (m : store) : (Z + value) * store :=
  match p with
  | RAdd name v => spec_add name v m
  | RAddClone name v => spec_add name (copied v) m
  | RGet name => (match m !! name with Some v => inr (copied v) | None => inl ENOENT end, m)
  | RRemove name =>
      match m !! name with Some _ => (inr VNil, delete name m) | None => (inl ENOENT, m) end
  end.

Definition raw_scalar (p : raw_op) : bool :=
  match p with RAdd _ v | RAddClone _ v => scalar v | _ => true end.

(** The operations of the code, with a return code of 0 as [inr VNil]. *)
Definition of_rc (rc : Z) : Z + value := if Z.eqb rc 0 then inr VNil else inl rc.

Definition run_raw {K : Kernel} (l : loc) (p : raw_op) : M (Z + value) :=
  match p with
  | RAdd name v => rc ← di_add_member_move l (Some name) v; mret (of_rc rc)
  | RAddClone name v => rc ← di_add_member_clone l (Some name) v; mret (of_rc rc)
  | RGet name => di_rawgetx l (Some name)
  | RRemove name => rc ← di_remove_member_raw l (Some name); mret (of_rc rc)
  end.

(** ** The abstraction *)

Definition view (ms : list member) : store := list_to_map (map (λ m, (m_name m, m_val m)) ms).

(** The members of [l] are scalars with different names and addresses. *)
Record raw_ok (s : state) (o : obj) : Prop := {
  ro_names : NoDup (map m_name (o_members o));
  ro_ids : NoDup (map m_id (o_members o));
  ro_fresh : ∀ m, m ∈ o_members o → m_id m < s_next s;
  ro_scalar : ∀ m, m ∈ o_members o → scalar (m_val m) = true
}.

Lemma view_cons m ms : view (m :: ms) = <[m_name m := m_val m]> (view ms).
Proof. reflexivity. Qed.

Lemma view_lookup n ms : view ms !! n = m_val <$> find_member n ms.
Proof.
  induction ms as [|m ms IH]; [apply lookup_empty|]. rewrite view_cons. simpl.
  destruct (String.eqb_spec (m_name m) n) as [->|Hne].
  - apply lookup_insert_eq.
  - rewrite lookup_insert_ne by exact Hne. exact IH.
Qed.

Lemma view_snoc m ms : m_name m ∉ map m_name ms → view (ms ++ [m]) = <[m_name m := m_val m]> (view ms).
Proof.
  induction ms as [|x ms IH]; [reflexivity|]. intros Hn. cbn [app map] in *.
  rewrite !view_cons, IH by (intros H; apply Hn; right; exact H).
  apply insert_insert_ne. intros He. apply Hn. rewrite He. left.
Qed.

Lemma find_member_in n ms m : find_member n ms = Some m → m ∈ ms ∧ m_name m = n.
Proof.
  induction ms as [|x ms IH]; simpl; [discriminate|].
  destruct (String.eqb_spec (m_name x) n).
  - intros [= ->]. split; [left|assumption].
  - intros [? ?]%IH. split; [right|]; assumption.
Qed.

(** The member a name finds is the one its address removes. *)
Lemma take_found ms n m :
  NoDup (map m_id ms) → NoDup (map m_name ms) → find_member n ms = Some m →
  ∃ ms', take_member (m_id m) ms = Some (m, ms') ∧ view ms' = delete n (view ms) ∧ sublist ms' ms.
Proof.
  induction ms as [|x ms IH]; simpl; [discriminate|].
  intros [Hi Hids]%NoDup_cons [Hx Hnames]%NoDup_cons.
  destruct (String.eqb_spec (m_name x) n) as [<-|Hne].
  - intros [= ->]. rewrite Nat.eqb_refl. exists ms. split; [reflexivity|].
    split; [|apply sublist_cons; reflexivity]. rewrite view_cons, delete_insert_id; [reflexivity|].
    rewrite view_lookup. destruct (find_member (m_name m) ms) eqn:Hf; [|reflexivity].
    apply find_member_in in Hf as [Hin Hn]. destruct Hx. rewrite <- Hn.
    apply (list_elem_of_fmap_2 m_name), Hin.
  - intros Hf. destruct (IH Hids Hnames Hf) as (ms' & Ht & Hv & Hs).
    apply find_member_in in Hf as [Hin Hn].
    destruct (Nat.eqb_spec (m_id x) (m_id m)) as [He|_].
    { destruct Hi. rewrite He. apply (list_elem_of_fmap_2 m_id), Hin. }
    exists (x :: ms'). rewrite Ht. split; [reflexivity|]. split; [|apply sublist_skip, Hs].
    rewrite !view_cons, Hv, delete_insert_ne by congruence. reflexivity.
Qed.

(** ** Refinement *)

Section refine.
Context {K : Kernel}.

Lemma scalar_size v (s : state) : scalar v = true → sizeof_is_zero (type_of v) s = Done false s.
Proof. destruct v; try discriminate; reflexivity. Qed.
Lemma scalar_copy v s : scalar v = true → di_copy_value v s = Done (copied v) s.
Proof. destruct v; try discriminate; reflexivity. Qed.
Lemma scalar_free v s : scalar v = true → di_free_value v s = Done tt s.
Proof. destruct v; try discriminate; reflexivity. Qed.
Lemma scalar_copied v : scalar v = true → scalar (copied v) = true.
Proof. destruct v; try discriminate; reflexivity. Qed.
Lemma scalar_not_nil v : scalar v = true → type_of v ≠ DI_TYPE_NIL.
Proof. destruct v; try discriminate; intros _ [=]. Qed.

(** The state after an operation on [l]. *)
Definition step_to (l : loc) (s : state) (o : obj) (r : Z + value) (m : store)
    (res : outcome state (Z + value)) : Prop :=
  ∃ s' o', res = Done r s' ∧ s_heap s' = <[l := o']> (s_heap s) ∧ s_sigs s' = s_sigs s ∧
    view (o_members o') = m ∧ raw_ok s' o' ∧ o_rc o' = o_rc o ∧ o_signals o' = o_signals o.

Lemma step_same l s o r :
  s_heap s !! l = Some o → raw_ok s o → step_to l s o r (view (o_members o)) (Done r s).
Proof.
  intros Hl Ho. exists s, o. split; [reflexivity|].
  rewrite (insert_id _ _ _ Hl). auto 10.
Qed.

Lemma add_refines l s o name v :
  s_heap s !! l = Some o → raw_ok s o → scalar v = true →
  step_to l s o (spec_add name v (view (o_members o))).1 (spec_add name v (view (o_members o))).2
    ((rc ← di_add_member l (Some name) v; mret (of_rc rc)) s).
Proof.
  intros Hl Ho Hv. unfold di_add_member, di_insert_member, check_new_member, spec_add.
  rewrite view_lookup. unfold fresh_id, rd, wr, modify, mbind, ST_bind. cbn [s_heap]. rewrite Hl.
  cbn [m_name]. destruct Ho as [H1 H2 H3 H4].
  assert (raw_ok (State (s_heap s) (s_sigs s) (S (s_next s)) (s_leaked s) (s_trace s)) o) as Ho'.
  { constructor; simpl; [assumption|assumption| |assumption].
    intros m Hm. specialize (H3 m Hm). lia. }
  assert (∀ rc, Z.eqb rc 0 = false → step_to l s o (inl rc) (view (o_members o))
    (Done (of_rc rc) (State (s_heap s) (s_sigs s) (S (s_next s)) (s_leaked s) (s_trace s)))) as Herr.
  { intros rc Hrc. unfold of_rc. rewrite Hrc. eexists _, o. split; [reflexivity|]. simpl.
    rewrite (insert_id _ _ _ Hl). auto 10. }
  generalize (starts_with "__" (real_name name)). intros reserved.
  destruct (find_member name (o_members o)) as [m|] eqn:Hf.
  - simpl. rewrite scalar_free by exact Hv. apply Herr. reflexivity.
  - destruct reserved.
    + simpl. rewrite scalar_free by exact Hv.
      apply Herr. reflexivity.
    + cbn. eexists _, _. split; [reflexivity|]. simpl. split; [reflexivity|]. split; [reflexivity|].
      pose proof (find_member_none _ _ Hf) as Hn.
      split; [apply view_snoc, Hn|]. split; [|auto]. constructor; simpl.
      * rewrite map_app. apply NoDup_snoc; assumption.
      * rewrite map_app. apply NoDup_snoc; [assumption|].
        intros (m & Hm & Hin)%list_elem_of_fmap. specialize (H3 m Hin). simpl in Hm. lia.
      * intros m [Hm| ->%list_elem_of_singleton]%elem_of_app; simpl; [specialize (H3 m Hm)|]; lia.
      * intros m [Hm| ->%list_elem_of_singleton]%elem_of_app; simpl; auto.
Qed.

Lemma get_refines l s o name :
  s_heap s !! l = Some o → raw_ok s o →
  step_to l s o (match view (o_members o) !! name with Some v => inr (copied v) | None => inl ENOENT end)
    (view (o_members o)) (di_rawgetx l (Some name) s).
Proof.
  intros Hl Ho. unfold di_rawgetx, di_lookup, rd, mbind, ST_bind. rewrite Hl, view_lookup. cbn.
  destruct (find_member name (o_members o)) as [m|] eqn:Hf; cbn.
  - pose proof (ro_scalar _ _ Ho m (proj1 (find_member_in _ _ _ Hf))) as Hv.
    rewrite scalar_size by exact Hv. cbn. rewrite scalar_copy by exact Hv.
    apply step_same; assumption.
  - apply step_same; assumption.
Qed.

Lemma remove_refines l s o name :
  s_heap s !! l = Some o → raw_ok s o →
  step_to l s o (spec_raw (RRemove name) (view (o_members o))).1
    (spec_raw (RRemove name) (view (o_members o))).2 (run_raw l (RRemove name) s).
Proof.
  intros Hl Ho. cbn [run_raw spec_raw]. unfold di_remove_member_raw, di_lookup.
  unfold rd, mbind, ST_bind. rewrite Hl, view_lookup. cbn.
  destruct (find_member name (o_members o)) as [m|] eqn:Hf; cbn.
  - destruct (take_found _ _ _ (ro_ids _ _ Ho) (ro_names _ _ Ho) Hf) as (ms' & Ht & Hv & Hs).
    unfold di_remove_member_raw_impl, rd, wr, modify, mbind, ST_bind. rewrite Hl, Ht. cbn.
    rewrite scalar_free by apply (ro_scalar _ _ Ho m (proj1 (find_member_in _ _ _ Hf))).
    eexists _, _. split; [reflexivity|]. simpl. split; [reflexivity|]. split; [reflexivity|].
    split; [exact Hv|]. split; [|auto].
    assert (∀ x, x ∈ ms' → x ∈ o_members o) as Hin.
    { intros x Hx. eapply elem_of_sublist; [exact Hx|exact Hs]. }
    constructor; simpl.
    + eapply sublist_NoDup; [apply (ro_names _ _ Ho)|]. apply (fmap_sublist _), Hs.
    + eapply sublist_NoDup; [apply (ro_ids _ _ Ho)|]. apply (fmap_sublist _), Hs.
    + intros x Hx. apply (ro_fresh _ _ Ho), Hin, Hx.
    + intros x Hx. apply (ro_scalar _ _ Ho), Hin, Hx.
  - apply step_same; assumption.
Qed.

Lemma raw_refines l s o p :
  s_heap s !! l = Some o → raw_ok s o → raw_scalar p = true →
  step_to l s o (spec_raw p (view (o_members o))).1 (spec_raw p (view (o_members o))).2
    (run_raw l p s).
Proof.
  intros Hl Ho Hp. destruct p as [name v|name v|name|name]; cbn [raw_scalar] in Hp.
  - pose proof (add_refines l s o name v Hl Ho Hp) as H. revert H. cbn [run_raw spec_raw].
    unfold di_add_member_move, mbind, ST_bind. rewrite scalar_size by exact Hp. auto.
  - pose proof (add_refines l s o name (copied v) Hl Ho (scalar_copied _ Hp)) as H. revert H.
    cbn [run_raw spec_raw]. unfold di_add_member_clone, mbind, ST_bind.
    rewrite scalar_size by exact Hp. cbn. rewrite scalar_copy by exact Hp. auto.
  - apply get_refines; assumption.
  - apply remove_refines; assumption.
Qed.
End refine.

(** Running a sequence of operations, with their results. *)
Fixpoint run_raws {K : Kernel} (l : loc) (ps : list raw_op) : M (list (Z + value)) :=
  match ps with
  | [] => mret []
  | p :: ps' => r ← run_raw l p; rs ← run_raws l ps'; mret (r :: rs)
  end.

Fixpoint spec_raws (ps : list raw_op) (m : store) : list (Z + value) * store :=
  match ps with
  | [] => ([], m)
  | p :: ps' => let (r, m') := spec_raw p m in let (rs, m'') := spec_raws ps' m' in (r :: rs, m'')
  end.

(** C10. The members of an object refine a finite map.  Every sequence of raw
    additions, reads and removals of scalar values gives the results of the
    abstract store, error codes included, ends in an object whose members are
    the final store, and changes no other object. *)
Theorem members_refine_map {K : Kernel} l ps : ∀ s o,
  s_heap s !! l = Some o → raw_ok s o → forallb raw_scalar ps = true →
  ∃ s' o',
    run_raws l ps s = Done (spec_raws ps (view (o_members o))).1 s' ∧
    s_heap s' = <[l := o']> (s_heap s) ∧
    view (o_members o') = (spec_raws ps (view (o_members o))).2 ∧ raw_ok s' o'.
Proof.
  induction ps as [|p ps IH]; intros s o Hl Ho Hp.
  - exists s, o. cbn. rewrite (insert_id _ _ _ Hl). auto.
  - cbn in Hp. apply andb_prop in Hp as [Hp Hps].
    destruct (raw_refines l s o p Hl Ho Hp) as (s1 & o1 & Hr & Hh & _ & Hv & Ho1 & _).
    destruct (IH s1 o1) as (s2 & o2 & Hr2 & Hh2 & Hv2 & Ho2).
    { rewrite Hh. apply lookup_insert_eq. }
    { exact Ho1. }
    { exact Hps. }
    exists s2, o2. cbn [run_raws spec_raws]. unfold mbind, ST_bind. rewrite Hr, Hr2, Hv.
    rewrite Hh2, Hh, insert_insert_eq. rewrite <- Hv, Hv2, Hv.
    destruct (spec_raw p _) as [r m1]. cbn [snd fst] in *. destruct (spec_raws ps m1). auto.
Qed.

Lemma members_refine_map_witness :
  let s := State {[1 := Obj [] [] None None 1 1 false ENone]} ∅ 2 [] [] in
  let ps := [RAdd "x" (VInt 1); RAddClone "x" (VInt 2); RAdd "__get___y" (VInt 3); RGet "x"; RRemove "x"; RGet "x"]%string in
  ∃ s' : state, run_raws (K := kern (W := idle_world) 0) 1 ps s =
    Done [inr VNil; inl EEXIST; inl EINVAL; inr (VInt 1); inr VNil; inl ENOENT] s'.
Proof.
  intros s ps.
  destruct (members_refine_map (K := kern (W := idle_world) 0) 1 ps s (Obj [] [] None None 1 1 false ENone))
    as (s' & o' & H & _).
  - reflexivity.
  - constructor; cbn; [constructor|constructor|intros m Hm; inversion Hm..].
  - reflexivity.
  - exists s'. rewrite H. vm_compute. reflexivity.
Defined.
