(* ===== verification/Sweep.v ===== *)
(** * Leak detection (object.c, built with TRACK_OBJECTS)

    [di_mark_and_sweep] marks what can be reached from the roots through
    members of type object; [di_dump_objects] computes how many references to
    each object are not accounted for by such members.  [all_objects] lists the
    object structs that are allocated, which are the domain of the heap. *)

From S2P Require Import Prelude DiTypes Heap Account Knot Client.

(** ** Marking *)

(** The marks of the objects (absent is 0), and the number of warnings about
    reference cycles. *)
Record marks := Marks { mk_map : gmap loc nat; mk_warn : nat }.

Definition mark_of (m : marks) (l : loc) : nat := default 0 (mk_map m !! l).
Definition set_mark (l : loc) (n : nat) : ST marks unit :=
  modify (λ m, Marks (<[l := n]> (mk_map m)) (mk_warn m)).
Definition warn_cycle : ST marks unit := modify (λ m, Marks (mk_map m) (S (mk_warn m))).

(** The objects the members of type object point to, in the order of the
    table. *)
Definition successors (o : obj) : list loc :=
  omap (λ m, match m_val m with VObject l => Some l | _ => None end) (o_members o).

Section sweep.
Context (h : gmap loc obj).

Fixpoint di_mark_and_sweep_dfs (fuel : nat) (l : loc) : ST marks unit :=
  match fuel with
  | O => out_of_fuel
  | S k =>
      o ← from_opt UseAfterFree (h !! l);
      m ← get;
      if negb (Nat.eqb (mark_of m l) 0) then
        if Nat.eqb (mark_of m l) 1 then warn_cycle else mret tt
      else
        set_mark l 1;;
        for_each (di_mark_and_sweep_dfs k) (successors o);;
        set_mark l 2
  end.

(** [di_mark_and_sweep]: whether an object was left unmarked. *)
Definition di_mark_and_sweep (fuel : nat) (roots : loc) : ST marks bool :=
  modify (λ m, Marks ∅ (mk_warn m));;
  di_mark_and_sweep_dfs fuel roots;;
  o ← from_opt UseAfterFree (h !! roots);
  anon ← match o_ext o with ERoots _ anon => mret anon | _ => fail TypeConfusion end;
  for_each (λ root, di_mark_and_sweep_dfs fuel root.2) anon;;
  m ← get;
  mret (existsb (λ p, Nat.eqb (mark_of m p.1) 0) (map_to_list h)).

(** ** Reachability *)

Definition edge (x y : loc) : Prop := ∃ o, h !! x = Some o ∧ y ∈ successors o.

Definition closed : Prop := ∀ x y, edge x y → is_Some (h !! y).

(** Objects of the heap that are not marked. *)
Definition white (m : marks) : gset loc := filter (λ l, mark_of m l = 0) (dom h).

(** What a marked object points to is marked, unless the object is still
    being visited. *)
Definition black_ok (m : marks) : Prop := ∀ x y, mark_of m x = 2 → edge x y → mark_of m y ≠ 0.

(** From [m] to [m']: marks are not changed, and every new mark is 2 and
    reached from a node of [from]. *)
Record visited (from : list loc) (m m' : marks) : Prop := {
  vi_keep : ∀ x, mark_of m x ≠ 0 → mark_of m' x = mark_of m x;
  vi_new : ∀ x, mark_of m x = 0 → mark_of m' x ≠ 0 →
    mark_of m' x = 2 ∧ ∃ y, y ∈ from ∧ rtc edge y x;
  vi_from : ∀ y, y ∈ from → mark_of m' y ≠ 0;
  vi_black : black_ok m'
}.

Lemma visited_nil m : black_ok m → visited [] m m.
Proof. intros Hb. constructor; [auto|intros; congruence|set_solver|exact Hb]. Qed.

Lemma visited_trans xs ys m1 m2 m3 :
  visited xs m1 m2 → visited ys m2 m3 → visited (xs ++ ys) m1 m3.
Proof.
  intros [K1 N1 F1 _] [K2 N2 F2 B2]. constructor; [| | |exact B2].
  - intros x Hx. rewrite K2; [exact (K1 x Hx)|]. rewrite (K1 x Hx). exact Hx.
  - intros x Hx Hx3. destruct (decide (mark_of m2 x = 0)) as [E|E].
    + destruct (N2 x E Hx3) as (H2 & y & Hy & Hr). split; [exact H2|]. exists y. set_solver.
    + rewrite (K2 x E) in Hx3 |- *. destruct (N1 x Hx Hx3) as (H2 & y & Hy & Hr).
      split; [exact H2|]. exists y. set_solver.
  - intros y [Hy|Hy]%elem_of_app; [|exact (F2 y Hy)]. rewrite K2; exact (F1 y Hy).
Qed.

Lemma white_mono xs m m' : visited xs m m' → white m' ⊆ white m.
Proof.
  intros HV x. unfold white. rewrite !elem_of_filter. intros [Hx Hd]. split; [|exact Hd].
  destruct (decide (mark_of m x = 0)) as [|E]; [assumption|]. rewrite (vi_keep _ _ _ HV x E) in Hx. congruence.
Qed.

Lemma mark_of_set m l n x :
  mark_of (Marks (<[l := n]> (mk_map m)) (mk_warn m)) x = if decide (x = l) then n else mark_of m x.
Proof.
  unfold mark_of. cbn [mk_map]. case_decide as E.
  - subst x. rewrite lookup_insert_eq. reflexivity.
  - rewrite lookup_insert_ne by congruence. reflexivity.
Qed.

Lemma visited_same l m m' :
  (∀ x, mark_of m' x = mark_of m x) → mark_of m l ≠ 0 → black_ok m → visited [l] m m'.
Proof.
  intros E Hl Hb. constructor; intros x; rewrite ?E; [auto|congruence| |].
  - intros ->%list_elem_of_singleton. exact Hl.
  - intros y. rewrite !E. apply Hb.
Qed.

(** The visit of a white object, given the visit of its successors. *)
Lemma visited_node l o m m2 :
  h !! l = Some o → mark_of m l = 0 → black_ok m →
  visited (successors o) (Marks (<[l := 1]> (mk_map m)) (mk_warn m)) m2 →
  visited [l] m (Marks (<[l := 2]> (mk_map m2)) (mk_warn m2)).
Proof.
  intros Ho Hl Hb [K N F B]. constructor.
  - intros x Hx. rewrite mark_of_set. rewrite decide_False by congruence.
    specialize (K x). rewrite mark_of_set, decide_False in K by congruence. exact (K Hx).
  - intros x Hx. rewrite mark_of_set. case_decide as E.
    + subst x. intros _. split; [reflexivity|]. exists l. split; [left|apply rtc_refl].
    + intros H2. specialize (N x). rewrite mark_of_set, decide_False in N by exact E.
      destruct (N Hx H2) as (E2 & y & Hy & Hr). split; [exact E2|]. exists l. split; [left|].
      apply (rtc_l _ _ y); [exists o; auto|exact Hr].
  - intros y ->%list_elem_of_singleton. rewrite mark_of_set, decide_True by reflexivity. discriminate.
  - intros x y. rewrite !mark_of_set. case_decide as E.
    + subst x. intros _ (o' & Ho' & Hy). rewrite Ho in Ho'. injection Ho' as <-.
      case_decide; [discriminate|exact (F y Hy)].
    + intros H2 He. case_decide; [discriminate|exact (B x y H2 He)].
Qed.

Lemma white_set l m :
  mark_of m l = 0 → l ∈ dom h →
  size (white (Marks (<[l := 1]> (mk_map m)) (mk_warn m))) < size (white m).
Proof.
  intros Hl Hd. apply subset_size. split.
  - intros x. unfold white. rewrite !elem_of_filter, mark_of_set. case_decide; [intros [[=] _]|auto].
  - intros Hs. specialize (Hs l). unfold white in Hs. rewrite !elem_of_filter, mark_of_set in Hs.
    rewrite decide_True in Hs by reflexivity. destruct (Hs (conj Hl Hd)). discriminate.
Qed.

Definition dfs_ok (k : nat) : Prop := ∀ l m,
  black_ok m → size (white m) < k → is_Some (h !! l) →
  ∃ m', di_mark_and_sweep_dfs k l m = Done tt m' ∧ visited [l] m m'.

Lemma dfs_list {A} (f : A → loc) k xs m :
  dfs_ok k → black_ok m → size (white m) < k → (∀ x, x ∈ xs → is_Some (h !! f x)) →
  ∃ m', for_each (λ x, di_mark_and_sweep_dfs k (f x)) xs m = Done tt m' ∧ visited (f <$> xs) m m'.
Proof.
  intros Hk. revert m. induction xs as [|x xs IH]; intros m Hb Hs Hd.
  - exists m. split; [reflexivity|exact (visited_nil m Hb)].
  - destruct (Hk (f x) m Hb Hs (Hd x ltac:(left))) as (m1 & E1 & V1).
    destruct (IH m1 (vi_black _ _ _ V1)) as (m2 & E2 & V2).
    + pose proof (subseteq_size _ _ (white_mono _ _ _ V1)). lia.
    + intros y Hy. apply Hd. right. exact Hy.
    + exists m2. split; [|exact (visited_trans [f x] _ _ _ _ V1 V2)].
      cbn [for_each]. unfold mbind, ST_bind. rewrite E1. exact E2.
Qed.

Lemma dfs_correct k : closed → dfs_ok k.
Proof.
  intros Hc. induction k as [|k IH]; intros l m Hb Hs [o Ho]; [lia|].
  cbn [di_mark_and_sweep_dfs]. unfold mbind, ST_bind. rewrite Ho. cbn [from_opt mret ST_ret get].
  destruct (Nat.eqb_spec (mark_of m l) 0) as [El|El]; cbn [negb].
  - destruct (dfs_list (λ x, x) k (successors o) (Marks (<[l := 1]> (mk_map m)) (mk_warn m)) IH) as (m2 & E2 & V2).
    + intros x y. rewrite !mark_of_set. case_decide; [discriminate|].
      intros H2 He. case_decide; [discriminate|exact (Hb x y H2 He)].
    + pose proof (white_set l m El (elem_of_dom_2 _ _ _ Ho)). lia.
    + intros y Hy. apply (Hc l). exists o. auto.
    + change (for_each (di_mark_and_sweep_dfs k) (successors o) (Marks (<[l := 1]> (mk_map m)) (mk_warn m)) = Done tt m2) in E2.
      unfold set_mark, modify. rewrite E2.
      eexists. split; [reflexivity|]. rewrite list_fmap_id in V2. exact (visited_node _ _ _ _ Ho El Hb V2).
  - destruct (Nat.eqb (mark_of m l) 1); eexists; (split; [reflexivity|]);
      apply visited_same; auto.
Qed.

Lemma white_bound m : size (white m) ≤ size h.
Proof.
  unfold white. rewrite <- (size_dom (D := gset loc) h). apply subseteq_size.
  intros x. rewrite elem_of_filter. tauto.
Qed.

(** After the visit of [from], starting without marks, the marked objects are
    those reached from [from]. *)
Lemma visited_all from n m l :
  visited from (Marks ∅ n) m → (mark_of m l ≠ 0 ↔ ∃ y, y ∈ from ∧ rtc edge y l).
Proof.
  intros [_ N F B]. assert (∀ x, mark_of (Marks ∅ n) x = 0) as H0.
  { intros x. unfold mark_of. cbn [mk_map]. rewrite lookup_empty. reflexivity. }
  split.
  - intros Hl. exact (proj2 (N l (H0 l) Hl)).
  - intros (y & Hy & Hr). specialize (F y Hy). clear Hy. induction Hr as [x|x y z He Hr IH]; [exact F|].
    apply IH. apply (B x y); [|exact He]. exact (proj1 (N x (H0 x) F)).
Qed.
End sweep.

(** The successors of an object are strong references it stores. *)
Lemma successors_refs o y : y ∈ successors o → Strong y ∈ obj_refs o.
Proof.
  unfold successors, obj_refs, member_refs, refs_of_list. rewrite list_elem_of_omap.
  intros (m & Hm & Hv). apply elem_of_app. left. apply list_elem_of_In, in_concat.
  exists (refs (m_val m)). split.
  - apply in_map_iff. exists (m_val m). split; [reflexivity|]. apply in_map, list_elem_of_In, Hm.
  - destruct (m_val m); try discriminate. injection Hv as ->. left. reflexivity.
Qed.

Lemma Inv_closed E s : Inv E s → closed (s_heap s).
Proof.
  intros HI x y (o & Ho & Hy).
  destruct (Inv_stored_alloc _ _ _ _ y _ HI Ho (successors_refs _ _ Hy)) as (o' & Hy' & _); [auto|eauto].
Qed.

Lemma Inv_anon E s l o next anon p :
  Inv E s → s_heap s !! l = Some o → o_ext o = ERoots next anon → p ∈ anon → is_Some (s_heap s !! p.2).
Proof.
  intros HI Ho Ex Hp. destruct (Inv_stored_alloc _ _ _ _ p.2 (Strong p.2) HI Ho) as (o' & Hy & _); [|auto|eauto].
  unfold obj_refs. rewrite Ex. apply elem_of_app. right. cbn [ext_refs].
  apply list_elem_of_In, in_map_iff. exists p. split; [reflexivity|]. apply list_elem_of_In, Hp.
Qed.

(** C35. [di_mark_and_sweep] ends, on any heap of consistent counts, whatever
    cycles it has: with more fuel than there are objects it returns, and it
    returns true exactly when some allocated object cannot be reached from the
    roots, named or anonymous, through members of type object. *)
Theorem mark_and_sweep_correct (E : list ref) (s : state) (roots : loc) (o : obj) (next : Z)
    (anon : list (Z * loc)) (fuel : nat) (m : marks)
    (HI : Inv E s) (Hroots : s_heap s !! roots = Some o) (Hext : o_ext o = ERoots next anon)
    (Hfuel : size (s_heap s) < fuel) :
  ∃ b m', di_mark_and_sweep (s_heap s) fuel roots m = Done b m' ∧
    (b = true ↔ ∃ l, is_Some (s_heap s !! l) ∧
       ∀ y, y ∈ roots :: anon.*2 → ¬ rtc (edge (s_heap s)) y l).
Proof.
  pose proof (dfs_correct (s_heap s) fuel (Inv_closed _ _ HI)) as Hdfs.
  assert (∀ m, size (white (s_heap s) m) < fuel) as Hw
    by (intros m'; pose proof (white_bound (s_heap s) m'); lia).
  destruct (Hdfs roots (Marks ∅ (mk_warn m))) as (m1 & E1 & V1); [|apply Hw|eauto|].
  { intros x y. unfold mark_of. cbn [mk_map]. rewrite lookup_empty. discriminate. }
  destruct (dfs_list (s_heap s) snd fuel anon m1 Hdfs (vi_black _ _ _ _ V1) (Hw m1)) as (m2 & E2 & V2).
  { intros p. exact (Inv_anon _ _ _ _ _ _ _ HI Hroots Hext). }
  pose proof (visited_trans _ _ _ _ _ _ V1 V2) as V. cbn [app] in V.
  unfold di_mark_and_sweep, modify, get, mbind, ST_bind. rewrite E1, Hroots. cbn [from_opt mret ST_ret].
  rewrite Hext. cbn [mret ST_ret]. rewrite E2. do 2 eexists. split; [reflexivity|].
  rewrite existsb_exists. setoid_rewrite <- list_elem_of_In. split.
  - intros ([l x] & Hl & Hm). apply elem_of_map_to_list in Hl. exists l. split; [eauto|].
    intros y Hy Hr. apply Nat.eqb_eq in Hm. cbn [fst] in Hm. revert Hm.
    apply (visited_all _ _ _ _ _ V). eauto.
  - intros (l & [x Hl] & Hn). exists (l, x). split; [apply elem_of_map_to_list; exact Hl|].
    apply Nat.eqb_eq. cbn [fst]. destruct (decide (mark_of m2 l = 0)) as [|Hm]; [assumption|].
    apply (visited_all _ _ _ _ _ V) in Hm as (y & Hy & Hr). destruct (Hn y Hy Hr).
Qed.

(** ** Accounting for references (di_dump_objects) *)

Abbreviation excess := (gmap loc Z) (only parsing).

(** [i->excess_ref_count = i->ref_count]; the field has 64 bits. *)
Definition excess_init (h : gmap loc obj) : excess := (λ o, Z.of_nat (o_rc o)) <$> h.

Definition dec_excess (l : loc) : ST excess unit := λ ex,
  match ex !! l with
  | Some n => Done tt (<[l := wrap_u 64 (n - 1)]> ex)
  | None => Crash UseAfterFree
  end.

(** [di_dump_object], without what it prints. *)
Definition di_dump_object (o : obj) : ST excess unit := for_each dec_excess (successors o).

(** [di_dump_objects]: the excess counts it prints; [roots] is [None] once the
    variable [roots] has been reset. *)
Definition di_dump_objects (h : gmap loc obj) (roots : option loc) : ST excess unit :=
  put (excess_init h);;
  for_each (λ p, di_dump_object p.2) (map_to_list h);;
  match roots with
  | None => mret tt
  | Some r =>
      dec_excess r;;
      o ← from_opt UseAfterFree (h !! r);
      anon ← match o_ext o with ERoots _ anon => mret anon | _ => fail TypeConfusion end;
      for_each (λ root, dec_excess root.2) anon
  end.

Lemma dec_all ds ex :
  (∀ l, l ∈ ds → is_Some (ex !! l)) → (∀ l n, ex !! l = Some n → (Z.of_nat (cnt l ds) ≤ n < 2 ^ 64)%Z) →
  for_each dec_excess ds ex = Done tt (map_imap (λ l n, Some (n - Z.of_nat (cnt l ds))%Z) ex).
Proof.
  revert ex. induction ds as [|d ds IH]; intros ex Hd Hn.
  - cbn [for_each]. unfold mret, ST_ret. f_equal. apply map_eq. intros l. rewrite map_lookup_imap.
    destruct (ex !! l); cbn; [f_equal; lia|reflexivity].
  - cbn [for_each]. unfold mbind, ST_bind, dec_excess at 1.
    destruct (Hd d ltac:(left)) as [n Ed]. rewrite Ed.
    pose proof (Hn d n Ed) as Hnd. cbn [cnt] in Hnd. rewrite decide_True in Hnd by reflexivity.
    rewrite wrap_u_small by lia. rewrite IH.
    + f_equal. apply map_eq. intros l. rewrite !map_lookup_imap. cbn [cnt].
      destruct (decide (l = d)) as [->|E].
      * rewrite lookup_insert_eq, Ed. cbn. f_equal. lia.
      * rewrite lookup_insert_ne by congruence. destruct (ex !! l); cbn; [f_equal; lia|reflexivity].
    + intros l Hl. destruct (decide (l = d)) as [->|E]; [rewrite lookup_insert_eq; eauto|].
      rewrite lookup_insert_ne by congruence. apply Hd. right. exact Hl.
    + intros l n' Hl. destruct (decide (l = d)) as [->|E].
      * rewrite lookup_insert_eq in Hl. injection Hl as <-. lia.
      * rewrite lookup_insert_ne in Hl by congruence. specialize (Hn l n' Hl). cbn [cnt] in Hn.
        rewrite decide_False in Hn by exact E. exact Hn.
Qed.

Lemma for_each_app {S A} (f : A → ST S unit) xs ys s :
  for_each f (xs ++ ys) s = (for_each f xs;; for_each f ys) s.
Proof.
  revert s. induction xs as [|x xs IH]; intros s; [reflexivity|].
  cbn [app for_each]. unfold mbind, ST_bind. destruct (f x s) as [[] s'| |]; [apply IH|reflexivity..].
Qed.

Lemma for_each_concat {S A B} (f : B → ST S unit) (g : A → list B) xs s :
  for_each (λ x, for_each f (g x)) xs s = for_each f (concat (map g xs)) s.
Proof.
  revert s. induction xs as [|x xs IH]; intros s; [reflexivity|].
  cbn [map concat for_each]. rewrite for_each_app. unfold mbind, ST_bind.
  destruct (for_each f (g x) s) as [[] s'| |]; [apply IH|reflexivity..].
Qed.

Lemma for_each_fmap {S A B} (f : B → ST S unit) (g : A → B) xs s :
  for_each (λ x, f (g x)) xs s = for_each f (g <$> xs) s.
Proof.
  revert s. induction xs as [|x xs IH]; intros s; [reflexivity|].
  cbn [fmap list_fmap for_each]. unfold mbind, ST_bind. destruct (f (g x) s) as [[] s'| |]; [apply IH|reflexivity..].
Qed.

Lemma total_le {B} (f g : B → list ref) r (h : gmap nat B) :
  (∀ o, cnt r (f o) ≤ cnt r (g o)) → total f r h ≤ total g r h.
Proof.
  intros Hle. induction h as [|l o h Hl IH] using map_ind; [rewrite !total_empty; lia|].
  rewrite !total_insert_new by exact Hl. pose proof (Hle o). lia.
Qed.

Lemma total_app {B} (f g : B → list ref) r (h : gmap nat B) :
  total (λ o, f o ++ g o) r h = total f r h + total g r h.
Proof.
  induction h as [|l o h Hl IH] using map_ind; [rewrite !total_empty; lia|].
  rewrite !total_insert_new, cnt_app by exact Hl. lia.
Qed.

Lemma total_concat {B} (f : B → list ref) r (h : gmap nat B) :
  total f r h = cnt r (concat (map (λ p, f p.2) (map_to_list h))).
Proof.
  unfold total. rewrite map_fold_foldr. induction (map_to_list h) as [|[l o] xs IH]; [reflexivity|].
  cbn [foldr uncurry map concat snd]. rewrite cnt_app, IH. reflexivity.
Qed.

(** References held by members of type object. *)
Definition direct (o : obj) : list ref := Strong <$> successors o.

Lemma cnt_strong l ls : cnt (Strong l) (Strong <$> ls) = cnt l ls.
Proof.
  induction ls as [|x ls IH]; [reflexivity|]. cbn [fmap list_fmap cnt]. rewrite IH.
  do 2 case_decide; congruence || reflexivity.
Qed.

Lemma direct_le l o : cnt (Strong l) (direct o ++ ext_refs (o_ext o)) ≤ cnt (Strong l) (obj_refs o).
Proof.
  unfold obj_refs. rewrite !cnt_app. apply Nat.add_le_mono_r. unfold direct, successors, member_refs, refs_of_list.
  induction (o_members o) as [|m ms IH]; [reflexivity|]. cbn [omap list_omap map concat].
  rewrite cnt_app. destruct (m_val m); cbn [fmap list_fmap cnt refs]; lia.
Qed.

Lemma concat_strong {A} (g : A → list loc) xs :
  Strong <$> concat (map g xs) = concat (map (λ x, Strong <$> g x) xs).
Proof. induction xs as [|x xs IH]; [reflexivity|]. cbn [map concat]. rewrite fmap_app, IH. reflexivity. Qed.

(** All the decrements of [di_dump_objects]. *)
Definition decrements (h : gmap loc obj) (r : loc) (anon : list (Z * loc)) : list loc :=
  concat (map (λ p, successors p.2) (map_to_list h)) ++ r :: anon.*2.

Lemma decrements_cnt h r anon l :
  cnt l (decrements h r anon) = total direct (Strong l) h + cnt l (r :: anon.*2).
Proof.
  unfold decrements. rewrite cnt_app, total_concat. f_equal.
  rewrite <- cnt_strong, concat_strong. reflexivity.
Qed.

Lemma decrements_bound E s r o next anon l x :
  Inv E s → Strong r ∈ E → s_heap s !! r = Some o → o_ext o = ERoots next anon → s_heap s !! l = Some x →
  cnt l (decrements (s_heap s) r anon) ≤ o_rc x.
Proof.
  intros HI Hr Ho Ex Hl. rewrite decrements_cnt, (inv_strong _ _ HI l x Hl). unfold hcnt.
  pose proof (total_le (λ o, direct o ++ ext_refs (o_ext o)) obj_refs (Strong l) (s_heap s) (direct_le l)) as H1.
  rewrite total_app in H1.
  pose proof (total_ge (λ o, ext_refs (o_ext o)) (Strong l) _ _ _ Ho) as H2. cbn beta in H2. rewrite Ex in H2.
  change (ext_refs (ERoots next anon)) with (map (λ p : Z * loc, Strong p.2) anon) in H2.
  assert (cnt (Strong l) (map (λ p : Z * loc, Strong p.2) anon) = cnt l anon.*2) as E2.
  { rewrite <- cnt_strong. f_equal. rewrite <- list_fmap_compose. reflexivity. }
  rewrite E2 in H2. cbn [cnt].
  assert ((if decide (l = r) then 1 else 0) ≤ cnt (Strong l) E) as H3.
  { case_decide; [subst l; apply cnt_elem_of in Hr; lia|lia]. }
  lia.
Qed.

Lemma decrements_alloc E s r o next anon l :
  Inv E s → s_heap s !! r = Some o → o_ext o = ERoots next anon →
  l ∈ decrements (s_heap s) r anon → is_Some (s_heap s !! l).
Proof.
  intros HI Ho Ex. unfold decrements. rewrite elem_of_app, elem_of_cons. intros [Hl|[->|Hl]]; [|eauto|].
  - apply list_elem_of_In, in_concat in Hl as (ls & ((x & y) & <- & Hx)%in_map_iff & Hl).
    apply list_elem_of_In, elem_of_map_to_list in Hx. apply list_elem_of_In in Hl.
    apply (Inv_closed _ _ HI x). exists y. auto.
  - apply list_elem_of_fmap in Hl as (p & -> & Hp). exact (Inv_anon _ _ _ _ _ _ _ HI Ho Ex Hp).
Qed.

(** The excess count [di_dump_objects] prints for an object is the number
    of strong references to it that neither a member of type object nor the
    roots hold; no count wraps around. *)
Theorem dump_objects_excess (E : list ref) (s : state) (roots : loc) (o : obj) (next : Z)
    (anon : list (Z * loc)) (ex : excess)
    (HI : Inv (Strong roots :: E) s) (Hroots : s_heap s !! roots = Some o) (Hext : o_ext o = ERoots next anon)
    (Hsmall : ∀ l x, s_heap s !! l = Some x → (Z.of_nat (o_rc x) < 2 ^ 64)%Z) :
  ∃ ex', di_dump_objects (s_heap s) (Some roots) ex = Done tt ex' ∧
    ∀ l x, s_heap s !! l = Some x →
      ∃ n, ex' !! l = Some (Z.of_nat n) ∧
        o_rc x = total direct (Strong l) (s_heap s) + cnt l (roots :: anon.*2) + n.
Proof.
  assert (for_each dec_excess (decrements (s_heap s) roots anon) (excess_init (s_heap s)) = Done tt
    (map_imap (λ l n, Some (n - Z.of_nat (cnt l (decrements (s_heap s) roots anon)))%Z) (excess_init (s_heap s)))) as E1.
  { apply dec_all.
    - intros l Hl. destruct (decrements_alloc _ _ _ _ _ _ _ HI Hroots Hext Hl) as [x Hx].
      unfold excess_init. rewrite lookup_fmap, Hx. eauto.
    - intros l n. unfold excess_init. rewrite lookup_fmap. intros (x & Hx & ->)%fmap_Some.
      pose proof (decrements_bound _ _ _ _ _ _ _ _ HI ltac:(left) Hroots Hext Hx). specialize (Hsmall l x Hx). lia. }
  unfold decrements in E1 at 1. rewrite for_each_app in E1. eexists. split.
  - unfold di_dump_objects, di_dump_object, put, mbind, ST_bind. rewrite for_each_concat.
    unfold mbind, ST_bind in E1. destruct (for_each dec_excess (concat _) _) as [[] ex1| |]; [|discriminate..].
    cbn [for_each] in E1. unfold mbind, ST_bind in E1. destruct (dec_excess roots ex1) as [[] ex2| |]; [|discriminate..].
    rewrite Hroots. cbn [from_opt mret ST_ret]. rewrite Hext. cbn [mret ST_ret].
    rewrite (for_each_fmap dec_excess snd). exact E1.
  - intros l x Hx. rewrite map_lookup_imap. unfold excess_init. rewrite lookup_fmap, Hx. cbn.
    pose proof (decrements_bound _ _ _ _ _ _ _ _ HI ltac:(left) Hroots Hext Hx) as Hb.
    rewrite decrements_cnt in *. exists (o_rc x - (total direct (Strong l) (s_heap s) + cnt l (roots :: anon.*2))).
    split; [f_equal|]; cbn [cnt] in *; lia.
Qed.

(** The roots object 1 holds 2, which holds 3, which holds 2; 4 holds itself. *)
Definition rooted : list op :=
  [OpNewRoots; OpNew 128 8; OpNew 128 8; OpNew 128 8;
   OpAddClone 2 (Some "next"%string) (VObject 3); OpAddClone 3 (Some "back"%string) (VObject 2);
   OpAddClone 4 (Some "self"%string) (VObject 4); OpAddRoot 1 (Some "first"%string) 2;
   OpUnref 2; OpUnref 3; OpUnref 4].

Lemma rooted_inv : Inv [Strong 1] (after rooted).2.
Proof.
  assert ((after rooted).1 = [Strong 1]) as <- by (vm_compute; reflexivity).
  apply (reachable_inv (W := idle_world) 6), after_reachable. vm_compute. reflexivity.
Qed.

Lemma mark_and_sweep_correct_witness :
  match di_mark_and_sweep (s_heap (after rooted).2) 5 1 (Marks ∅ 0) with
  | Done b _ => b = true
  | _ => False
  end.
Proof.
  destruct (s_heap (after rooted).2 !! 1) as [o|] eqn:Ho; [|vm_compute in Ho; discriminate].
  destruct (mark_and_sweep_correct [Strong 1] (after rooted).2 1 o 1 [] 5 (Marks ∅ 0)) as (b & m & H & _).
  - exact rooted_inv.
  - exact Ho.
  - vm_compute in Ho. injection Ho as <-. reflexivity.
  - vm_compute. lia.
  - rewrite H. vm_compute in H. injection H as <-. reflexivity.
Defined.

Lemma dump_objects_excess_witness :
  ∃ ex, di_dump_objects (s_heap (after rooted).2) (Some 1) ∅ = Done tt ex.
Proof.
  destruct (s_heap (after rooted).2 !! 1) as [o|] eqn:Ho; [|vm_compute in Ho; discriminate].
  destruct (dump_objects_excess [] (after rooted).2 1 o 1 [] ∅) as (ex & H & _).
  - exact rooted_inv.
  - exact Ho.
  - vm_compute in Ho. injection Ho as <-. reflexivity.
  - intros l x Hl. assert (map_Forall (λ _ x, (Z.of_nat (o_rc x) < 2 ^ 64)%Z) (s_heap (after rooted).2)) as HF by vm_decide.
    exact (HF l x Hl).
  - exists ex. exact H.
Defined.
