(* ===== verification/Typing.v ===== *)
(** * Well-typed values

    A value is well typed when its integers fit the width of their type and the
    elements of its arrays have the element type.  Every operation of the object
    system keeps the stored values well typed and returns well-typed values, of
    the type it was asked for. *)

From S2P Require Import Prelude DiTypes Conv Heap Account Object ObjectSpec Signals Callable Roots Helper Knot Client.

(** ** Values *)

Fixpoint welltyped (v : value) : bool :=
  int_ok v &&
  match v with
  | VArray t _ l => forallb (λ x, bool_decide (type_of x = t)) l && forallb welltyped l
  | VTuple l => forallb welltyped l
  | VVariant w => welltyped w
  | _ => true
  end.

Definition wt (v : value) : Prop := welltyped v = true.
Definition wts (l : list value) : Prop := forallb welltyped l = true.

(** Results of fallible operations. *)
Definition rc_wt (r : Z + value) : Prop := match r with inl _ => True | inr v => wt v end.
Definition rc_of_type (t : di_type) (r : Z + value) : Prop :=
  match r with inl _ => True | inr v => wt v ∧ type_of v = t end.
Definition call_wt (r : bool * (Z + value)) : Prop := rc_wt r.2.
Definition fn_wt (r : loc + value) : Prop := match r with inl _ => True | inr v => wt v end.
(** A conversion that succeeds gives a well-typed value of the type asked for. *)
Definition converted (t : di_type) (r : Z + value * bool) : Prop :=
  match r with inl _ => True | inr x => wt x.1 ∧ type_of x.1 = t end.

Lemma wts_cons v l : wts (v :: l) ↔ wt v ∧ wts l.
Proof. unfold wts, wt. cbn [forallb]. apply andb_true_iff. Qed.

Lemma wts_one v : wt v → wts [v].
Proof. intros H. apply wts_cons. split; [exact H|reflexivity]. Qed.

Lemma wts_app l1 l2 : wts (l1 ++ l2) ↔ wts l1 ∧ wts l2.
Proof. unfold wts. rewrite forallb_app. apply andb_true_iff. Qed.

Lemma wts_elem v l : wts l → v ∈ l → wt v.
Proof. unfold wts. rewrite forallb_forall. intros H Hv. apply H, list_elem_of_In, Hv. Qed.

(** ** Stored values *)

Definition wt_members (ms : list member) : Prop := ∀ m, m ∈ ms → wt (m_val m).
Definition wt_ext (x : ext) : Prop := match x with EClosure _ caps _ _ => wts caps | _ => True end.

Record wt_obj (o : obj) : Prop := { wo_members : wt_members (o_members o); wo_ext : wt_ext (o_ext o) }.

Definition WT (s : state) : Prop := ∀ l o, s_heap s !! l = Some o → wt_obj o.

(** [m] keeps the stored values well typed, and its result satisfies [φ]. *)
Definition typed {A} (m : M A) (φ : A → Prop) : Prop := triple (λ _, True) WT m (λ a s, φ a ∧ WT s).
Abbreviation plainly m := (typed m (λ _, True)).

Create HintDb typed.

Section rules.

Lemma typed_ret {A} (a : A) (φ : A → Prop) : φ a → typed (mret a) φ.
Proof. intros H. apply triple_ret. auto. Qed.

Lemma typed_bind {A B} (m : M A) (f : A → M B) φ ψ :
  typed m φ → (∀ a, φ a → typed (f a) ψ) → typed (a ← m; f a) ψ.
Proof.
  intros Hm Hf. eapply triple_bind; [exact Hm|]. intros a. apply triple_pure. intros Ha. exact (Hf a Ha).
Qed.

Lemma typed_fail {A} c (φ : A → Prop) : typed (fail c) φ.
Proof. apply triple_fail. exact I. Qed.
Lemma typed_out_of_fuel {A} (φ : A → Prop) : typed out_of_fuel φ.
Proof. apply triple_out_of_fuel. Qed.
Lemma typed_check b : typed (check b) (λ _, b = true).
Proof. destruct b; [apply typed_ret; reflexivity|apply typed_fail]. Qed.
Lemma typed_from_opt {A} c (o : option A) : typed (from_opt c o) (λ a, o = Some a).
Proof. destruct o; [apply typed_ret; reflexivity|apply typed_fail]. Qed.
Lemma typed_weaken {A} (m : M A) (φ ψ : A → Prop) : typed m φ → (∀ a, φ a → ψ a) → typed m ψ.
Proof. intros H HW s Hs. specialize (H s Hs). destruct (m s); naive_solver. Qed.

Lemma typed_for_each {A} (f : A → M unit) l : (∀ x, x ∈ l → plainly (f x)) → plainly (for_each f l).
Proof.
  intros Hf. induction l as [|x l IH]; cbn [for_each]; [apply typed_ret; exact I|].
  eapply typed_bind; [apply Hf; left|]. intros _ _. apply IH. intros y Hy. apply Hf. right. exact Hy.
Qed.

Lemma typed_collect {A B} (f : A → M B) (R : A → B → Prop) l :
  (∀ x, x ∈ l → typed (f x) (R x)) → typed (collect f l) (Forall2 R l).
Proof.
  intros Hf. induction l as [|x l IH]; cbn [collect]; [apply typed_ret; constructor|].
  eapply typed_bind; [apply Hf; left|]. intros y Hy. eapply typed_bind.
  - apply IH. intros z Hz. apply Hf. right. exact Hz.
  - intros ys Hys. apply typed_ret. constructor; assumption.
Qed.

Lemma typed_while {A} k (step : A → M (option A)) a : (∀ a, plainly (step a)) → plainly (while_some k step a).
Proof.
  intros Hs. revert a. induction k as [|k IH]; intros a; cbn [while_some]; [apply typed_out_of_fuel|].
  eapply typed_bind; [apply Hs|]. intros [a'|] _; [apply IH|apply typed_ret; exact I].
Qed.

(** *** Memory accesses *)

Lemma typed_rd l : typed (rd l) wt_obj.
Proof. intros s Hs. unfold rd. destruct (s_heap s !! l) as [o|] eqn:Hl; [|exact I]. split; [exact (Hs l o Hl)|exact Hs]. Qed.

Lemma typed_wr l o : wt_obj o → plainly (wr l o).
Proof.
  intros Ho s Hs. split; [exact I|]. intros l' o'. cbn [s_heap set_heap].
  intros [[<- <-]|[_ Hl']]%lookup_insert_Some; [exact Ho|exact (Hs _ _ Hl')].
Qed.

Lemma typed_upd l f : (∀ o, wt_obj o → wt_obj (f o)) → plainly (upd l f).
Proof. intros Hf. eapply typed_bind; [apply typed_rd|]. intros o Ho. apply typed_wr, Hf, Ho. Qed.

(** An access that leaves the objects alone. *)
Lemma typed_same {A} (m : M A) :
  (∀ s, match m s with Done _ s' => s_heap s' = s_heap s | _ => True end) → plainly m.
Proof.
  intros H s Hs. specialize (H s). destruct (m s) as [a s'| |]; [|exact I..]. split; [exact I|].
  intros l o. rewrite H. apply Hs.
Qed.

Lemma typed_rd_sig i : plainly (rd_sig i).
Proof. apply typed_same. intros s. unfold rd_sig. destruct (s_sigs s !! i); reflexivity || exact I. Qed.
Lemma typed_wr_sig i g : plainly (wr_sig i g).
Proof. apply typed_same. reflexivity. Qed.
Lemma typed_fresh : plainly fresh_id.
Proof. apply typed_same. reflexivity. Qed.
Lemma typed_emit w a : plainly (emit_event w a).
Proof. apply typed_same. reflexivity. Qed.
Lemma typed_leak rs : plainly (leak rs).
Proof. apply typed_same. reflexivity. Qed.
Lemma typed_free_sig i : plainly (free_sig i).
Proof. apply typed_same. intros s. unfold free_sig. destruct (s_sigs s !! i); [reflexivity|exact I]. Qed.

Lemma typed_free_obj l : plainly (free_obj l).
Proof.
  intros s Hs. unfold free_obj. destruct (s_heap s !! l); [|exact I]. split; [exact I|].
  intros l' o'. cbn [s_heap set_heap]. intros [_ Hl']%lookup_delete_Some. exact (Hs _ _ Hl').
Qed.
End rules.

#[export] Hint Resolve typed_fail typed_out_of_fuel typed_check typed_from_opt typed_rd typed_rd_sig typed_wr_sig
  typed_fresh typed_emit typed_leak typed_free_sig typed_free_obj : typed.

Lemma wt_obj_same o o' : o_members o' = o_members o → o_ext o' = o_ext o → wt_obj o → wt_obj o'.
Proof. intros Hm He [H1 H2]. constructor; rewrite ?Hm, ?He; assumption. Qed.

#[export] Hint Resolve wts_one : typed.
#[export] Hint Extern 1 (wt _) => reflexivity : typed.
#[export] Hint Extern 1 (wts _) => reflexivity : typed.
#[export] Hint Extern 2 (wts (_ :: _)) => apply wts_cons; split : typed.
#[export] Hint Extern 2 (wts (_ ++ _)) => apply wts_app; split : typed.
#[export] Hint Extern 1 (wt_ext _) => exact I : typed.
#[export] Hint Extern 1 (wt_obj _) =>
  match goal with H : wt_obj ?o |- _ => solve [apply (wt_obj_same o); [reflexivity|reflexivity|exact H]] end : typed.

(** Steps through an operation: the parts by their lemmas, and what is left is
    about values. *)
Ltac typed_step :=
  match goal with
  | H : _ ∧ _ |- _ => destruct H
  | x : (_ * _)%type |- _ => destruct x; cbn [rc_wt rc_of_type fn_wt converted call_wt fst snd] in *
  | |- typed (mret _) _ => apply typed_ret
  | |- typed (fail _) _ => apply typed_fail
  | |- typed out_of_fuel _ => apply typed_out_of_fuel
  | |- typed (mbind _ _) _ => eapply typed_bind; [solve [eauto with typed]|cbv beta; intros ? ?]
  | |- typed (mbind _ _) _ => eapply (typed_bind _ _ (λ _, True)); [|intros ? _]
  | |- typed (upd _ _) _ => apply typed_upd; intros ? ?
  | |- typed (wr _ _) _ => apply typed_wr
  | |- typed (for_each _ _) _ => apply typed_for_each; intros ? ?
  | |- typed (while_some _ _ _) _ => apply typed_while; intros ?
  | |- typed (match ?x with _ => _ end) _ => destruct x eqn:?; cbn [rc_wt rc_of_type fn_wt converted call_wt fst snd] in *
  | |- typed _ _ => solve [eauto with typed]
  | |- typed _ (λ _, True) => solve [eapply typed_weaken; [solve [eauto with typed]|auto]]
  end.
Ltac ty := repeat (cbv beta iota zeta; typed_step); cbn [rc_wt rc_of_type fn_wt converted call_wt fst snd] in *; simplify_eq/=; auto with typed; try tauto.

(** ** Conversion *)

Lemma wt_store t z : is_integer t = true → wt (store_int t z) ∧ type_of (store_int t z) = t.
Proof.
  intros Ht. unfold wt. destruct t; try discriminate; cbn [store_int welltyped int_ok type_of conv_to]; (split; [|reflexivity]);
    rewrite andb_true_r; apply andb_true_iff; rewrite Z.leb_le, Z.ltb_lt; unfold wrap_s, wrap_u;
    Z.div_mod_to_equations; lia.
Qed.

Lemma wt_integer_conversion v t w :
  wt v → integer_conversion v t = inr w → wt w ∧ type_of w = t.
Proof.
  intros Hv. unfold integer_conversion. case_bool_decide as Ht; [intros [= <-]; auto|].
  unfold convert_switch, convert_case. destruct t; try discriminate; destruct (int_field v); try discriminate;
    destruct (_ || _); try discriminate; intros E;
    match type of E with inr (store_int ?t ?z) = _ => assert (w = store_int t z) as -> by congruence end;
    apply wt_store; reflexivity.
Qed.


Lemma Forall2_right {A B} (R : A → B → Prop) l k y : Forall2 R l k → y ∈ k → ∃ x, x ∈ l ∧ R x y.
Proof.
  induction 1 as [|x z l k Hxz _ IH]; intros Hy; [inversion Hy|].
  apply elem_of_cons in Hy as [->|Hy]; [exists x; split; [left|exact Hxz]|].
  destruct (IH Hy) as (x' & Hx' & HR). exists x'. split; [right; exact Hx'|exact HR].
Qed.

Section ops.

Lemma typed_sizeof t : typed (sizeof_is_zero t) (λ z, z = bool_decide (t = DI_TYPE_NIL)).
Proof. unfold sizeof_is_zero. destruct t; cbn; first [apply typed_fail|apply typed_ret; reflexivity]. Qed.
Lemma typed_ref l : plainly (di_ref_object l).
Proof. unfold di_ref_object. ty. Qed.
Lemma typed_weakly_ref l : plainly (di_weakly_ref_object l).
Proof. unfold di_weakly_ref_object. ty. Qed.
Hint Resolve typed_sizeof typed_ref typed_weakly_ref : typed.

(** A copy has the type of the value. *)
Lemma typed_copy_value v : wt v → typed (di_copy_value v) (λ w, wt w ∧ type_of w = type_of v).
Proof.
  induction v as [v Hv|t b l IH|l IH|v IH] using value_ind'; intros Hw.
  - destruct v; try destruct Hv; cbn [di_copy_value]; ty; split; auto.
  - unfold wt in Hw. cbn [welltyped int_ok andb] in Hw. apply andb_prop in Hw as [Ht Hl].
    rewrite Forall_forall in IH. cbn [di_copy_value].
    eapply typed_bind; [apply typed_sizeof|intros ? _]. eapply typed_bind; [apply typed_check|intros ? _].
    eapply typed_bind; [apply (typed_collect _ (λ x y, wt y ∧ type_of y = type_of x ∧ x ∈ l))|].
    + intros x Hx. eapply typed_weaken; [apply IH; [exact Hx|exact (wts_elem _ _ Hl Hx)]|]. naive_solver.
    + intros l' Hl'. apply typed_ret. split; [|reflexivity]. unfold wt. cbn [welltyped int_ok andb].
      rewrite forallb_forall in Ht. apply andb_true_iff. rewrite !forallb_forall.
      assert (∀ y, y ∈ l' → wt y ∧ type_of y = t) as H.
      { intros y Hy. destruct (Forall2_right _ _ _ _ Hl' Hy) as (x & Hx & Hyw & Hyt & _).
        split; [exact Hyw|]. rewrite Hyt. specialize (Ht x). rewrite <- list_elem_of_In in Ht.
        apply Ht in Hx. apply bool_decide_eq_true in Hx. exact Hx. }
      split; intros y Hy%list_elem_of_In; [apply bool_decide_eq_true_2|]; apply H, Hy.
  - unfold wt in Hw. cbn [welltyped int_ok andb] in Hw. rewrite Forall_forall in IH. cbn [di_copy_value].
    eapply typed_bind; [apply (typed_collect _ (λ x y, wt y))|].
    + intros x Hx. eapply typed_weaken; [apply IH; [exact Hx|exact (wts_elem _ _ Hw Hx)]|]. naive_solver.
    + intros l' Hl'. apply typed_ret. split; [|reflexivity]. unfold wt. cbn [welltyped int_ok andb].
      apply forallb_forall. intros y Hy%list_elem_of_In. destruct (Forall2_right _ _ _ _ Hl' Hy) as (x & _ & Hyw). exact Hyw.
  - cbn [di_copy_value]. eapply typed_bind; [apply IH; exact Hw|]. intros w [Hww _]. apply typed_ret. split; [exact Hww|reflexivity].
Qed.
Hint Resolve typed_copy_value : typed.

Lemma typed_conversion v t b : wt v → typed (di_type_conversion v t b) (converted t).
Proof.
  assert (∀ v, wt v → typed (c ← di_copy_value v; mret (inr (VVariant c, true))) (converted DI_TYPE_VARIANT)) as Hvar.
  { intros w Hw. eapply typed_bind; [apply typed_copy_value, Hw|]. intros c [Hc _]. apply typed_ret. split; [exact Hc|reflexivity]. }
  induction v as [v Hv|t' b' l IH|l IH|v IH] using value_ind'; intros Hw.
  - assert (typed (match int_field v with
        | Some (_, z) =>
            if is_integer t then mret (match integer_conversion v t with inl rc => inl rc | inr x => inr (x, false) end)
            else if bool_decide (t = DI_TYPE_FLOAT) then mret (inr (VFloat (double_of_Z z), false)) else mret (inl EINVAL)
        | None => mret (inl EINVAL) end) (converted t)) as Hint.
    { destruct (int_field v) as [[ct z]|]; [|apply typed_ret; exact I]. destruct (is_integer t).
      - apply typed_ret. destruct (integer_conversion v t) as [rc|x] eqn:E; [exact I|].
        exact (wt_integer_conversion v t x Hw E).
      - case_bool_decide as Hf; [|apply typed_ret; exact I]. subst t. apply typed_ret. split; reflexivity. }
    assert (di_type_conversion v t b = (if bool_decide (type_of v = t) then _ ← sizeof_is_zero t; mret (inr (v, false))
      else if bool_decide (t = DI_TYPE_VARIANT) then c ← di_copy_value v; mret (inr (VVariant c, true))
      else match v, t with
        | VStringLiteral s, DI_TYPE_STRING => mret (inr (VString (Some s), negb b))
        | _, DI_TYPE_NIL => mret (inr (VNil, false))
        | _, _ => match int_field v with
            | Some (_, z) =>
                if is_integer t then mret (match integer_conversion v t with inl rc => inl rc | inr x => inr (x, false) end)
                else if bool_decide (t = DI_TYPE_FLOAT) then mret (inr (VFloat (double_of_Z z), false)) else mret (inl EINVAL)
            | None => mret (inl EINVAL) end
        end)) as -> by (destruct v; try destruct Hv; reflexivity).
    destruct (bool_decide_reflect (type_of v = t)) as [Ht|Ht].
    { eapply typed_bind; [apply typed_sizeof|]. intros z _. apply typed_ret. split; assumption. }
    destruct (bool_decide_reflect (t = DI_TYPE_VARIANT)) as [Hvt|Hvt]; [subst t; apply Hvar, Hw|].
    destruct v; try destruct Hv; destruct t; try exact Hint; apply typed_ret; split; reflexivity.
  - cbn [di_type_conversion]. destruct (bool_decide_reflect (type_of (VArray t' b' l) = t)) as [Ht|Ht]; [ty; split; assumption|].
    destruct (bool_decide_reflect (t = DI_TYPE_VARIANT)) as [Hvt|Hvt]; [subst t; apply Hvar, Hw|]. destruct t; apply typed_ret; first [exact I|split; reflexivity].
  - cbn [di_type_conversion]. destruct (bool_decide_reflect (type_of (VTuple l) = t)) as [Ht|Ht]; [ty; split; assumption|].
    destruct (bool_decide_reflect (t = DI_TYPE_VARIANT)) as [Hvt|Hvt]; [subst t; apply Hvar, Hw|]. destruct t; apply typed_ret; first [exact I|split; reflexivity].
  - cbn [di_type_conversion]. destruct (bool_decide_reflect (type_of (VVariant v) = t)) as [Ht|Ht]; [ty; split; assumption|].
    destruct (bool_decide_reflect (t = DI_TYPE_VARIANT)) as [Hvt|Hvt]; [subst t; apply Hvar, Hw|]. destruct t; try (apply IH, Hw); apply typed_ret; split; reflexivity.
Qed.
End ops.
#[export] Hint Resolve typed_sizeof typed_ref typed_weakly_ref typed_copy_value typed_conversion : typed.

(** ** Every operation keeps the stored values well typed *)

Class TypedKernel (K : Kernel) : Prop := {
  typed_unref l : plainly (unref_object l);
  typed_call l args : wts args → typed (call_object l args) rc_wt;
  typed_dtor d l : plainly (run_dtor d l)
}.
#[export] Hint Resolve typed_unref typed_call typed_dtor : typed.

Lemma find_member_elem n ms m : find_member n ms = Some m → m ∈ ms.
Proof.
  induction ms as [|x ms IH]; simpl; [discriminate|]. destruct (String.eqb _ _); [intros [= ->]; left|].
  intros H. right. exact (IH H).
Qed.

Lemma take_member_elems id ms m ms' : take_member id ms = Some (m, ms') → m ∈ ms ∧ ∀ x, x ∈ ms' → x ∈ ms.
Proof.
  revert ms'. induction ms as [|y ms IH]; intros ms'; simpl; [discriminate|].
  destruct (Nat.eqb _ _); [intros [= -> ->]; split; [left|intros x Hx; right; exact Hx]|].
  destruct (take_member id ms) as [[z zs]|]; [|discriminate]. intros [= <- <-].
  destruct (IH zs eq_refl) as [H1 H2]. split; [right; exact H1|]. intros x [->|Hx]%elem_of_cons; [left|right; auto].
Qed.

Lemma swap_member_typed id v ms old ms' :
  swap_member id v ms = Some (old, ms') → wt v → wt_members ms → wt old ∧ wt_members ms'.
Proof.
  intros Hs Hv. revert ms' Hs. induction ms as [|x ms IH]; intros ms'; simpl; [discriminate|].
  destruct (Nat.eqb _ _).
  - intros [= <- <-] H. split; [apply H; left|]. intros m [->|Hm]%elem_of_cons; [exact Hv|apply H; right; exact Hm].
  - destruct (swap_member id v ms) as [[y ys]|]; [|discriminate]. intros [= <- <-] H.
    destruct (IH ys eq_refl) as [H1 H2]; [intros m Hm; apply H; right; exact Hm|]. split; [exact H1|].
    intros m [->|Hm]%elem_of_cons; [apply H; left|apply H2, Hm].
Qed.

Lemma wt_sub_members o ms : wt_obj o → (∀ m, m ∈ ms → m ∈ o_members o) → wt_obj (with_members ms o).
Proof. intros [H1 H2] Hs. constructor; [|exact H2]. intros m Hm. apply H1, Hs, Hm. Qed.

Definition opt_wt (r : option member) : Prop := match r with Some m => wt (m_val m) | None => True end.

Section object.
Context {K : Kernel} {TK : TypedKernel K}.

Lemma typed_upgrade l : plainly (di_upgrade_weak_ref l).
Proof. unfold di_upgrade_weak_ref. ty. Qed.
Lemma typed_decrement l : plainly (di_decrement_weak_ref_count l).
Proof. unfold di_decrement_weak_ref_count. ty. Qed.
Hint Resolve typed_upgrade typed_decrement : typed.
Lemma typed_drop_weak l : plainly (di_drop_weak_ref l).
Proof. unfold di_drop_weak_ref. ty. Qed.
Lemma typed_new_object sz al : plainly (di_new_object sz al).
Proof. unfold di_new_object. ty. constructor; [intros m Hm; inversion Hm|exact I]. Qed.
Hint Resolve typed_drop_weak typed_new_object : typed.

Lemma typed_new_with_type x : wt_ext x → plainly (di_new_object_with_type x).
Proof.
  intros Hx. unfold di_new_object_with_type. ty. match goal with H : wt_obj _ |- _ => destruct H end.
  constructor; assumption.
Qed.
Lemma typed_set_ext l x : wt_ext x → plainly (set_ext l x).
Proof.
  intros Hx. unfold set_ext. ty. match goal with H : wt_obj _ |- _ => destruct H end.
  constructor; assumption.
Qed.
Hint Resolve typed_new_with_type typed_set_ext : typed.

Lemma typed_free_value v : plainly (di_free_value v).
Proof.
  induction v as [v Hv|t b l IH|l IH|v IH] using value_ind'.
  - destruct v; try destruct Hv; cbn [di_free_value]; ty.
  - cbn [di_free_value]. destruct l as [|v l]; [ty|]. eapply typed_bind; [apply typed_sizeof|]. intros _ _.
    apply typed_for_each. rewrite Forall_forall in IH. exact IH.
  - cbn [di_free_value]. apply typed_for_each. rewrite Forall_forall in IH. exact IH.
  - exact IH.
Qed.
Hint Resolve typed_free_value : typed.

Lemma typed_lookup l n : typed (di_lookup l n) opt_wt.
Proof.
  unfold di_lookup. ty. unfold opt_wt. destruct (find_member _ _) as [m|] eqn:E; [|exact I].
  match goal with H : wt_obj _ |- _ => apply H end. exact (find_member_elem _ _ _ E).
Qed.

Lemma typed_insert l m : wt (m_val m) → plainly (di_insert_member l m).
Proof.
  intros Hm. unfold di_insert_member. ty. match goal with H : wt_obj _ |- _ => destruct H as [H1 H2] end.
  constructor; [|exact H2]. cbn [with_members o_members]. intros x [Hx| ->%list_elem_of_singleton]%elem_of_app; auto.
Qed.
Hint Resolve typed_lookup typed_insert : typed.

Lemma typed_add_member l n v : wt v → plainly (di_add_member l n v).
Proof. intros Hv. unfold di_add_member. ty. Qed.
Hint Resolve typed_add_member : typed.
Lemma typed_add_clone l n v : wt v → plainly (di_add_member_clone l n v).
Proof. intros Hv. unfold di_add_member_clone. ty. Qed.
Lemma typed_va v : wt v → typed (va_arg_with_di_type v) wt.
Proof. intros Hv. unfold va_arg_with_di_type. ty. Qed.
Hint Resolve typed_add_clone typed_va : typed.
Lemma typed_add_clonev l n v : wt v → plainly (di_add_member_clonev l n v).
Proof. intros Hv. unfold di_add_member_clonev. ty. Qed.
Lemma typed_add_move l n v : wt v → plainly (di_add_member_move l n v).
Proof. intros Hv. unfold di_add_member_move. ty. Qed.
Lemma typed_remove_impl l id : plainly (di_remove_member_raw_impl l id).
Proof.
  unfold di_remove_member_raw_impl. ty. subst. apply wt_sub_members; [assumption|].
  match goal with H : take_member _ _ = Some _ |- _ => apply (take_member_elems _ _ _ _ H) end.
Qed.
Hint Resolve typed_add_clonev typed_add_move typed_remove_impl : typed.
Lemma typed_remove_raw l n : plainly (di_remove_member_raw l n).
Proof. unfold di_remove_member_raw. ty. Qed.
Lemma typed_rawgetx l n : typed (di_rawgetx l n) rc_wt.
Proof. unfold di_rawgetx. ty. Qed.
Hint Resolve typed_remove_raw typed_rawgetx : typed.

(** What a typed read gives. *)
Lemma typed_tfunc g t : typed g rc_wt → typed (gen_tfunc g t) (rc_of_type t).
Proof. intros Hg. unfold gen_tfunc. ty. Qed.
Hint Resolve typed_tfunc : typed.
Lemma typed_rawgetxt l n t : typed (di_rawgetxt l n t) (rc_of_type t).
Proof. unfold di_rawgetxt. ty. Qed.
Hint Resolve typed_rawgetxt : typed.

(** *** Calls *)

Lemma typed_call_internal a b args : wts args → typed (di_call_internal a b args) call_wt.
Proof. intros Ha. unfold di_call_internal. ty. Qed.
Hint Resolve typed_call_internal : typed.
Lemma typed_callx g a args t : typed g (rc_of_type t) → wts args → typed (gen_callx g a args) call_wt.
Proof. intros Hg Ha. unfold gen_callx. ty. Qed.
Hint Resolve typed_callx : typed.
Lemma typed_rawcallxn a n args : wts args → typed (di_rawcallxn a n args) call_wt.
Proof. intros Ha. unfold di_rawcallxn. ty. Qed.
Hint Resolve typed_rawcallxn : typed.
Lemma typed_handler o p n arg k :
  match arg with Some v => wt v | None => True end → typed (call_handler_with_fallback o p n arg k) call_wt.
Proof.
  intros Ha. unfold call_handler_with_fallback.
  assert (wts match arg with Some a => [a] | None => [] end) as Hw by (destruct arg; [apply wts_one, Ha|reflexivity]).
  destruct (di_is_internal n); [ty|]. cbv zeta. eapply typed_bind; [apply typed_rawcallxn; exact Hw|]. intros [c1 r1] H1.
  eapply (typed_bind _ _ call_wt); [destruct c1; ty|]. intros [c2 r2] H2. ty.
Qed.
Hint Resolve typed_handler : typed.
Lemma wt_flatten v : wt v → wt (di_flatten_variant v).
Proof. induction v; try exact id. exact IHv. Qed.
Lemma typed_getx o n : typed (di_getx o n) rc_wt.
Proof.
  unfold di_getx. ty. all: match goal with H : di_flatten_variant _ = _ |- _ => rewrite <- H end; apply wt_flatten; assumption.
Qed.
Hint Resolve typed_getx : typed.
Lemma typed_getxt o n t : typed (di_getxt o n t) (rc_of_type t).
Proof. unfold di_getxt. ty. Qed.
Hint Resolve typed_getxt : typed.
Lemma typed_di_callx o n args : wts args → typed (di_callx o n args) call_wt.
Proof. intros Ha. unfold di_callx. ty. Qed.
Hint Resolve typed_di_callx : typed.

(** *** Setting, removing, destroying *)

Lemma typed_store a b v : wt v → typed (store_member a b v) wt.
Proof.
  intros Hv. unfold store_member. ty.
  all: match goal with H : swap_member _ _ _ = Some _, Ho : wt_obj _ |- _ =>
    destruct (swap_member_typed _ _ _ _ _ H Hv (wo_members _ Ho)) end; auto.
  match goal with H : wt_obj _ |- _ => destruct H end. constructor; assumption.
Qed.
Hint Resolve typed_store : typed.
Lemma typed_setx a b v : wt v → plainly (di_setx a b v).
Proof. intros Hv. unfold di_setx. ty. Qed.
Lemma typed_remove a b : plainly (di_remove_member a b).
Proof. unfold di_remove_member. ty. Qed.
Lemma typed_set_type a b : plainly (di_set_type a b).
Proof. unfold di_set_type. ty. Qed.
Lemma typed_get_type a : plainly (di_get_type a).
Proof. unfold di_get_type. ty. Qed.
Hint Resolve typed_setx typed_remove typed_set_type typed_get_type : typed.
Lemma typed_check_type a b : plainly (di_check_type a b).
Proof. unfold di_check_type. ty. Qed.
Lemma typed_finalize_step a b : plainly (finalize_step a b).
Proof. unfold finalize_step. ty. Qed.
Hint Resolve typed_check_type typed_finalize_step : typed.
Lemma typed_finalize_impl a : plainly (finalize_object_impl a).
Proof. unfold finalize_object_impl. ty. Qed.
Hint Resolve typed_finalize_impl : typed.
Lemma typed_finalize a : plainly (di_finalize_object a).
Proof. unfold di_finalize_object. ty. Qed.
Lemma typed_destroy a : plainly (di_destroy_object a).
Proof. unfold di_destroy_object. ty. Qed.
Hint Resolve typed_finalize typed_destroy : typed.
Lemma typed_unref_body a : plainly (unref_body a).
Proof. unfold unref_body. ty. Qed.
Lemma wt_with_ext x o : wt_ext x → wt_obj o → wt_obj (with_ext x o).
Proof. intros Hx [H _]. constructor; assumption. Qed.
Hint Resolve wt_with_ext : typed.
Lemma typed_new_module a b x : wt_ext x → plainly (di_new_module_with_size a b x).
Proof. intros Hx. unfold di_new_module_with_size. ty. Qed.
Hint Resolve typed_unref_body typed_new_module : typed.

(** *** Signals *)

Lemma typed_drop_owner i : plainly (drop_owner i).
Proof. unfold drop_owner. ty. Qed.
Hint Resolve typed_drop_owner : typed.
Lemma typed_free_signal i : plainly (free_signal i).
Proof. unfold free_signal. ty. Qed.
Hint Resolve typed_free_signal : typed.
Lemma typed_listen_dtor h : plainly (di_listen_handle_dtor h).
Proof. unfold di_listen_handle_dtor. ty. Qed.
Lemma typed_new_signal o n : plainly (new_signal o n).
Proof. unfold new_signal. ty. Qed.
Hint Resolve typed_new_signal : typed.
Lemma typed_get_signal o n : plainly (get_signal o n).
Proof. unfold get_signal. ty. Qed.
Hint Resolve typed_listen_dtor typed_get_signal : typed.
Lemma typed_listen_to o n h : plainly (di_listen_to o n h).
Proof. unfold di_listen_to, di_set_object_dtor. ty. Qed.
Lemma typed_objectt o args : wts args → typed (di_call_objectt o args) rc_wt.
Proof. intros Ha. unfold di_call_objectt. ty. Qed.
Lemma typed_emit_result r : rc_wt r → plainly (emit_result r).
Proof. intros Hr. unfold emit_result. ty. Qed.
Hint Resolve typed_objectt typed_emit_result : typed.
Lemma typed_emit_to a w : wts a → plainly (emit_to a w).
Proof. intros Ha. unfold emit_to. ty. Qed.
Hint Resolve typed_emit_to : typed.
Lemma typed_weakly_refs ls : plainly (collect di_weakly_ref_object ls).
Proof. eapply typed_weaken; [apply (typed_collect _ (λ _ _, True)); intros x _; apply typed_weakly_ref|auto]. Qed.
Hint Resolve typed_weakly_refs : typed.
Lemma typed_emitn o n a : wts a → plainly (di_emitn o n a).
Proof. intros Ha. unfold di_emitn. ty. Qed.
Hint Resolve typed_listen_to typed_emitn : typed.

(** *** Roots *)

Lemma typed_add_root a b c : plainly (di_add_root a b c).
Proof. unfold di_add_root. ty. Qed.
Lemma typed_remove_root a b : plainly (di_remove_root a b).
Proof. unfold di_remove_root. ty. Qed.
Lemma typed_clear_step a b : plainly (clear_step a b).
Proof. unfold clear_step. ty. Qed.
Hint Resolve typed_clear_step : typed.
Lemma typed_clear_roots a : plainly (di_clear_roots a).
Proof. unfold di_clear_roots. ty. Qed.
Lemma typed_add_anon a b : plainly (di_add_anonymous_root a b).
Proof. unfold di_add_anonymous_root. ty. Qed.
Lemma typed_remove_anon a b : plainly (di_remove_anonymous_root a b).
Proof. unfold di_remove_anonymous_root. ty. Qed.
Lemma typed_roots_dtor a : plainly (di_roots_dtor a).
Proof. unfold di_roots_dtor. ty. Qed.
Lemma typed_exit a b : plainly (di_prepare_exit a b).
Proof. unfold di_prepare_exit. ty. Qed.
End object.
#[export] Hint Resolve typed_upgrade typed_decrement typed_drop_weak typed_new_object typed_new_with_type typed_set_ext
  typed_free_value typed_lookup typed_insert typed_add_member typed_add_clone typed_va typed_add_clonev typed_add_move
  typed_remove_impl typed_remove_raw typed_rawgetx typed_tfunc typed_rawgetxt typed_call_internal typed_callx
  typed_rawcallxn typed_handler typed_getx typed_getxt typed_di_callx typed_store typed_setx typed_remove typed_set_type
  typed_get_type typed_check_type typed_finalize typed_destroy typed_unref_body wt_with_ext typed_new_module
  typed_listen_dtor typed_listen_to typed_objectt typed_emitn typed_add_root typed_remove_root typed_clear_roots
  typed_add_anon typed_remove_anon typed_roots_dtor typed_exit : typed.

(** *** Closures *)

(** Foreign code that gets well-typed values and keeps the stored ones well
    typed; what it returns is well typed. *)
Class TypedWorld (W : World) : Prop := {
  typed_w_fn (K : Kernel) n caps args :
    TypedKernel K → wts caps → wts args → typed (w_fn K n caps args) fn_wt;
  typed_w_call (K : Kernel) n l args : TypedKernel K → wts args → typed (w_call K n l args) rc_wt;
  typed_w_dtor (K : Kernel) n l : TypedKernel K → plainly (w_dtor K n l)
}.
#[export] Hint Resolve typed_w_fn typed_w_call typed_w_dtor : typed.

Section closures.
Context {K : Kernel} {TK : TypedKernel K} {W : World} {TW : TypedWorld W}.

Lemma typed_convert_arg v t : wt v → typed (convert_arg v t) (converted t).
Proof. intros Hv. unfold convert_arg. ty. Qed.
Hint Resolve typed_convert_arg : typed.

(** The arguments that are passed to a closure have the types it declares. *)
Definition args_of_types (ts : list di_type) (r : Z * list (value * bool)) : Prop :=
  Forall2 (λ x t, wt x.1 ∧ type_of x.1 = t) r.2 (take (length r.2) ts).

Lemma typed_convert_args vs ts : wts vs → typed (convert_args vs ts) (args_of_types ts).
Proof.
  revert ts. induction vs as [|v vs IH]; intros ts Hv; cbn [convert_args]; [ty; constructor|].
  apply wts_cons in Hv as [Hv Hvs]. destruct ts as [|t ts]; [ty|].
  eapply typed_bind; [apply typed_convert_arg, Hv|]. intros [rc|x] Hx; [ty; constructor|].
  eapply typed_bind; [apply IH, Hvs|]. intros rest Hr. apply typed_ret. constructor; assumption.
Qed.

Lemma args_wts ts r : args_of_types ts r → wts (map fst r.2).
Proof.
  unfold args_of_types. generalize (take (length r.2) ts). intros l. induction 1 as [|x t xs l' [Hx _] _ IH]; [reflexivity|].
  apply wts_cons. split; assumption.
Qed.

Lemma typed_ffi_result t r : fn_wt r → typed (ffi_result t r) (rc_of_type t).
Proof.
  intros Hr. unfold ffi_result. ty. all: match goal with H : bool_decide _ = true |- _ => apply bool_decide_eq_true in H; subst end.
  all: split; auto with typed.
Qed.
Lemma typed_free_cloned x : plainly (free_cloned x).
Proof. unfold free_cloned. ty. Qed.
Hint Resolve typed_ffi_result typed_free_cloned : typed.
Lemma typed_trampoline fn t ts caps args :
  wts caps → wts args → typed (_di_typed_trampoline fn t ts caps args) (rc_of_type t).
Proof.
  intros Hc Ha. unfold _di_typed_trampoline. eapply typed_bind; [apply typed_check|]. intros _ _.
  eapply typed_bind; [apply typed_convert_args, Ha|]. intros r Hr. pose proof (args_wts _ _ Hr) as Hw.
  eapply (typed_bind _ _ (rc_of_type t)); [ty|]. intros ? ?. ty.
Qed.
Lemma rc_of_type_wt t r : rc_of_type t r → rc_wt r.
Proof. destruct r; [auto|intros [H _]; exact H]. Qed.
Lemma typed_closure_trampoline a args : wts args → typed (closure_trampoline a args) rc_wt.
Proof.
  intros Ha. unfold closure_trampoline. ty.
  match goal with H : wt_obj _, E : o_ext _ = _ |- _ => destruct H as [_ Hx]; rewrite E in Hx end.
  eapply typed_weaken; [apply typed_trampoline; assumption|apply rc_of_type_wt].
Qed.
Lemma typed_free_closure a : plainly (free_closure a).
Proof. unfold free_closure. ty. Qed.
Lemma typed_has_void ts : plainly (has_void ts).
Proof. induction ts as [|t ts IH]; cbn [has_void]; ty. Qed.
Lemma typed_prep a b : plainly (di_ffi_prep_cif a b).
Proof. unfold di_ffi_prep_cif. ty. Qed.
Lemma typed_new_closure : plainly new_closure_struct.
Proof. unfold new_closure_struct, di_set_object_call, di_set_object_dtor. ty. Qed.
Hint Resolve typed_has_void typed_prep typed_new_closure : typed.
Lemma typed_collect_wts (f : value → M value) vs :
  (∀ v, v ∈ vs → typed (f v) wt) → typed (collect f vs) wts.
Proof.
  intros Hf. eapply typed_weaken; [apply (typed_collect _ (λ _ w, wt w)), Hf|].
  intros ws H. clear Hf. induction H as [|x w xs ws Hw _ IH]; [reflexivity|]. apply wts_cons. split; assumption.
Qed.
Lemma typed_copies vs : wts vs → typed (collect di_copy_value vs) wts.
Proof.
  intros Hv. apply typed_collect_wts. intros x Hx.
  eapply typed_weaken; [apply typed_copy_value, (wts_elem _ _ Hv Hx)|intros w [H _]; exact H].
Qed.
Hint Resolve typed_copies : typed.
Lemma typed_create_closure fn t caps ats : wts caps → plainly (di_create_closure fn t caps ats).
Proof. intros Hc. unfold di_create_closure. ty. Qed.
Hint Resolve typed_create_closure : typed.
Lemma typed_add_method a b c d e : plainly (di_add_method a b c d e).
Proof. unfold di_add_method. ty. Qed.
Lemma wts_va_values vs : wts vs → wts (va_values vs).
Proof.
  induction vs as [|v vs IH]; [auto|]. intros [Hv Hvs]%wts_cons. destruct v; try (apply wts_cons; auto). reflexivity.
Qed.
Lemma typed_va_args vs : wts vs → typed (collect va_arg_with_di_type vs) wts.
Proof. intros Hv. apply typed_collect_wts. intros x Hx. apply typed_va, (wts_elem _ _ Hv Hx). Qed.
Lemma typed_objectv a b : wts b → typed (di_call_objectv a b) rc_wt.
Proof.
  intros Hb. pose proof (wts_va_values _ Hb). pose proof (typed_va_args _ (wts_va_values _ Hb)). unfold di_call_objectv. ty.
Qed.
Lemma typed_new_error m : plainly (di_new_error m).
Proof. unfold di_new_error. ty. Qed.
Lemma typed_emit_proxied a b : wts b → typed (emit_proxied_signal a b) rc_wt.
Proof. intros Hb. unfold emit_proxied_signal. ty. Qed.
End closures.
#[export] Hint Resolve typed_closure_trampoline typed_free_closure typed_create_closure
  typed_add_method typed_objectv typed_new_error typed_emit_proxied : typed.

(** ** The closed system *)

#[export] Instance typed_kern {W : World} {TW : TypedWorld W} n : TypedKernel (kern n).
Proof.
  induction n as [|n IH]; constructor; intros; cbn [kern unref_object call_object run_dtor];
    try apply typed_out_of_fuel.
  - apply typed_unref_body.
  - unfold call_body. ty.
  - destruct d; cbn [dtor_body]; ty.
Qed.

#[export] Instance typed_idle : TypedWorld idle_world.
Proof. constructor; intros; cbn; ty. Qed.

Lemma WT_empty : WT empty_state.
Proof. intros l o Hl. cbn in Hl. rewrite lookup_empty in Hl. discriminate. Qed.

(** ** Well-typed programs *)

(** The values an operation is given. *)
Definition given (p : op) : list value :=
  match p with
  | OpFreeValue v | OpCopyValue v | OpAddMove _ _ v | OpAddClone _ _ v | OpSet _ _ v => [v]
  | OpCall _ _ args | OpCallObject _ args | OpEmit _ _ args => args
  | OpClosure _ _ caps _ => caps
  | _ => []
  end.

Lemma typed_run_op {K : Kernel} {TK : TypedKernel K} {W : World} {TW : TypedWorld W} p :
  wts (given p) → plainly (run_op p).
Proof.
  intros Hp. destruct p; cbn [run_op given] in *; unfold di_new_module, di_set_object_dtor;
    try (apply wts_cons in Hp as [Hp _]); ty.
Qed.

(** The states operations lead to that are given well-typed values only; calls
    nest at most [n] deep. *)
Inductive typed_reachable {W : World} (n : nat) : state → Prop :=
  | typed_start : typed_reachable n empty_state
  | typed_op s p g s' :
      typed_reachable n s → wts (given p) → run_op (K := kern n) p s = Done g s' → typed_reachable n s'.

Lemma typed_reachable_WT {W : World} {TW : TypedWorld W} n s : typed_reachable n s → WT s.
Proof.
  induction 1 as [|s p g s' _ IH Hp Hrun]; [apply WT_empty|].
  pose proof (typed_run_op (K := kern n) p Hp s IH) as H. rewrite Hrun in H. apply H.
Qed.

(** Running operations, as long as they are given well-typed values. *)
Fixpoint run_ops {W : World} (n : nat) (ps : list op) (s : state) : option state :=
  match ps with
  | [] => Some s
  | p :: ps' =>
      if forallb welltyped (given p) then
        match run_op (K := kern n) p s with Done _ s' => run_ops n ps' s' | _ => None end
      else None
  end.

Lemma run_ops_typed {W : World} n ps s s' :
  typed_reachable n s → run_ops n ps s = Some s' → typed_reachable n s'.
Proof.
  revert s. induction ps as [|p ps IH]; intros s Hs; cbn [run_ops]; [intros [= <-]; exact Hs|].
  destruct (forallb welltyped (given p)) eqn:Hp; [|discriminate].
  destruct (run_op p s) as [g s1| |] eqn:Hrun; try discriminate. apply IH. exact (typed_op n s p g s1 Hs Hp Hrun).
Qed.


(** An object with a number, a list of numbers and a variant. *)
Definition typed_family : list op :=
  [OpNew 128 8; OpAddClone 1 (Some "n"%string) (VInt 300);
   OpAddMove 1 (Some "log"%string) (VArray DI_TYPE_INT false [VInt 1; VInt 2]);
   OpAddClone 1 (Some "v"%string) (VVariant (VInt 7)); OpSet 1 (Some "n"%string) (VInt 40)].

Definition typed_state : state := default empty_state (run_ops (W := idle_world) 6 typed_family empty_state).

