(* ===== verification/DbusSafe.v ===== *)
(** * Serialization and the object heap (plugins/dbus/sedes.c)

    What the functions of Sedes, Deser and DbusNames do to a caller in the heap
    of objects: none of them ends in one of the crashes that the accounting of
    references excludes, and reading a message accounts for the references in
    what it returns. *)

From S2P Require Import Prelude DiTypes Strings Heap Account Object ObjectSpec Sedes Deser DbusNames.

Local Open Scope Z_scope.

(** ** Code that cannot touch the heap *)

Definition harmless {S A} (m : ST S A) : Prop := triple tolerated (λ _, True) m (λ _ _, True).

Section rules.
Context {S : Type}.

Lemma harmless_ret {A} (a : A) : harmless (mret a : ST S A).
Proof. apply triple_ret. auto. Qed.

Lemma harmless_fail {A} c : tolerated c → harmless (fail c : ST S A).
Proof. apply triple_fail. Qed.

Lemma harmless_bind {A B} (m : ST S A) (f : A → ST S B) :
  harmless m → (∀ a, harmless (f a)) → harmless (a ← m; f a).
Proof. intros Hm Hf. eapply triple_bind; [exact Hm|exact Hf]. Qed.

Lemma harmless_check b : harmless (check b : ST S unit).
Proof. destruct b; [apply harmless_ret|apply harmless_fail; tolerate]. Qed.

Lemma harmless_from_opt {A} c (o : option A) : tolerated c → harmless (from_opt c o : ST S A).
Proof. destruct o; [intros _; apply harmless_ret|apply harmless_fail]. Qed.

Lemma harmless_step {A} (f : S → outcome S A) :
  (∀ s, match f s with Crash c => tolerated c | _ => True end) → harmless (f : ST S A).
Proof. intros Hf s _. specialize (Hf s). destruct (f s); auto. Qed.
End rules.

(** Walks through code; what is left are the calls. *)
Ltac harmless :=
  repeat first
    [ assumption
    | apply harmless_ret
    | apply harmless_check
    | apply harmless_from_opt; tolerate
    | apply harmless_fail; tolerate
    | solve [eauto]
    | apply harmless_bind; [|intros ?]
    | match goal with |- harmless (match ?x with _ => _ end) => destruct x end
    | match goal with |- harmless ((match ?x with _ => _ end) _) => destruct x end ].

Section sedes.
Context {D : Dbus}.

Lemma to_dbus_basic_harmless {S} t : harmless (di_type_to_dbus_basic t : ST S Z).
Proof. unfold di_type_to_dbus_basic. harmless. Qed.
#[local] Hint Resolve to_dbus_basic_harmless : core.

Lemma length_harmless {S} v : harmless (type_signature_length_of_di_value v : ST S Z).
Proof.
  assert (∀ t, harmless (length_unread t : ST S Z)) as Hunread by (intros t; unfold length_unread; harmless).
  induction v as [v Hv|t b l IH|l IH|v IH] using value_ind'.
  - destruct v; try destruct Hv; cbn [type_signature_length_of_di_value]; harmless.
  - cbn [type_signature_length_of_di_value].
    assert (∀ i, harmless (nth i (map type_signature_length_of_di_value l) (length_unread t) : ST S Z)) as Helem.
    { intros i. revert i. induction IH as [|x l Hx _ IHl]; intros [|i]; cbn [map nth]; auto. }
    harmless. generalize (seq 1 (type_code t - 1)). intros ns.
    induction ns as [|n ns IHn]; cbn [map same_length]; harmless.
  - cbn [type_signature_length_of_di_value]. harmless. clear a. generalize 0.
    induction IH as [|x l Hx _ IHl]; intros k; cbn [map sum_lengths]; harmless.
  - cbn [type_signature_length_of_di_value]. harmless.
Qed.

(** Accesses to the buffer of a signature. *)
Lemma rd_raw_harmless p : harmless (rd_raw p).
Proof. apply harmless_step. intros b. unfold rd_raw. destruct (b !! p); [exact I|tolerate]. Qed.

Lemma wr_char_harmless p c : harmless (wr_char p c).
Proof. apply harmless_step. intros b. unfold wr_char, wr_raw. destruct (b !! p); [exact I|tolerate]. Qed.

Lemma rd_char_harmless p : harmless (rd_char p).
Proof. unfold rd_char. harmless. apply rd_raw_harmless. Qed.
#[local] Hint Resolve rd_raw_harmless wr_char_harmless rd_char_harmless : core.

Definition variant_of (v : value) : option value := match v with VVariant w => Some w | _ => None end.

Lemma verify_variants_harmless (ms : list (nat → ST buffer (option nat))) :
  Forall (λ m, ∀ p, harmless (m p)) ms → ∀ p, harmless (verify_variants ms p).
Proof. induction 1 as [|m ms Hm _ IH]; intros p; cbn [verify_variants]; harmless. Qed.

Lemma verify_all_harmless (ms : list (ST buffer (option nat))) :
  Forall harmless ms → harmless (verify_all ms).
Proof. induction 1 as [|m ms Hm _ IH]; cbn [verify_all]; harmless. Qed.

Lemma verify_harmless_both v :
  (∀ p, harmless (verify_type_signature v p)) ∧
  ∀ w, variant_of v = Some w → ∀ p, harmless (verify_type_signature w p).
Proof.
  induction v as [v Hv|t b l IH|l IH|v IH] using value_ind'.
  - split; [|destruct v; try destruct Hv; discriminate].
    intros p. destruct v; try destruct Hv; cbn [verify_type_signature]; harmless.
  - split; [|discriminate]. intros p. cbn [verify_type_signature].
    assert (Forall harmless (map (λ x, verify_type_signature x (S p)) l)) as Hl.
    { apply Forall_map. eapply Forall_impl; [exact IH|]. intros x [Hx _]. exact (Hx (S p)). }
    assert (∀ q, harmless (verify_variants (map (λ x, match x with VVariant w => verify_type_signature w | _ => λ _, fail TypeConfusion end) l) q)) as Hv.
    { apply verify_variants_harmless, Forall_map. eapply Forall_impl; [exact IH|].
      intros x [_ Hx] q. destruct x; try (apply harmless_fail; tolerate). exact (Hx _ eq_refl q). }
    assert (harmless (verify_all (tl (map (λ x, verify_type_signature x (S p)) l)))) as Ha
      by (apply verify_all_harmless; destruct Hl; auto).
    assert (harmless (verify_unread t (S p))) as Hu by (unfold verify_unread; harmless).
    assert (harmless (match map (λ x, verify_type_signature x (S p)) l with m :: _ => m | [] => verify_unread t (S p) end)) as Hh
      by (destruct Hl; assumption).
    harmless.
  - split; [|discriminate]. intros p. cbn [verify_type_signature]. harmless.
  - destruct IH as [IH _]. split; [|intros w [= <-]; exact IH]. intros p. cbn [verify_type_signature]. harmless.
Qed.

Lemma verify_harmless v p : harmless (verify_type_signature v p).
Proof. apply verify_harmless_both. Qed.
#[local] Hint Resolve verify_harmless length_harmless : core.

Lemma sig_elements_harmless (ms : list (nat → ST buffer dbus_signature)) :
  Forall (λ m, ∀ p, harmless (m p)) ms → ∀ p n, harmless (sig_elements ms p n).
Proof. induction 1 as [|m ms Hm _ IH]; intros p n; cbn [sig_elements]; harmless. Qed.

Lemma to_buffer_harmless v : ∀ p, harmless (to_buffer v p).
Proof.
  induction v as [v Hv|t b l IH|l IH|v IH] using value_ind'; intros p.
  - destruct v; try destruct Hv; cbn [to_buffer]; harmless.
  - cbn [to_buffer]. unfold sig_unread. destruct IH as [|x l Hx _]; harmless.
  - cbn [to_buffer]. assert (∀ q n, harmless (sig_elements (map to_buffer l) q n)) as Hl
      by (apply sig_elements_harmless, Forall_map; exact IH).
    harmless.
  - cbn [to_buffer]. harmless.
Qed.
#[local] Hint Resolve to_buffer_harmless : core.

Lemma signature_harmless v : harmless (type_signature_of_di_value v).
Proof. unfold type_signature_of_di_value. harmless. apply harmless_step. intros s. exact I. Qed.
#[local] Hint Resolve signature_harmless : core.

(** Serialization *)
Lemma on_sig_harmless {A} (m : ST buffer A) : harmless m → harmless (on_sig m).
Proof.
  intros Hm. apply harmless_step. intros s. unfold on_sig. specialize (Hm (se_buf s) I).
  destruct (m (se_buf s)); auto.
Qed.
#[local] Hint Resolve on_sig_harmless : core.

Lemma open_harmless c o : harmless (open_container c o).
Proof. apply harmless_step. intros s. unfold open_container. destruct (se_opens s) as [|[] ?]; exact I. Qed.

Lemma write_harmless c : harmless (dbus_write c).
Proof. apply harmless_step. intros s. exact I. Qed.

Lemma wr_raw_harmless p c : harmless (wr_raw p c).
Proof. apply harmless_step. intros b. unfold wr_raw. destruct (b !! p); [exact I|tolerate]. Qed.

Lemma sig_char_harmless si : harmless (sig_char si).
Proof. unfold sig_char, cur. harmless. Qed.
#[local] Hint Resolve open_harmless write_harmless wr_raw_harmless sig_char_harmless : core.

Lemma read_cstr_harmless n p : harmless (read_cstr n p).
Proof. revert p. induction n as [|n IH]; intros p; cbn [read_cstr]; harmless. Qed.

Lemma read_all_harmless p : harmless ((λ b, read_cstr (length b) p b) : ST buffer (list Z)).
Proof. apply harmless_step. intros b. pose proof (read_cstr_harmless (length b) p b I) as H. destruct (read_cstr _ _ _); auto. Qed.
#[local] Hint Resolve read_all_harmless : core.

Lemma until_error_harmless (ms : list (ST ser Z)) : Forall harmless ms → harmless (until_error ms).
Proof. induction 1 as [|m ms Hm _ IH]; cbn [until_error]; harmless. Qed.

Lemma with_children_harmless si (ms : list (dbus_signature → ST ser Z)) :
  Forall (λ m, ∀ s, harmless (m s)) ms → harmless (until_error (with_children si ms)).
Proof.
  intros H. apply until_error_harmless. unfold with_children. apply Forall_forall. intros m Hm.
  apply elem_of_lookup_imap in Hm as (i & x & -> & Hx). rewrite Forall_forall in H.
  apply H. apply list_elem_of_lookup_2 in Hx. exact Hx.
Qed.

Lemma serialize_harmless_both v :
  (∀ si, harmless (dbus_serialize_with_signature v si)) ∧
  ∀ w, variant_of v = Some w → ∀ si, harmless (dbus_serialize_with_signature w si).
Proof.
  induction v as [v Hv|t b l IH|l IH|v IH] using value_ind'.
  - split; [|destruct v; try destruct Hv; discriminate].
    intros si. destruct v; try destruct Hv; cbn [dbus_serialize_with_signature]; harmless.
  - split; [|discriminate]. intros si. cbn [dbus_serialize_with_signature].
    assert (∀ s, harmless (until_error (map (λ x, dbus_serialize_with_signature x s) l))) as Hl.
    { intros s. apply until_error_harmless, Forall_map. eapply Forall_impl; [exact IH|]. intros x [Hx _]. exact (Hx s). }
    assert (harmless (until_error (with_children si (map (λ x,
      match x with VVariant w => dbus_serialize_with_signature w | _ => λ _, fail TypeConfusion end) l)))) as Hv.
    { apply with_children_harmless, Forall_map. eapply Forall_impl; [exact IH|].
      intros x [_ Hx] s. destruct x; try (apply harmless_fail; tolerate). exact (Hx _ eq_refl s). }
    unfold cur. harmless.
  - split; [|discriminate]. intros si. cbn [dbus_serialize_with_signature]. harmless.
  - destruct IH as [IH _]. split; [|intros w [= <-]; exact IH]. intros si. cbn [dbus_serialize_with_signature]. harmless.
Qed.

Lemma serialize_struct_harmless t : harmless (_dbus_serialize_struct t).
Proof.
  unfold _dbus_serialize_struct. apply harmless_bind; [auto|]. intros sig.
  assert (harmless (until_error (with_children sig (map dbus_serialize_with_signature t)))) as H.
  { apply with_children_harmless, Forall_map, Forall_forall. intros v _. apply serialize_harmless_both. }
  harmless. apply harmless_step. intros s. exact I.
Qed.
End sedes.

(** ** Reading messages *)

Section deser.
Context {D : Dbus} {T : DbusTypes} {K : Kernel} {KO : KernelOk K}.

Definition read_refs (r : option (di_type * value)) : list ref :=
  match r with Some x => refs x.2 | None => [] end.

(** A part of a message that is read accounts for what it returns. *)
Definition reads_ok (m : M (option (di_type * value))) : Prop :=
  ∀ E, spec (Inv E) m (λ r, Inv (read_refs r ++ E)).

Lemma skip_opt {A} (o : option A) c {B} (k : A → M B) P Q :
  tolerated c → (∀ a, o = Some a → spec P (k a) Q) → spec P (a ← from_opt c o; k a) Q.
Proof.
  intros Hc Hk. destruct o as [a|]; [exact (Hk a eq_refl)|]. intros s _. exact Hc.
Qed.

Lemma deserialize_basic_ok b c E : spec (Inv E) (dbus_deserialize_basic b c) (λ r, Inv (refs r.2 ++ E)).
Proof.
  unfold dbus_deserialize_basic.
  repeat match goal with
    | |- triple _ _ (if ?x then _ else _) _ => destruct x
    | |- triple _ _ (match b with _ => _ end) _ => destruct b
    end; first [crash|ret].
Qed.

Lemma struct_elements_spec ds E :
  Forall (λ d, reads_ok d.2) ds → spec (Inv E) (struct_elements ds) (λ vs, Inv (refs_of_list vs ++ E)).
Proof.
  intros H. revert E. induction H as [|[c m] ds Hm _ IH]; intros E; cbn [struct_elements]; [ret|].
  apply skip_opt; [tolerate|]. intros _ _. step (Hm E). intros r.
  apply skip_opt; [tolerate|]. intros x ->. cbn [read_refs]. skip.
  step (IH (refs x.2 ++ E)). intros vs. apply triple_ret. intros s HI. rewrite refs_of_list_cons.
  eapply Inv_perm; [|exact HI]. by_count.
Qed.

Lemma array_elements_spec t ms E :
  Forall reads_ok ms → spec (Inv E) (array_elements t ms) (λ vs, Inv (refs_of_list vs ++ E)).
Proof.
  intros H. revert E. induction H as [|m ms Hm _ IH]; intros E; cbn [array_elements]; [ret|].
  step (Hm E). intros r. apply skip_opt; [tolerate|]. intros x ->. cbn [read_refs].
  case_bool_decide; [|crash]. step (IH (refs x.2 ++ E)). intros vs. apply triple_ret.
  intros s HI. rewrite refs_of_list_cons. eapply Inv_perm; [|exact HI]. by_count.
Qed.

Lemma deserialize_array_ok c ms E :
  Forall reads_ok ms → spec (Inv E) (dbus_deserialize_array c ms) (λ v, Inv (refs v ++ E)).
Proof.
  intros H. unfold dbus_deserialize_array. destruct (dbus_type_is_fixed c); [crash|].
  apply skip_opt; [tolerate|]. intros _ _. case_bool_decide; [ret|].
  step (array_elements_spec (dbus_type_to_di c) ms E H). intros vs. ret.
Qed.

Lemma dict_entry_ok o t E : Strong o ∈ E → spec (Inv (refs_of_list t ++ E)) (dict_entry o t) (λ _, Inv E).
Proof.
  intros HE. unfold dict_entry. destruct t as [|[] [|v []]]; try crash.
  rewrite refs_of_list_cons. unfold refs_of_list. cbn [map concat refs app]. rewrite app_nil_r.
  step (add_member_move_ok o s v E HE). intros ?. ret.
Qed.

Lemma deserialize_dict_ok es E :
  Forall (λ e, ∀ E, spec (Inv E) e (λ vs, Inv (refs_of_list vs ++ E))) es →
  spec (Inv E) (dbus_deserialize_dict es) (λ o, Inv (Strong o :: E)).
Proof.
  intros H. unfold dbus_deserialize_dict. step (new_object_with_type_ok E ENone). intros o.
  eapply triple_bind with (R := λ _, Inv (Strong o :: E)); [|intros ?; ret].
  induction H as [|e es He _ IH]; cbn [for_each]; [ret|].
  eapply triple_bind with (R := λ _, Inv (Strong o :: E)); [|intros ?; exact IH].
  step (He (Strong o :: E)). intros t. apply dict_entry_ok. left.
Qed.

(** Induction on messages, with the parts of containers. *)
Section induction.
Variable P : dbus_value → Prop.
Hypothesis Hbasic : ∀ c b, P (DBasic c b).
Hypothesis Harray : ∀ l, Forall P l → P (DArray l).
Hypothesis Hstruct : ∀ l, Forall P l → P (DStruct l).
Hypothesis Hdict : ∀ k v, P k → P v → P (DDict k v).
Hypothesis Hvariant : ∀ v, P v → P (DVariant v).

Fixpoint dbus_value_ind' (d : dbus_value) : P d :=
  let fix go (l : list dbus_value) : Forall P l :=
    match l with
    | [] => @List.Forall_nil _ P
    | x :: l' => @List.Forall_cons _ P x l' (dbus_value_ind' x) (go l')
    end in
  match d with
  | DBasic c b => Hbasic c b
  | DArray l => Harray l (go l)
  | DStruct l => Hstruct l (go l)
  | DDict k v => Hdict k v (dbus_value_ind' k) (dbus_value_ind' v)
  | DVariant v => Hvariant v (dbus_value_ind' v)
  end.
End induction.

(** What reading the fields of a dictionary entry does. *)
Definition entry_ok (d : dbus_value) : Prop :=
  match d with DDict k v => reads_ok (dbus_deserialize_one k) ∧ reads_ok (dbus_deserialize_one v) | _ => True end.

Lemma pair_ok k v E :
  reads_ok (dbus_deserialize_one k) → reads_ok (dbus_deserialize_one v) →
  spec (Inv E) (struct_elements [(get_arg_type k, dbus_deserialize_one k); (get_arg_type v, dbus_deserialize_one v)])
    (λ vs, Inv (refs_of_list vs ++ E)).
Proof. intros Hk Hv. apply struct_elements_spec. constructor; [exact Hk|constructor; [exact Hv|constructor]]. Qed.

Lemma array_result_ok c ms : Forall reads_ok ms →
  reads_ok (v ← dbus_deserialize_array c ms; mret (Some (DI_TYPE_ARRAY, v))).
Proof. intros H E. step (deserialize_array_ok c ms E H). intros v. ret. Qed.

Lemma struct_result_ok ds : Forall (λ d : Z * M (option (di_type * value)), reads_ok d.2) ds →
  reads_ok (vs ← struct_elements ds; mret (Some (DI_TYPE_TUPLE, VTuple vs))).
Proof. intros H E. step (struct_elements_spec ds E H). intros v. ret. Qed.

Lemma elements_ok l : Forall (λ d, reads_ok (dbus_deserialize_one d)) l →
  Forall (λ d : Z * M (option (di_type * value)), reads_ok d.2) (map (λ e, (get_arg_type e, dbus_deserialize_one e)) l).
Proof. intros H. apply Forall_map. exact H. Qed.

Lemma deserialize_both d : reads_ok (dbus_deserialize_one d) ∧ entry_ok d.
Proof.
  induction d as [c b|l IH|l IH|k v [IHk _] [IHv _]|v [IH _]] using dbus_value_ind'; (split; [|try exact I]).
  - intros E. cbn [dbus_deserialize_one]. destruct (dbus_type_is_basic c); [|ret].
    step (deserialize_basic_ok b c E). intros r. ret.
  - assert (Forall reads_ok (map dbus_deserialize_one l)) as Hl.
    { apply Forall_map. eapply Forall_impl; [exact IH|]. intros x [Hx _]. exact Hx. }
    cbn [dbus_deserialize_one]. destruct l as [|[c b|l'|l'|k v|v] l]; try (apply array_result_ok, Hl).
    + intros E. ret.
    + destruct (get_arg_type k =? DBUS_TYPE_STRING); [|apply array_result_ok, Hl].
      intros E. eapply triple_bind; [apply deserialize_dict_ok|intros o; ret].
      apply Forall_map. eapply Forall_impl; [exact IH|]. intros x [_ Hx] E'.
      destruct x; try crash. destruct Hx. apply pair_ok; assumption.
  - cbn [dbus_deserialize_one]. apply struct_result_ok, elements_ok.
    eapply Forall_impl; [exact IH|]. intros x [Hx _]. exact Hx.
  - cbn [dbus_deserialize_one]. apply struct_result_ok.
    constructor; [exact IHk|constructor; [exact IHv|constructor]].
  - split; [exact IHk|exact IHv].
  - intros E. cbn [dbus_deserialize_one]. ret.
Qed.

Lemma deserialize_struct_ok l E : spec (Inv E) (_dbus_deserialize_struct l) (λ v, Inv (refs v ++ E)).
Proof.
  unfold _dbus_deserialize_struct. eapply triple_bind; [apply struct_elements_spec, elements_ok|intros vs; ret].
  apply Forall_forall. intros d _. apply deserialize_both.
Qed.
End deser.

(** ** Operations of a connection *)

(** [m] emits only signals with the arguments [args]. *)
Definition emits (args : list value) {A} (m : ST di_dbus_connection A) : Prop :=
  triple tolerated (λ c, ∀ e, e ∈ c_emitted c → e.2 = args) m (λ _ c, ∀ e, e ∈ c_emitted c → e.2 = args).

Section emits.
Context (args : list value).

Lemma emits_ret {A} (a : A) : emits args (mret a : ST di_dbus_connection A).
Proof. apply triple_ret. auto. Qed.

Lemma emits_bind {A B} (m : ST di_dbus_connection A) (f : A → ST di_dbus_connection B) :
  emits args m → (∀ a, emits args (f a)) → emits args (a ← m; f a).
Proof. intros Hm Hf. eapply triple_bind; [exact Hm|exact Hf]. Qed.

Lemma emits_fail {A} k : tolerated k → emits args (fail k : ST di_dbus_connection A).
Proof. apply triple_fail. Qed.

Lemma emits_names f : emits args (modify (λ s, set_names (f s) s)).
Proof. intros c Hc. exact Hc. Qed.

Lemma emits_match b rule : emits args (match_call b rule).
Proof. intros c Hc. exact Hc. Qed.

Lemma emits_get : emits args (get : ST di_dbus_connection di_dbus_connection).
Proof. intros c Hc. exact Hc. Qed.

Lemma emits_signal name : emits args (emit_signal name args).
Proof.
  intros c Hc e [He|He]%elem_of_app; [exact (Hc e He)|].
  apply list_elem_of_singleton in He as ->. reflexivity.
Qed.
End emits.

Ltac emits :=
  repeat first
    [ assumption
    | apply emits_ret | apply emits_names | apply emits_match | apply emits_get | apply emits_signal
    | apply emits_fail; tolerate
    | apply emits_bind; [|intros ?]
    | match goal with |- emits _ (match ?x with _ => _ end) => destruct x end ].

Lemma update_name_emits args wk old new b : emits args (di_dbus_update_name wk old new b).
Proof. unfold di_dbus_update_name. emits. Qed.

Lemma change_match_emits args add name : emits args (change_match add name).
Proof. unfold change_match. emits. Qed.

Lemma filter_emits msg : emits (m_args msg) (dbus_filter msg).
Proof.
  assert (∀ b, emits (m_args msg) (emit_both b msg)) as Hb by (intros b; unfold emit_both; emits).
  assert (∀ i, emits (m_args msg) (string_arg (m_args msg) i)) as Hs
    by (intros i; unfold string_arg, from_opt; emits).
  assert (∀ sender l, emits (m_args msg) (for_each (λ ni, if String.eqb (unique ni) sender then emit_both (well_known ni) msg else mret tt) l)) as Hl.
  { intros sender l. induction l as [|n l IH]; cbn [for_each]; emits; apply Hb. }
  assert (emits (m_args msg) (is_name_owner_changed msg)) as Hc by (unfold is_name_owner_changed, from_opt; emits).
  unfold dbus_filter. destruct (negb _); [emits|]. apply emits_bind; [exact Hc|]. intros changed.
  apply emits_bind.
  - destruct changed; [|emits]. do 3 (apply emits_bind; [apply Hs|intros ?]). apply update_name_emits.
  - intros _. destruct (m_sender msg); [|emits]. apply emits_bind; [|emits].
    destruct (starts_with _ _); [apply emits_bind; [apply emits_get|intros ?; apply Hl]|apply Hb].
Qed.
