(* ===== verification/DbusConn.v ===== *)
(** * Connections, objects and calls of D-Bus (plugins/dbus/dbus.c)

    A connection is an object that owns a libdbus connection; objects of the bus
    and pending calls keep it alive.  The libdbus connection is registered with
    the event module through file descriptor events, and closed from the main
    loop.  libdbus is a parameter: what it answers may depend on everything that
    happened before. *)

From S2P Require Import Prelude Text DiTypes Strings Heap Account Object ObjectSpec Signals Callable Roots Helper.
From S2P Require Import Deai Event Modules Sedes Deser DbusNames DbusSafe.

Local Open Scope Z_scope.

(** ** libdbus *)

Inductive message_type : Type := METHOD_RETURN | METHOD_ERROR | METHOD_CALL | SIGNAL.

(** A message as it is received; the header fields are those of a signal. *)
Record dbus_message := DbusMsg {
  dm_type : message_type;
  dm_sender : option string;
  dm_path : string;
  dm_interface : string;
  dm_member : string;
  dm_body : list dbus_value
}.

(** A watch: its address, flags and descriptor, and whether it is enabled. *)
Record dbus_watch := Watch { w_ptr : Z; w_flags : Z; w_fd : Z; w_enabled : bool }.

(** - [bus_get_private]: the new connection, or an error message;
    - [send_with_reply]: the pending call, or none when the connection is closed;
    - [steal_reply], [message_at]: the reply to a pending call, and what is at
      its address; [print_pointer]: the conversion [%p];
    - [watch_handle], [dispatch]: reading from the connection, which calls the
      functions that are registered; [dispatch] tells whether there is more;
    - [set_watch_functions]: calls the first function for the watches there are,
      and the second for those that are undone. *)
Class DbusLib := {
  bus_get_private : list (string * list value) → Z + string;
  send_with_reply : list (string * list value) → option Z;
  steal_reply : Z → Z;
  message_at : Z → dbus_message;
  print_pointer : Z → string;
  watch_handle : Kernel → Z → Z → M unit;
  dispatch : Kernel → Z → M bool;
  set_watch_functions : Kernel → (dbus_watch → M bool) → (dbus_watch → M unit) → M unit
}.

(** What libdbus does accounts for the references that it uses. *)
Class DbusLibOk (L : DbusLib) : Prop := {
  watch_handle_ok (K : Kernel) w f E : KernelOk K → spec (Inv E) (watch_handle K w f) (λ _, Inv E);
  dispatch_ok (K : Kernel) c E : KernelOk K → spec (Inv E) (dispatch K c) (λ _, Inv E);
  set_watch_functions_ok (K : Kernel) add remove E :
    KernelOk K → (∀ w, spec (Inv E) (add w) (λ _, Inv E)) → (∀ w, spec (Inv E) (remove w) (λ _, Inv E)) →
    spec (Inv E) (set_watch_functions K add remove) (λ _, Inv E)
}.

Definition DBUS_WATCH_READABLE : Z := 1.
Definition DBUS_WATCH_WRITABLE : Z := 2.

(** ** Functions and destructors by number *)

Definition FN_UPDATE_NAME : nat := 60.
Definition FN_REPLY_CB : nat := 61.
Definition FN_IOEV_CALLBACK : nat := 62.
Definition FN_SHUTDOWN_PART2 : nat := 63.
Definition FN_GET_OBJECT : nat := 64.
Definition FN_NEW_SIGNAL : nat := 65.
Definition FN_DEL_SIGNAL : nat := 66.
Definition FN_OBJECT_GETTER : nat := 67.
Definition FN_OBJECT_NEW_SIGNAL : nat := 68.
Definition FN_SESSION_BUS : nat := 69.
Definition DTOR_PENDING_REPLY : dtor_kind := DtorExt 4.
Definition DTOR_DBUS_OBJECT : dtor_kind := DtorExt 5.
Definition DTOR_METHOD : dtor_kind := DtorExt 6.
Definition DTOR_CONNECTION : dtor_kind := DtorExt 7.
Definition CALL_DBUS_METHOD : call_kind := CallExt 2.

Definition CONNECTION_MEMBER : string := "___deai_dbus_connection".

Section dbus.
Context {K : Kernel} {W : World} {D : Dbus} {T : DbusTypes} {L : DbusLib}.

(** ** Common steps *)

(** [di_get] into a variable for an object. *)
Definition di_get_obj (o : loc) (name : string) : M (Z + loc) :=
  r ← di_getxt o (Some name) DI_TYPE_OBJECT;
  match r with
  | inl rc => mret (inl rc)
  | inr (VObject l) => mret (inr l)
  | inr _ => fail TypeConfusion
  end.

(** The same in [DI_CHECK_OK]. *)
Definition get_checked (o : loc) (name : string) : M loc :=
  r ← di_get_obj o name;
  match r with inl _ => fail CheckFailed | inr l => mret l end.

(** [di_closure]; an error pointer would be used as an object. *)
Definition new_closure (fn : nat) (captures : list value) (atypes : list di_type) : M loc :=
  c ← di_create_closure fn DI_TYPE_NIL captures atypes;
  match c with inl _ => fail TypeConfusion | inr l => mret l end.

Definition remove_checked (o : loc) (name : string) : M unit :=
  rc ← di_remove_member_raw o (Some name); check (rc =? 0).

(** The [conn] pointer of a connection. *)
Definition get_conn (c : loc) : M Z :=
  f ← get_fields c;
  match f with FConnection conn _ => mret conn | _ => fail TypeConfusion end.

Definition get_names (o : loc) : M (string * string) :=
  f ← get_fields o;
  match f with FDbusObject bus obj => mret (bus, obj) | _ => fail TypeConfusion end.

(** Running an operation of DbusNames on a connection object: the names are those
    of the object, and the match rules and signals are passed on. *)
Definition on_connection {A} (c : loc) (m : ST di_dbus_connection A) : M A :=
  f ← get_fields c;
  match f with
  | FConnection conn names =>
      match m (Connection (negb (conn =? 0)) (map (λ n, BusName n.1 n.2) names) [] []) with
      | Done a s =>
          upd_fields c (λ _, FConnection conn (map (λ n, (well_known n, unique n)) (c_known_names s)));;
          for_each (λ r, emit_event (if r.1 : bool then "dbus_bus_add_match" else "dbus_bus_remove_match")
                           [VStringLiteral r.2]) (c_matches s);;
          for_each (λ e, _ ← di_emitn c (Some e.1) e.2; mret tt) (c_emitted s);;
          mret a
      | Crash k => fail k
      | NoFuel => out_of_fuel
      end
  | _ => fail TypeConfusion
  end.

(** ** Pending replies *)

(** [di_dbus_free_pending_reply] *)
Definition di_dbus_free_pending_reply (p : loc) : M unit :=
  f ← get_fields p;
  match f with
  | FPending z =>
      emit_event "dbus_pending_call_cancel" [VPointer z];;
      emit_event "dbus_pending_call_unref" [VPointer z]
  | _ => fail TypeConfusion
  end.

(** [dbus_pending_call_notify_fn] *)
Definition dbus_pending_call_notify_fn (dp : Z) (ud : loc) : M unit :=
  p_obj ← di_upgrade_weak_ref ud;
  p ← from_opt CheckFailed p_obj;
  let msg := steal_reply dp in
  _ ← di_emitn p (Some "reply"%string) [VPointer msg];
  di_finalize_object p;;
  unref_object p.

(** [di_dbus_send]; [msg] is what the message is made of.  libdbus keeps the weak
    reference for [dbus_pending_call_notify_fn]. *)
Definition di_dbus_send (c : loc) (msg : list value) : M (option loc) :=
  ret ← di_new_object_with_type (EFields (FPending 0));
  _ ← di_set_type ret "deai.plugin.dbus:DBusPendingReplyRaw";
  conn ← get_conn c;
  emit_event "dbus_connection_send_with_reply" (VPointer conn :: msg);;
  p ← (λ s, Done (send_with_reply (s_trace s)) s) : M (option Z);
  match p with
  | None => unref_object ret;; mret None
  | Some z =>
      upd_fields ret (λ _, FPending z);;
      di_set_object_dtor ret (Some DTOR_PENDING_REPLY);;
      weak ← di_weakly_ref_object ret;
      leak [Weak weak];;
      emit_event "dbus_pending_call_set_notify" [VPointer z];;
      mret (Some ret)
  end.

(** ** Owners of names *)

(** The member names ["__dbus_watch_%s..."]. *)
Definition watch_member (busname suffix : string) : string := "__dbus_watch_" +:+ till_nul busname +:+ suffix.
Definition change_request (busname : string) : string := watch_member busname "_change_request".
Definition change_request_handle (busname : string) : string := watch_member busname "_change_request_listen_handle".

Definition name_owner_rule (busname : string) : string :=
  "type='signal',sender='org.freedesktop.DBus',path='/org/freedesktop/DBus'" +:+
  ",interface='org.freedesktop.DBus',member='NameOwnerChanged',arg0='" +:+ busname +:+ "'".

(** [dbus_message_get_args] for one string. *)
Definition first_string (m : dbus_message) : option string :=
  match dm_body m with
  | DBasic t (BString s) :: _ => if t =? DBUS_TYPE_STRING then Some s else None
  | _ => None
  end.

(** [di_dbus_update_name_from_msg] *)
Definition di_dbus_update_name_from_msg (weak : loc) (busname : di_string) (msg : Z) : M unit :=
  let m := message_at msg in
  match dm_type m with
  | METHOD_RETURN =>
      conn_obj ← di_upgrade_weak_ref weak;
      conn ← from_opt CheckFailed conn_obj;
      let name := default EmptyString busname in
      remove_checked conn (change_request name);;
      remove_checked conn (change_request_handle name);;
      match first_string m with
      | None => mret tt
      | Some unique =>
          on_connection conn (di_dbus_update_name busname DI_STRING_INIT (di_string_borrow unique) true);;
          emit_event "dbus_message_unref" [VPointer msg]
      end;;
      unref_object conn
  | _ => mret tt
  end.

(** [di_dbus_watch_name] *)
Definition di_dbus_watch_name (c : loc) (busname : string) : M unit :=
  conn ← get_conn c;
  if conn =? 0 then mret tt
  else
    emit_event "dbus_bus_add_match" [VStringLiteral (name_owner_rule busname)];;
    r ← di_dbus_send c [VStringLiteral "GetNameOwner"; VStringLiteral busname];
    ret ← from_opt CheckFailed r;
    weak ← di_weakly_ref_object c;
    cl ← new_closure FN_UPDATE_NAME [VWeak weak; VString (di_string_borrow busname)] [DI_TYPE_POINTER];
    listen_handle ← di_listen_to ret (Some "reply"%string) cl;
    _ ← di_member c (change_request busname) (VObject ret);
    _ ← di_member c (change_request_handle busname) (VObject listen_handle);
    unref_object cl;;
    di_drop_weak_ref weak.

(** [di_dbus_unwatch_name] *)
Definition di_dbus_unwatch_name (c : loc) (busname : string) : M unit :=
  conn ← get_conn c;
  if conn =? 0 then mret tt
  else emit_event "dbus_bus_remove_match" [VStringLiteral (name_owner_rule busname)].

(** ** Method calls *)

(** [dbus_call_method_reply_cb] *)
Definition dbus_call_method_reply_cb (weak : loc) (msg : Z) : M unit :=
  sig_obj ← di_upgrade_weak_ref weak;
  match sig_obj with
  | None => mret tt
  | Some sig =>
      let m := message_at msg in
      t ← _dbus_deserialize_struct (dm_body m);
      match t with
      | VTuple args =>
          match dm_type m with
          | METHOD_RETURN => _ ← di_emitn sig (Some "reply"%string) args; mret tt
          | METHOD_ERROR => _ ← di_emitn sig (Some "error"%string) args; mret tt
          | _ => mret tt
          end
      | _ => fail TypeConfusion
      end;;
      di_free_value t;;
      emit_event "dbus_message_unref" [VPointer msg];;
      _ ← di_remove_member_raw sig (Some "___original_object"%string);
      _ ← di_remove_member_raw sig (Some "___original_object_listen_handle"%string);
      _ ← di_remove_member_raw sig (Some CONNECTION_MEMBER);
      unref_object sig
  end.

(** [_dbus_serialize_struct] on a new message. *)
Definition serialize_args (args : list value) : M Z :=
  match _dbus_serialize_struct args no_calls with
  | Done rc _ => mret rc
  | Crash k => fail k
  | NoFuel => out_of_fuel
  end.

(** [dbus_call_method]; [di_listen_to] is given a null pointer when libdbus does
    not answer with a pending call. *)
Definition dbus_call_method (iface : option string) (method : string) (t : list value) : M loc :=
  match t with
  | VObject dobj :: args =>
      conn ← get_checked dobj CONNECTION_MEMBER;
      names ← get_names dobj;
      rc ← serialize_args args;
      if rc <? 0 then
        err ← di_new_error "Can't serialize arguments";
        unref_object conn;;
        mret err
      else
        ret ← di_new_object_with_type ENone;
        _ ← di_set_type ret "deai.plugin.dbus:DBusPendingReply";
        r ← di_dbus_send conn
              (VStringLiteral names.1 :: VStringLiteral names.2 :: VStringLiteral (default EmptyString iface) ::
               VStringLiteral method :: args);
        weak ← di_weakly_ref_object ret;
        cl ← new_closure FN_REPLY_CB [VWeak weak] [DI_TYPE_POINTER];
        p ← from_opt NullDeref r;
        listen_handle ← di_listen_to p (Some "reply"%string) cl;
        emit_event "dbus_message_unref" [];;
        _ ← di_member ret "___original_object" (VObject p);
        _ ← di_member ret "___original_object_listen_handle" (VObject listen_handle);
        _ ← di_add_member_clonev ret (Some CONNECTION_MEMBER) (VObject conn);
        unref_object cl;;
        di_drop_weak_ref weak;;
        unref_object conn;;
        mret ret
  | _ => di_new_error "first argument to dbus method call is not a dbus object"
  end.

(** ** Objects of the bus *)

(** [di_free_dbus_object]; from here on the names dangle. *)
Definition di_free_dbus_object (o : loc) : M unit :=
  names ← get_names o;
  conn ← get_checked o CONNECTION_MEMBER;
  di_dbus_unwatch_name conn names.1;;
  set_ext o EPoison;;
  unref_object conn.

(** [di_dbus_free_method] *)
Definition di_dbus_free_method (o : loc) : M unit := set_ext o EPoison.

(** [call_dbus_method] *)
Definition call_dbus_method (m : loc) (t : list value) : M (Z + value) :=
  f ← get_fields m;
  match f with
  | FMethod method interface => l ← dbus_call_method interface method t; mret (inr (VObject l))
  | _ => fail TypeConfusion
  end.

(** [di_dbus_object_getter] *)
Definition di_dbus_object_getter (dobj : loc) (method : di_string) : M loc :=
  match split_method_name method with
  | MethodError msg => di_new_error msg
  | DbusMethod ifc m =>
      ret ← di_new_object_with_type (EFields (FMethod EmptyString None));
      _ ← di_set_type ret "deai.plugin.dbus:DBusMethod";
      upd_fields ret (λ _, FMethod m ifc);;
      di_set_object_dtor ret (Some DTOR_METHOD);;
      di_set_object_call ret (Some CALL_DBUS_METHOD);;
      mret ret
  end.

(** [di_dbus_object_new_signal] *)
Definition di_dbus_object_new_signal (dobj : loc) (name : di_string) : M unit :=
  names ← get_names dobj;
  let srcsig := object_signal_name names.1 names.2 name in
  conn ← get_checked dobj CONNECTION_MEMBER;
  _ ← di_proxy_signal conn (di_string_borrow srcsig) dobj name;
  unref_object conn.

(** [di_dbus_get_object] *)
Definition di_dbus_get_object (o : loc) (bus obj : di_string) : M loc :=
  ret ← di_new_object_with_type (EFields (FDbusObject EmptyString EmptyString));
  _ ← di_set_type ret "deai.plugin.dbus:DBusObject";
  _ ← di_add_member_clonev ret (Some CONNECTION_MEMBER) (VObject o);
  upd_fields ret (λ _, FDbusObject (c_str bus) (c_str obj));;
  di_dbus_watch_name o (c_str bus);;
  _ ← di_add_method ret (Some "put"%string) FN_FINALIZE DI_TYPE_NIL [];
  _ ← di_add_method ret (Some "__get"%string) FN_OBJECT_GETTER DI_TYPE_OBJECT [DI_TYPE_STRING];
  _ ← di_add_method ret (Some "__new_signal"%string) FN_OBJECT_NEW_SIGNAL DI_TYPE_NIL [DI_TYPE_STRING];
  di_set_object_dtor ret (Some DTOR_DBUS_OBJECT);;
  mret ret.

(** ** The main loop *)

(** [ioev_callback]; the loop ends when libdbus has no more messages. *)
Definition ioev_callback (conn ptr event : Z) : M unit :=
  (if has_bit event IOEV_READ then
     watch_handle K ptr DBUS_WATCH_READABLE;;
     while_some loop_fuel (λ _ : unit, more ← dispatch K conn; mret (if (more : bool) then Some tt else None)) tt
   else mret tt);;
  (if has_bit event IOEV_WRITE then watch_handle K ptr DBUS_WATCH_WRITABLE else mret tt).

(** The cell that holds the handle of the root: the last value written to it. *)
Fixpoint last_store (ptr : Z) (tr : list (string * list value)) : option Z :=
  match tr with
  | [] => None
  | (what, [VPointer p; VUInt h]) :: tr' =>
      if String.eqb what "store" && (p =? ptr) then Some h else last_store ptr tr'
  | _ :: tr' => last_store ptr tr'
  end.

Definition load_cell (ptr : Z) : M Z := λ s, from_opt Uninit (last_store ptr (s_trace s)) s.

(** [di_dbus_shutdown_part2] *)
Definition di_dbus_shutdown_part2 (roots : loc) (root_handle_ptr conn : Z) : M unit :=
  root_handle ← load_cell root_handle_ptr;
  rc ← di_call roots "__remove_anonymous" [VUInt root_handle];
  check (rc =? 0);;
  emit_event "dbus_connection_close" [VPointer conn];;
  emit_event "dbus_connection_unref" [VPointer conn].

(** [di_dbus_shutdown]: the connection is closed when the loop runs again. *)
Definition di_dbus_shutdown (roots conn : loc) : M unit :=
  c ← get_conn conn;
  if c =? 0 then mret tt
  else
    d ← di_object_get_deai_strong conn;
    di ← from_opt NullDeref d;
    eventm ← get_checked di "event";
    cell ← fresh_id;
    let root_handle_storage := Z.of_nat cell in
    shutdown ← new_closure FN_SHUTDOWN_PART2 [VPointer root_handle_storage; VPointer c] [];
    listen_handle ← di_listen_to eventm (Some "prepare"%string) shutdown;
    r ← di_callr roots "__add_anonymous" DI_TYPE_UINT [VObject listen_handle];
    match r with
    | inr (VUInt h) => emit_event "store" [VPointer root_handle_storage; VUInt h]
    | inr _ => fail TypeConfusion
    | inl _ => mret tt
    end;;
    emit_event "dbus_connection_set_watch_functions" [VPointer c];;
    upd_fields conn (λ _, FConnection 0 []);;
    unref_object listen_handle;;
    unref_object shutdown;;
    unref_object eventm;;
    unref_object di.

(** The member names of a watch. *)
Definition ioev_name (w : Z) : string := "__dbus_ioev_for_watch_" +:+ print_pointer w.
Definition listen_handle_name (w : Z) : string := "__dbus_ioev_listen_handle_for_watch_" +:+ print_pointer w.

Definition watch_events (flags : Z) : Z :=
  let dt := if has_bit flags DBUS_WATCH_READABLE then Z.lor 0 IOEV_READ else 0 in
  if has_bit flags DBUS_WATCH_WRITABLE then Z.lor dt IOEV_WRITE else dt.

(** The end of [dbus_add_watch], with the event object. *)
Definition watch_ioev (w : dbus_watch) (oc ioev : loc) : M unit :=
  conn ← get_conn oc;
  cl ← new_closure FN_IOEV_CALLBACK [VPointer conn; VPointer (w_ptr w)] [DI_TYPE_NINT];
  l ← di_listen_to ioev (Some "io"%string) cl;
  unref_object cl;;
  (if w_enabled w then mret tt else _ ← di_call ioev "stop" []; mret tt);;
  rc ← di_member oc (listen_handle_name (w_ptr w)) (VObject l);
  check (rc =? 0);;
  rc ← di_member oc (ioev_name (w_ptr w)) (VObject ioev);
  check (rc =? 0);;
  weak ← di_weakly_ref_object oc;
  leak [Weak weak].

(** [dbus_add_watch]; libdbus keeps the weak reference. *)
Definition dbus_add_watch (oc : loc) (w : dbus_watch) : M bool :=
  r ← di_get_obj oc (ioev_name (w_ptr w));
  match r with
  | inr _ => fail CheckFailed
  | inl _ =>
      d ← di_object_get_deai_strong oc;
      di ← from_opt NullDeref d;
      e ← di_get_obj di "event";
      match e with
      | inl _ => unref_object di;; mret false
      | inr eventm =>
          r ← di_callr eventm "fdevent" DI_TYPE_OBJECT [VNInt (w_fd w); VNInt (watch_events (w_flags w))];
          added ← match r with
                  | inl _ => mret false
                  | inr (VObject ioev) => watch_ioev w oc ioev;; mret true
                  | inr _ => fail TypeConfusion
                  end;
          unref_object di;;
          unref_object eventm;;
          mret added
      end
  end.

(** [dbus_remove_watch] *)
Definition dbus_remove_watch (ud : loc) (w : dbus_watch) : M unit :=
  c ← di_upgrade_weak_ref ud;
  conn ← from_opt CheckFailed c;
  _ ← di_remove_member_raw conn (Some (ioev_name (w_ptr w)));
  _ ← di_remove_member_raw conn (Some (listen_handle_name (w_ptr w)));
  unref_object conn.

(** [dbus_toggle_watch] *)
Definition dbus_toggle_watch (oc : loc) (w : dbus_watch) : M unit :=
  ioev ← get_checked oc (ioev_name (w_ptr w));
  _ ← di_call ioev "toggle" [];
  unref_object ioev.

(** [dbus_filter], as libdbus calls it with a connection object. *)
Definition connection_filter (c : loc) (m : dbus_message) : M handler_result :=
  match dm_type m with
  | SIGNAL =>
      t ← _dbus_deserialize_struct (dm_body m);
      match t with
      | VTuple args =>
          _ ← di_ref_object c;
          r ← on_connection c (dbus_filter
                (Message true (dm_sender m) (dm_path m) (dm_interface m) (dm_member m) args));
          (match r with HANDLED => di_free_value t | NOT_YET_HANDLED => leak (refs t) end);;
          unref_object c;;
          mret r
      | _ => fail TypeConfusion
      end
  | _ => mret NOT_YET_HANDLED
  end.

(** ** The module *)

(** [di_dbus_get_session_bus]; the private connection is not closed when deai is
    shutting down. *)
Definition di_dbus_get_session_bus (m : loc) : M loc :=
  c ← (λ s, Done (bus_get_private (s_trace s)) s) : M (Z + string);
  match c with
  | inr message => di_new_error message
  | inl conn =>
      d ← di_module_get_deai m;
      match d with
      | None => di_new_error "deai is shutting down..."
      | Some di =>
          emit_event "dbus_connection_set_exit_on_disconnect" [VPointer conn];;
          ret ← di_new_object_with_type (EFields (FConnection 0 []));
          _ ← di_set_type ret "deai.plugin.dbus:DBusConnection";
          upd_fields ret (λ _, FConnection conn []);;
          _ ← di_member ret "__deai" (VObject di);
          _ ← di_add_method ret (Some "get"%string) FN_GET_OBJECT DI_TYPE_OBJECT [DI_TYPE_STRING; DI_TYPE_STRING];
          _ ← di_add_method ret (Some "__new_signal"%string) FN_NEW_SIGNAL DI_TYPE_NIL [DI_TYPE_STRING];
          _ ← di_add_method ret (Some "__del_signal"%string) FN_DEL_SIGNAL DI_TYPE_NIL [DI_TYPE_STRING];
          set_watch_functions K (dbus_add_watch ret) (dbus_remove_watch ret);;
          emit_event "dbus_connection_add_filter" [VPointer conn];;
          di_set_object_dtor ret (Some DTOR_CONNECTION);;
          mret ret
      end
  end.

(** The entry point of the plugin. *)
Definition di_plugin_init (di : loc) : M unit :=
  r ← di_new_module di;
  m ← from_opt NullDeref r;
  _ ← di_add_method m (Some "__get_session_bus"%string) FN_SESSION_BUS DI_TYPE_OBJECT [];
  _ ← di_register_module di (Some "dbus"%string) m;
  mret tt.
End dbus.

(** ** Memory safety and reference accounting *)

Section specs.
Context {K : Kernel} {KO : KernelOk K} {W : World} {WO : WorldOk W} {D : Dbus} {T : DbusTypes} {L : DbusLib} {LO : DbusLibOk L}.

Lemma get_obj_ok E o name :
  Strong o ∈ E → spec (Inv E) (di_get_obj o name) (λ r, Inv (match r with inr l => [Strong l] | inl _ => [] end ++ E)).
Proof.
  intros HE. unfold di_get_obj. step (getxt_ok o (Some name) DI_TYPE_OBJECT E HE).
  intros [rc|v]; [ret|]. destruct v; try crash. ret.
Qed.

Lemma get_checked_ok E o name : Strong o ∈ E → spec (Inv E) (get_checked o name) (λ l, Inv (Strong l :: E)).
Proof.
  intros HE. unfold get_checked. step (get_obj_ok E o name HE). intros [rc|l]; [crash|ret].
Qed.

Lemma new_closure_ok E fn caps ats :
  (∀ r, r ∈ refs_of_list caps → r ∈ E) → spec (Inv E) (new_closure fn caps ats) (λ l, Inv (Strong l :: E)).
Proof.
  intros Hc. unfold new_closure. step (create_closure_ok E fn DI_TYPE_NIL caps ats Hc). intros [rc|l]; [crash|ret].
Qed.

Lemma remove_checked_ok E o name : Strong o ∈ E → spec (Inv E) (remove_checked o name) (λ _, Inv E).
Proof.
  intros HE. unfold remove_checked. step (remove_member_raw_ok o (Some name) E HE). intros rc. apply check_skip.
Qed.

Lemma get_conn_ok E c : Strong c ∈ E → spec (Inv E) (get_conn c) (λ _, Inv E).
Proof. intros HE. unfold get_conn. step (get_fields_ok E c HE). intros f. destruct f; first [crash|ret]. Qed.

Lemma get_names_ok E o : Strong o ∈ E → spec (Inv E) (get_names o) (λ _, Inv E).
Proof. intros HE. unfold get_names. step (get_fields_ok E o HE). intros f. destruct f; first [crash|ret]. Qed.

Lemma on_connection_ok {A} E c args (m : ST di_dbus_connection A) :
  Strong c ∈ E → (∀ r, r ∈ refs_of_list args → r ∈ E) → emits args m →
  spec (Inv E) (on_connection c m) (λ _, Inv E).
Proof.
  intros HE Ha Hm. unfold on_connection. step (get_fields_ok E c HE). intros f. destruct f; try crash.
  set (c0 := Connection _ _ _ _). assert (∀ e, e ∈ c_emitted c0 → e.2 = args) as H0 by (intros e He; inversion He).
  specialize (Hm c0 H0). destruct (m c0) as [a s|k|]; [|apply triple_fail, Hm|apply triple_out_of_fuel].
  apply upd_fields_step; [exact HE|].
  eapply triple_bind with (R := λ _, Inv E).
  { apply (triple_for_each tolerated _ (λ _, Inv E)). intros r l. apply emit_event_ok. }
  intros _. eapply triple_bind with (R := λ _, Inv E); [|intros _; ret].
  revert Hm. generalize (c_emitted s). intros l Hl. induction l as [|e l IH]; cbn [for_each]; [ret|].
  eapply triple_bind with (R := λ _, Inv E).
  - apply emit_step; [exact HE| |ret]. intros r. rewrite (Hl e); [apply Ha|left].
  - intros _. apply IH. intros e' He'. apply Hl. right. exact He'.
Qed.

(** The tail of a function, after a value was moved into a member. *)
Lemma member_step E o name l {A} (k : M A) Q :
  Strong o ∈ E → spec (Inv E) k Q → spec (Inv (Strong l :: E)) (_ ← di_member o name (VObject l); k) Q.
Proof. intros HE Hk. step (member_ok o name (VObject l) E HE). intros ?. exact Hk. Qed.

Lemma oracle_step {B} E (f : state → B) {A} (k : B → M A) Q :
  (∀ b, spec (Inv E) (k b) Q) → spec (Inv E) (b ← ((λ s, Done (f s) s) : M B); k b) Q.
Proof. intros Hk s HI. exact (Hk (f s) s HI). Qed.

Lemma upgrade_any_ok E l :
  l = DEAD ∨ Weak l ∈ E ∨ Strong l ∈ E →
  spec (Inv E) (di_upgrade_weak_ref l) (λ r, Inv (opt_refs r ++ E)).
Proof.
  intros HE. destruct (decide (Strong l ∈ E)) as [Hs|Hs].
  - intros s HI. unfold di_upgrade_weak_ref. case_decide; [exact HI|].
    destruct (Inv_strong_alive _ _ l HI Hs) as (o & Ho & Hrc).
    unfold mbind, ST_bind, rd. rewrite Ho. destruct (Nat.ltb_spec 0 (o_rc o)); [|exact HI].
    unfold di_ref_object, rd, mbind, ST_bind. rewrite Ho. simpl. apply Inv_ref; assumption.
  - eapply spec_post; [apply (upgrade_weak_ref_ok E l); tauto|]. intros [x|] s H; [|exact H].
    destruct H as [-> HI]. exact HI.
Qed.

Lemma member_checked_step E o name l {A} (k : M A) Q :
  Strong o ∈ E → spec (Inv E) k Q →
  spec (Inv (Strong l :: E)) (rc ← di_member o name (VObject l); check (rc =? 0);; k) Q.
Proof.
  intros HE Hk. step (member_ok o name (VObject l) E HE). intros rc.
  eapply triple_bind with (R := λ _, Inv E); [apply check_skip|]. intros ?. exact Hk.
Qed.

(** *** Pending replies *)

Lemma free_pending_reply_ok E p : Strong p ∈ E → spec (Inv E) (di_dbus_free_pending_reply p) (λ _, Inv E).
Proof.
  intros HE. unfold di_dbus_free_pending_reply. step (get_fields_ok E p HE). intros f. destruct f; try crash.
  apply emit_event_step, emit_event_ok.
Qed.

Lemma notify_ok E dp ud : ud = DEAD ∨ Weak ud ∈ E → spec (Inv E) (dbus_pending_call_notify_fn dp ud) (λ _, Inv E).
Proof.
  intros HE. unfold dbus_pending_call_notify_fn. step (upgrade_any_ok E ud); [tauto|].
  intros [p|]; [|crash]. cbn [opt_refs app]. change (from_opt CheckFailed (Some p)) with (mret (M := M) p).
  eapply triple_bind with (R := λ x, Inv (Strong x :: E)); [ret|]. intros x.
  apply emit_step; [left|intros r Hr; inversion Hr|].
  step (finalize_object_ok x (Strong x :: E)); [left|]. intros ?. apply unref_ok.
Qed.

Lemma dbus_send_ok E c msg : Strong c ∈ E → spec (Inv E) (di_dbus_send c msg) (λ r, Inv (opt_refs r ++ E)).
Proof.
  intros HE. unfold di_dbus_send. step (new_object_with_type_ok E (EFields (FPending 0))). intros l.
  assert (Strong c ∈ Strong l :: E) as HE' by (right; exact HE).
  apply set_type_step; [left|]. step (get_conn_ok (Strong l :: E) c HE'). intros conn.
  apply emit_event_step, oracle_step. intros [z|].
  - apply upd_fields_step; [left|]. apply set_dtor_step; [left|].
    step (weakly_ref_object_ok (Strong l :: E) l); [right; left|]. intros w.
    apply triple_pure. intros ->. apply triple_pure. intros _.
    step (leak_ok (Strong l :: E) [Weak l]). intros ?. apply emit_event_step. ret.
  - step (unref_ok l E). intros ?. ret.
Qed.

(** *** Owners of names *)

(** A capture is held when the function is called. *)
Lemma upgrade_capture_ok E l :
  spec (λ s, Inv E s ∧ Forall (held s) (refs (VWeak l))) (di_upgrade_weak_ref l) (λ r, Inv (opt_refs r ++ E)).
Proof.
  intros s [HI HH]. unfold di_upgrade_weak_ref. case_decide as Hd; [exact HI|].
  cbn [refs] in HH. rewrite decide_False in HH by exact Hd. apply Forall_cons in HH as [(o & Ho) _].
  unfold mbind, ST_bind, rd. rewrite Ho. destruct (Nat.ltb_spec 0 (o_rc o)); [|exact HI].
  unfold di_ref_object, rd, mbind, ST_bind. rewrite Ho. simpl. apply Inv_ref; assumption.
Qed.

Lemma update_name_from_msg_ok E weak name msg :
  spec (λ s, Inv E s ∧ Forall (held s) (refs (VWeak weak))) (di_dbus_update_name_from_msg weak name msg) (λ _, Inv E).
Proof.
  unfold di_dbus_update_name_from_msg. destruct (dm_type _); try (apply triple_ret; intros s [HI _]; exact HI).
  step (upgrade_capture_ok E weak). intros [c|]; [|crash]. cbn [opt_refs app].
  change (from_opt CheckFailed (Some c)) with (mret (M := M) c).
  eapply triple_bind with (R := λ x, Inv (Strong x :: E)); [ret|]. intros x.
  assert (Strong x ∈ Strong x :: E) as HE by left.
  step (remove_checked_ok (Strong x :: E) x (change_request (default EmptyString name)) HE). intros ?.
  step (remove_checked_ok (Strong x :: E) x (change_request_handle (default EmptyString name)) HE). intros ?.
  eapply triple_bind with (R := λ _, Inv (Strong x :: E)); [|intros ?; apply unref_ok].
  destruct (first_string _) as [u|]; [|ret].
  step (on_connection_ok (Strong x :: E) x [] (di_dbus_update_name name DI_STRING_INIT (di_string_borrow u) true) HE).
  - intros r Hr. inversion Hr.
  - apply update_name_emits.
  - intros ?. apply emit_event_ok.
Qed.

Lemma watch_name_ok E c name : Strong c ∈ E → spec (Inv E) (di_dbus_watch_name c name) (λ _, Inv E).
Proof.
  intros HE. unfold di_dbus_watch_name. step (get_conn_ok E c HE). intros conn. destruct (conn =? 0); [ret|].
  apply emit_event_step. step (dbus_send_ok E c [VStringLiteral "GetNameOwner"; VStringLiteral name] HE).
  intros [p|]; [|crash]. cbn [opt_refs app]. change (from_opt CheckFailed (Some p)) with (mret (M := M) p).
  eapply triple_bind with (R := λ x, Inv (Strong x :: E)); [ret|]. intros x.
  step (weakly_ref_object_ok (Strong x :: E) c); [right; right; exact HE|]. intros w.
  apply triple_pure. intros ->. apply triple_pure. intros Hd.
  step (new_closure_ok (Weak c :: Strong x :: E) FN_UPDATE_NAME [VWeak c; VString (di_string_borrow name)] [DI_TYPE_POINTER]).
  { intros r Hr. unfold refs_of_list in Hr. cbn [map concat refs app] in Hr. rewrite decide_False in Hr by exact Hd.
    apply list_elem_of_singleton in Hr as ->. left. }
  intros cl. step (listen_to_ok (Strong cl :: Weak c :: Strong x :: E) x (Some "reply"%string) cl);
    [right; right; left|left|]. intros lh.
  assert (Strong c ∈ Strong cl :: Weak c :: E) as HE' by (right; right; exact HE).
  apply spec_perm with (E' := Strong x :: Strong lh :: Strong cl :: Weak c :: E); [by_count|].
  apply member_step; [right; exact HE'|]. apply member_step; [exact HE'|].
  step (unref_ok cl (Weak c :: E)). intros ?. apply drop_weak_ref_ok.
Qed.

Lemma unwatch_name_ok E c name : Strong c ∈ E → spec (Inv E) (di_dbus_unwatch_name c name) (λ _, Inv E).
Proof.
  intros HE. unfold di_dbus_unwatch_name. step (get_conn_ok E c HE). intros conn. destruct (conn =? 0); [ret|].
  apply emit_event_ok.
Qed.

(** *** Method calls *)

Lemma refs_capture w : w ≠ DEAD → refs_of_list [VWeak w] = [Weak w].
Proof. intros Hd. unfold refs_of_list. cbn [map concat refs app]. rewrite decide_False by exact Hd. reflexivity. Qed.

Lemma reply_cb_ok E weak msg :
  spec (λ s, Inv E s ∧ Forall (held s) (refs (VWeak weak))) (dbus_call_method_reply_cb weak msg) (λ _, Inv E).
Proof.
  unfold dbus_call_method_reply_cb. step (upgrade_capture_ok E weak). intros [sig|]; [|ret]. cbn [opt_refs app].
  assert (Strong sig ∈ Strong sig :: E) as HE by left.
  step (deserialize_struct_ok (dm_body (message_at msg)) (Strong sig :: E)). intros t.
  eapply triple_bind with (R := λ _, Inv (refs t ++ Strong sig :: E)).
  { destruct t as [| | | | | | | | | | | | |args| |]; try crash. set (F := refs (VTuple args) ++ Strong sig :: E).
    assert (Strong sig ∈ F) as HF by (unfold F; rewrite elem_of_app; right; left).
    assert (∀ r, r ∈ refs_of_list args → r ∈ F) as Ha by (intros r Hr; unfold F; rewrite elem_of_app; left; exact Hr).
    destruct (dm_type _); try ret; (apply emit_step; [exact HF|exact Ha|ret]). }
  intros ?. step (free_value_ok t (Strong sig :: E)). intros ?. apply emit_event_step.
  do 3 (eapply triple_bind; [apply (remove_member_raw_ok _ _ _ HE)|]; intros ?). apply unref_ok.
Qed.

Lemma serialize_args_ok P args : spec P (serialize_args args) (λ _, P).
Proof.
  intros s HP. unfold serialize_args. pose proof (serialize_struct_harmless args no_calls I) as H.
  destruct (_dbus_serialize_struct args no_calls); [exact HP|exact H|exact I].
Qed.

Lemma call_method_ok E iface method t :
  (∀ r, r ∈ refs_of_list t → r ∈ E) → spec (Inv E) (dbus_call_method iface method t) (λ l, Inv (Strong l :: E)).
Proof.
  intros Ht. unfold dbus_call_method. destruct t as [|v args]; [apply new_error_ok|].
  destruct v as [| | | | | | | |dobj| | | | | | |]; try apply new_error_ok.
  assert (Strong dobj ∈ E) as HE by (apply Ht; rewrite refs_of_list_cons; left). clear Ht.
  step (get_checked_ok E dobj CONNECTION_MEMBER HE). intros conn.
  assert (Strong dobj ∈ Strong conn :: E) as HE' by (right; exact HE).
  step (get_names_ok (Strong conn :: E) dobj HE'). intros names.
  step (serialize_args_ok (Inv (Strong conn :: E)) args). intros rc. destruct (rc <? 0).
  { step (new_error_ok (Strong conn :: E) "Can't serialize arguments"). intros err.
    eapply triple_bind with (R := λ _, Inv (Strong err :: E)); [|intros ?; ret].
    eapply spec_perm; [|apply (unref_ok conn (Strong err :: E))]. by_count. }
  step (new_object_with_type_ok (Strong conn :: E) ENone). intros ret.
  apply set_type_step; [left|]. eapply triple_bind; [apply dbus_send_ok; right; left|]. intros r.
  step (weakly_ref_object_ok (opt_refs r ++ Strong ret :: Strong conn :: E) ret);
    [right; rewrite elem_of_app; right; left|]. intros w.
  apply triple_pure. intros ->. apply triple_pure. intros Hd.
  step (new_closure_ok (Weak ret :: opt_refs r ++ Strong ret :: Strong conn :: E) FN_REPLY_CB [VWeak ret] [DI_TYPE_POINTER]).
  { rewrite (refs_capture ret Hd). intros x Hx. apply list_elem_of_singleton in Hx as ->. left. }
  intros cl. destruct r as [p|]; [|crash]. cbn [opt_refs app].
  change (from_opt NullDeref (Some p)) with (mret (M := M) p).
  eapply triple_bind with (R := λ x, Inv (Strong cl :: Weak ret :: Strong x :: Strong ret :: Strong conn :: E)); [ret|].
  intros x. step (listen_to_ok (Strong cl :: Weak ret :: Strong x :: Strong ret :: Strong conn :: E) x (Some "reply"%string) cl);
    [right; right; left|left|]. intros lh. apply emit_event_step.
  set (F := Strong cl :: Weak ret :: Strong ret :: Strong conn :: E).
  assert (Strong ret ∈ F) as HF by (right; right; left).
  apply spec_perm with (E' := Strong x :: Strong lh :: F); [unfold F; by_count|].
  apply member_step; [right; exact HF|]. apply member_step; [exact HF|].
  step (add_member_clonev_ok ret (Some CONNECTION_MEMBER) (VObject conn) F HF).
  { intros y Hy. apply list_elem_of_singleton in Hy as ->. right. right. right. left. }
  intros ?. step (unref_ok cl (Weak ret :: Strong ret :: Strong conn :: E)). intros ?.
  step (drop_weak_ref_ok (Strong ret :: Strong conn :: E) ret). intros ?.
  eapply triple_bind with (R := λ _, Inv (Strong ret :: E)); [|intros ?; ret].
  eapply spec_perm; [|apply (unref_ok conn (Strong ret :: E))]. by_count.
Qed.

(** *** Objects of the bus *)

Lemma set_poison_ok E o : Strong o ∈ E → spec (Inv E) (set_ext o EPoison) (λ _, Inv E).
Proof. intros HE. exact (set_ext_ok E o EPoison HE). Qed.

Lemma free_dbus_object_ok E o : Strong o ∈ E → spec (Inv E) (di_free_dbus_object o) (λ _, Inv E).
Proof.
  intros HE. unfold di_free_dbus_object. step (get_names_ok E o HE). intros names.
  step (get_checked_ok E o CONNECTION_MEMBER HE). intros conn.
  step (unwatch_name_ok (Strong conn :: E) conn names.1); [left|]. intros ?.
  step (set_poison_ok (Strong conn :: E) o); [right; exact HE|]. intros ?. apply unref_ok.
Qed.

Lemma call_dbus_method_ok E m t :
  Strong m ∈ E → (∀ r, r ∈ refs_of_list t → r ∈ E) →
  spec (Inv E) (call_dbus_method m t) (λ r, Inv (rc_refs r ++ E)).
Proof.
  intros HE Ht. unfold call_dbus_method. step (get_fields_ok E m HE). intros f. destruct f; try crash.
  step (call_method_ok E interface method t Ht). intros l. ret.
Qed.

Lemma object_getter_ok E dobj method : spec (Inv E) (di_dbus_object_getter dobj method) (λ l, Inv (Strong l :: E)).
Proof.
  unfold di_dbus_object_getter. destruct (split_method_name method) as [msg|ifc m]; [apply new_error_ok|].
  step (new_object_with_type_ok E (EFields (FMethod EmptyString None))). intros l.
  apply set_type_step; [left|]. apply upd_fields_step; [left|]. apply set_dtor_step; [left|].
  apply set_call_step; [left|]. ret.
Qed.

Lemma get_object_ok E o bus obj :
  Strong o ∈ E → spec (Inv E) (di_dbus_get_object o bus obj) (λ l, Inv (Strong l :: E)).
Proof.
  intros HE. unfold di_dbus_get_object.
  step (new_object_with_type_ok E (EFields (FDbusObject EmptyString EmptyString))). intros l.
  assert (Strong o ∈ Strong l :: E) as HE' by (right; exact HE).
  apply set_type_step; [left|]. step (add_member_clonev_ok l (Some CONNECTION_MEMBER) (VObject o) (Strong l :: E)).
  { left. }
  { intros y Hy. apply list_elem_of_singleton in Hy as ->. exact HE'. }
  intros ?. apply upd_fields_step; [left|]. step (watch_name_ok (Strong l :: E) o (c_str bus) HE'). intros ?.
  do 3 (apply add_method_step; [left|]). apply set_dtor_step; [left|]. ret.
Qed.

Lemma proxy_signal_ok E src srcsig proxy proxysig :
  Strong src ∈ E → Strong proxy ∈ E → spec (Inv E) (di_proxy_signal src srcsig proxy proxysig) (λ _, Inv E).
Proof.
  intros Hs Hp. unfold di_proxy_signal. destruct (starts_with _ _); [ret|].
  step (has_proxy_member_ok E proxy proxysig Hp). intros b. destruct b; [ret|].
  step (new_object_with_type_ok E ENone). intros c.
  step (add_member_clonev_ok c (Some "___new_signal_name"%string) (VString proxysig) (Strong c :: E));
    [left|intros r Hr; inversion Hr|]. intros ?.
  step (weakly_ref_object_ok (Strong c :: E) proxy); [right; right; exact Hp|]. intros w.
  apply triple_pure. intros ->. apply triple_pure. intros Hd.
  set (F := Weak proxy :: Strong c :: E). assert (Strong c ∈ F) as Hc by (right; left).
  assert (∀ r, r ∈ E → r ∈ F) as HF by (intros r Hr; right; right; exact Hr).
  step (add_member_clonev_ok c (Some "__proxy_object"%string) (VWeak proxy) F Hc).
  { intros r Hr. cbn [refs] in Hr. rewrite decide_False in Hr by exact Hd. apply list_elem_of_singleton in Hr as ->. left. }
  intros ?. apply set_call_step; [exact Hc|]. step (listen_to_ok F src srcsig c (HF _ Hs) Hc). intros lh.
  step (add_member_move_ok proxy (Helper.listen_handle_name proxysig) (VObject lh) F (HF _ Hp)). intros ?.
  step (add_member_clonev_ok proxy (event_source_name proxysig) (VObject src) F (HF _ Hp)).
  { intros r Hr. apply list_elem_of_singleton in Hr as ->. exact (HF _ Hs). }
  intros ?. step (create_closure_ok F FN_DEL_PROXIED_SIGNAL DI_TYPE_NIL [VString proxysig] [DI_TYPE_OBJECT]).
  { intros r Hr. inversion Hr. }
  intros [rc|cl]; [crash|]. step (add_member_move_ok proxy (del_signal_name proxysig) (VObject cl) F (HF _ Hp)).
  intros ?. step (leak_ok (Strong c :: E) [Weak proxy]). intros ?. step (unref_ok c E). intros ?. ret.
Qed.

Lemma object_new_signal_ok E dobj name :
  Strong dobj ∈ E → spec (Inv E) (di_dbus_object_new_signal dobj name) (λ _, Inv E).
Proof.
  intros HE. unfold di_dbus_object_new_signal. step (get_names_ok E dobj HE). intros names.
  step (get_checked_ok E dobj CONNECTION_MEMBER HE). intros conn.
  eapply triple_bind; [apply (proxy_signal_ok (Strong conn :: E)); [left|right; exact HE]|]. intros ?. apply unref_ok.
Qed.

(** *** The main loop *)

Lemma dbus_ioev_ok E conn ptr event : spec (Inv E) (ioev_callback conn ptr event) (λ _, Inv E).
Proof.
  unfold ioev_callback. eapply triple_bind with (R := λ _, Inv E).
  - destruct (has_bit event IOEV_READ); [|ret]. step (watch_handle_ok K ptr DBUS_WATCH_READABLE E KO). intros ?.
    apply (triple_while_some tolerated _ _ (λ _, Inv E)). intros ?.
    step (dispatch_ok K conn E KO). intros more. destruct more; ret.
  - intros ?. destruct (has_bit event IOEV_WRITE); [apply watch_handle_ok, KO|ret].
Qed.

Lemma load_cell_ok P ptr : spec P (load_cell ptr) (λ _, P).
Proof. intros s HP. unfold load_cell. destruct (last_store ptr (s_trace s)); [exact HP|simpl; tolerate]. Qed.

Lemma shutdown_part2_ok E roots ptr conn :
  Strong roots ∈ E → spec (Inv E) (di_dbus_shutdown_part2 roots ptr conn) (λ _, Inv E).
Proof.
  intros HE. unfold di_dbus_shutdown_part2. step (load_cell_ok (Inv E) ptr). intros h.
  step (call_ok' roots "__remove_anonymous" [VUInt h] E HE); [intros r Hr; inversion Hr|]. intros rc. skip.
  apply emit_event_step, emit_event_ok.
Qed.

Lemma shutdown_ok E roots conn :
  Strong roots ∈ E → Strong conn ∈ E → spec (Inv E) (di_dbus_shutdown roots conn) (λ _, Inv E).
Proof.
  intros Hr HE. unfold di_dbus_shutdown. step (get_conn_ok E conn HE). intros c. destruct (c =? 0); [ret|].
  step (get_deai_strong_ok conn E HE). intros [d|]; [|crash]. cbn [opt_refs app].
  change (from_opt NullDeref (Some d)) with (mret (M := M) d).
  eapply triple_bind with (R := λ x, Inv (Strong x :: E)); [ret|]. intros di.
  step (get_checked_ok (Strong di :: E) di "event"); [left|]. intros eventm.
  step (fresh_id_ok (Strong eventm :: Strong di :: E)). intros cell.
  step (new_closure_ok (Strong eventm :: Strong di :: E) FN_SHUTDOWN_PART2 [VPointer (Z.of_nat cell); VPointer c] []).
  { intros r Hx. inversion Hx. }
  intros sh. step (listen_to_ok (Strong sh :: Strong eventm :: Strong di :: E) eventm (Some "prepare"%string) sh);
    [right; left|left|]. intros lh. set (F := Strong lh :: Strong sh :: Strong eventm :: Strong di :: E).
  assert (∀ r, r ∈ E → r ∈ F) as HF by (intros r Hx; do 4 right; exact Hx).
  step (callr_ok roots "__add_anonymous" DI_TYPE_UINT [VObject lh] F (HF _ Hr)).
  { intros r Hx. apply list_elem_of_singleton in Hx as ->. left. }
  intros r. eapply triple_bind with (R := λ _, Inv F).
  { destruct r as [rc|v]; [ret|]. destruct v; try crash. apply emit_event_ok. }
  intros ?. apply emit_event_step. apply upd_fields_step; [exact (HF _ HE)|].
  step (unref_ok lh (Strong sh :: Strong eventm :: Strong di :: E)). intros ?.
  step (unref_ok sh (Strong eventm :: Strong di :: E)). intros ?.
  step (unref_ok eventm (Strong di :: E)). intros ?. apply unref_ok.
Qed.

Lemma watch_ioev_ok E w oc ioev : Strong oc ∈ E → spec (Inv (Strong ioev :: E)) (watch_ioev w oc ioev) (λ _, Inv E).
Proof.
  intros HE. unfold watch_ioev. assert (Strong oc ∈ Strong ioev :: E) as HE' by (right; exact HE).
  step (get_conn_ok (Strong ioev :: E) oc HE'). intros conn.
  step (new_closure_ok (Strong ioev :: E) FN_IOEV_CALLBACK [VPointer conn; VPointer (w_ptr w)] [DI_TYPE_NINT]).
  { intros r Hx. inversion Hx. }
  intros cl. step (listen_to_ok (Strong cl :: Strong ioev :: E) ioev (Some "io"%string) cl); [right; left|left|].
  intros lh. eapply triple_bind with (R := λ _, Inv (Strong lh :: Strong ioev :: E)).
  { eapply spec_perm; [|apply (unref_ok cl (Strong lh :: Strong ioev :: E))]. by_count. }
  intros ?. eapply triple_bind with (R := λ _, Inv (Strong lh :: Strong ioev :: E)).
  { destruct (w_enabled w); [ret|]. step (call_ok' ioev "stop" [] (Strong lh :: Strong ioev :: E)); [right; left| |].
    - intros r Hx. inversion Hx.
    - intros ?. ret. }
  intros ?. apply member_checked_step; [exact HE'|]. apply member_checked_step; [exact HE|].
  step (weakly_ref_object_ok E oc); [right; exact HE|]. intros x.
  apply triple_pure. intros ->. apply triple_pure. intros _. apply (leak_ok E [Weak oc]).
Qed.

Lemma add_watch_ok E w oc : Strong oc ∈ E → spec (Inv E) (dbus_add_watch oc w) (λ _, Inv E).
Proof.
  intros HE. unfold dbus_add_watch. step (get_obj_ok E oc (ioev_name (w_ptr w)) HE). intros [rc|x]; [|crash].
  cbn [app]. step (get_deai_strong_ok oc E HE). intros [d|]; [|crash]. cbn [opt_refs app].
  change (from_opt NullDeref (Some d)) with (mret (M := M) d).
  eapply triple_bind with (R := λ x, Inv (Strong x :: E)); [ret|]. intros di.
  step (get_obj_ok (Strong di :: E) di "event"); [left|]. intros [rc'|eventm]; cbn [app].
  { step (unref_ok di E). intros ?. ret. }
  set (F := Strong eventm :: Strong di :: E). assert (Strong oc ∈ F) as HF by (right; right; exact HE).
  step (callr_ok eventm "fdevent" DI_TYPE_OBJECT [VNInt (w_fd w); VNInt (watch_events (w_flags w))] F);
    [left|intros r Hr; inversion Hr|].
  intros r. eapply triple_bind with (R := λ _, Inv F).
  { destruct r as [rc'|v]; [ret|]. destruct v; try crash. cbn [rc_refs refs app].
    step (watch_ioev_ok F w oc l HF). intros ?. ret. }
  intros added. eapply triple_bind with (R := λ _, Inv (Strong eventm :: E)).
  { eapply spec_perm; [|apply (unref_ok di (Strong eventm :: E))]. unfold F. by_count. }
  intros ?. step (unref_ok eventm E). intros ?. ret.
Qed.

Lemma remove_watch_ok E w ud :
  Strong ud ∈ E → spec (Inv E) (dbus_remove_watch ud w) (λ _, Inv E).
Proof.
  intros HE. unfold dbus_remove_watch. step (upgrade_any_ok E ud); [auto|]. intros [c|]; [|crash]. cbn [opt_refs app].
  change (from_opt CheckFailed (Some c)) with (mret (M := M) c).
  eapply triple_bind with (R := λ x, Inv (Strong x :: E)); [ret|]. intros x.
  assert (Strong x ∈ Strong x :: E) as Hx by left.
  do 2 (eapply triple_bind; [apply (remove_member_raw_ok _ _ _ Hx)|]; intros ?). apply unref_ok.
Qed.

Lemma toggle_watch_ok E w oc : Strong oc ∈ E → spec (Inv E) (dbus_toggle_watch oc w) (λ _, Inv E).
Proof.
  intros HE. unfold dbus_toggle_watch. step (get_checked_ok E oc (ioev_name (w_ptr w)) HE). intros io.
  step (call_ok' io "toggle" [] (Strong io :: E)); [left|intros r Hr; inversion Hr|]. intros ?. apply unref_ok.
Qed.

Lemma connection_filter_ok E c m : Strong c ∈ E → spec (Inv E) (connection_filter c m) (λ _, Inv E).
Proof.
  intros HE. unfold connection_filter. destruct (dm_type m); try ret.
  step (deserialize_struct_ok (dm_body m) E). intros t. destruct t; try crash.
  set (F := refs (VTuple elements) ++ E). assert (Strong c ∈ F) as HF by (unfold F; rewrite elem_of_app; right; exact HE).
  step (ref_object_ok F c HF). intros x. apply triple_pure. intros ->.
  eapply triple_bind; [apply (on_connection_ok (Strong c :: F) c elements); [left| |apply (filter_emits (Message _ _ _ _ _ elements))]|].
  { intros r Hr. right. unfold F. rewrite elem_of_app. left. exact Hr. }
  intros r. eapply triple_bind with (R := λ _, Inv (Strong c :: E)).
  { apply spec_perm with (E' := refs (VTuple elements) ++ Strong c :: E); [unfold F; by_count|].
    destruct r; [apply free_value_ok|apply leak_ok]. }
  intros ?. step (unref_ok c E). intros ?. ret.
Qed.

(** *** The module *)

Lemma session_bus_ok E m : Strong m ∈ E → spec (Inv E) (di_dbus_get_session_bus m) (λ l, Inv (Strong l :: E)).
Proof.
  intros HE. unfold di_dbus_get_session_bus. apply oracle_step. intros [conn|message]; [|apply new_error_ok].
  step (get_deai_weak_ok m E HE). intros [d|]; [|apply new_error_ok]. cbn [opt_refs app]. apply emit_event_step.
  step (new_object_with_type_ok (Strong d :: E) (EFields (FConnection 0 []))). intros l.
  apply set_type_step; [left|]. apply upd_fields_step; [left|].
  apply spec_perm with (E' := Strong d :: Strong l :: E); [by_count|]. apply member_step; [left|].
  do 3 (apply add_method_step; [left|]).
  eapply triple_bind; [apply (set_watch_functions_ok K _ _ (Strong l :: E) KO)|].
  - intros w. apply add_watch_ok. left.
  - intros w. apply remove_watch_ok. left.
  - intros ?. apply emit_event_step. apply set_dtor_step; [left|]. ret.
Qed.

Lemma plugin_init_ok E di : Strong di ∈ E → spec (Inv E) (di_plugin_init di) (λ _, Inv E).
Proof.
  intros HE. apply new_module_step; [exact HE|reflexivity|]. intros m. apply add_method_step; [left|].
  apply move_object_step; [exact HE|]. ret.
Qed.
End specs.

(** ** The plugin as foreign code

    The functions, destructors and the call function of this file.  Closing a
    connection uses the global [roots], which [main] holds; it is apart. *)

Definition dbus_fn (D : Dbus) (T : DbusTypes) (L : DbusLib) (W : World) (K : Kernel) (n : nat) (caps args : list value)
    : option (M (loc + value)) :=
  match caps, args with
  | [VWeak weak; VString name], [VPointer msg] =>
      if Nat.eqb n FN_UPDATE_NAME then Some (nil_result (di_dbus_update_name_from_msg weak name msg)) else None
  | [VWeak weak], [VPointer msg] =>
      if Nat.eqb n FN_REPLY_CB then Some (nil_result (dbus_call_method_reply_cb weak msg)) else None
  | [VPointer conn; VPointer ptr], [VNInt event] =>
      if Nat.eqb n FN_IOEV_CALLBACK then Some (nil_result (ioev_callback conn ptr event)) else None
  | [], [VObject o] =>
      if Nat.eqb n FN_SESSION_BUS then Some (object_result (di_dbus_get_session_bus o)) else None
  | [], [VObject o; VString s] =>
      if Nat.eqb n FN_NEW_SIGNAL then Some (nil_result (on_connection o (di_dbus_new_signal s)))
      else if Nat.eqb n FN_DEL_SIGNAL then Some (nil_result (on_connection o (di_dbus_del_signal s)))
      else if Nat.eqb n FN_OBJECT_GETTER then Some (object_result (di_dbus_object_getter o s))
      else if Nat.eqb n FN_OBJECT_NEW_SIGNAL then Some (nil_result (di_dbus_object_new_signal o s))
      else None
  | [], [VObject o; VString bus; VString obj] =>
      if Nat.eqb n FN_GET_OBJECT then Some (object_result (di_dbus_get_object o bus obj)) else None
  | _, _ => None
  end.

Definition dbus_dtor (K : Kernel) (n : nat) (l : loc) : option (M unit) :=
  if bool_decide (DtorExt n = DTOR_PENDING_REPLY) then Some (di_dbus_free_pending_reply l)
  else if bool_decide (DtorExt n = DTOR_DBUS_OBJECT) then Some (di_free_dbus_object l)
  else if bool_decide (DtorExt n = DTOR_METHOD) then Some (di_dbus_free_method l)
  else None.

Definition dbus_world (D : Dbus) (T : DbusTypes) (L : DbusLib) (rest : World) : World := {|
  w_fn K n caps args :=
    match dbus_fn D T L rest K n caps args with Some m => m | None => w_fn (World := rest) K n caps args end;
  w_call K n l args :=
    if Nat.eqb n 2 then call_dbus_method (W := rest) l args else w_call (World := rest) K n l args;
  w_dtor K n l := match dbus_dtor K n l with Some m => m | None => w_dtor (World := rest) K n l end;
  ffi_prep_ok := ffi_prep_ok (World := rest)
|}.

(** The same with the end of a connection, for the roots of a program. *)
Definition dbus_roots_world (D : Dbus) (T : DbusTypes) (L : DbusLib) (roots : loc) (rest : World) : World := {|
  w_fn K n caps args :=
    match caps, args with
    | [VPointer ptr; VPointer conn], [] =>
        if Nat.eqb n FN_SHUTDOWN_PART2 then nil_result (di_dbus_shutdown_part2 roots ptr conn)
        else w_fn (World := dbus_world D T L rest) K n caps args
    | _, _ => w_fn (World := dbus_world D T L rest) K n caps args
    end;
  w_call := w_call (World := dbus_world D T L rest);
  w_dtor K n l :=
    if bool_decide (DtorExt n = DTOR_CONNECTION) then di_dbus_shutdown (W := rest) roots l
    else w_dtor (World := dbus_world D T L rest) K n l;
  ffi_prep_ok := ffi_prep_ok (World := rest)
|}.

Section world.
Context {D : Dbus} {T : DbusTypes} {L : DbusLib} {LO : DbusLibOk L}.

Lemma dbus_fn_ok {K : Kernel} {KO : KernelOk K} {W : World} {WO : WorldOk W} n caps args m E :
  dbus_fn D T L W K n caps args = Some m → (∀ r, r ∈ refs_of_list args → r ∈ E) →
  spec (λ s, Inv E s ∧ Forall (held s) (refs_of_list caps)) m (λ r, Inv (fn_refs r ++ E)).
Proof.
  intros Hm Ha. unfold dbus_fn in Hm.
  assert (∀ m', spec (λ s, Inv E s ∧ Forall (held s) (refs_of_list caps)) m' (λ _, Inv E) →
    spec (λ s, Inv E s ∧ Forall (held s) (refs_of_list caps)) (nil_result m') (λ r, Inv (fn_refs r ++ E))) as Hnil.
  { intros m' H. unfold nil_result. step H. intros ?. apply triple_ret. auto. }
  assert (∀ m' (Q : loc + value → state → Prop), spec (Inv E) m' Q →
    spec (λ s, Inv E s ∧ Forall (held s) (refs_of_list caps)) m' Q) as Hinv
    by (intros m' Q H; eapply spec_pre; [|exact H]; intros ? [? _]; assumption).
  assert (∀ o, Strong o ∈ refs_of_list args → Strong o ∈ E) as HE by auto. clear Ha.
  repeat match type of Hm with
    | match ?x with _ => _ end = Some _ => destruct x eqn:?; try discriminate
    end; injection Hm as <-.
  - apply Hinv, object_result_ok, session_bus_ok, HE. left.
  - apply Hinv, nil_result_ok. eapply on_connection_ok; [apply HE; left| |apply (change_match_emits [])].
    intros r Hr. inversion Hr.
  - apply Hinv, nil_result_ok. eapply on_connection_ok; [apply HE; left| |apply (change_match_emits [])].
    intros r Hr. inversion Hr.
  - apply Hinv, object_result_ok, object_getter_ok.
  - apply Hinv, nil_result_ok, object_new_signal_ok, HE. left.
  - apply Hinv, object_result_ok, get_object_ok, HE. left.
  - apply Hinv, nil_result_ok, dbus_ioev_ok.
  - apply Hnil. eapply spec_pre; [|apply reply_cb_ok]. intros st [HI HH]. split; [exact HI|].
    unfold refs_of_list in HH. cbn [map concat] in HH. rewrite app_nil_r in HH. exact HH.
  - apply Hnil. eapply spec_pre; [|apply update_name_from_msg_ok]. intros st [HI HH]. split; [exact HI|].
    unfold refs_of_list in HH. cbn [map concat refs app] in HH. rewrite app_nil_r in HH. exact HH.
Qed.

Lemma dbus_dtor_ok {K : Kernel} {KO : KernelOk K} n l m E :
  dbus_dtor K n l = Some m → Strong l ∈ E → spec (Inv E) m (λ _, Inv E).
Proof.
  intros Hm HE. unfold dbus_dtor in Hm.
  repeat match type of Hm with (if ?b then _ else _) = _ => destruct b; [injection Hm as <-|] end; [..|discriminate].
  - apply free_pending_reply_ok, HE.
  - apply free_dbus_object_ok, HE.
  - apply set_poison_ok, HE.
Qed.

#[export] Instance dbus_world_contract (rest : World) : WorldOk rest → WorldOk (dbus_world D T L rest).
Proof.
  intros HW. constructor.
  - intros K n caps args E HK Ha. cbn [w_fn dbus_world].
    destruct (dbus_fn D T L rest K n caps args) as [m|] eqn:Hm; [|apply (w_fn_ok (WorldOk := HW)); assumption].
    exact (dbus_fn_ok n caps args m E Hm Ha).
  - intros K n l args E HK HE Ha. cbn [w_call dbus_world]. destruct (Nat.eqb n 2).
    + apply call_dbus_method_ok; assumption.
    + apply (w_call_ok (WorldOk := HW)); assumption.
  - intros K n l E HK HE. cbn [w_dtor dbus_world].
    destruct (dbus_dtor K n l) as [m|] eqn:Hm; [|apply (w_dtor_ok (WorldOk := HW)); assumption].
    exact (dbus_dtor_ok n l m E Hm HE).
Qed.
End world.
