(* ===== verification/Term.v ===== *)
(** * Termination of destruction

    Dropping a reference can destroy an object, which drops the references of
    its members, and so on through the heap.  In a heap without destructors
    this ends: an object is destroyed once and every member is removed once, so
    that the number of live objects and members bounds the depth of [kern]. *)

From S2P Require Import Prelude DiTypes Heap Account Object ObjectSpec Signals Callable Roots Helper Knot Client.

(** ** Runs that end *)

Definition ends {A} (P : state → Prop) (m : M A) (Q : A → state → Prop) : Prop :=
  ∀ s, P s →
    match m s with Done a s' => Q a s' | Crash _ => True | NoFuel => False end.

Lemma ends_ret {A} (a : A) P (Q : A → state → Prop) : (∀ s, P s → Q a s) → ends P (mret a) Q.
Proof. intros H s Hs. exact (H s Hs). Qed.
Lemma ends_fail {A} c P (Q : A → state → Prop) : ends P (fail c) Q.
Proof. intros s _. exact I. Qed.
Lemma ends_bind {A B} P (m : M A) (f : A → M B) R Q :
  ends P m R → (∀ a, ends (R a) (f a) Q) → ends P (m ≫= f) Q.
Proof.
  intros Hm Hf s Hs. specialize (Hm s Hs). unfold mbind, ST_bind.
  destruct (m s) as [a s'|c|]; [exact (Hf a s' Hm)|exact I|exact Hm].
Qed.
Lemma ends_conseq {A} P P' (m : M A) Q Q' :
  ends P' m Q' → (∀ s, P s → P' s) → (∀ a s, Q' a s → Q a s) → ends P m Q.
Proof. intros Hm HP HQ s Hs. specialize (Hm s (HP s Hs)). destruct (m s); eauto. Qed.
Lemma ends_pure {A} (φ : Prop) P (m : M A) Q : (φ → ends P m Q) → ends (λ s, φ ∧ P s) m Q.
Proof. intros H s [Hφ Hs]. exact (H Hφ s Hs). Qed.
Lemma ends_check b P : ends P (check b) (λ _, P).
Proof. destruct b; [apply ends_ret; auto|apply ends_fail]. Qed.
Lemma ends_for_each {A} (f : A → M unit) P l :
  (∀ x, x ∈ l → ends P (f x) (λ _, P)) → ends P (for_each f l) (λ _, P).
Proof.
  intros Hf. induction l as [|x l IH]; cbn [for_each]; [apply ends_ret; auto|].
  eapply ends_bind; [apply Hf; left|]. intros ?. apply IH. intros y Hy. apply Hf. right. exact Hy.
Qed.

(** A loop whose body lowers a measure at every iteration. *)
Lemma ends_while {A} (step : A → M (option A)) (I : nat → state → Prop) b k n a :
  (∀ a m, m ≤ b → ends (I m) (step a) (λ _ s, ∃ m', m = S m' ∧ I m' s)) →
  n ≤ b → n < k →
  ends (I n) (while_some k step a) (λ _ s, ∃ m, m ≤ n ∧ I m s).
Proof.
  intros Hs. revert n a. induction k as [|k IH]; intros n a Hb Hk; [lia|]. cbn [while_some].
  eapply ends_bind; [apply Hs, Hb|]. intros r s (m & -> & Hm). destruct r as [a'|].
  - pose proof (IH m a' ltac:(lia) ltac:(lia) s Hm) as Hw.
    destruct (while_some k step a' s); [|exact Hw..]. destruct Hw as (m' & ? & ?). eauto with lia.
  - exists m. auto.
Qed.

(** ** Sums over the heap *)

Section msum.
Context (f : obj → nat).

Definition msum (h : gmap nat obj) : nat := map_fold (λ _ o acc, f o + acc) 0 h.

Lemma msum_insert_new h l o : h !! l = None → msum (<[l := o]> h) = f o + msum h.
Proof.
  intros Hl. unfold msum. apply (map_fold_insert_L (λ _ o acc, f o + acc)); [|exact Hl].
  intros. lia.
Qed.

Lemma msum_delete h l o : h !! l = Some o → msum h = f o + msum (delete l h).
Proof.
  intros Hl. unfold msum. apply (map_fold_delete_L (λ _ o acc, f o + acc)); [|exact Hl].
  intros. lia.
Qed.

Lemma msum_insert h l o o' : h !! l = Some o → msum (<[l := o']> h) + f o = f o' + msum h.
Proof.
  intros Hl. rewrite (msum_delete h l o Hl).
  rewrite <- insert_delete_eq, msum_insert_new by apply lookup_delete_eq. lia.
Qed.
End msum.

Definition undestroyed (o : obj) : nat := if o_destroyed o then 0 else 1.
Definition nmembers (o : obj) : nat := length (o_members o).

(** No object has a destructor, at most [u] objects have not been destroyed,
    and they have at most [t] members. *)
Definition plain (u t : nat) (s : state) : Prop :=
  (∀ l o, s_heap s !! l = Some o → o_dtor o = None) ∧
  msum undestroyed (s_heap s) ≤ u ∧ msum nmembers (s_heap s) ≤ t.

Lemma plain_weaken u t u' t' s : u ≤ u' → t ≤ t' → plain u t s → plain u' t' s.
Proof. intros Hu Ht (? & ? & ?). repeat split; [assumption|lia..]. Qed.

Lemma plain_wr u t s l o o' :
  plain u t s → s_heap s !! l = Some o → o_dtor o' = None →
  plain (u + undestroyed o' - undestroyed o) (t + nmembers o' - nmembers o)
    (set_heap (<[l := o']> (s_heap s)) s).
Proof.
  intros (Hd & Hu & Ht) Hl Ho'. repeat split; simpl.
  - intros l' x [[<- <-]|[_ Hx]]%lookup_insert_Some; [exact Ho'|exact (Hd l' x Hx)].
  - pose proof (msum_insert undestroyed _ _ _ o' Hl). lia.
  - pose proof (msum_insert nmembers _ _ _ o' Hl). lia.
Qed.

Lemma plain_wr_same u t s l o o' :
  plain u t s → s_heap s !! l = Some o → o_dtor o' = None →
  undestroyed o' ≤ undestroyed o → nmembers o' ≤ nmembers o →
  plain u t (set_heap (<[l := o']> (s_heap s)) s).
Proof.
  intros Hs Hl Ho' Hu Hm. pose proof (plain_wr u t s l o o' Hs Hl Ho') as H.
  destruct Hs as (_ & Hsu & Hst). destruct H as (Hd & H1 & H2). repeat split; [exact Hd|lia|lia].
Qed.

Lemma plain_free u t s l o g lk :
  plain u t s → s_heap s !! l = Some o →
  plain u t (State (delete l (s_heap s)) g (s_next s) lk (s_trace s)).
Proof.
  intros (Hd & Hu & Ht) Hl. repeat split; simpl.
  - intros l' x [_ Hx]%lookup_delete_Some. exact (Hd l' x Hx).
  - rewrite (msum_delete undestroyed _ _ _ Hl) in Hu. lia.
  - rewrite (msum_delete nmembers _ _ _ Hl) in Ht. lia.
Qed.

(** ** The operations *)

Lemma ends_rd l u t :
  ends (plain u t) (rd l) (λ o s, plain u t s ∧ s_heap s !! l = Some o ∧ o_dtor o = None).
Proof.
  intros s Hs. unfold rd. destruct (s_heap s !! l) as [o|] eqn:Hl; [|exact I].
  pose proof (proj1 Hs l o Hl). auto.
Qed.

Lemma ends_wr l o o' u t :
  o_dtor o' = None → undestroyed o' ≤ undestroyed o → nmembers o' ≤ nmembers o →
  ends (λ s, plain u t s ∧ s_heap s !! l = Some o ∧ o_dtor o = None) (wr l o') (λ _, plain u t).
Proof. intros Hd Hu Hm s (Hs & Hl & _). apply (plain_wr_same u t s l o o' Hs Hl Hd Hu Hm). Qed.

Lemma ends_upd l f u t :
  (∀ o, o_dtor (f o) = o_dtor o ∧ undestroyed (f o) ≤ undestroyed o ∧ nmembers (f o) ≤ nmembers o) →
  ends (plain u t) (upd l f) (λ _, plain u t).
Proof.
  intros Hf. unfold upd. eapply ends_bind; [apply ends_rd|]. intros o s (Hs & Hl & Hd).
  destruct (Hf o) as (H1 & H2 & H3). apply (plain_wr_same u t s l o _ Hs Hl); congruence.
Qed.

Lemma ends_decrement l u t : ends (plain u t) (di_decrement_weak_ref_count l) (λ _, plain u t).
Proof.
  unfold di_decrement_weak_ref_count. eapply ends_bind; [apply ends_rd|]. intros o.
  destruct (o_wrc o) as [|k]; [apply ends_fail|]. intros s (Hs & Hl & Hd).
  unfold mbind, ST_bind, wr, modify.
  assert (plain u t (set_heap (<[l:=with_wrc k o]> (s_heap s)) s)) as Hs'.
  { apply (plain_wr_same u t s l o _ Hs Hl); [exact Hd|reflexivity..]. }
  destruct (Nat.eqb k 0); [|exact Hs'].
  unfold free_obj. simpl. rewrite lookup_insert_eq.
  apply (plain_free u t _ l (with_wrc k o) _ _ Hs'). simpl. apply lookup_insert_eq.
Qed.

Lemma take_member_length id ms m ms' :
  take_member id ms = Some (m, ms') → length ms = S (length ms').
Proof.
  revert ms'. induction ms as [|x ms IH]; intros ms'; simpl; [discriminate|].
  destruct (Nat.eqb _ _); [intros [= -> ->]; reflexivity|].
  destruct (take_member id ms) as [[y ys]|]; [|discriminate]. intros [= <- <-].
  simpl. f_equal. auto.
Qed.

Section ends.
Context {K : Kernel} (u t : nat).
Hypothesis unref_ends : ∀ t' l, t' ≤ t → ends (plain u t') (unref_object l) (λ _, plain u t').

Lemma ends_free_value t' v :
  t' ≤ t → ends (plain u t') (di_free_value v) (λ _, plain u t').
Proof.
  intros Ht. induction v as [v Hv|ty b l IH|l IH|v IH] using value_ind'.
  - destruct v; try destruct Hv; cbn [di_free_value];
      first [apply ends_ret; auto | apply ends_fail | apply unref_ends, Ht | idtac].
    unfold di_drop_weak_ref. case_decide; [apply ends_fail|apply ends_decrement].
  - cbn [di_free_value]. rewrite Forall_forall in IH. destruct l as [|v l]; [apply ends_check|].
    eapply ends_bind with (R := λ _, plain u t'); [|intros ?; apply ends_for_each, IH].
    unfold sizeof_is_zero. destruct (di_sizeof_type ty); [apply ends_ret; auto|apply ends_fail].
  - cbn [di_free_value]. rewrite Forall_forall in IH. apply ends_for_each, IH.
  - exact IH.
Qed.

(** An iteration of the finalization loop removes a member. *)
Lemma ends_finalize_step l id m :
  m ≤ t →
  ends (plain u m) (finalize_step l id) (λ _ s, ∃ m', m = S m' ∧ plain u m' s).
Proof.
  intros Hm. unfold finalize_step. eapply ends_bind; [apply ends_rd|]. intros o.
  destruct (take_member id (o_members o)) as [[x ms]|] eqn:Ht; [|apply ends_fail].
  eapply ends_bind with (R := λ _ s, ∃ m', m = S m' ∧ plain u m' s); [|intros ?; apply ends_ret; auto].
  intros s (Hs & Hl & Hd). unfold di_remove_member_raw_impl, rd, mbind, ST_bind. rewrite Hl, Ht.
  cbn [wr modify]. pose proof (take_member_length _ _ _ _ Ht) as Hlen.
  pose proof (plain_wr u m s l o (with_members ms o) Hs Hl Hd) as Hs'.
  unfold nmembers in Hs'. cbn [o_members with_members] in Hs'.
  destruct m as [|m'].
  { destruct Hs as (_ & _ & Hz). rewrite (msum_delete nmembers _ _ _ Hl) in Hz.
    unfold nmembers in Hz at 1. lia. }
  assert (plain u m' (set_heap (<[l := with_members ms o]> (s_heap s)) s)) as Hs2.
  { revert Hs'. apply plain_weaken; unfold undestroyed; simpl; lia. }
  pose proof (ends_free_value m' (m_val x) ltac:(lia) _ Hs2) as Hf.
  destruct (di_free_value (m_val x) _); [eauto|exact I|exact Hf].
Qed.

Lemma ends_finalize l :
  t < loop_fuel → ends (plain u t) (finalize_object_impl l) (λ _, plain u t).
Proof.
  intros Hk. unfold finalize_object_impl. eapply ends_bind; [apply ends_rd|]. intros o.
  eapply ends_bind with (R := λ _, plain u t).
  { intros s (Hs & Hl & Hd). rewrite Hd. exact Hs. }
  intros ?. eapply ends_bind; [apply ends_rd|]. intros o'.
  destruct (head (o_members o')) as [m|]; [|apply ends_ret; tauto].
  apply (ends_conseq _ (plain u t) _ _ (λ _ s, ∃ m, m ≤ t ∧ plain u m s)).
  - apply (ends_while (finalize_step l) (plain u) t); [|lia|exact Hk].
    intros id n Hn. apply ends_finalize_step, Hn.
  - tauto.
  - intros _ s (n & Hn & Hs). exact (plain_weaken u n u t s ltac:(lia) Hn Hs).
Qed.

(** Destroying an object that has not been destroyed uses it up. *)
Lemma ends_destroy_rest l o :
  t < loop_fuel → o_destroyed o = false →
  ends (λ s, plain (S u) t s ∧ s_heap s !! l = Some o) (destroy_rest l) (λ _, plain u t).
Proof.
  intros Hk Hd. unfold destroy_rest.
  eapply ends_bind with (R := λ o' s, o' = o ∧ plain (S u) t s ∧ s_heap s !! l = Some o).
  { intros s [Hs Hl]. unfold rd. rewrite Hl. auto. }
  intros o'. apply ends_pure. intros ->. rewrite Hd.
  eapply ends_bind with (R := λ _ s, plain (S u) t s ∧ s_heap s !! l = Some o).
  { apply ends_ret. auto. }
  intros ?. eapply ends_bind with (R := λ _, plain u t).
  { intros s [Hs Hl]. unfold upd, rd, mbind, ST_bind. rewrite Hl. cbn [wr modify].
    pose proof (plain_wr (S u) t s l o (with_destroyed true o) Hs Hl (proj1 Hs l o Hl)) as Hs'.
    revert Hs'. unfold undestroyed, nmembers. cbn [o_destroyed o_members with_destroyed]. rewrite Hd.
    apply plain_weaken; lia. }
  intros ?. eapply ends_bind; [apply ends_finalize, Hk|]. intros ?.
  eapply ends_bind; [|intros ?; apply unref_ends; lia].
  apply ends_upd. auto.
Qed.
End ends.

(** ** The theorem *)

Section knot.
Context {W : World}.

Lemma unref_ends n : ∀ u t l,
  u + t + 2 ≤ n → ends (plain u t) (unref_object (Kernel := kern n) l) (λ _, plain u t).
Proof.
  induction n as [|n IH]; intros u t l Hn; [lia|]. cbn [kern unref_object].
  unfold unref_body. eapply ends_bind; [apply ends_rd|]. intros o.
  destruct (o_rc o) as [|k] eqn:Hrc; [apply ends_fail|].
  intros s (Hs & Hl & Hd). unfold mbind at 1, ST_bind, wr, modify.
  assert (plain u t (set_heap (<[l:=with_rc k o]> (s_heap s)) s)) as Hs1.
  { apply (plain_wr_same u t s l o _ Hs Hl); [exact Hd|reflexivity..]. }
  destruct (Nat.eqb_spec k 0) as [->|Hk]; [|exact Hs1].
  destruct (o_destroyed o) eqn:Hx; [apply (ends_decrement l u t _ Hs1)|].
  assert (1 ≤ u) as Hu.
  { destruct Hs as (_ & Hsu & _). rewrite (msum_delete undestroyed _ _ _ Hl) in Hsu.
    unfold undestroyed in Hsu at 1. rewrite Hx in Hsu. lia. }
  destruct u as [|u]; [lia|]. clear Hu.
  change (di_destroy_object (K := kern n) l) with (_ ← di_ref_object l; destroy_rest (K := kern n) l).
  unfold di_ref_object, rd, wr, modify, mbind, ST_bind. simpl. rewrite lookup_insert_eq. simpl.
  unfold set_heap. simpl. rewrite insert_insert_eq.
  pose proof (ends_destroy_rest (K := kern n) u t) as Hr.
  specialize (Hr ltac:(intros t' l' Ht'; apply IH; lia) l (with_rc 1 (with_rc 0 o))).
  match goal with |- context [destroy_rest l ?s2] => specialize (Hr ltac:(destruct n; simpl; lia) Hx s2) end.
  destruct (destroy_rest l _) as [a s'|c|]; [|exact I|apply Hr].
  - apply (plain_weaken u t); [lia..|]. apply Hr. split.
    + apply (plain_wr_same (S u) t s l o _ Hs Hl); [exact Hd|reflexivity..].
    + apply lookup_insert_eq.
  - split.
    + apply (plain_wr_same (S u) t s l o _ Hs Hl); [exact Hd|reflexivity..].
    + apply lookup_insert_eq.
Qed.

End knot.

(** A chain of three objects, of which the client holds the first. *)
Definition chain3 : list op :=
  [OpNew 128 8; OpNew 128 8; OpNew 128 8; OpAddMove 2 (Some "next"%string) (VObject 3);
   OpAddMove 1 (Some "next"%string) (VObject 2)].

