(* ===== verification/Main.v ===== *)
(** * The whole program (main.c)

    [main] from the first object to the return: it builds the core object and
    the roots, registers the builtin modules, parses the command line, loads the
    plugins, calls the function it was asked for and runs the loop.  Plugins, the
    loop and the functions behind methods are foreign code.  This is the build
    without [TRACK_OBJECTS], in which the leak detection does nothing. *)

From S2P Require Import Prelude Text DiTypes Strings Cmdline Heap Account Object ObjectSpec Callable Roots Helper.
From S2P Require Import Knot Deai Event Modules.

Definition FN_ADD_ROOT : nat := 40.
Definition FN_REMOVE_ROOT : nat := 41.
Definition FN_CLEAR_ROOTS : nat := 42.
Definition FN_ADD_ANONYMOUS : nat := 43.
Definition FN_REMOVE_ANONYMOUS : nat := 44.
Definition FN_LOAD_PLUGIN_DIR : nat := 45.
Definition FN_LOAD_PLUGIN : nat := 46.
Definition FN_REGISTER_MODULE : nat := 47.
Definition FN_CHDIR : nat := 48.
Definition FN_EXEC : nat := 49.
Definition FN_QUIT : nat := 50.
Definition FN_EXIT : nat := 51.
Definition FN_TERMINATE : nat := 52.
Definition FN_SET_PROCTITLE : nat := 53.
Definition FN_DUMP_OBJECTS : nat := 54.
Definition FN_GET_ROOTS : nat := 55.
Definition FN_GET_ARGV : nat := 56.
Definition DTOR_CORE : dtor_kind := DtorExt 3.

(** How the process ends: by [exit], or by returning from [main]. *)
Inductive ended : Type :=
  | Exit (code : Z)
  | Return (code : Z).

(** The variables [exit_code] and [quit] of [main], which other functions write
    through pointers: the last write in the trace. *)
Fixpoint last_exit_code (tr : list (string * list value)) : Z :=
  match tr with
  | [] => 0
  | (what, args) :: tr' =>
      match args with
      | [VNInt c] => if String.eqb what "exit_code" then c else last_exit_code tr'
      | _ => last_exit_code tr'
      end
  end.

Definition get_exit_code : M Z := λ s, Done (last_exit_code (s_trace s)) s.
Definition get_quit : M bool := λ s, Done (existsb (λ e, String.eqb e.1 "quit") (s_trace s)) s.
Definition set_exit_code (c : Z) : M unit := emit_event "exit_code" [VNInt c].
Definition set_quit : M unit := emit_event "quit" [].

(** [di_dtor]: the destructor of the core object. *)
Definition di_dtor : M unit :=
  set_quit;;
  emit_event "revert_proctitle" [];;
  emit_event "kill_all_descendants" [];;
  emit_event "ev_break" [].

Section main.
Context {K : Kernel} {W : World}.

(** [DI_CHECK_OK (di_method (...))] *)
Definition method_ok (o : loc) (name : string) (fn : nat) (rtype : di_type) (ats : list di_type) : M unit :=
  rc ← di_add_method o (Some name) fn rtype ats; check (Z.eqb rc 0).

(** [roots->next_anonymous_root_id = 1] *)
Definition set_next_id (roots : loc) : M unit :=
  o ← rd roots;
  match o_ext o with
  | ERoots _ anon => wr roots (with_ext (ERoots 1 anon) o)
  | _ => fail TypeConfusion
  end.

(** The part of [main] that creates the roots. *)
Definition new_roots : M loc :=
  roots ← di_new_object_with_type (ERoots 0 []);
  _ ← di_set_type roots "deai:Roots";
  method_ok roots "add" FN_ADD_ROOT DI_TYPE_BOOL [DI_TYPE_STRING; DI_TYPE_OBJECT];;
  method_ok roots "remove" FN_REMOVE_ROOT DI_TYPE_BOOL [DI_TYPE_STRING];;
  method_ok roots "clear" FN_CLEAR_ROOTS DI_TYPE_NIL [];;
  method_ok roots "__add_anonymous" FN_ADD_ANONYMOUS DI_TYPE_UINT [DI_TYPE_OBJECT];;
  method_ok roots "__remove_anonymous" FN_REMOVE_ANONYMOUS DI_TYPE_NIL [DI_TYPE_UINT];;
  di_set_object_dtor roots (Some DtorRoots);;
  set_next_id roots;;
  mret roots.

(** The part of [main] that adds the methods of the core object. *)
Definition core_methods (p : loc) : M unit :=
  method_ok p "load_plugin_from_dir" FN_LOAD_PLUGIN_DIR DI_TYPE_NINT [DI_TYPE_STRING];;
  method_ok p "load_plugin" FN_LOAD_PLUGIN DI_TYPE_NIL [DI_TYPE_STRING];;
  method_ok p "register_module" FN_REGISTER_MODULE DI_TYPE_NINT [DI_TYPE_STRING; DI_TYPE_OBJECT];;
  method_ok p "chdir" FN_CHDIR DI_TYPE_NINT [DI_TYPE_STRING];;
  method_ok p "exec" FN_EXEC DI_TYPE_NINT [DI_TYPE_ARRAY];;
  method_ok p "quit" FN_QUIT DI_TYPE_NIL [];;
  method_ok p "exit" FN_EXIT DI_TYPE_NIL [DI_TYPE_NINT];;
  method_ok p "terminate" FN_TERMINATE DI_TYPE_NIL [];;
  method_ok p "__set_proctitle" FN_SET_PROCTITLE DI_TYPE_NIL [DI_TYPE_STRING];;
  c ← di_create_closure FN_DUMP_OBJECTS DI_TYPE_NIL [] [];
  closure ← match c with inr cl => mret cl | inl _ => fail TypeConfusion end;
  _ ← di_member p "dump_objects" (VObject closure);
  method_ok p "__get_roots" FN_GET_ROOTS DI_TYPE_OBJECT [];;
  method_ok p "__get_argv" FN_GET_ARGV DI_TYPE_ARRAY [];;
  proctitle_getter ← di_new_field_getter DI_TYPE_STRING_LITERAL "proctitle";
  _ ← di_member p "__get_proctitle" (VObject proctitle_getter);
  mret tt.

(** What [main] does with the outcome of the call, up to freeing the result.  A
    call that fails leaves the result unwritten. *)
Definition after_call (ret : Z + value) : M unit :=
  match ret with
  | inl _ => set_exit_code 1;; set_quit;; fail Uninit
  | inr retd =>
      exit_code ← get_exit_code;
      (if negb (Z.eqb exit_code 0) || bool_decide (type_of retd = DI_TYPE_OBJECT) then
         match retd with
         | VObject o =>
             errmsg ← di_getxt o (Some "errmsg"%string) DI_TYPE_STRING;
             match errmsg with
             | inl _ => mret tt
             | inr e =>
                 emit_event "stderr: the function returned an error" [];;
                 di_free_value e;; set_exit_code 1;; set_quit
             end
         | VNil => fail Uninit
         | _ => fail TypeConfusion
         end
       else mret tt);;
      di_free_value retd
  end.

(** What is outside: [atof]; the plugin directory and its entries; the answer of
    [prctl]; for the path of a plugin, what [dlopen] and [dlsym] give; and
    [ev_run]. *)
Context (atof : string → double) (plugin_dir : string) (dir : option (list dirent)) (subreaper : Z)
  (plugin : string → option (option (loc → M unit))) (ev_run : M unit).

(** [load_plugin_impl] *)
Definition load_plugin_impl (p : loc) (sopath : string) : M unit :=
  match plugin sopath with
  | None => emit_event "stderr: failed to load" []
  | Some None => emit_event "stderr: no di_plugin_init" []
  | Some (Some init_fn) => init_fn p
  end.

(** The main loop; the pointer to it is in the core object, and indeterminate
    if that has been freed. *)
Definition run_loop (p : loc) : M unit := λ s,
  match s_heap s !! p with
  | Some _ => ev_run s
  | None => Crash Uninit
  end.

(** The end of [main], from the call on. *)
Definition call_and_run (p roots mods : loc) (method : string) (di_args : list value) : M ended :=
  r ← di_rawcallxn mods (Some method) di_args;
  after_call r.2;;
  for_each di_free_value di_args;;
  unref_object mods;;
  unref_object p;;
  quit ← get_quit;
  (if (quit : bool) then mret tt else run_loop p);;
  unref_object roots;;
  exit_code ← get_exit_code;
  mret (Return exit_code).

(** [main], from the command line on. *)
Definition parse_and_run (p roots : loc) (target : string) (args : list string) : M ended :=
  core_methods p;;
  emit_event "ev_signal_start" [];;
  let (modname, method) := parse_target target in
  parsed_args ← parse_args atof args;
  match parsed_args with
  | Rejected m => emit_event ("stderr: " +:+ m) [];; mret (Exit 1)
  | Parsed di_args =>
      emit_event "setproctitle_init" [];;
      _ ← load_plugin_from_dir_impl (load_plugin_impl p) plugin_dir dir;
      match modname with
      | Some m =>
          g ← di_getxt p (Some m) DI_TYPE_OBJECT;
          match g with
          | inl _ => emit_event "stderr: module not found" [];; mret (Exit 1)
          | inr (VObject mods) => call_and_run p roots mods method di_args
          | inr _ => fail TypeConfusion
          end
      | None => mods ← di_ref_object p; call_and_run p roots mods method di_args
      end
  end.

Definition main (argv : list string) : M ended :=
  p ← di_new_object_with_type ENone;
  _ ← di_set_type p "deai:Core";
  roots ← new_roots;
  di_set_object_dtor p (Some DTOR_CORE);;
  di_init_event p;;
  di_init_log p;;
  di_init_os p;;
  di_init_spawn subreaper p;;
  match argv with
  | _ :: target :: args => parse_and_run p roots target args
  | _ => emit_event "stdout: usage" [];; mret (Exit 1)
  end.
End main.

(** ** Memory safety of the whole program *)

Section specs.
Context {K : Kernel} {KO : KernelOk K} {W : World} {WO : WorldOk W}.

Lemma get_exit_code_ok P : spec P get_exit_code (λ _, P).
Proof. intros s HP. exact HP. Qed.
Lemma get_quit_ok P : spec P get_quit (λ _, P).
Proof. intros s HP. exact HP. Qed.

Lemma method_step E o name fn rt ats {A} (k : M A) Q :
  Strong o ∈ E → spec (Inv E) k Q → spec (Inv E) (method_ok o name fn rt ats;; k) Q.
Proof.
  intros HE Hk. eapply triple_bind with (R := λ _, Inv E); [|intros ?; exact Hk].
  unfold method_ok. step (add_method_ok E o (Some name) fn rt ats HE). intros ?. apply check_skip.
Qed.

Lemma set_next_id_ok E roots : Strong roots ∈ E → spec (Inv E) (set_next_id roots) (λ _, Inv E).
Proof.
  intros HE. unfold set_next_id. step (rd_ok E roots HE). intros o.
  destruct (o_ext o) as [| | |next anon| |] eqn:He; try crash.
  apply wr_refs_ok; [reflexivity..|]. intros r. unfold obj_refs. simpl. rewrite He. reflexivity.
Qed.

Lemma new_roots_ok E : spec (Inv E) new_roots (λ l, Inv (Strong l :: E)).
Proof.
  unfold new_roots. step (new_object_with_type_ok E (ERoots 0 [])). intros l.
  apply set_type_step; [left|]. do 5 (apply method_step; [left|]). apply set_dtor_step; [left|].
  step (set_next_id_ok (Strong l :: E) l); [left|]. intros ?. ret.
Qed.

Lemma new_field_getter_ok E t offset : spec (Inv E) (di_new_field_getter t offset) (λ l, Inv (Strong l :: E)).
Proof.
  unfold di_new_field_getter. step (new_object_with_type_ok E ENone). intros l.
  step (set_ext_ok (Strong l :: E) l (EFields (FFieldGetter t offset))); [left|]. intros ?. apply set_call_step; [left|]. apply set_type_step; [left|]. ret.
Qed.

Lemma core_methods_ok E p : Strong p ∈ E → spec (Inv E) (core_methods p) (λ _, Inv E).
Proof.
  intros HE. unfold core_methods. do 9 (apply method_step; [exact HE|]).
  step (create_closure_ok E FN_DUMP_OBJECTS DI_TYPE_NIL [] []); [intros r Hr; inversion Hr|].
  intros c. eapply triple_bind with (R := λ cl, Inv (Strong cl :: E)); [destruct c; [crash|ret]|].
  intros cl. apply move_object_step; [exact HE|]. do 2 (apply method_step; [exact HE|]).
  step (new_field_getter_ok E DI_TYPE_STRING_LITERAL "proctitle"). intros g. apply move_object_step; [exact HE|]. ret.
Qed.

Lemma after_call_ok E ret : spec (Inv (rc_refs ret ++ E)) (after_call ret) (λ _, Inv E).
Proof.
  unfold after_call. destruct ret as [rc|v]; cbn [rc_refs app].
  { do 2 apply emit_event_step. crash. }
  step (get_exit_code_ok (Inv (refs v ++ E))). intros ec.
  eapply triple_bind with (R := λ _, Inv (refs v ++ E)); [|intros ?; apply free_value_ok].
  destruct (_ || _); [|ret]. destruct v; try crash.
  step (getxt_ok l (Some "errmsg"%string) DI_TYPE_STRING (refs (VObject l) ++ E)); [left|].
  intros [?|e]; [ret|]. apply emit_event_step.
  step (free_value_ok e (refs (VObject l) ++ E)). intros ?. do 2 apply emit_event_step. ret.
Qed.

(** The values of the command line hold no references. *)
Lemma parse_args_ok P atof args :
  spec P (parse_args atof args) (λ r s, P s ∧ match r with Parsed vs => refs_of_list vs = [] | Rejected _ => True end).
Proof.
  induction args as [|arg args IH]; cbn [parse_args]; [apply triple_ret; auto|].
  destruct (String.eqb arg "--"); [apply triple_ret; auto|].
  eapply triple_bind with (R := λ r s, P s ∧ match r with Parsed v => refs v = [] | Rejected _ => True end).
  - unfold parse_arg. destruct arg as [|t rest]; [crash|].
    repeat match goal with
      | |- triple _ _ (mret _) _ => apply triple_ret; auto
      | |- triple _ _ (match ?x with _ => _ end) _ => destruct x
      end.
    unfold atoll, ato. eapply triple_bind with (R := λ _, P); [|intros ?; apply triple_ret; auto].
    destruct (_ && _); [ret|crash].
  - intros [v|m]; [|apply triple_ret; tauto].
    apply spec_pre with (P' := λ s, refs v = [] ∧ P s); [tauto|]. apply triple_pure. intros Hv.
    step IH. intros [vs|m]; apply triple_ret; [|tauto]. intros s [HP Hvs]. split; [exact HP|].
    rewrite refs_of_list_cons, Hv, Hvs. reflexivity.
Qed.

Lemma scan_dir_ok E load rpath dents :
  (∀ path, spec (Inv E) (load path) (λ _, Inv E)) → spec (Inv E) (scan_dir load rpath dents) (λ _, Inv E).
Proof.
  intros Hl. induction dents as [|d dents IH]; cbn [scan_dir]; [ret|]. destruct (is_reg d); [|ret].
  eapply triple_bind with (R := λ _, Inv E); [|intros ?; exact IH]. destruct (_ && _); [apply Hl|ret].
Qed.

Lemma free_values_ok E vs : spec (Inv (refs_of_list vs ++ E)) (for_each di_free_value vs) (λ _, Inv E).
Proof.
  apply (triple_for_each tolerated di_free_value (λ vs, Inv (refs_of_list vs ++ E))). intros v vs'.
  rewrite refs_of_list_cons, <- app_assoc. apply free_value_ok.
Qed.

(** Foreign code of this file: plugins and the loop may do anything that
    accounts for the references it uses. *)
Context (atof : string → double) (plugin_dir : string) (dir : option (list dirent)) (subreaper : Z)
  (plugin : string → option (option (loc → M unit))) (ev_run : M unit)
  (Hplugin : ∀ path f E p, plugin path = Some (Some f) → Strong p ∈ E → spec (Inv E) (f p) (λ _, Inv E))
  (Hrun : ∀ E, spec (Inv E) ev_run (λ _, Inv E)).

Lemma run_loop_ok E p : spec (Inv E) (run_loop ev_run p) (λ _, Inv E).
Proof.
  intros s HI. unfold run_loop. destruct (s_heap s !! p); [|tolerate]. exact (Hrun E s HI).
Qed.

Lemma load_plugin_ok E p path : Strong p ∈ E → spec (Inv E) (load_plugin_impl plugin p path) (λ _, Inv E).
Proof.
  intros HE. unfold load_plugin_impl. destruct (plugin path) as [[f|]|] eqn:Hf.
  - exact (Hplugin _ _ _ _ Hf HE).
  - apply emit_event_ok.
  - apply emit_event_ok.
Qed.

Lemma call_and_run_ok p roots mods method di_args :
  refs_of_list di_args = [] →
  spec (Inv [Strong mods; Strong p; Strong roots]) (call_and_run ev_run p roots mods method di_args) (λ _, Inv []).
Proof.
  intros Ha. unfold call_and_run.
  step (rawcallxn_ok mods (Some method) di_args [Strong mods; Strong p; Strong roots]); [left| |].
  { rewrite Ha. intros r Hr. inversion Hr. }
  intros [c r]. eapply spec_pre; [intros s [HI _]; exact HI|]. cbn [snd].
  step (after_call_ok [Strong mods; Strong p; Strong roots] r). intros ?.
  eapply triple_bind.
  { pose proof (free_values_ok [Strong mods; Strong p; Strong roots] di_args) as H. rewrite Ha in H. exact H. }
  intros ?. step (unref_ok mods [Strong p; Strong roots]). intros ?. step (unref_ok p [Strong roots]). intros ?.
  step (get_quit_ok (Inv [Strong roots])). intros quit.
  eapply triple_bind with (R := λ _, Inv [Strong roots]); [destruct quit; [ret|apply run_loop_ok]|].
  intros ?. step (unref_ok roots []). intros ?. step (get_exit_code_ok (Inv [])). intros ?. ret.
Qed.

Definition ended_ok (e : ended) (s : state) : Prop := match e with Return _ => Inv [] s | Exit _ => True end.

Lemma parse_and_run_ok p roots target args :
  spec (Inv [Strong roots; Strong p]) (parse_and_run atof plugin_dir dir plugin ev_run p roots target args) ended_ok.
Proof.
  unfold parse_and_run. step (core_methods_ok [Strong roots; Strong p] p); [set_solver|]. intros ?.
  apply emit_event_step. destruct (parse_target target) as [modname method].
  step (parse_args_ok (Inv [Strong roots; Strong p]) atof args). intros [di_args|m].
  2:{ eapply spec_pre; [intros s [HI _]; exact HI|]. apply emit_event_step. apply triple_ret. simpl. auto. }
  apply spec_pre with (P' := λ s, refs_of_list di_args = [] ∧ Inv [Strong roots; Strong p] s); [tauto|].
  apply triple_pure. intros Ha. apply emit_event_step.
  eapply triple_bind with (R := λ _, Inv [Strong roots; Strong p]).
  { unfold load_plugin_from_dir_impl. destruct dir; [|ret]. apply scan_dir_ok. intros path.
    apply load_plugin_ok. set_solver. }
  intros ?. assert (∀ mods, spec (Inv [Strong mods; Strong roots; Strong p])
    (call_and_run ev_run p roots mods method di_args) ended_ok) as Hcall.
  { intros mods. eapply spec_perm; [|eapply spec_post; [apply (call_and_run_ok p roots mods method di_args Ha)|]].
    - by_count.
    - intros [c|c] s HI; [exact I|exact HI]. }
  destruct modname as [m|].
  - step (getxt_ok p (Some m) DI_TYPE_OBJECT [Strong roots; Strong p]); [set_solver|]. intros [?|v].
    + apply emit_event_step. apply triple_ret. simpl. auto.
    + destruct v; try crash. apply Hcall.
  - step (ref_object_ok [Strong roots; Strong p] p); [set_solver|]. intros mods.
    apply triple_pure. intros ->. apply Hcall.
Qed.
Lemma main_ok argv : spec (Inv []) (main atof plugin_dir dir subreaper plugin ev_run argv) ended_ok.
Proof.
  unfold main. step (new_object_with_type_ok [] ENone). intros p. apply set_type_step; [left|].
  step (new_roots_ok [Strong p]). intros roots. set (E := [Strong roots; Strong p]).
  assert (Strong p ∈ E) as HE by set_solver. apply set_dtor_step; [exact HE|].
  step (init_event_ok E p HE). intros ?. step (init_log_ok E p HE). intros ?.
  step (init_os_ok E p HE). intros ?. step (init_spawn_ok E subreaper p HE). intros ?.
  destruct argv as [|? [|target args]]; [..|apply parse_and_run_ok];
    apply emit_event_step; apply triple_ret; simpl; auto.
Qed.
End specs.


(** ** The functions of this file, called through closures *)

(** The methods of the roots and the core object; [di_prepare_quit],
    [di_prepare_exit] and [di_roots_getter] use the variable [roots]. *)
Definition core_fn (K : Kernel) (W : World) (n : nat) (args : list value) : option (M (loc + value)) :=
  match args with
  | [VObject o] => if Nat.eqb n FN_CLEAR_ROOTS then Some (nil_result (di_clear_roots o)) else None
  | [VObject o; VObject x] =>
      if Nat.eqb n FN_ADD_ANONYMOUS then Some (id ← di_add_anonymous_root o x; mret (inr (VUInt id))) else None
  | [VObject o; VUInt id] =>
      if Nat.eqb n FN_REMOVE_ANONYMOUS then Some (nil_result (di_remove_anonymous_root o id)) else None
  | [VObject o; VString key] =>
      if Nat.eqb n FN_REMOVE_ROOT then Some (b ← di_remove_root o key; mret (inr (VBool b))) else None
  | [VObject o; VString key; VObject x] =>
      if Nat.eqb n FN_ADD_ROOT then Some (b ← di_add_root o key x; mret (inr (VBool b)))
      else if Nat.eqb n FN_REGISTER_MODULE then Some (rc ← di_register_module_method o key x; mret (inr (VNInt rc)))
      else None
  | _ => None
  end.

Definition core_world (rest : World) : World := {|
  w_fn K n caps args := match core_fn K rest n args with Some m => m | None => w_fn (World := rest) K n caps args end;
  w_call := w_call (World := rest);
  w_dtor K n l := if bool_decide (DtorExt n = DTOR_CORE) then di_dtor else w_dtor (World := rest) K n l;
  ffi_prep_ok := ffi_prep_ok (World := rest)
|}.

Definition roots_fn (K : Kernel) (roots : loc) (n : nat) (args : list value) : option (M (loc + value)) :=
  match args with
  | [VObject _] =>
      if Nat.eqb n FN_QUIT then Some (nil_result (di_prepare_quit roots))
      else if Nat.eqb n FN_GET_ROOTS then Some (object_result (di_roots_getter roots))
      else None
  | [VObject _; VNInt ec] =>
      if Nat.eqb n FN_EXIT then Some (nil_result (di_prepare_exit roots ec)) else None
  | _ => None
  end.

Definition roots_world (roots : loc) (rest : World) : World := {|
  w_fn K n caps args := match roots_fn K roots n args with Some m => m | None => w_fn (World := rest) K n caps args end;
  w_call := w_call (World := rest);
  w_dtor := w_dtor (World := rest);
  ffi_prep_ok := ffi_prep_ok (World := rest)
|}.

Lemma core_fn_ok {K : Kernel} {KO : KernelOk K} (W : World) n args m E :
  core_fn K W n args = Some m → (∀ r, r ∈ refs_of_list args → r ∈ E) → spec (Inv E) m (λ r, Inv (fn_refs r ++ E)).
Proof.
  intros Hm Ha.
  assert (∀ l, VObject l ∈ args → Strong l ∈ E) as HE.
  { intros l Hl. apply Ha. clear -Hl. induction args as [|v args IH]; [inversion Hl|]. rewrite refs_of_list_cons, elem_of_app.
    apply elem_of_cons in Hl as [<-|Hl]; [left; left|right; exact (IH Hl)]. }
  clear Ha. unfold core_fn in Hm.
  repeat match type of Hm with
    | match ?x with _ => _ end = Some _ => destruct x; try discriminate
    end; injection Hm as <-.
  - apply nil_result_ok, clear_roots_ok, HE. left.
  - apply nil_result_ok, remove_anonymous_root_ok, HE. left.
  - step (add_anonymous_root_ok E l l0); [apply HE; left|apply HE; right; left|]. intros ?. ret.
  - step (remove_root_ok E l s); [apply HE; left|]. intros ?. ret.
  - step (add_root_ok E l s l0); [apply HE; left|apply HE; right; right; left|]. intros ?. ret.
  - assert (spec (Inv E) (di_register_module_method l s l0) (λ _, Inv E)) as H.
    { apply add_member_clonev_ok; [apply HE; left|]. intros r Hr. apply list_elem_of_singleton in Hr as ->.
      apply HE. right. right. left. }
    step H. intros ?. ret.
Qed.

#[export] Instance core_world_ok (rest : World) : WorldOk rest → WorldOk (core_world rest).
Proof.
  intros HW. constructor.
  - intros K n caps args E HK Ha. cbn [w_fn core_world].
    destruct (core_fn K rest n args) as [m|] eqn:Hm; [|apply (w_fn_ok (WorldOk := HW)); assumption].
    eapply spec_pre; [intros s [HI _]; exact HI|]. exact (core_fn_ok rest n args m E Hm Ha).
  - intros K n l args E HK. apply (w_call_ok (WorldOk := HW)), HK.
  - intros K n l E HK HE. cbn [w_dtor core_world]. case_bool_decide; [|apply (w_dtor_ok (WorldOk := HW)); assumption].
    unfold di_dtor. do 3 apply emit_event_step. apply emit_event_ok.
Qed.

(** Field getters: the call function of callable.c, for objects with the fields [F]. *)
Lemma field_getter_call_ok {K : Kernel} {KO : KernelOk K} {F : ObjectFields} getter args E :
  Strong getter ∈ E → (∀ r, r ∈ refs_of_list args → r ∈ E) →
  spec (Inv E) (di_field_getter_call getter args) (λ r, Inv (rc_refs r ++ E)).
Proof.
  intros HE Ha. unfold di_field_getter_call. step (check_type_ok getter "deai:FieldGetter" E HE). intros ok. skip.
  destruct args as [|v args]; [crash|]. destruct v as [| | | | | | | |object| | | | | | |]; try crash.
  step (rd_ok E getter HE). intros g. eapply spec_pre; [intros s [HI _]; exact HI|].
  destruct (o_ext g) as [| | | |[| | | | | | | |type offset]|]; try crash.
  step (rd_ok E object); [apply Ha; rewrite refs_of_list_cons; left|]. intros x. eapply spec_pre; [intros s [HI _]; exact HI|].
  intros s HI. cbn [rc_refs]. rewrite field_at_plain. exact HI.
Qed.

Definition field_world (F : ObjectFields) (rest : World) : World := {|
  w_fn := w_fn (World := rest);
  w_call K n l args := if Nat.eqb n 1 then di_field_getter_call l args else w_call (World := rest) K n l args;
  w_dtor := w_dtor (World := rest);
  ffi_prep_ok := ffi_prep_ok (World := rest)
|}.

#[export] Instance field_world_ok F (rest : World) : WorldOk rest → WorldOk (field_world F rest).
Proof.
  intros HW. constructor.
  - intros K n caps args E HK. apply (w_fn_ok (WorldOk := HW)), HK.
  - intros K n l args E HK HE Ha. cbn [w_call field_world]. destruct (Nat.eqb n 1).
    + apply field_getter_call_ok; assumption.
    + apply (w_call_ok (WorldOk := HW)); assumption.
  - intros K n l E HK. apply (w_dtor_ok (WorldOk := HW)), HK.
Qed.

(** ** Programs

    The object system, the event module and the functions of this file, without
    plugins and with a loop in which nothing happens. *)

Definition no_atof (s : string) : double := SpecFloat.S754_zero false.
Definition no_plugin (path : string) : option (option (loc → M unit)) := None.
Definition demo_core : World := core_world demo_world.

Definition run_main (W : World) (argv : list string) : outcome state ended :=
  main (K := kern (W := W) 40) no_atof "/usr/lib/deai" None 0 no_plugin (mret tt) argv empty_state.


(** ** Failed calls and exit codes *)

(** A program whose call fails, or sets an exit code other than 0 without
    returning an object, does not end with an exit code: the result, which was
    not written or is not an object, is used as an object to look for an error
    message. *)
Theorem failed_call_crashes {K : Kernel} (ev_run : M unit) (p roots mods : loc) (method : string) (args : list value)
    (called : bool) (ret : Z + value) (s s1 : state) :
  di_rawcallxn mods (Some method) args s = Done (called, ret) s1 →
  match ret with
  | inl _ => True
  | inr v => last_exit_code (s_trace s1) ≠ 0%Z ∧ type_of v ≠ DI_TYPE_OBJECT
  end →
  ∃ c, call_and_run ev_run p roots mods method args s = Crash c ∧ (c = Uninit ∨ c = TypeConfusion).
Proof.
  intros Hcall Hret. unfold call_and_run, mbind, ST_bind. rewrite Hcall. cbn [snd].
  destruct ret as [rc|v]; cbn [after_call]; [exists Uninit; auto|].
  destruct Hret as [Hec Hv]. unfold get_exit_code, mbind, ST_bind.
  rewrite (proj2 (Z.eqb_neq _ _) Hec). cbn [negb orb].
  destruct v; try (exists TypeConfusion; auto; fail); [exists Uninit; auto|contradiction].
Qed.

(** The state of a program before its call: the core object, the roots and a
    reference to the core object. *)
Definition before_call : M (loc * loc) :=
  let W := roots_world 3 demo_core in
  let K := kern (W := W) 40 in
  p ← di_new_object_with_type ENone;
  _ ← di_set_type p "deai:Core";
  roots ← new_roots;
  di_set_object_dtor p (Some DTOR_CORE);;
  core_methods p;;
  _ ← di_ref_object p;
  mret (p, roots).

(** [deai exit i:3] *)
Lemma failed_call_crashes_witness :
  match before_call empty_state with
  | Done (p, roots) s =>
      ∃ c, call_and_run (K := kern (W := roots_world roots demo_core) 40) (mret tt) p roots p "exit" [VInt 3] s = Crash c
  | _ => False
  end.
Proof.
  destruct (before_call empty_state) as [[p roots] s| |] eqn:E; [|vm_compute in E; discriminate..].
  vm_compute in E. injection E as <- <- <-.
  match goal with |- context [call_and_run (K := ?K) _ ?p ?r _ _ _ ?s] =>
    destruct (di_rawcallxn (K := K) p (Some "exit"%string) [VInt 3] s) as [[c ret] s1| |] eqn:Hcall end;
    [|vm_compute in Hcall; discriminate..].
  edestruct (failed_call_crashes (K := kern (W := roots_world 3 demo_core) 40)) as (cr & H & _); [exact Hcall| |].
  - vm_compute in Hcall. injection Hcall as <- <- <-. split; [vm_compute|]; discriminate.
  - exists cr. exact H.
Defined.

(** A title that is read as the property [title] of an object. *)
#[local] Instance title_fields : ObjectFields :=
  {| field_at o offset t s := VStringLiteral (if String.eqb offset "proctitle" then "deai" else ""); field_at_plain _ _ _ _ := eq_refl |}.

Lemma title_is_read :
  let W := field_world title_fields demo_core in
  let K := kern (W := W) 10 in
  match (o ← di_new_object_with_type ENone;
         g ← di_new_field_getter DI_TYPE_STRING_LITERAL "proctitle";
         _ ← di_member o "__get_title" (VObject g);
         di_getx o (Some "title"%string)) empty_state with
  | Done r _ => r = inr (VStringLiteral "deai")
  | _ => False
  end.
Proof. vm_compute. reflexivity. Qed.
