(* ===== verification/DbusProgram.v ===== *)
(** * Programs with the D-Bus plugin

    The contract of the plugin, a session on a bus from the first object to the
    last, and what happens when the bus is gone. *)

From S2P Require Import Prelude Text DiTypes Strings Cmdline Heap Account Object ObjectSpec Signals Callable Roots Helper.
From S2P Require Import Knot Deai Event Modules Sedes Deser DbusNames DbusSafe DbusConn Main.

Local Open Scope Z_scope.


(** ** A session

    A bus that answers every call at once, with its unique name. *)
Definition demo_bus : DbusLib := {|
  bus_get_private _ := inl 100;
  send_with_reply tr := Some (Z.of_nat (length tr));
  steal_reply z := z + 1000;
  message_at _ := DbusMsg METHOD_RETURN None "" "" "" [DBasic 115 (BString ":1.7")];
  print_pointer := print_Z;
  watch_handle _ _ _ := mret tt;
  dispatch _ _ := mret false;
  set_watch_functions K add remove := _ ← add (Watch 1 1 7 true); mret tt
|}.

Lemma demo_bus_ok : DbusLibOk demo_bus.
Proof.
  constructor; intros; cbn.
  - apply triple_ret. auto.
  - apply triple_ret. auto.
  - eapply triple_bind; [apply H0|]. intros ?. apply triple_ret. auto.
Qed.

(** The libdbus side: the reply to the pending call that is the member [name]. *)
Definition reply_to {L : DbusLib} {K : Kernel} (o : loc) (name : string) : M unit :=
  p ← get_checked o name;
  f ← get_fields p;
  match f with FPending z => dbus_pending_call_notify_fn z p | _ => fail TypeConfusion end;;
  unref_object p.

Definition as_object (r : Z + value) : M loc :=
  match r with inr (VObject l) => mret l | _ => fail TypeConfusion end.

(** The object of the roots in [session]. *)
Definition session_roots : loc := 2%nat.

(** A call of [org.foo.Bar.Ping] on an object of the bus, whose owner is asked
    for; then everything is dropped, and the loop runs once more. *)
Definition session : M (list (string * string)) :=
  let W := dbus_roots_world dbus_spec spec_types demo_bus session_roots (core_world demo_world) in
  let K := kern (W := W) 40 in
  let V := demo_lib in let L := demo_bus in
  di ← di_new_object_with_type ENone;
  roots ← new_roots;
  check (Nat.eqb roots session_roots);;
  di_init_event di;;
  di_plugin_init di;;
  em ← get_checked di "event";
  dbus ← get_checked di "dbus";
  bus ← get_checked dbus "session_bus";
  unref_object dbus;;
  o ← di_callr bus "get" DI_TYPE_OBJECT [VString (Some "org.foo"%string); VString (Some "/org/foo"%string)];
  obj ← as_object o;
  reply_to bus (change_request "org.foo");;
  c ← get_fields bus;
  p ← di_callr obj "org.foo.Bar.Ping" DI_TYPE_OBJECT [VInt 3];
  pending ← as_object p;
  reply_to pending "___original_object";;
  for_each unref_object [pending; obj; bus];;
  emit_event "main loop" [];;
  di_prepare em;;
  for_each unref_object [em; roots; di];;
  match c with FConnection _ names => mret names | _ => fail TypeConfusion end.


(** ** A bus that is gone

    [m] does not return from any state of [P]. *)
Definition never {A} (P : state → Prop) (m : M A) : Prop := triple (λ _, True) P m (λ _ _, False).

Lemma any_ok {A} P (m : M A) : triple (λ _, True) P m (λ _ _, True).
Proof. intros s _. destruct (m s); auto. Qed.

Lemma never_bind {A B} P (m : M A) (f : A → M B) : (∀ a, never (λ _, True) (f a)) → never P (a ← m; f a).
Proof. intros H. eapply triple_bind; [apply any_ok|exact H]. Qed.

Lemma never_spec {A} (m : M A) s a s' : never (λ _, True) m → m s ≠ Done a s'.
Proof. intros H E. specialize (H s I). rewrite E in H. exact H. Qed.

Lemma never_fail {A} P c : never P (fail c : M A).
Proof. apply triple_fail. exact I. Qed.

Lemma never_bind_fail {A B} P c (f : A → M B) : never P (a ← (fail c : M A); f a).
Proof. eapply triple_bind with (R := λ _ _, False); [apply never_fail|]. intros a s []. Qed.

Lemma send_none {K : Kernel} {L : DbusLib} c msg :
  (∀ tr, send_with_reply tr = None) → triple (λ _, True) (λ _, True) (di_dbus_send c msg) (λ r _, r = None).
Proof.
  intros Hnone. unfold di_dbus_send. do 4 (eapply triple_bind; [apply any_ok|]; intros ?).
  eapply triple_bind with (R := λ p _, p = None); [intros s _; apply Hnone|].
  intros [z|]; [intros s [=]|]. eapply triple_bind; [apply any_ok|]. intros ?. apply triple_ret. auto.
Qed.


Definition closed_bus : DbusLib := {|
  bus_get_private _ := inl 100;
  send_with_reply _ := None;
  steal_reply z := z;
  message_at _ := DbusMsg METHOD_ERROR None "" "" "" [];
  print_pointer := print_Z;
  watch_handle _ _ _ := mret tt;
  dispatch _ _ := mret false;
  set_watch_functions _ _ _ := mret tt
|}.


(** A whole program that finds the plugin in its directory. *)
Lemma program_with_dbus {D : Dbus} {T : DbusTypes} {L : DbusLib} {LO : DbusLibOk L} (rest : World) (HW : WorldOk rest)
    (n : nat) (atof : string → double) (plugin_dir so : string) (dir : option (list dirent)) (subreaper : Z)
    (argv : list string) :
  let W := dbus_world D T L (core_world rest) in
  let K := kern (W := W) n in
  match main (K := K) (W := W) atof plugin_dir dir subreaper
          (λ path, if String.eqb path so then Some (Some di_plugin_init) else None) (mret tt) argv empty_state with
  | Done (Return _) s => Inv [] s
  | Done (Exit _) _ | NoFuel => True
  | Crash c => c ≠ UseAfterFree ∧ c ≠ RefUnderflow
  end.
Proof.
  intros W K. assert (WorldOk W) as HWO by (apply dbus_world_contract, core_world_ok, HW).
  pose proof (main_ok (K := K) (W := W) atof plugin_dir dir subreaper
    (λ path, if String.eqb path so then Some (Some di_plugin_init) else None) (mret tt)) as H.
  assert (∀ path f E p, (if String.eqb path so then Some (Some di_plugin_init) else None) = Some (Some f) →
    Strong p ∈ E → spec (Inv E) (f p) (λ _, Inv E)) as Hplugin.
  { intros path f E p Hf HE. destruct (String.eqb path so); [|discriminate]. injection Hf as <-.
    apply plugin_init_ok, HE. }
  assert (∀ E, spec (Inv E) (mret tt) (λ _, Inv E)) as Hrun by (intros E; apply triple_ret; auto).
  specialize (H Hplugin Hrun argv empty_state Inv_empty).
  destruct (main _ _ _ _ _ _ _ _) as [[c|c] s| |]; auto.
Qed.
